(** * HLS fragment collector (fragmentcollector_hls.cpp): a shallow embedding

    The C++ [double] values of the collector (positions, durations, play
    targets) are embedded as exact rationals [Q]: every comparison and every
    sum of the source is kept, only rounding is left out.  The cadence of
    the playlist refresh, whose delays are [double] products cut to
    integers, is computed on binary64 floats instead ([Cadence]).  Machine
    integers are [Z]; narrowing conversions are written out ([to_int]), and
    the conversion of a rational to an integer type is truncation toward
    zero ([Qtrunc]), as in C++.  C strings are [string]s (the terminating
    NUL is the end of the string); a read beyond the terminator, a failed
    [assert] and a null dereference are the outcome [Undefined].  A
    playlist buffer is the text it was filled with together with the
    offsets at which a NUL has been stored over it since ([mystrpbrk],
    [GetAttributeValueString]). *)

From Stdlib Require Import ZArith QArith Qabs Qround Bool List Ascii String Lia Lqa.
From Stdlib Require Floats.
Import ListNotations.

Local Open Scope Z_scope.

(** ** Numbers *)

Definition Qltb (a b : Q) : bool := negb (Qle_bool b a).
Definition Qgtb (a b : Q) : bool := Qltb b a.
Definition Qleb (a b : Q) : bool := Qle_bool a b.
Definition Qgeb (a b : Q) : bool := Qle_bool b a.
Definition Qeqb (a b : Q) : bool := Qeq_bool a b.

Lemma Qltb_true (a b : Q) : Qltb a b = true <-> (a < b)%Q.
Proof.
  unfold Qltb. rewrite negb_true_iff. split; intro H.
  - apply Qnot_le_lt. intro L. apply Qle_bool_iff in L. congruence.
  - apply not_true_is_false. intro L. apply Qle_bool_iff in L.
    exact (Qlt_not_le _ _ H L).
Qed.

Lemma Qltb_false (a b : Q) : Qltb a b = false <-> (b <= a)%Q.
Proof.
  unfold Qltb. rewrite negb_false_iff. apply Qle_bool_iff.
Qed.

Lemma Qgtb_true (a b : Q) : Qgtb a b = true <-> (b < a)%Q.
Proof. apply Qltb_true. Qed.

Lemma Qgtb_false (a b : Q) : Qgtb a b = false <-> (a <= b)%Q.
Proof. apply Qltb_false. Qed.

(** Conversion of a [double] to [int], [long] or [long long]: the fractional
    part is discarded (the value is assumed to fit, as C++ requires). *)
Definition Qtrunc (q : Q) : Z := Z.quot (Qnum q) (Zpos (Qden q)).

(** Narrowing of a wider integer to a 32-bit [int]. *)
Definition to_int (z : Z) : Z := (z + 2 ^ 31) mod 2 ^ 32 - 2 ^ 31.

Lemma to_int_small (z : Z) : - 2 ^ 31 <= z < 2 ^ 31 -> to_int z = z.
Proof.
  intro H. unfold to_int. rewrite Z.mod_small; lia.
Qed.

Lemma Qtrunc_inject_Z (z : Z) : Qtrunc (inject_Z z) = z.
Proof. unfold Qtrunc; simpl. apply Z.quot_1_r. Qed.

(** ** Constants of the collector *)

Definition MAX_DELAY_BETWEEN_PLAYLIST_UPDATE_MS : Z := 6 * 1000.
Definition MIN_DELAY_BETWEEN_PLAYLIST_UPDATE_MS : Z := 500.
Definition MAX_MANIFEST_DOWNLOAD_RETRY : Z := 3.
Definition MAX_SEQ_NUMBER_LAG_COUNT : Z := 50.
Definition MAX_SEQ_NUMBER_DIFF_FOR_SEQ_NUM_BASED_SYNC : Z := 2.
Definition DISCONTINUITY_DISCARD_TOLERANCE_SECONDS : Q := 30.
Definition MAX_PLAYLIST_REFRESH_FOR_DISCONTINUITY_CHECK_EVENT : nat := 5.
Definition MAX_PLAYLIST_REFRESH_FOR_DISCONTINUITY_CHECK_LIVE : nat := 1.
(** [0.1f]: the single-precision number nearest to one tenth, exactly. *)
Definition PLAYLIST_TIME_DIFF_THRESHOLD_SECONDS : Q := 13421773 # 134217728.

(** ** C strings

    A pointer into a NUL-terminated string is the suffix it points at: the
    empty suffix is the pointer at the terminator.  Moving on from the
    terminator leaves the string. *)

Definition NUL : ascii := "000"%char.
Definition CHAR_CR : ascii := "013"%char.
Definition CHAR_LF : ascii := "010"%char.
Definition CHAR_QUOTE : ascii := "034"%char.

(** [s] between two double quotes. *)
Definition quoted (s : string) : string :=
  String CHAR_QUOTE (s ++ String CHAR_QUOTE EmptyString).

Definition deref (p : string) : ascii :=
  match p with
  | EmptyString => NUL
  | String c _ => c
  end.

(** The C string at [p] when [p] points into a buffer that holds NULs in
    its middle: the bytes before the first of them. *)
Fixpoint c_str (p : string) : string :=
  match p with
  | EmptyString => EmptyString
  | String c rest => if Ascii.eqb c NUL then EmptyString else String c (c_str rest)
  end.

(** [p], which stands at offset [o] of a buffer, after a NUL has been
    stored at each offset of [stores]. *)
Fixpoint with_nuls (stores : list nat) (o : nat) (p : string) : string :=
  match p with
  | EmptyString => EmptyString
  | String c rest =>
      String (if existsb (Nat.eqb o) stores then NUL else c)
             (with_nuls stores (S o) rest)
  end.

(** [startswith]: on a match the pointer moves past the prefix. *)
Fixpoint startswith (p prefix : string) : option string :=
  match prefix with
  | EmptyString => Some p
  | String c prefix' =>
      match p with
      | String d p' => if Ascii.eqb d c then startswith p' prefix' else None
      | EmptyString => None
      end
  end.

Definition has_prefix (p prefix : string) : bool :=
  match startswith p prefix with Some _ => true | None => false end.

(** [strstr]: the first suffix of [p] that begins with [needle]. *)
Fixpoint strstr (p needle : string) : option string :=
  if has_prefix p needle then Some p
  else match p with
       | EmptyString => None
       | String _ p' => strstr p' needle
       end.

(** [strchr(p, c)] for a character other than NUL. *)
Fixpoint strchr (p : string) (c : ascii) : option string :=
  match p with
  | EmptyString => None
  | String d p' => if Ascii.eqb d c then Some p else strchr p' c
  end.

(** Whether [c] occurs in [s]. *)
Fixpoint has_char (c : ascii) (s : string) : bool :=
  match s with
  | EmptyString => false
  | String d rest => Ascii.eqb d c || has_char c rest
  end.

(** The first [n] characters of [p] against [q] ([memcmp] / [strncmp] on
    text without an early terminator in [q]). *)
Definition first_chars (n : nat) (p : string) : string := substring 0 n p.

(** ** Attribute lists (ParseAttrList) *)

Module AttrList.

(** What a run of the parser comes to: it returns, or it reads the byte
    after the terminator. *)
Inductive outcome (C : Type) : Type :=
| Returned (ctx : C)
| ReadPastTerminator (ctx : C)
| OutOfFuel.
Arguments Returned {C} ctx.
Arguments ReadPastTerminator {C} ctx.
Arguments OutOfFuel {C}.

(** [while (attrName[0] == ' ') attrName++] *)
Fixpoint skip_spaces (attrName : string) : string :=
  match attrName with
  | String " " rest => skip_spaces rest
  | _ => attrName
  end.

(** [while (delimEqual[0] != '=') delimEqual++]: the loop looks at nothing
    but ['=']; [None] when it has stepped over the terminator. *)
Fixpoint scan_to_equal (delimEqual : string) : option string :=
  match delimEqual with
  | EmptyString => None
  | String "=" _ => Some delimEqual
  | String _ rest => scan_to_equal rest
  end.

(** The [for (;;)] loop that moves [fin] to the end of the value. *)
Fixpoint scan_to_fin (fin : string) (inQuote : bool) : string :=
  match fin with
  | EmptyString => fin
  | String c rest =>
      if Ascii.eqb c CHAR_QUOTE then
        if inQuote then rest else scan_to_fin rest true
      else if Ascii.eqb c "," && negb inQuote then fin
      else scan_to_fin rest inQuote
  end.

Section Parser.
Context {C : Type}.
(** [cb(attrName, delimEqual, fin, context)] *)
Variable cb : string -> string -> string -> C -> C.

Fixpoint ParseAttrList_loop (fuel : nat) (attrName : string) (context : C)
  : outcome C :=
  match fuel with
  | O => OutOfFuel
  | S fuel' =>
      match attrName with
      | EmptyString => Returned context
      | _ =>
          let attrName := skip_spaces attrName in
          match scan_to_equal attrName with
          | None => ReadPastTerminator context
          | Some delimEqual =>
              let fin := scan_to_fin delimEqual false in
              let context := cb attrName delimEqual fin context in
              let fin := match fin with
                         | String "," rest => rest
                         | _ => fin
                         end in
              ParseAttrList_loop fuel' fin context
          end
      end
  end.

Definition ParseAttrList (attrName : string) (context : C) : outcome C :=
  ParseAttrList_loop (S (String.length attrName)) attrName context.

End Parser.

(** A callback that records what it is called with: the name (from
    [attrName] up to [delimEqual]) and the value (after ['='] up to [fin]). *)
Definition span (from to : string) : string :=
  substring 0 (String.length from - String.length to) from.

Definition record_field (attrName delimEqual fin : string)
    (acc : list (string * string)) : list (string * string) :=
  (acc ++ [(span attrName delimEqual,
            span (match delimEqual with String _ v => v | _ => delimEqual end) fin)])%list.

Definition fields (attrList : string) : outcome (list (string * string)) :=
  ParseAttrList record_field attrList [].

End AttrList.

(** ** Attribute lists: termination and the field without ['='] *)

Section AttrListFacts.
Import AttrList.
Local Open Scope nat_scope.

Lemma skip_spaces_length (p : string) :
  String.length (skip_spaces p) <= String.length p.
Proof.
  induction p as [|c p IH]; simpl; [lia|].
  destruct c as [[] [] [] [] [] [] [] []]; simpl; lia.
Qed.

Lemma scan_to_equal_length (p d : string) :
  scan_to_equal p = Some d ->
  String.length d <= String.length p /\ exists v, d = String "=" v.
Proof.
  induction p as [|c p IH]; simpl; [discriminate|].
  destruct (Ascii.eqb_spec c "="%char) as [->|Hc].
  - intros [= <-]. split; [simpl; lia | eauto].
  - assert (scan_to_equal (String c p) = scan_to_equal p) as E.
    { simpl. destruct c as [[] [] [] [] [] [] [] []]; try reflexivity.
      exfalso; apply Hc; reflexivity. }
    simpl in E. rewrite E. intro H. destruct (IH H) as [L X].
    split; [lia | exact X].
Qed.

Lemma scan_to_fin_length (p : string) (q : bool) :
  String.length (scan_to_fin p q) <= String.length p.
Proof.
  revert q. induction p as [|c p IH]; intro q; simpl; [lia|].
  destruct (Ascii.eqb c CHAR_QUOTE).
  - destruct q; [lia | specialize (IH true); lia].
  - destruct (Ascii.eqb c "," && negb q)%bool; simpl;
      [lia | specialize (IH q); lia].
Qed.

Lemma step_past_comma_length (fin : string) :
  String.length (match fin with String "," rest => rest | _ => fin end)
  <= String.length fin.
Proof.
  destruct fin as [|c r]; simpl; [lia|].
  destruct c as [[] [] [] [] [] [] [] []]; simpl; lia.
Qed.

(** The outer loop moves on by at least one character a turn, so the fuel
    [ParseAttrList] starts with is never used up: the parser either returns
    or leaves the string. *)
Lemma ParseAttrList_loop_fuel {C : Type}
    (cb : string -> string -> string -> C -> C) (fuel : nat) :
  forall (p : string) (ctx : C),
    String.length p < fuel -> ParseAttrList_loop cb fuel p ctx <> OutOfFuel.
Proof.
  induction fuel as [|fuel IH]; intros p ctx Hlen; [lia|].
  simpl. destruct p as [|c p]; [discriminate|].
  destruct (scan_to_equal (skip_spaces (String c p))) as [d|] eqn:E;
    [|discriminate].
  apply IH.
  destruct (scan_to_equal_length _ _ E) as [L [v ->]].
  pose proof (skip_spaces_length (String c p)) as L1.
  pose proof (step_past_comma_length (scan_to_fin (String "=" v) false)) as L2.
  assert (scan_to_fin (String "=" v) false = scan_to_fin v false) as E2
    by reflexivity.
  pose proof (scan_to_fin_length v false) as L3.
  rewrite E2 in L2. rewrite E2. simpl in L, Hlen, L1. simpl. lia.
Qed.

Lemma ParseAttrList_terminates {C : Type}
    (cb : string -> string -> string -> C -> C) (p : string) (ctx : C) :
  ParseAttrList cb p ctx <> OutOfFuel.
Proof.
  unfold ParseAttrList. apply ParseAttrList_loop_fuel. lia.
Qed.

(** Whenever the next field holds no ['='], the scan for it steps over the
    terminator, whatever the callback. *)
Lemma ParseAttrList_field_without_equal {C : Type}
    (cb : string -> string -> string -> C -> C) (p : string) (ctx : C) :
  p <> EmptyString ->
  scan_to_equal (skip_spaces p) = None ->
  ParseAttrList cb p ctx = ReadPastTerminator ctx.
Proof.
  intros Hp Hs. unfold ParseAttrList. simpl.
  destruct p as [|c p]; [contradiction|]. rewrite Hs. reflexivity.
Qed.

(** C9 (the code departs from it). On well-formed lists the parser splits
    on unquoted commas and on the first ['='] and keeps quoted commas; on a
    field with no ['='] -- the bare word [METHOD], or the blank after a
    trailing ", " -- the scan for ['='] reads past the terminator of the
    string it was given. *)
Theorem ParseAttrList_reads_past_terminator :
  fields ("METHOD=AES-128,URI=" ++ quoted "a,b" ++ ",IV=0x12")
    = Returned [("METHOD", "AES-128"); ("URI", quoted "a,b"); ("IV", "0x12")]%string
  /\ fields "METHOD" = ReadPastTerminator []
  /\ fields "A=1, " = ReadPastTerminator [("A", "1")]%string.
Proof.
  repeat split; vm_compute; reflexivity.
Qed.

End AttrListFacts.

(** ** The data model

    The collector keeps one [TrackState] per track (video, audio); both
    share the stream context and the player ([World]).  A pointer into a
    playlist buffer ([pFragmentInfo], [programDateTime],
    [mInitFragmentInfo]) is the text that stood from that pointer on when
    the pointer was taken, whose length tells the address;
    [fragmentURI] is either a line of the track's playlist or the copy
    [GetFragmentUriFromIndex] makes. *)

Inductive TrackType : Type := eTRACK_VIDEO | eTRACK_AUDIO.

Inductive PlaylistType : Type :=
| ePLAYLISTTYPE_UNDEFINED
| ePLAYLISTTYPE_EVENT
| ePLAYLISTTYPE_VOD.

Inductive TuneType : Type :=
| eTUNETYPE_NEW_NORMAL
| eTUNETYPE_NEW_SEEK
| eTUNETYPE_SEEK
| eTUNETYPE_SEEKTOLIVE
| eTUNETYPE_RETUNE.

Inductive AAMPTuneFailure : Type :=
| AAMP_TUNE_INVALID_MANIFEST_FAILURE
| AAMP_TUNE_MANIFEST_REQ_FAILED
| AAMP_TUNE_FRAGMENT_DOWNLOAD_FAILURE
| AAMP_TUNE_LICENCE_TIMEOUT
| AAMP_TUNE_DRM_DECRYPT_FAILED.

Inductive DrmMethod : Type := eMETHOD_NONE | eMETHOD_AES_128.

Record timeval : Type := { tv_sec : Z; tv_usec : Z }.

Record tm : Type := {
  tm_year : Z; tm_mon : Z; tm_mday : Z; tm_hour : Z; tm_min : Z; tm_sec : Z
}.

(** [ptr] is the text the buffer was filled with.  The collector reads a
    line or a quoted value out of the buffer by storing a NUL over the line
    end or the closing quote ([mystrpbrk], [GetAttributeValueString]);
    [nuls] lists the offsets of the stores that are in the buffer, the
    latest first, so that the bytes now in the buffer are [ptr] with a NUL
    at each of them. *)
Record GrowableBuffer : Type := {
  ptr : option string;
  len : Z;
  avail : Z;
  nuls : list nat
}.

Definition no_buffer : GrowableBuffer :=
  {| ptr := None; len := 0; avail := 0; nuls := [] |}.

(** The bytes now in the buffer. *)
Definition bytes (b : GrowableBuffer) : option string :=
  option_map (with_nuls (nuls b) 0) (ptr b).

(** [b] after a NUL has been stored at offset [o]. *)
Definition store_nul (o : nat) (b : GrowableBuffer) : GrowableBuffer :=
  {| ptr := ptr b; len := len b; avail := avail b; nuls := o :: nuls b |}.

Record IndexNode : Type := {
  completionTimeSecondsFromStart : Q;
  pFragmentInfo : string;
  drmMetadataIdx : Z
}.

Record DiscontinuityIndexNode : Type := {
  fragmentIdx : Z;
  position : Q;
  programDateTime : option string
}.

Record DrmMetadataNode : Type := { metadata : string; sha1Hash : string }.

Record DrmInfo : Type := {
  method : DrmMethod;
  uri : option string;
  iv : option string
}.

Record CachedFragment : Type := {
  fragment : GrowableBuffer;
  cf_position : Q;
  cf_duration : Q;
  cf_discontinuity : bool
}.

(** What the collector tells the player, in the order it says it. *)
Inductive Event : Type :=
| SendErrorEvent (failure : AAMPTuneFailure)
| SendDownloadErrorEvent (failure : AAMPTuneFailure) (http_error : Z)
| aamp_Error (msg : string)
| UpdateDuration (seconds : Q)
| UpdateCullingState (culled : Q)
| SetMetadata (idx : nat)
| CheckForPlaybackStall (fragmentParsed : bool)
| NotifyFirstFragmentDecrypted.

Inductive UriPtr : Type :=
| PlaylistLine (n : nat)
| FromIndex (uri : string).

(** The C library and the DRM helpers the collector calls. *)
Class Externals : Type := {
  atof : string -> Q;
  atoi : string -> Z;
  atoll : string -> Z;
  strtol : string -> Z;
  (** [sscanf(ptr, "%d-%d-%dT%d:%d:%d.%d", ...)] on a zeroed [tm] and
      [ms = 0]: the number of fields read, the [tm] and [ms]. *)
  sscanf_date_time : string -> Z * tm * Z;
  mktime : tm -> Z;
  (** [base16_Decode(ptr, 32, &len)]: the bytes and their number. *)
  base16_Decode : string -> string * Z;
  (** [base64_Decode], [SHA1] and [base16_Encode] of one EXT-X-FAXS-CM
      payload. *)
  drmMetadataNode_of : string -> DrmMetadataNode;
  GetNewMetadataIndex : list DrmMetadataNode -> Z;
  DRM_SHA1_HASH_LEN : nat;
  MAX_URI_LENGTH : nat;
  MAX_SEG_DOWNLOAD_FAIL_COUNT : Z;
  MAX_SEG_DRM_DECRYPT_FAIL_COUNT : Z
}.

(** Outcome of code that can hit undefined behaviour or a failed [assert]. *)
Inductive res (A : Type) : Type :=
| Ok (a : A)
| Undefined.
Arguments Ok {A} a.
Arguments Undefined {A}.

Definition bind {A B : Type} (r : res A) (k : A -> res B) : res B :=
  match r with
  | Ok a => k a
  | Undefined => Undefined
  end.

Notation "x <- r ;; k" := (bind r (fun x => k))
  (at level 61, r at next level, right associativity).

#[local] Set Primitive Projections.

Record TrackState : Type := Build_TrackState {
  type : TrackType;
  enabled : bool;
  playlist : GrowableBuffer;
  fragmentURI : option UriPtr;
  playTarget : Q;
  playTargetOffset : Q;
  playlistPosition : Q;
  fragmentDurationSeconds : Q;
  targetDurationSeconds : Q;
  nextMediaSequenceNumber : Z;
  byteRangeLength : Z;
  byteRangeOffset : Z;
  discontinuity : bool;
  mSyncAfterDiscontinuityInProgress : bool;
  eosReached : bool;
  startTimeForPlaylistSync : timeval;
  index : list IndexNode;
  indexFirstMediaSequenceNumber : Z;
  currentIdx : Z;
  mDiscontinuityIndex : list DiscontinuityIndexNode;
  mDrmMetaDataIndex : list DrmMetadataNode;
  mDrmMetaDataIndexPosition : Z;
  mDrmKeyTagCount : Z;
  mInitFragmentInfo : option string;
  mDuration : Q;
  mCulledSeconds : Q;
  mLastMatchedDiscontPosition : Q;
  lastPlaylistDownloadTimeMS : Z;
  manifestDLFailCount : Z;
  segDLFailCount : Z;
  segDrmDecryptFailCount : Z;
  refreshPlaylist : bool;
  firstIndexDone : bool;
  mIndexingInProgress : bool;
  mForceProcessDrmMetadata : bool;
  mDrmLicenseRequestPending : bool;
  fragmentEncrypted : bool;
  mCMSha1Hash : option string;
  mDrmInfo : DrmInfo;
  cachedFragment : CachedFragment
}.

Definition set_playlist (v : GrowableBuffer) (s : TrackState) : TrackState :=
  let '(Build_TrackState x1 x2 x3 x4 x5 x6 x7 x8 x9 x10 x11 x12 x13 x14 x15
      x16 x17 x18 x19 x20 x21 x22 x23 x24 x25 x26 x27 x28 x29 x30 x31 x32 x33
      x34 x35 x36 x37 x38 x39 x40) := s in
  Build_TrackState x1 x2 v x4 x5 x6 x7 x8 x9 x10 x11 x12 x13 x14 x15 x16 x17
    x18 x19 x20 x21 x22 x23 x24 x25 x26 x27 x28 x29 x30 x31 x32 x33 x34 x35
    x36 x37 x38 x39 x40.

Definition set_fragmentURI (v : option UriPtr) (s : TrackState) : TrackState :=
  let '(Build_TrackState x1 x2 x3 x4 x5 x6 x7 x8 x9 x10 x11 x12 x13 x14 x15
      x16 x17 x18 x19 x20 x21 x22 x23 x24 x25 x26 x27 x28 x29 x30 x31 x32 x33
      x34 x35 x36 x37 x38 x39 x40) := s in
  Build_TrackState x1 x2 x3 v x5 x6 x7 x8 x9 x10 x11 x12 x13 x14 x15 x16 x17
    x18 x19 x20 x21 x22 x23 x24 x25 x26 x27 x28 x29 x30 x31 x32 x33 x34 x35
    x36 x37 x38 x39 x40.

Definition set_playTarget (v : Q) (s : TrackState) : TrackState :=
  let '(Build_TrackState x1 x2 x3 x4 x5 x6 x7 x8 x9 x10 x11 x12 x13 x14 x15
      x16 x17 x18 x19 x20 x21 x22 x23 x24 x25 x26 x27 x28 x29 x30 x31 x32 x33
      x34 x35 x36 x37 x38 x39 x40) := s in
  Build_TrackState x1 x2 x3 x4 v x6 x7 x8 x9 x10 x11 x12 x13 x14 x15 x16 x17
    x18 x19 x20 x21 x22 x23 x24 x25 x26 x27 x28 x29 x30 x31 x32 x33 x34 x35
    x36 x37 x38 x39 x40.

Definition set_playTargetOffset (v : Q) (s : TrackState) : TrackState :=
  let '(Build_TrackState x1 x2 x3 x4 x5 x6 x7 x8 x9 x10 x11 x12 x13 x14 x15
      x16 x17 x18 x19 x20 x21 x22 x23 x24 x25 x26 x27 x28 x29 x30 x31 x32 x33
      x34 x35 x36 x37 x38 x39 x40) := s in
  Build_TrackState x1 x2 x3 x4 x5 v x7 x8 x9 x10 x11 x12 x13 x14 x15 x16 x17
    x18 x19 x20 x21 x22 x23 x24 x25 x26 x27 x28 x29 x30 x31 x32 x33 x34 x35
    x36 x37 x38 x39 x40.

Definition set_playlistPosition (v : Q) (s : TrackState) : TrackState :=
  let '(Build_TrackState x1 x2 x3 x4 x5 x6 x7 x8 x9 x10 x11 x12 x13 x14 x15
      x16 x17 x18 x19 x20 x21 x22 x23 x24 x25 x26 x27 x28 x29 x30 x31 x32 x33
      x34 x35 x36 x37 x38 x39 x40) := s in
  Build_TrackState x1 x2 x3 x4 x5 x6 v x8 x9 x10 x11 x12 x13 x14 x15 x16 x17
    x18 x19 x20 x21 x22 x23 x24 x25 x26 x27 x28 x29 x30 x31 x32 x33 x34 x35
    x36 x37 x38 x39 x40.

Definition set_fragmentDurationSeconds (v : Q) (s : TrackState) : TrackState :=
  let '(Build_TrackState x1 x2 x3 x4 x5 x6 x7 x8 x9 x10 x11 x12 x13 x14 x15
      x16 x17 x18 x19 x20 x21 x22 x23 x24 x25 x26 x27 x28 x29 x30 x31 x32 x33
      x34 x35 x36 x37 x38 x39 x40) := s in
  Build_TrackState x1 x2 x3 x4 x5 x6 x7 v x9 x10 x11 x12 x13 x14 x15 x16 x17
    x18 x19 x20 x21 x22 x23 x24 x25 x26 x27 x28 x29 x30 x31 x32 x33 x34 x35
    x36 x37 x38 x39 x40.

Definition set_targetDurationSeconds (v : Q) (s : TrackState) : TrackState :=
  let '(Build_TrackState x1 x2 x3 x4 x5 x6 x7 x8 x9 x10 x11 x12 x13 x14 x15
      x16 x17 x18 x19 x20 x21 x22 x23 x24 x25 x26 x27 x28 x29 x30 x31 x32 x33
      x34 x35 x36 x37 x38 x39 x40) := s in
  Build_TrackState x1 x2 x3 x4 x5 x6 x7 x8 v x10 x11 x12 x13 x14 x15 x16 x17
    x18 x19 x20 x21 x22 x23 x24 x25 x26 x27 x28 x29 x30 x31 x32 x33 x34 x35
    x36 x37 x38 x39 x40.

Definition set_nextMediaSequenceNumber (v : Z) (s : TrackState) : TrackState :=
  let '(Build_TrackState x1 x2 x3 x4 x5 x6 x7 x8 x9 x10 x11 x12 x13 x14 x15
      x16 x17 x18 x19 x20 x21 x22 x23 x24 x25 x26 x27 x28 x29 x30 x31 x32 x33
      x34 x35 x36 x37 x38 x39 x40) := s in
  Build_TrackState x1 x2 x3 x4 x5 x6 x7 x8 x9 v x11 x12 x13 x14 x15 x16 x17
    x18 x19 x20 x21 x22 x23 x24 x25 x26 x27 x28 x29 x30 x31 x32 x33 x34 x35
    x36 x37 x38 x39 x40.

Definition set_byteRangeLength (v : Z) (s : TrackState) : TrackState :=
  let '(Build_TrackState x1 x2 x3 x4 x5 x6 x7 x8 x9 x10 x11 x12 x13 x14 x15
      x16 x17 x18 x19 x20 x21 x22 x23 x24 x25 x26 x27 x28 x29 x30 x31 x32 x33
      x34 x35 x36 x37 x38 x39 x40) := s in
  Build_TrackState x1 x2 x3 x4 x5 x6 x7 x8 x9 x10 v x12 x13 x14 x15 x16 x17
    x18 x19 x20 x21 x22 x23 x24 x25 x26 x27 x28 x29 x30 x31 x32 x33 x34 x35
    x36 x37 x38 x39 x40.

Definition set_byteRangeOffset (v : Z) (s : TrackState) : TrackState :=
  let '(Build_TrackState x1 x2 x3 x4 x5 x6 x7 x8 x9 x10 x11 x12 x13 x14 x15
      x16 x17 x18 x19 x20 x21 x22 x23 x24 x25 x26 x27 x28 x29 x30 x31 x32 x33
      x34 x35 x36 x37 x38 x39 x40) := s in
  Build_TrackState x1 x2 x3 x4 x5 x6 x7 x8 x9 x10 x11 v x13 x14 x15 x16 x17
    x18 x19 x20 x21 x22 x23 x24 x25 x26 x27 x28 x29 x30 x31 x32 x33 x34 x35
    x36 x37 x38 x39 x40.

Definition set_discontinuity (v : bool) (s : TrackState) : TrackState :=
  let '(Build_TrackState x1 x2 x3 x4 x5 x6 x7 x8 x9 x10 x11 x12 x13 x14 x15
      x16 x17 x18 x19 x20 x21 x22 x23 x24 x25 x26 x27 x28 x29 x30 x31 x32 x33
      x34 x35 x36 x37 x38 x39 x40) := s in
  Build_TrackState x1 x2 x3 x4 x5 x6 x7 x8 x9 x10 x11 x12 v x14 x15 x16 x17
    x18 x19 x20 x21 x22 x23 x24 x25 x26 x27 x28 x29 x30 x31 x32 x33 x34 x35
    x36 x37 x38 x39 x40.

Definition set_mSyncAfterDiscontinuityInProgress (v : bool) (s : TrackState) : TrackState :=
  let '(Build_TrackState x1 x2 x3 x4 x5 x6 x7 x8 x9 x10 x11 x12 x13 x14 x15
      x16 x17 x18 x19 x20 x21 x22 x23 x24 x25 x26 x27 x28 x29 x30 x31 x32 x33
      x34 x35 x36 x37 x38 x39 x40) := s in
  Build_TrackState x1 x2 x3 x4 x5 x6 x7 x8 x9 x10 x11 x12 x13 v x15 x16 x17
    x18 x19 x20 x21 x22 x23 x24 x25 x26 x27 x28 x29 x30 x31 x32 x33 x34 x35
    x36 x37 x38 x39 x40.

Definition set_eosReached (v : bool) (s : TrackState) : TrackState :=
  let '(Build_TrackState x1 x2 x3 x4 x5 x6 x7 x8 x9 x10 x11 x12 x13 x14 x15
      x16 x17 x18 x19 x20 x21 x22 x23 x24 x25 x26 x27 x28 x29 x30 x31 x32 x33
      x34 x35 x36 x37 x38 x39 x40) := s in
  Build_TrackState x1 x2 x3 x4 x5 x6 x7 x8 x9 x10 x11 x12 x13 x14 v x16 x17
    x18 x19 x20 x21 x22 x23 x24 x25 x26 x27 x28 x29 x30 x31 x32 x33 x34 x35
    x36 x37 x38 x39 x40.

Definition set_startTimeForPlaylistSync (v : timeval) (s : TrackState) : TrackState :=
  let '(Build_TrackState x1 x2 x3 x4 x5 x6 x7 x8 x9 x10 x11 x12 x13 x14 x15
      x16 x17 x18 x19 x20 x21 x22 x23 x24 x25 x26 x27 x28 x29 x30 x31 x32 x33
      x34 x35 x36 x37 x38 x39 x40) := s in
  Build_TrackState x1 x2 x3 x4 x5 x6 x7 x8 x9 x10 x11 x12 x13 x14 x15 v x17
    x18 x19 x20 x21 x22 x23 x24 x25 x26 x27 x28 x29 x30 x31 x32 x33 x34 x35
    x36 x37 x38 x39 x40.

Definition set_index (v : list IndexNode) (s : TrackState) : TrackState :=
  let '(Build_TrackState x1 x2 x3 x4 x5 x6 x7 x8 x9 x10 x11 x12 x13 x14 x15
      x16 x17 x18 x19 x20 x21 x22 x23 x24 x25 x26 x27 x28 x29 x30 x31 x32 x33
      x34 x35 x36 x37 x38 x39 x40) := s in
  Build_TrackState x1 x2 x3 x4 x5 x6 x7 x8 x9 x10 x11 x12 x13 x14 x15 x16 v
    x18 x19 x20 x21 x22 x23 x24 x25 x26 x27 x28 x29 x30 x31 x32 x33 x34 x35
    x36 x37 x38 x39 x40.

Definition set_indexFirstMediaSequenceNumber (v : Z) (s : TrackState) : TrackState :=
  let '(Build_TrackState x1 x2 x3 x4 x5 x6 x7 x8 x9 x10 x11 x12 x13 x14 x15
      x16 x17 x18 x19 x20 x21 x22 x23 x24 x25 x26 x27 x28 x29 x30 x31 x32 x33
      x34 x35 x36 x37 x38 x39 x40) := s in
  Build_TrackState x1 x2 x3 x4 x5 x6 x7 x8 x9 x10 x11 x12 x13 x14 x15 x16 x17
    v x19 x20 x21 x22 x23 x24 x25 x26 x27 x28 x29 x30 x31 x32 x33 x34 x35 x36
    x37 x38 x39 x40.

Definition set_currentIdx (v : Z) (s : TrackState) : TrackState :=
  let '(Build_TrackState x1 x2 x3 x4 x5 x6 x7 x8 x9 x10 x11 x12 x13 x14 x15
      x16 x17 x18 x19 x20 x21 x22 x23 x24 x25 x26 x27 x28 x29 x30 x31 x32 x33
      x34 x35 x36 x37 x38 x39 x40) := s in
  Build_TrackState x1 x2 x3 x4 x5 x6 x7 x8 x9 x10 x11 x12 x13 x14 x15 x16 x17
    x18 v x20 x21 x22 x23 x24 x25 x26 x27 x28 x29 x30 x31 x32 x33 x34 x35 x36
    x37 x38 x39 x40.

Definition set_mDiscontinuityIndex (v : list DiscontinuityIndexNode) (s : TrackState) : TrackState :=
  let '(Build_TrackState x1 x2 x3 x4 x5 x6 x7 x8 x9 x10 x11 x12 x13 x14 x15
      x16 x17 x18 x19 x20 x21 x22 x23 x24 x25 x26 x27 x28 x29 x30 x31 x32 x33
      x34 x35 x36 x37 x38 x39 x40) := s in
  Build_TrackState x1 x2 x3 x4 x5 x6 x7 x8 x9 x10 x11 x12 x13 x14 x15 x16 x17
    x18 x19 v x21 x22 x23 x24 x25 x26 x27 x28 x29 x30 x31 x32 x33 x34 x35 x36
    x37 x38 x39 x40.

Definition set_mDrmMetaDataIndex (v : list DrmMetadataNode) (s : TrackState) : TrackState :=
  let '(Build_TrackState x1 x2 x3 x4 x5 x6 x7 x8 x9 x10 x11 x12 x13 x14 x15
      x16 x17 x18 x19 x20 x21 x22 x23 x24 x25 x26 x27 x28 x29 x30 x31 x32 x33
      x34 x35 x36 x37 x38 x39 x40) := s in
  Build_TrackState x1 x2 x3 x4 x5 x6 x7 x8 x9 x10 x11 x12 x13 x14 x15 x16 x17
    x18 x19 x20 v x22 x23 x24 x25 x26 x27 x28 x29 x30 x31 x32 x33 x34 x35 x36
    x37 x38 x39 x40.

Definition set_mDrmMetaDataIndexPosition (v : Z) (s : TrackState) : TrackState :=
  let '(Build_TrackState x1 x2 x3 x4 x5 x6 x7 x8 x9 x10 x11 x12 x13 x14 x15
      x16 x17 x18 x19 x20 x21 x22 x23 x24 x25 x26 x27 x28 x29 x30 x31 x32 x33
      x34 x35 x36 x37 x38 x39 x40) := s in
  Build_TrackState x1 x2 x3 x4 x5 x6 x7 x8 x9 x10 x11 x12 x13 x14 x15 x16 x17
    x18 x19 x20 x21 v x23 x24 x25 x26 x27 x28 x29 x30 x31 x32 x33 x34 x35 x36
    x37 x38 x39 x40.

Definition set_mDrmKeyTagCount (v : Z) (s : TrackState) : TrackState :=
  let '(Build_TrackState x1 x2 x3 x4 x5 x6 x7 x8 x9 x10 x11 x12 x13 x14 x15
      x16 x17 x18 x19 x20 x21 x22 x23 x24 x25 x26 x27 x28 x29 x30 x31 x32 x33
      x34 x35 x36 x37 x38 x39 x40) := s in
  Build_TrackState x1 x2 x3 x4 x5 x6 x7 x8 x9 x10 x11 x12 x13 x14 x15 x16 x17
    x18 x19 x20 x21 x22 v x24 x25 x26 x27 x28 x29 x30 x31 x32 x33 x34 x35 x36
    x37 x38 x39 x40.

Definition set_mInitFragmentInfo (v : option string) (s : TrackState) : TrackState :=
  let '(Build_TrackState x1 x2 x3 x4 x5 x6 x7 x8 x9 x10 x11 x12 x13 x14 x15
      x16 x17 x18 x19 x20 x21 x22 x23 x24 x25 x26 x27 x28 x29 x30 x31 x32 x33
      x34 x35 x36 x37 x38 x39 x40) := s in
  Build_TrackState x1 x2 x3 x4 x5 x6 x7 x8 x9 x10 x11 x12 x13 x14 x15 x16 x17
    x18 x19 x20 x21 x22 x23 v x25 x26 x27 x28 x29 x30 x31 x32 x33 x34 x35 x36
    x37 x38 x39 x40.

Definition set_mDuration (v : Q) (s : TrackState) : TrackState :=
  let '(Build_TrackState x1 x2 x3 x4 x5 x6 x7 x8 x9 x10 x11 x12 x13 x14 x15
      x16 x17 x18 x19 x20 x21 x22 x23 x24 x25 x26 x27 x28 x29 x30 x31 x32 x33
      x34 x35 x36 x37 x38 x39 x40) := s in
  Build_TrackState x1 x2 x3 x4 x5 x6 x7 x8 x9 x10 x11 x12 x13 x14 x15 x16 x17
    x18 x19 x20 x21 x22 x23 x24 v x26 x27 x28 x29 x30 x31 x32 x33 x34 x35 x36
    x37 x38 x39 x40.

Definition set_mCulledSeconds (v : Q) (s : TrackState) : TrackState :=
  let '(Build_TrackState x1 x2 x3 x4 x5 x6 x7 x8 x9 x10 x11 x12 x13 x14 x15
      x16 x17 x18 x19 x20 x21 x22 x23 x24 x25 x26 x27 x28 x29 x30 x31 x32 x33
      x34 x35 x36 x37 x38 x39 x40) := s in
  Build_TrackState x1 x2 x3 x4 x5 x6 x7 x8 x9 x10 x11 x12 x13 x14 x15 x16 x17
    x18 x19 x20 x21 x22 x23 x24 x25 v x27 x28 x29 x30 x31 x32 x33 x34 x35 x36
    x37 x38 x39 x40.

Definition set_mLastMatchedDiscontPosition (v : Q) (s : TrackState) : TrackState :=
  let '(Build_TrackState x1 x2 x3 x4 x5 x6 x7 x8 x9 x10 x11 x12 x13 x14 x15
      x16 x17 x18 x19 x20 x21 x22 x23 x24 x25 x26 x27 x28 x29 x30 x31 x32 x33
      x34 x35 x36 x37 x38 x39 x40) := s in
  Build_TrackState x1 x2 x3 x4 x5 x6 x7 x8 x9 x10 x11 x12 x13 x14 x15 x16 x17
    x18 x19 x20 x21 x22 x23 x24 x25 x26 v x28 x29 x30 x31 x32 x33 x34 x35 x36
    x37 x38 x39 x40.

Definition set_lastPlaylistDownloadTimeMS (v : Z) (s : TrackState) : TrackState :=
  let '(Build_TrackState x1 x2 x3 x4 x5 x6 x7 x8 x9 x10 x11 x12 x13 x14 x15
      x16 x17 x18 x19 x20 x21 x22 x23 x24 x25 x26 x27 x28 x29 x30 x31 x32 x33
      x34 x35 x36 x37 x38 x39 x40) := s in
  Build_TrackState x1 x2 x3 x4 x5 x6 x7 x8 x9 x10 x11 x12 x13 x14 x15 x16 x17
    x18 x19 x20 x21 x22 x23 x24 x25 x26 x27 v x29 x30 x31 x32 x33 x34 x35 x36
    x37 x38 x39 x40.

Definition set_manifestDLFailCount (v : Z) (s : TrackState) : TrackState :=
  let '(Build_TrackState x1 x2 x3 x4 x5 x6 x7 x8 x9 x10 x11 x12 x13 x14 x15
      x16 x17 x18 x19 x20 x21 x22 x23 x24 x25 x26 x27 x28 x29 x30 x31 x32 x33
      x34 x35 x36 x37 x38 x39 x40) := s in
  Build_TrackState x1 x2 x3 x4 x5 x6 x7 x8 x9 x10 x11 x12 x13 x14 x15 x16 x17
    x18 x19 x20 x21 x22 x23 x24 x25 x26 x27 x28 v x30 x31 x32 x33 x34 x35 x36
    x37 x38 x39 x40.

Definition set_segDLFailCount (v : Z) (s : TrackState) : TrackState :=
  let '(Build_TrackState x1 x2 x3 x4 x5 x6 x7 x8 x9 x10 x11 x12 x13 x14 x15
      x16 x17 x18 x19 x20 x21 x22 x23 x24 x25 x26 x27 x28 x29 x30 x31 x32 x33
      x34 x35 x36 x37 x38 x39 x40) := s in
  Build_TrackState x1 x2 x3 x4 x5 x6 x7 x8 x9 x10 x11 x12 x13 x14 x15 x16 x17
    x18 x19 x20 x21 x22 x23 x24 x25 x26 x27 x28 x29 v x31 x32 x33 x34 x35 x36
    x37 x38 x39 x40.

Definition set_segDrmDecryptFailCount (v : Z) (s : TrackState) : TrackState :=
  let '(Build_TrackState x1 x2 x3 x4 x5 x6 x7 x8 x9 x10 x11 x12 x13 x14 x15
      x16 x17 x18 x19 x20 x21 x22 x23 x24 x25 x26 x27 x28 x29 x30 x31 x32 x33
      x34 x35 x36 x37 x38 x39 x40) := s in
  Build_TrackState x1 x2 x3 x4 x5 x6 x7 x8 x9 x10 x11 x12 x13 x14 x15 x16 x17
    x18 x19 x20 x21 x22 x23 x24 x25 x26 x27 x28 x29 x30 v x32 x33 x34 x35 x36
    x37 x38 x39 x40.

Definition set_refreshPlaylist (v : bool) (s : TrackState) : TrackState :=
  let '(Build_TrackState x1 x2 x3 x4 x5 x6 x7 x8 x9 x10 x11 x12 x13 x14 x15
      x16 x17 x18 x19 x20 x21 x22 x23 x24 x25 x26 x27 x28 x29 x30 x31 x32 x33
      x34 x35 x36 x37 x38 x39 x40) := s in
  Build_TrackState x1 x2 x3 x4 x5 x6 x7 x8 x9 x10 x11 x12 x13 x14 x15 x16 x17
    x18 x19 x20 x21 x22 x23 x24 x25 x26 x27 x28 x29 x30 x31 v x33 x34 x35 x36
    x37 x38 x39 x40.

Definition set_firstIndexDone (v : bool) (s : TrackState) : TrackState :=
  let '(Build_TrackState x1 x2 x3 x4 x5 x6 x7 x8 x9 x10 x11 x12 x13 x14 x15
      x16 x17 x18 x19 x20 x21 x22 x23 x24 x25 x26 x27 x28 x29 x30 x31 x32 x33
      x34 x35 x36 x37 x38 x39 x40) := s in
  Build_TrackState x1 x2 x3 x4 x5 x6 x7 x8 x9 x10 x11 x12 x13 x14 x15 x16 x17
    x18 x19 x20 x21 x22 x23 x24 x25 x26 x27 x28 x29 x30 x31 x32 v x34 x35 x36
    x37 x38 x39 x40.

Definition set_mIndexingInProgress (v : bool) (s : TrackState) : TrackState :=
  let '(Build_TrackState x1 x2 x3 x4 x5 x6 x7 x8 x9 x10 x11 x12 x13 x14 x15
      x16 x17 x18 x19 x20 x21 x22 x23 x24 x25 x26 x27 x28 x29 x30 x31 x32 x33
      x34 x35 x36 x37 x38 x39 x40) := s in
  Build_TrackState x1 x2 x3 x4 x5 x6 x7 x8 x9 x10 x11 x12 x13 x14 x15 x16 x17
    x18 x19 x20 x21 x22 x23 x24 x25 x26 x27 x28 x29 x30 x31 x32 x33 v x35 x36
    x37 x38 x39 x40.

Definition set_mForceProcessDrmMetadata (v : bool) (s : TrackState) : TrackState :=
  let '(Build_TrackState x1 x2 x3 x4 x5 x6 x7 x8 x9 x10 x11 x12 x13 x14 x15
      x16 x17 x18 x19 x20 x21 x22 x23 x24 x25 x26 x27 x28 x29 x30 x31 x32 x33
      x34 x35 x36 x37 x38 x39 x40) := s in
  Build_TrackState x1 x2 x3 x4 x5 x6 x7 x8 x9 x10 x11 x12 x13 x14 x15 x16 x17
    x18 x19 x20 x21 x22 x23 x24 x25 x26 x27 x28 x29 x30 x31 x32 x33 x34 v x36
    x37 x38 x39 x40.

Definition set_mDrmLicenseRequestPending (v : bool) (s : TrackState) : TrackState :=
  let '(Build_TrackState x1 x2 x3 x4 x5 x6 x7 x8 x9 x10 x11 x12 x13 x14 x15
      x16 x17 x18 x19 x20 x21 x22 x23 x24 x25 x26 x27 x28 x29 x30 x31 x32 x33
      x34 x35 x36 x37 x38 x39 x40) := s in
  Build_TrackState x1 x2 x3 x4 x5 x6 x7 x8 x9 x10 x11 x12 x13 x14 x15 x16 x17
    x18 x19 x20 x21 x22 x23 x24 x25 x26 x27 x28 x29 x30 x31 x32 x33 x34 x35 v
    x37 x38 x39 x40.

Definition set_fragmentEncrypted (v : bool) (s : TrackState) : TrackState :=
  let '(Build_TrackState x1 x2 x3 x4 x5 x6 x7 x8 x9 x10 x11 x12 x13 x14 x15
      x16 x17 x18 x19 x20 x21 x22 x23 x24 x25 x26 x27 x28 x29 x30 x31 x32 x33
      x34 x35 x36 x37 x38 x39 x40) := s in
  Build_TrackState x1 x2 x3 x4 x5 x6 x7 x8 x9 x10 x11 x12 x13 x14 x15 x16 x17
    x18 x19 x20 x21 x22 x23 x24 x25 x26 x27 x28 x29 x30 x31 x32 x33 x34 x35
    x36 v x38 x39 x40.

Definition set_mCMSha1Hash (v : option string) (s : TrackState) : TrackState :=
  let '(Build_TrackState x1 x2 x3 x4 x5 x6 x7 x8 x9 x10 x11 x12 x13 x14 x15
      x16 x17 x18 x19 x20 x21 x22 x23 x24 x25 x26 x27 x28 x29 x30 x31 x32 x33
      x34 x35 x36 x37 x38 x39 x40) := s in
  Build_TrackState x1 x2 x3 x4 x5 x6 x7 x8 x9 x10 x11 x12 x13 x14 x15 x16 x17
    x18 x19 x20 x21 x22 x23 x24 x25 x26 x27 x28 x29 x30 x31 x32 x33 x34 x35
    x36 x37 v x39 x40.

Definition set_mDrmInfo (v : DrmInfo) (s : TrackState) : TrackState :=
  let '(Build_TrackState x1 x2 x3 x4 x5 x6 x7 x8 x9 x10 x11 x12 x13 x14 x15
      x16 x17 x18 x19 x20 x21 x22 x23 x24 x25 x26 x27 x28 x29 x30 x31 x32 x33
      x34 x35 x36 x37 x38 x39 x40) := s in
  Build_TrackState x1 x2 x3 x4 x5 x6 x7 x8 x9 x10 x11 x12 x13 x14 x15 x16 x17
    x18 x19 x20 x21 x22 x23 x24 x25 x26 x27 x28 x29 x30 x31 x32 x33 x34 x35
    x36 x37 x38 v x40.

Definition set_cachedFragment (v : CachedFragment) (s : TrackState) : TrackState :=
  let '(Build_TrackState x1 x2 x3 x4 x5 x6 x7 x8 x9 x10 x11 x12 x13 x14 x15
      x16 x17 x18 x19 x20 x21 x22 x23 x24 x25 x26 x27 x28 x29 x30 x31 x32 x33
      x34 x35 x36 x37 x38 x39 x40) := s in
  Build_TrackState x1 x2 x3 x4 x5 x6 x7 x8 x9 x10 x11 x12 x13 x14 x15 x16 x17
    x18 x19 x20 x21 x22 x23 x24 x25 x26 x27 x28 x29 x30 x31 x32 x33 x34 x35
    x36 x37 x38 x39 v.

Record World : Type := Build_World {
  video : TrackState;
  audio : TrackState;
  playlistType : PlaylistType;
  hasEndListTag : bool;
  rate : Q;
  trickplayMode : bool;
  mTrickPlayFPS : Z;
  iframeTrack : Z;
  allowsCache : bool;
  mNumberOfTracks : Z;
  mNetworkDownDetected : bool;
  currentProfileIndex : Z;
  lastSelectedProfileIndex : Z;
  mCheckForRampdown : bool;
  firstFragmentDecrypted : bool;
  mIsAtLivePoint : bool;
  mTuneType : TuneType;
  seekPosition : Q;
  isLive : bool;
  mLiveOffset : Q;
  mEnableCache : bool;
  downloadsEnabled : bool;
  tsbSupported : bool;
  inProgressCDVR : bool;
  durationSeconds : Q;
  culledSeconds : Q;
  events : list Event;
  gDeferredDrmMetaDataSha1Hash : string;
  gDeferredDrmLicRequestPending : bool;
  gDeferredDrmLicTagUnderProcessing : bool
}.

Definition set_video (v : TrackState) (s : World) : World :=
  let '(Build_World x1 x2 x3 x4 x5 x6 x7 x8 x9 x10 x11 x12 x13 x14 x15 x16 x17
      x18 x19 x20 x21 x22 x23 x24 x25 x26 x27 x28 x29 x30) := s in
  Build_World v x2 x3 x4 x5 x6 x7 x8 x9 x10 x11 x12 x13 x14 x15 x16 x17 x18
    x19 x20 x21 x22 x23 x24 x25 x26 x27 x28 x29 x30.

Definition set_audio (v : TrackState) (s : World) : World :=
  let '(Build_World x1 x2 x3 x4 x5 x6 x7 x8 x9 x10 x11 x12 x13 x14 x15 x16 x17
      x18 x19 x20 x21 x22 x23 x24 x25 x26 x27 x28 x29 x30) := s in
  Build_World x1 v x3 x4 x5 x6 x7 x8 x9 x10 x11 x12 x13 x14 x15 x16 x17 x18
    x19 x20 x21 x22 x23 x24 x25 x26 x27 x28 x29 x30.

Definition set_playlistType (v : PlaylistType) (s : World) : World :=
  let '(Build_World x1 x2 x3 x4 x5 x6 x7 x8 x9 x10 x11 x12 x13 x14 x15 x16 x17
      x18 x19 x20 x21 x22 x23 x24 x25 x26 x27 x28 x29 x30) := s in
  Build_World x1 x2 v x4 x5 x6 x7 x8 x9 x10 x11 x12 x13 x14 x15 x16 x17 x18
    x19 x20 x21 x22 x23 x24 x25 x26 x27 x28 x29 x30.

Definition set_hasEndListTag (v : bool) (s : World) : World :=
  let '(Build_World x1 x2 x3 x4 x5 x6 x7 x8 x9 x10 x11 x12 x13 x14 x15 x16 x17
      x18 x19 x20 x21 x22 x23 x24 x25 x26 x27 x28 x29 x30) := s in
  Build_World x1 x2 x3 v x5 x6 x7 x8 x9 x10 x11 x12 x13 x14 x15 x16 x17 x18
    x19 x20 x21 x22 x23 x24 x25 x26 x27 x28 x29 x30.

Definition set_allowsCache (v : bool) (s : World) : World :=
  let '(Build_World x1 x2 x3 x4 x5 x6 x7 x8 x9 x10 x11 x12 x13 x14 x15 x16 x17
      x18 x19 x20 x21 x22 x23 x24 x25 x26 x27 x28 x29 x30) := s in
  Build_World x1 x2 x3 x4 x5 x6 x7 x8 v x10 x11 x12 x13 x14 x15 x16 x17 x18
    x19 x20 x21 x22 x23 x24 x25 x26 x27 x28 x29 x30.

Definition set_mNetworkDownDetected (v : bool) (s : World) : World :=
  let '(Build_World x1 x2 x3 x4 x5 x6 x7 x8 x9 x10 x11 x12 x13 x14 x15 x16 x17
      x18 x19 x20 x21 x22 x23 x24 x25 x26 x27 x28 x29 x30) := s in
  Build_World x1 x2 x3 x4 x5 x6 x7 x8 x9 x10 v x12 x13 x14 x15 x16 x17 x18 x19
    x20 x21 x22 x23 x24 x25 x26 x27 x28 x29 x30.

Definition set_currentProfileIndex (v : Z) (s : World) : World :=
  let '(Build_World x1 x2 x3 x4 x5 x6 x7 x8 x9 x10 x11 x12 x13 x14 x15 x16 x17
      x18 x19 x20 x21 x22 x23 x24 x25 x26 x27 x28 x29 x30) := s in
  Build_World x1 x2 x3 x4 x5 x6 x7 x8 x9 x10 x11 v x13 x14 x15 x16 x17 x18 x19
    x20 x21 x22 x23 x24 x25 x26 x27 x28 x29 x30.

Definition set_lastSelectedProfileIndex (v : Z) (s : World) : World :=
  let '(Build_World x1 x2 x3 x4 x5 x6 x7 x8 x9 x10 x11 x12 x13 x14 x15 x16 x17
      x18 x19 x20 x21 x22 x23 x24 x25 x26 x27 x28 x29 x30) := s in
  Build_World x1 x2 x3 x4 x5 x6 x7 x8 x9 x10 x11 x12 v x14 x15 x16 x17 x18 x19
    x20 x21 x22 x23 x24 x25 x26 x27 x28 x29 x30.

Definition set_mCheckForRampdown (v : bool) (s : World) : World :=
  let '(Build_World x1 x2 x3 x4 x5 x6 x7 x8 x9 x10 x11 x12 x13 x14 x15 x16 x17
      x18 x19 x20 x21 x22 x23 x24 x25 x26 x27 x28 x29 x30) := s in
  Build_World x1 x2 x3 x4 x5 x6 x7 x8 x9 x10 x11 x12 x13 v x15 x16 x17 x18 x19
    x20 x21 x22 x23 x24 x25 x26 x27 x28 x29 x30.

Definition set_firstFragmentDecrypted (v : bool) (s : World) : World :=
  let '(Build_World x1 x2 x3 x4 x5 x6 x7 x8 x9 x10 x11 x12 x13 x14 x15 x16 x17
      x18 x19 x20 x21 x22 x23 x24 x25 x26 x27 x28 x29 x30) := s in
  Build_World x1 x2 x3 x4 x5 x6 x7 x8 x9 x10 x11 x12 x13 x14 v x16 x17 x18 x19
    x20 x21 x22 x23 x24 x25 x26 x27 x28 x29 x30.

Definition set_mIsAtLivePoint (v : bool) (s : World) : World :=
  let '(Build_World x1 x2 x3 x4 x5 x6 x7 x8 x9 x10 x11 x12 x13 x14 x15 x16 x17
      x18 x19 x20 x21 x22 x23 x24 x25 x26 x27 x28 x29 x30) := s in
  Build_World x1 x2 x3 x4 x5 x6 x7 x8 x9 x10 x11 x12 x13 x14 x15 v x17 x18 x19
    x20 x21 x22 x23 x24 x25 x26 x27 x28 x29 x30.

Definition set_seekPosition (v : Q) (s : World) : World :=
  let '(Build_World x1 x2 x3 x4 x5 x6 x7 x8 x9 x10 x11 x12 x13 x14 x15 x16 x17
      x18 x19 x20 x21 x22 x23 x24 x25 x26 x27 x28 x29 x30) := s in
  Build_World x1 x2 x3 x4 x5 x6 x7 x8 x9 x10 x11 x12 x13 x14 x15 x16 x17 v x19
    x20 x21 x22 x23 x24 x25 x26 x27 x28 x29 x30.

Definition set_isLive (v : bool) (s : World) : World :=
  let '(Build_World x1 x2 x3 x4 x5 x6 x7 x8 x9 x10 x11 x12 x13 x14 x15 x16 x17
      x18 x19 x20 x21 x22 x23 x24 x25 x26 x27 x28 x29 x30) := s in
  Build_World x1 x2 x3 x4 x5 x6 x7 x8 x9 x10 x11 x12 x13 x14 x15 x16 x17 x18 v
    x20 x21 x22 x23 x24 x25 x26 x27 x28 x29 x30.

Definition set_mEnableCache (v : bool) (s : World) : World :=
  let '(Build_World x1 x2 x3 x4 x5 x6 x7 x8 x9 x10 x11 x12 x13 x14 x15 x16 x17
      x18 x19 x20 x21 x22 x23 x24 x25 x26 x27 x28 x29 x30) := s in
  Build_World x1 x2 x3 x4 x5 x6 x7 x8 x9 x10 x11 x12 x13 x14 x15 x16 x17 x18
    x19 x20 v x22 x23 x24 x25 x26 x27 x28 x29 x30.

Definition set_tsbSupported (v : bool) (s : World) : World :=
  let '(Build_World x1 x2 x3 x4 x5 x6 x7 x8 x9 x10 x11 x12 x13 x14 x15 x16 x17
      x18 x19 x20 x21 x22 x23 x24 x25 x26 x27 x28 x29 x30) := s in
  Build_World x1 x2 x3 x4 x5 x6 x7 x8 x9 x10 x11 x12 x13 x14 x15 x16 x17 x18
    x19 x20 x21 x22 v x24 x25 x26 x27 x28 x29 x30.

Definition set_inProgressCDVR (v : bool) (s : World) : World :=
  let '(Build_World x1 x2 x3 x4 x5 x6 x7 x8 x9 x10 x11 x12 x13 x14 x15 x16 x17
      x18 x19 x20 x21 x22 x23 x24 x25 x26 x27 x28 x29 x30) := s in
  Build_World x1 x2 x3 x4 x5 x6 x7 x8 x9 x10 x11 x12 x13 x14 x15 x16 x17 x18
    x19 x20 x21 x22 x23 v x25 x26 x27 x28 x29 x30.

Definition set_durationSeconds (v : Q) (s : World) : World :=
  let '(Build_World x1 x2 x3 x4 x5 x6 x7 x8 x9 x10 x11 x12 x13 x14 x15 x16 x17
      x18 x19 x20 x21 x22 x23 x24 x25 x26 x27 x28 x29 x30) := s in
  Build_World x1 x2 x3 x4 x5 x6 x7 x8 x9 x10 x11 x12 x13 x14 x15 x16 x17 x18
    x19 x20 x21 x22 x23 x24 v x26 x27 x28 x29 x30.

Definition set_culledSeconds (v : Q) (s : World) : World :=
  let '(Build_World x1 x2 x3 x4 x5 x6 x7 x8 x9 x10 x11 x12 x13 x14 x15 x16 x17
      x18 x19 x20 x21 x22 x23 x24 x25 x26 x27 x28 x29 x30) := s in
  Build_World x1 x2 x3 x4 x5 x6 x7 x8 x9 x10 x11 x12 x13 x14 x15 x16 x17 x18
    x19 x20 x21 x22 x23 x24 x25 v x27 x28 x29 x30.

Definition set_events (v : list Event) (s : World) : World :=
  let '(Build_World x1 x2 x3 x4 x5 x6 x7 x8 x9 x10 x11 x12 x13 x14 x15 x16 x17
      x18 x19 x20 x21 x22 x23 x24 x25 x26 x27 x28 x29 x30) := s in
  Build_World x1 x2 x3 x4 x5 x6 x7 x8 x9 x10 x11 x12 x13 x14 x15 x16 x17 x18
    x19 x20 x21 x22 x23 x24 x25 x26 v x28 x29 x30.

Definition set_gDeferredDrmMetaDataSha1Hash (v : string) (s : World) : World :=
  let '(Build_World x1 x2 x3 x4 x5 x6 x7 x8 x9 x10 x11 x12 x13 x14 x15 x16 x17
      x18 x19 x20 x21 x22 x23 x24 x25 x26 x27 x28 x29 x30) := s in
  Build_World x1 x2 x3 x4 x5 x6 x7 x8 x9 x10 x11 x12 x13 x14 x15 x16 x17 x18
    x19 x20 x21 x22 x23 x24 x25 x26 x27 v x29 x30.

Definition set_gDeferredDrmLicRequestPending (v : bool) (s : World) : World :=
  let '(Build_World x1 x2 x3 x4 x5 x6 x7 x8 x9 x10 x11 x12 x13 x14 x15 x16 x17
      x18 x19 x20 x21 x22 x23 x24 x25 x26 x27 x28 x29 x30) := s in
  Build_World x1 x2 x3 x4 x5 x6 x7 x8 x9 x10 x11 x12 x13 x14 x15 x16 x17 x18
    x19 x20 x21 x22 x23 x24 x25 x26 x27 x28 v x30.

Definition set_gDeferredDrmLicTagUnderProcessing (v : bool) (s : World) : World :=
  let '(Build_World x1 x2 x3 x4 x5 x6 x7 x8 x9 x10 x11 x12 x13 x14 x15 x16 x17
      x18 x19 x20 x21 x22 x23 x24 x25 x26 x27 x28 x29 x30) := s in
  Build_World x1 x2 x3 x4 x5 x6 x7 x8 x9 x10 x11 x12 x13 x14 x15 x16 x17 x18
    x19 x20 x21 x22 x23 x24 x25 x26 x27 x28 x29 v.

#[local] Unset Primitive Projections.

Definition trackState (w : World) (t : TrackType) : TrackState :=
  match t with
  | eTRACK_VIDEO => video w
  | eTRACK_AUDIO => audio w
  end.

Definition set_trackState (t : TrackType) (ts : TrackState) (w : World) : World :=
  match t with
  | eTRACK_VIDEO => set_video ts w
  | eTRACK_AUDIO => set_audio ts w
  end.

(** [this->field = v] for the track [t]. *)
Definition on_track (t : TrackType) (f : TrackState -> TrackState) (w : World)
  : World :=
  set_trackState t (f (trackState w t)) w.

Definition emit (e : Event) (w : World) : World :=
  set_events (events w ++ [e])%list w.

Definition indexCount (ts : TrackState) : Z := Z.of_nat (List.length (index ts)).
Definition mDiscontinuityIndexCount (ts : TrackState) : Z :=
  Z.of_nat (List.length (mDiscontinuityIndex ts)).
Definition mDrmMetaDataIndexCount (ts : TrackState) : Z :=
  Z.of_nat (List.length (mDrmMetaDataIndex ts)).

(** [array[i]] for a C [int] index: outside the array there is no element. *)
Definition at_index {A : Type} (l : list A) (i : Z) : option A :=
  if i <? 0 then None else nth_error l (Z.to_nat i).
(** ** Playlist refresh cadence (TrackState::RunFetchLoop)

    Here the rounding of a [double] decides which delay is picked (the
    product [(culled + duration) * 1000] is rounded before it is cut to an
    integer), so the doubles of this computation are binary64 floats, with
    the operations of the processor.  A conversion of a [double] that does
    not fit the integer type, and an overflow of signed arithmetic, are
    undefined; [long] has 64 bits. *)

Module Cadence.
Import PrimFloat FloatOps SpecFloat.

Local Open Scope Z_scope.

(** What the loop reads before it sleeps: the clock, the time of the last
    playlist download, the player's culled seconds, duration and play
    position, and the track's target duration. *)
Record Inputs := {
  aamp_GetCurrentTimeMS : Z;
  lastPlaylistDownloadTimeMS : Z;
  culledSeconds : float;
  durationSeconds : float;
  GetPositionMs : Z;
  targetDurationSeconds : float
}.

(** [z] is a value of the signed integer type of [bits] bits. *)
Definition fits (bits z : Z) : bool :=
  (- 2 ^ (bits - 1) <=? z) && (z <? 2 ^ (bits - 1)).

(** The result of signed arithmetic in [bits] bits. *)
Definition signed (bits z : Z) : res Z :=
  if fits bits z then Ok z else Undefined.

(** A [double] with its fraction discarded; nothing for an infinity or a
    NaN. *)
Definition double_trunc (f : float) : option Z :=
  match Prim2SF f with
  | S754_zero _ => Some 0
  | S754_finite s m e =>
      let a := match e with
               | Zneg k => Z.shiftr (Zpos m) (Zpos k)
               | _ => Z.shiftl (Zpos m) e
               end in
      Some (if s then - a else a)
  | S754_infinity _ | S754_nan => None
  end.

(** [(int) f], [(long long) f] *)
Definition to_integer (bits : Z) (f : float) : res Z :=
  match double_trunc f with
  | Some z => signed bits z
  | None => Undefined
  end.

(** [(double) z]: the nearest [double], ties to even. *)
Definition of_integer (z : Z) : float :=
  SF2Prim (binary_normalize prec emax z 0 false).

(** The delay picked from the buffer depth, before the elapsed time is
    taken off: the [if] / [else if] chain. *)
Definition delayForBuffer (targetDurationSeconds : float) (bufferAvailable : Z)
  : res Z :=
  if ltb (targetDurationSeconds * 2 * 1000)%float (of_integer bufferAvailable)
  then to_integer 32 (1.5 * 1000 * targetDurationSeconds)%float
  else if ltb (targetDurationSeconds * 1000)%float (of_integer bufferAvailable)
  then to_integer 32 (0.5 * 1000 * targetDurationSeconds)%float
  else if bufferAvailable >? 2 * MAX_DELAY_BETWEEN_PLAYLIST_UPDATE_MS
  then Ok MAX_DELAY_BETWEEN_PLAYLIST_UPDATE_MS
  else if negb (bufferAvailable =? 0)
  then Ok (to_int (Z.quot bufferAvailable 3))
  else Ok MIN_DELAY_BETWEEN_PLAYLIST_UPDATE_MS.

(** The last adjustment: the delay is kept within the two bounds. *)
Definition restrict (minDelayBetweenPlaylistUpdates : Z) : Z :=
  if minDelayBetweenPlaylistUpdates >? MAX_DELAY_BETWEEN_PLAYLIST_UPDATE_MS
  then MAX_DELAY_BETWEEN_PLAYLIST_UPDATE_MS
  else if minDelayBetweenPlaylistUpdates <? MIN_DELAY_BETWEEN_PLAYLIST_UPDATE_MS
  then MIN_DELAY_BETWEEN_PLAYLIST_UPDATE_MS
  else minDelayBetweenPlaylistUpdates.

(** The [if (lastPlaylistDownloadTimeMS)] block: the argument of
    [InterruptableMsSleep], and no sleep when no playlist was downloaded
    yet. *)
Definition minDelayBetweenPlaylistUpdates (i : Inputs) : res (option Z) :=
  if lastPlaylistDownloadTimeMS i =? 0 then Ok None
  else
    since <- signed 64 (aamp_GetCurrentTimeMS i - lastPlaylistDownloadTimeMS i) ;;
    let timeSinceLastPlaylistDownload := to_int since in
    endPositionAvailable <-
      to_integer 64 ((culledSeconds i + durationSeconds i) * 1000)%float ;;
    bufferAvailable <- signed 64 (endPositionAvailable - GetPositionMs i) ;;
    picked <- delayForBuffer (targetDurationSeconds i) bufferAvailable ;;
    minDelay <- signed 32 (picked - timeSinceLastPlaylistDownload) ;;
    Ok (Some (restrict minDelay)).

(** The loop [elapsed] ms after a playlist download, with [buffer_s]
    seconds of content ahead of the play position and a target duration of
    [target_s] seconds. *)
Definition at_buffer (buffer_s target_s : float) (elapsed : Z) : Inputs :=
  {| aamp_GetCurrentTimeMS := 1000000 + elapsed;
     lastPlaylistDownloadTimeMS := 1000000;
     culledSeconds := 100; durationSeconds := buffer_s;
     GetPositionMs := 100000; targetDurationSeconds := target_s |}.

(** Two seconds after a download, with 8 s of content ahead and a target
    duration of 6 s. *)
Definition two_seconds_later : Inputs := at_buffer 8 6 2000.

End Cadence.

(** ** Refresh cadence: what the loop sleeps *)

Section CadenceFacts.
Import Cadence.
Import PrimFloat.

Local Open Scope Z_scope.

Lemma restrict_as_max_min (x : Z) : restrict x = Z.max 500 (Z.min 6000 x).
Proof.
  unfold restrict, MAX_DELAY_BETWEEN_PLAYLIST_UPDATE_MS,
    MIN_DELAY_BETWEEN_PLAYLIST_UPDATE_MS.
  destruct (Z.gtb_spec x (6 * 1000)); [lia|].
  destruct (Z.ltb_spec x 500); lia.
Qed.

Lemma signed_fits (bits z : Z) : fits bits z = true -> signed bits z = Ok z.
Proof. unfold signed. intros ->. reflexivity. Qed.

Lemma to_integer_fits (bits : Z) (f : float) (z : Z) :
  double_trunc f = Some z -> fits bits z = true -> to_integer bits f = Ok z.
Proof. unfold to_integer. intros -> H. apply signed_fits. exact H. Qed.

(** The computation up to the delay picked, under the conditions that keep
    every value inside its type. *)
Lemma minDelayBetweenPlaylistUpdates_picked (i : Inputs) (E picked : Z) :
  lastPlaylistDownloadTimeMS i <> 0 ->
  fits 64 (aamp_GetCurrentTimeMS i - lastPlaylistDownloadTimeMS i) = true ->
  double_trunc ((culledSeconds i + durationSeconds i) * 1000)%float = Some E ->
  fits 64 E = true ->
  fits 64 (E - GetPositionMs i) = true ->
  delayForBuffer (targetDurationSeconds i) (E - GetPositionMs i) = Ok picked ->
  fits 32 (picked
           - to_int (aamp_GetCurrentTimeMS i - lastPlaylistDownloadTimeMS i))
  = true ->
  minDelayBetweenPlaylistUpdates i
  = Ok (Some (Z.max 500
                (Z.min 6000
                   (picked - to_int (aamp_GetCurrentTimeMS i
                                     - lastPlaylistDownloadTimeMS i))))).
Proof.
  intros Hlast Hsince HE HfE HB Hpicked Hd.
  unfold minDelayBetweenPlaylistUpdates.
  apply Z.eqb_neq in Hlast. rewrite Hlast.
  rewrite (signed_fits _ _ Hsince). cbn [bind].
  rewrite (to_integer_fits _ _ _ HE HfE). cbn [bind].
  rewrite (signed_fits _ _ HB). cbn [bind].
  rewrite Hpicked. cbn [bind].
  rewrite (signed_fits _ _ Hd). cbn [bind].
  rewrite restrict_as_max_min. reflexivity.
Qed.

(** C2. The delay a live track sleeps before its next playlist refresh,
    once a playlist has been downloaded ([lastPlaylistDownloadTimeMS] is not
    0; before that the loop does not sleep).  With the buffer
    [(long long)((culled + duration) * 1000) - play position] in
    milliseconds, the delay picked is [(int)(1.5 * 1000 * target)] if the
    buffer is above [target * 2 * 1000], else [(int)(0.5 * 1000 * target)]
    if it is above [target * 1000], else 6000 if it is above 2 * 6000, else
    a third of the buffer, and 500 when the buffer is 0.  The time since the
    last download, [(int)(now - last)], is taken off and the result is kept
    within [500, 6000].  Every step is the machine's: products are rounded
    as doubles, and the hypotheses say that the values fit their integer
    types.  With a target duration of 6 s and no time elapsed, a 20 s buffer
    picks 9000 and sleeps 6000, an 8 s buffer sleeps 3000, a 1 s buffer
    picks 333 and sleeps 500; 2 s after the download the 8 s buffer sleeps
    1000. *)
Theorem refresh_delay_by_buffer (i : Inputs) (E : Z) :
  lastPlaylistDownloadTimeMS i <> 0 ->
  fits 64 (aamp_GetCurrentTimeMS i - lastPlaylistDownloadTimeMS i) = true ->
  double_trunc ((culledSeconds i + durationSeconds i) * 1000)%float = Some E ->
  fits 64 E = true ->
  fits 64 (E - GetPositionMs i) = true ->
  let B := E - GetPositionMs i in
  let T := targetDurationSeconds i in
  let elapsed :=
    to_int (aamp_GetCurrentTimeMS i - lastPlaylistDownloadTimeMS i) in
  let sleeps (picked : Z) :=
    minDelayBetweenPlaylistUpdates i
    = Ok (Some (Z.max 500 (Z.min 6000 (picked - elapsed)))) in
  let above (limit : float) := ltb limit (of_integer B) in
  (forall picked,
      above (T * 2 * 1000)%float = true ->
      double_trunc (1.5 * 1000 * T)%float = Some picked ->
      fits 32 picked = true -> fits 32 (picked - elapsed) = true ->
      sleeps picked)
  /\ (forall picked,
        above (T * 2 * 1000)%float = false ->
        above (T * 1000)%float = true ->
        double_trunc (0.5 * 1000 * T)%float = Some picked ->
        fits 32 picked = true -> fits 32 (picked - elapsed) = true ->
        sleeps picked)
  /\ (above (T * 2 * 1000)%float = false -> above (T * 1000)%float = false ->
      2 * 6000 < B -> fits 32 (6000 - elapsed) = true -> sleeps 6000)
  /\ (above (T * 2 * 1000)%float = false -> above (T * 1000)%float = false ->
      B <= 2 * 6000 -> B <> 0 ->
      fits 32 (to_int (Z.quot B 3) - elapsed) = true ->
      sleeps (to_int (Z.quot B 3)))
  /\ (above (T * 2 * 1000)%float = false -> above (T * 1000)%float = false ->
      B = 0 -> fits 32 (500 - elapsed) = true -> sleeps 500)
  /\ (forall j d, minDelayBetweenPlaylistUpdates j = Ok (Some d) ->
                  500 <= d <= 6000)
  /\ (forall j, lastPlaylistDownloadTimeMS j = 0 ->
                minDelayBetweenPlaylistUpdates j = Ok None)
  /\ (delayForBuffer 6 20000 = Ok 9000
      /\ minDelayBetweenPlaylistUpdates (at_buffer 20 6 0) = Ok (Some 6000))
  /\ (delayForBuffer 6 8000 = Ok 3000
      /\ minDelayBetweenPlaylistUpdates (at_buffer 8 6 0) = Ok (Some 3000))
  /\ (delayForBuffer 6 1000 = Ok 333
      /\ minDelayBetweenPlaylistUpdates (at_buffer 1 6 0) = Ok (Some 500))
  /\ minDelayBetweenPlaylistUpdates (at_buffer 8 6 2000) = Ok (Some 1000).
Proof.
  intros Hlast Hsince HE HfE HB B T elapsed sleeps above.
  assert (Main : forall picked,
             delayForBuffer T B = Ok picked ->
             fits 32 (picked - elapsed) = true -> sleeps picked).
  { intros picked Hp Hd.
    exact (minDelayBetweenPlaylistUpdates_picked i E picked Hlast Hsince HE HfE
             HB Hp Hd). }
  split; [|split; [|split; [|split; [|split; [|split; [|split]]]]]].
  - intros picked H1 Hp Hf Hd. apply Main; [|exact Hd].
    unfold delayForBuffer. fold (above (T * 2 * 1000)%float). rewrite H1.
    apply to_integer_fits; assumption.
  - intros picked H1 H2 Hp Hf Hd. apply Main; [|exact Hd].
    unfold delayForBuffer. fold (above (T * 2 * 1000)%float). rewrite H1.
    fold (above (T * 1000)%float). rewrite H2.
    apply to_integer_fits; assumption.
  - intros H1 H2 Hb Hd. apply Main; [|exact Hd].
    unfold delayForBuffer. fold (above (T * 2 * 1000)%float). rewrite H1.
    fold (above (T * 1000)%float). rewrite H2.
    unfold MAX_DELAY_BETWEEN_PLAYLIST_UPDATE_MS.
    destruct (Z.gtb_spec B (2 * (6 * 1000))); [reflexivity | lia].
  - intros H1 H2 Hb Hn Hd. apply Main; [|exact Hd].
    unfold delayForBuffer. fold (above (T * 2 * 1000)%float). rewrite H1.
    fold (above (T * 1000)%float). rewrite H2.
    unfold MAX_DELAY_BETWEEN_PLAYLIST_UPDATE_MS.
    destruct (Z.gtb_spec B (2 * (6 * 1000))); [lia|].
    destruct (Z.eqb_spec B 0); [contradiction | reflexivity].
  - intros H1 H2 Hb Hd. apply Main; [|exact Hd].
    unfold delayForBuffer. fold (above (T * 2 * 1000)%float). rewrite H1.
    fold (above (T * 1000)%float). rewrite H2.
    unfold MAX_DELAY_BETWEEN_PLAYLIST_UPDATE_MS.
    destruct (Z.gtb_spec B (2 * (6 * 1000))); [lia|].
    destruct (Z.eqb_spec B 0); [reflexivity | contradiction].
  - intros j d H. unfold minDelayBetweenPlaylistUpdates in H.
    destruct (lastPlaylistDownloadTimeMS j =? 0); [discriminate|].
    repeat match type of H with
           | bind ?r _ = _ => destruct r; [cbn [bind] in H | discriminate H]
           end.
    injection H as <-. rewrite restrict_as_max_min. lia.
  - intros j H. unfold minDelayBetweenPlaylistUpdates. rewrite H. reflexivity.
  - repeat split; vm_compute; reflexivity.
Qed.

(** The product is rounded before it is cut: the double nearest to 12.001
    is a little below it, a thousand times that is below 12001, and the
    loop computes 12001 ms, which is above twice a target duration of 6 s. *)
Lemma rounded_before_cut :
  double_trunc (0x1.80083126e978dp+3 * 1000)%float = Some 12001
  /\ delayForBuffer 6 12001 = Ok 9000.
Proof. split; vm_compute; reflexivity. Qed.

End CadenceFacts.

(** ** A sample of the externals

    Decimal readers for [atof], [atoi], [atoll] and [strtol] (blanks, a
    sign, digits, for [atof] a fraction; no exponent), the date-time
    [sscanf], and [mktime] for the UTC time zone.  The DRM helpers are
    stand-ins (the hash of a payload is the payload).  Used to run the
    model on playlists; the general statements hold for any [Externals]. *)

Module Sample.

Definition digit_of (c : ascii) : option Z :=
  let n := Z.of_nat (nat_of_ascii c) in
  if (48 <=? n) && (n <=? 57) then Some (n - 48) else None.

Definition is_space (c : ascii) : bool :=
  let n := nat_of_ascii c in
  (n =? 32)%nat || ((9 <=? n) && (n <=? 13))%nat.

Fixpoint skip_blanks (p : string) : string :=
  match p with
  | String c rest => if is_space c then skip_blanks rest else p
  | EmptyString => p
  end.

(** The digits at [p]: their value on top of [acc], how many there are, and
    the text after them. *)
Fixpoint read_digits (p : string) (acc : Z) (count : nat) : Z * nat * string :=
  match p with
  | String c rest =>
      match digit_of c with
      | Some d => read_digits rest (10 * acc + d) (S count)
      | None => (acc, count, p)
      end
  | EmptyString => (acc, count, p)
  end.

Definition read_sign (p : string) : bool * string :=
  match p with
  | String "-" rest => (true, rest)
  | String "+" rest => (false, rest)
  | _ => (false, p)
  end.

(** [%d]: blanks, a sign, at least one digit. *)
Definition read_int (p : string) : option (Z * string) :=
  let '(neg, p) := read_sign (skip_blanks p) in
  let '(v, count, rest) := read_digits p 0 O in
  match count with
  | O => None
  | _ => Some (if neg then - v else v, rest)
  end.

Definition atoll (p : string) : Z :=
  match read_int p with Some (v, _) => v | None => 0 end.

Definition atof (p : string) : Q :=
  let '(neg, p) := read_sign (skip_blanks p) in
  let '(whole, _, rest) := read_digits p 0 O in
  let magnitude :=
    match rest with
    | String "." frac =>
        let '(v, count, _) := read_digits frac 0 O in
        (inject_Z whole + inject_Z v / inject_Z (10 ^ Z.of_nat count))%Q
    | _ => inject_Z whole
    end in
  Qred (if neg then - magnitude else magnitude)%Q.

Definition expect (c : ascii) (p : string) : option string :=
  match p with
  | String d rest => if Ascii.eqb c d then Some rest else None
  | EmptyString => None
  end.

Definition zero_tm : tm :=
  {| tm_year := 0; tm_mon := 0; tm_mday := 0; tm_hour := 0; tm_min := 0;
     tm_sec := 0 |}.

(** Reads [fields] integers, each but the first after its separator; stops
    at the first that is missing. *)
Fixpoint read_fields (seps : list ascii) (p : string) (first : bool)
  : list Z :=
  match seps with
  | [] => []
  | sep :: seps' =>
      match (if first then Some p else expect sep p) with
      | Some p =>
          match read_int p with
          | Some (v, rest) => v :: read_fields seps' rest false
          | None => []
          end
      | None => []
      end
  end.

Definition sscanf_date_time (p : string) : Z * tm * Z :=
  let vs := read_fields ["-"; "-"; "-"; "T"; ":"; ":"; "."]%char p true in
  let f := fun k => nth k vs 0 in
  (Z.of_nat (List.length vs),
   {| tm_year := f 0%nat; tm_mon := f 1%nat; tm_mday := f 2%nat;
      tm_hour := f 3%nat; tm_min := f 4%nat; tm_sec := f 5%nat |},
   f 6%nat).

(** Days from 1970-01-01 to the first day of month [m] (0 to 11) of year [y]. *)
Definition days_to_month (y m : Z) : Z :=
  let y' := if m <? 2 then y - 1 else y in
  let era := y' / 400 in
  let yoe := y' - era * 400 in
  let mp := (m + 10) mod 12 in
  let doy := (153 * mp + 2) / 5 in
  let doe := yoe * 365 + yoe / 4 - yoe / 100 + doy in
  era * 146097 + doe - 719468.

Definition mktime (t : tm) : Z :=
  let months := (tm_year t + 1900) * 12 + tm_mon t in
  let days := days_to_month (months / 12) (months mod 12) + (tm_mday t - 1) in
  ((days * 24 + tm_hour t) * 60 + tm_min t) * 60 + tm_sec t.

Fixpoint hex_pairs (p : string) (limit : nat) : Z :=
  match limit with
  | O => 0
  | S limit' =>
      match p with
      | String _ (String _ rest) => 1 + hex_pairs rest limit'
      | _ => 0
      end
  end.

Definition externals : Externals :=
  Build_Externals atof atoll atoll atoll sscanf_date_time mktime
    (fun p => (first_chars 32 p, hex_pairs p 16))
    (fun payload => {| metadata := payload; sha1Hash := payload |})
    (fun _ => -1)
    40%nat 4096%nat 10 10.

End Sample.

(** ** The state the constructors leave *)

Definition new_TrackState (type_ : TrackType) (enabled_ : bool) : TrackState :=
  {| type := type_; enabled := enabled_;
     playlist := no_buffer; fragmentURI := None;
     playTarget := 0; playTargetOffset := 0; playlistPosition := 0;
     fragmentDurationSeconds := 0; targetDurationSeconds := 1;
     nextMediaSequenceNumber := 0;
     byteRangeLength := 0; byteRangeOffset := 0;
     discontinuity := false; mSyncAfterDiscontinuityInProgress := false;
     eosReached := false;
     startTimeForPlaylistSync := {| tv_sec := 0; tv_usec := 0 |};
     index := []; indexFirstMediaSequenceNumber := 0; currentIdx := 0;
     mDiscontinuityIndex := []; mDrmMetaDataIndex := [];
     mDrmMetaDataIndexPosition := 0; mDrmKeyTagCount := 0;
     mInitFragmentInfo := None;
     mDuration := 0; mCulledSeconds := 0; mLastMatchedDiscontPosition := -1;
     lastPlaylistDownloadTimeMS := 0; manifestDLFailCount := 0;
     segDLFailCount := 0; segDrmDecryptFailCount := 0;
     refreshPlaylist := false; firstIndexDone := false;
     mIndexingInProgress := false; mForceProcessDrmMetadata := false;
     mDrmLicenseRequestPending := false;
     fragmentEncrypted := false; mCMSha1Hash := None;
     mDrmInfo := {| method := eMETHOD_NONE; uri := None; iv := None |};
     cachedFragment := {| fragment := no_buffer; cf_position := 0;
                          cf_duration := 0; cf_discontinuity := false |} |}.

(** A presentation right after construction, at play rate [rate_]: both
    tracks enabled, downloads enabled, no TSB. *)
Definition new_World (rate_ : Q) : World :=
  {| video := new_TrackState eTRACK_VIDEO true;
     audio := new_TrackState eTRACK_AUDIO true;
     playlistType := ePLAYLISTTYPE_UNDEFINED; hasEndListTag := false;
     rate := rate_; trickplayMode := negb (Qeq_bool rate_ 1);
     mTrickPlayFPS := 4; iframeTrack := -1;
     allowsCache := false; mNumberOfTracks := 2;
     mNetworkDownDetected := false;
     currentProfileIndex := 0; lastSelectedProfileIndex := 0;
     mCheckForRampdown := false; firstFragmentDecrypted := false;
     mIsAtLivePoint := false; mTuneType := eTUNETYPE_NEW_NORMAL;
     seekPosition := 0;
     isLive := false; mLiveOffset := 15; mEnableCache := false;
     downloadsEnabled := true; tsbSupported := false; inProgressCDVR := false;
     durationSeconds := 0; culledSeconds := 0;
     events := [];
     gDeferredDrmMetaDataSha1Hash := EmptyString;
     gDeferredDrmLicRequestPending := false;
     gDeferredDrmLicTagUnderProcessing := false |}.

(** A buffer holding [text]. *)
Definition buffer_of (text : string) : GrowableBuffer :=
  {| ptr := Some text; len := Z.of_nat (String.length text);
     avail := Z.of_nat (String.length text) + 1; nuls := [] |}.

(** Lines joined by LF, each line ended by one. *)
Fixpoint unlines (lines : list string) : string :=
  match lines with
  | [] => EmptyString
  | line :: lines' => (line ++ String CHAR_LF (unlines lines'))%string
  end.

(** ** Lines, dates and the KEY tag *)

(** [mystrpbrk]: the line at [p], which the NUL stored over its LF (or over
    the CR before it) ends, and the pointer after the LF, if there is an
    LF.  [mystrpbrk_fin] below tells where the NUL is stored; the loops
    that go through a playlist buffer keep that store in the buffer
    ([cut_playlist]). *)
Fixpoint mystrpbrk (p : string) : string * option string :=
  match p with
  | EmptyString => (EmptyString, None)
  | String c rest =>
      if Ascii.eqb c CHAR_LF then (EmptyString, Some rest)
      else
        match rest with
        | String d rest' =>
            if Ascii.eqb c CHAR_CR && Ascii.eqb d CHAR_LF
            then (EmptyString, Some rest')
            else let (line, next) := mystrpbrk rest in (String c line, next)
        | EmptyString => (String c EmptyString, None)
        end
  end.

(** [fin - ptr] at the [*fin = 0x00] of [mystrpbrk(ptr)]: where the NUL is
    stored, at the LF or at the CR before it, when there is an LF. *)
Fixpoint mystrpbrk_fin (p : string) : option nat :=
  match p with
  | EmptyString => None
  | String c rest =>
      if Ascii.eqb c CHAR_LF then Some O
      else
        match rest with
        | String d rest' =>
            if Ascii.eqb c CHAR_CR && Ascii.eqb d CHAR_LF
            then Some O
            else option_map S (mystrpbrk_fin rest)
        | EmptyString => None
        end
  end.

(** The lines a [while (ptr) { next = mystrpbrk(ptr); ...; ptr = next; }]
    loop goes through, from [p] to the end of the buffer. *)
Fixpoint split_lines (p : string) : list string :=
  match p with
  | EmptyString => [EmptyString]
  | String c rest =>
      if Ascii.eqb c CHAR_LF then EmptyString :: split_lines rest
      else
        match rest with
        | String d rest' =>
            if Ascii.eqb c CHAR_CR && Ascii.eqb d CHAR_LF
            then EmptyString :: split_lines rest'
            else match split_lines rest with
                 | line :: lines => String c line :: lines
                 | [] => [String c EmptyString]
                 end
        | EmptyString => [String c EmptyString]
        end
  end.

(** The same lines when [p] stands at offset [o] of the buffer, each with
    the offset it begins at and the offset at which [mystrpbrk] stores the
    NUL that ends it; the last line has no LF and gets no store. *)
Fixpoint line_spans (p : string) (o : nat) : list (nat * string * option nat) :=
  match p with
  | EmptyString => [(o, EmptyString, None)]
  | String c rest =>
      if Ascii.eqb c CHAR_LF
      then (o, EmptyString, Some o) :: line_spans rest (S o)
      else
        match rest with
        | String d rest' =>
            if Ascii.eqb c CHAR_CR && Ascii.eqb d CHAR_LF
            then (o, EmptyString, Some o) :: line_spans rest' (S (S o))
            else match line_spans rest (S o) with
                 | (_, line, fin) :: lines => (o, String c line, fin) :: lines
                 | [] => [(o, String c EmptyString, None)]
                 end
        | EmptyString => [(o, String c EmptyString, None)]
        end
  end.

(** [p + n], as long as it stays inside the string or on its terminator. *)
Fixpoint advance (n : nat) (p : string) : res string :=
  match n with
  | O => Ok p
  | S n' =>
      match p with
      | String _ rest => advance n' rest
      | EmptyString => Undefined
      end
  end.

(** A NUL is stored at offset [o] of [t]'s playlist buffer. *)
Definition cut_playlist (t : TrackType) (o : nat) (w : World) : World :=
  on_track t (fun ts => set_playlist (store_nul o (playlist ts)) ts) w.

Section WithExternals.
Context {ext : Externals}.

Definition ParseTimeFromProgramDateTime (p : string) : option timeval :=
  let '(ret, timeinfo, ms) := sscanf_date_time p in
  if ret >=? 6 then
    let timeinfo :=
      {| tm_year := tm_year timeinfo - 1900; tm_mon := tm_mon timeinfo;
         tm_mday := tm_mday timeinfo; tm_hour := tm_hour timeinfo;
         tm_min := tm_min timeinfo; tm_sec := tm_sec timeinfo |} in
    Some {| tv_sec := mktime timeinfo; tv_usec := ms * 1000 |}
  else None.

(** [tv_sec + (double) tv_usec / 1000000] *)
Definition seconds_of (t : timeval) : Q :=
  inject_Z (tv_sec t) + inject_Z (tv_usec t) / 1000000.

Definition AttributeNameMatch (attrNamePtr targetAttrNameCString : string) : bool :=
  match startswith attrNamePtr targetAttrNameCString with
  | Some rest => Ascii.eqb (deref rest) "="
  | None => false
  end.

(** [SubStringMatch(srcStart, srcFin, cstring)]: [cstring] is matched while
    [srcStart <= srcFin], and found once its NUL is reached inside that
    range. *)
Definition SubStringMatch (srcStart srcFin cstring : string) : bool :=
  has_prefix srcStart cstring
  && (String.length cstring <=? String.length srcStart - String.length srcFin)%nat.

(** [GetAttributeValueString]: for a quoted value the text between the
    quotes; the character before [fin] is asserted to be the end quote, and
    a NUL is stored over it ([quote_store]). *)
Definition GetAttributeValueString (valuePtr fin : string) : res string :=
  match valuePtr with
  | String c v =>
      if Ascii.eqb c CHAR_QUOTE then
        let n := (String.length v - String.length fin)%nat in
        match n with
        | O => Ok v
        | S n' =>
            match String.get n' v with
            | Some e => if Ascii.eqb e CHAR_QUOTE then Ok (substring 0 n' v)
                        else Undefined
            | None => Undefined
            end
        end
      else Ok valuePtr
  | EmptyString => Ok valuePtr
  end.

(** Where [GetAttributeValueString(valuePtr, fin)] stores its NUL: at
    [fin - 1], for a value that begins with a quote.  [fin_end] is the
    offset in the buffer of the NUL that ends the string [fin] points into. *)
Definition quote_store (valuePtr fin : string) (fin_end : nat) : option nat :=
  if Ascii.eqb (deref valuePtr) CHAR_QUOTE
  then Some (fin_end - String.length fin - 1)%nat else None.

(** The first [DRM_SHA1_HASH_LEN] bytes at [p]. *)
Definition hash_at (p : string) : res string :=
  if (DRM_SHA1_HASH_LEN <=? String.length p)%nat
  then Ok (first_chars DRM_SHA1_HASH_LEN p) else Undefined.

Fixpoint find_hash (hash : string) (nodes : list DrmMetadataNode) (i : Z)
  : option Z :=
  match nodes with
  | [] => None
  | node :: nodes' =>
      if String.eqb hash (first_chars DRM_SHA1_HASH_LEN (sha1Hash node))
      then Some i else find_hash hash nodes' (i + 1)
  end.

Definition UpdateDrmCMSha1Hash (p : option string) (ts : TrackState)
  : res TrackState :=
  match p with
  | None => Ok (set_mCMSha1Hash None ts)
  | Some p =>
      hash <- hash_at p ;;
      let drmDataChanged :=
        match mCMSha1Hash ts with
        | Some old => negb (String.eqb hash old)
        | None => true
        end in
      if drmDataChanged then
        let ts := set_mCMSha1Hash (Some hash) ts in
        match find_hash hash (mDrmMetaDataIndex ts) 0 with
        | Some i => Ok (set_mDrmMetaDataIndexPosition i ts)
        | None => Undefined
        end
      else Ok ts
  end.

Definition UpdateDrmIV (p : string) (ts : TrackState) : res TrackState :=
  let '(bytes, n) := base16_Decode p in
  if n =? 16 then
    Ok (set_mDrmInfo {| method := method (mDrmInfo ts); uri := uri (mDrmInfo ts);
                        iv := Some bytes |} ts)
  else Undefined.

(** The value is asserted to begin with [0x]. *)
Definition after_0x (valuePtr : string) : res string :=
  match valuePtr with
  | String "0" (String "x" rest) => Ok rest
  | _ => Undefined
  end.

(** [line_end] is the offset in [t]'s playlist buffer of the NUL that ends
    the line being parsed; it is [None] when the caller puts the bytes of
    the buffer back right after the parse, as [IndexPlaylist] does. *)
Definition ParseKeyAttributeCallback (t : TrackType) (line_end : option nat)
    (attrName delimEqual fin : string) (arg : res World) : res World :=
  w <- arg ;;
  let ts := trackState w t in
  let valuePtr := match delimEqual with String _ v => v | EmptyString => EmptyString end in
  if AttributeNameMatch attrName "METHOD" then
    if SubStringMatch valuePtr fin "NONE" then
      if fragmentEncrypted ts then
        ts <- UpdateDrmCMSha1Hash None (set_fragmentEncrypted false ts) ;;
        Ok (set_trackState t ts w)
      else Ok w
    else if SubStringMatch valuePtr fin "AES-128" then
      let ts := if fragmentEncrypted ts then ts else set_fragmentEncrypted true ts in
      Ok (set_trackState t
            (set_mDrmInfo {| method := eMETHOD_AES_128; uri := uri (mDrmInfo ts);
                             iv := iv (mDrmInfo ts) |} ts) w)
    else if SubStringMatch valuePtr fin "SAMPLE-AES" then
      Ok (emit (aamp_Error "SAMPLE-AES unsupported") w)
    else Ok (emit (aamp_Error "unsupported METHOD") w)
  else if AttributeNameMatch attrName "URI" then
    u <- GetAttributeValueString valuePtr fin ;;
    let w := set_trackState t
               (set_mDrmInfo {| method := method (mDrmInfo ts); uri := Some u;
                                iv := iv (mDrmInfo ts) |} ts) w in
    Ok match line_end with
       | Some fin_end =>
           match quote_store valuePtr fin fin_end with
           | Some o => cut_playlist t o w
           | None => w
           end
       | None => w
       end
  else if AttributeNameMatch attrName "IV" then
    srcPtr <- after_0x valuePtr ;;
    ts <- UpdateDrmIV srcPtr ts ;;
    Ok (set_trackState t ts w)
  else if AttributeNameMatch attrName "CMSha1Hash" then
    srcPtr <- after_0x valuePtr ;;
    ts <- UpdateDrmCMSha1Hash (Some srcPtr) ts ;;
    Ok (set_trackState t ts w)
  else Ok w.

(** [ParseAttrList(ptr, ParseKeyAttributeCallback, this)] *)
Definition ParseKeyAttrList (t : TrackType) (line_end : option nat) (p : string)
    (w : World) : res World :=
  match AttrList.ParseAttrList (ParseKeyAttributeCallback t line_end) p (Ok w) with
  | AttrList.Returned r => r
  | _ => Undefined
  end.

End WithExternals.

(** ** The discontinuity matcher (TrackState::HasDiscontinuityAroundPosition) *)

Local Open Scope Q_scope.

(** [DBL_MAX] *)
Definition DBL_MAX : Q := inject_Z ((2 ^ 53 - 1) * 2 ^ 971)%Z.

Definition other_track (t : TrackType) : TrackType :=
  match t with
  | eTRACK_VIDEO => eTRACK_AUDIO
  | eTRACK_AUDIO => eTRACK_VIDEO
  end.

Section Matcher.
Context {ext : Externals}.

(** What the [for] loop over the discontinuity index carries along. *)
Record MatchState : Type := {
  lastMatched : Q;
  diffBetweenDiscontinuities : Q;
  discontinuityPending : bool
}.

(** One pass over the discontinuity index of the track, nodes in order. *)
Fixpoint scan_discontinuities (nodes : list DiscontinuityIndexNode)
    (culled pos low high : Q) (useStartTime : bool) (m : MatchState)
  : res MatchState :=
  match nodes with
  | [] => Ok m
  | node :: nodes' =>
      if Qltb (lastMatched m) 0
         || Qgtb (position node + culled) (lastMatched m)
      then
        if negb useStartTime then
          if Qltb low (position node) && Qgtb high (position node) then
            Ok {| lastMatched := position node + culled;
                  diffBetweenDiscontinuities := diffBetweenDiscontinuities m;
                  discontinuityPending := true |}
          else scan_discontinuities nodes' culled pos low high useStartTime m
        else
          match programDateTime node with
          | None => Undefined
          | Some text =>
              match ParseTimeFromProgramDateTime text with
              | Some programDateTimeVal =>
                  let discPos := seconds_of programDateTimeVal in
                  if Qltb low discPos && Qgtb high discPos then
                    let diff := discPos - pos in
                    if Qltb (Qabs diff) (Qabs (diffBetweenDiscontinuities m)) then
                      scan_discontinuities nodes' culled pos low high
                        useStartTime
                        {| lastMatched := position node + culled;
                           diffBetweenDiscontinuities := diff;
                           discontinuityPending := true |}
                    else
                      Ok {| lastMatched := lastMatched m;
                            diffBetweenDiscontinuities := diffBetweenDiscontinuities m;
                            discontinuityPending := true |}
                  else scan_discontinuities nodes' culled pos low high
                         useStartTime m
              | None => scan_discontinuities nodes' culled pos low high
                          useStartTime m
              end
          end
      else scan_discontinuities nodes' culled pos low high useStartTime m
  end.

(** The world as the waiting thread finds it when its [k]-th
    [pthread_cond_wait] on [mPlaylistIndexed] returns: the other thread has
    re-indexed the playlist in the meantime. *)
Variable playlist_indexed : nat -> World -> World.

Definition maxPlaylistRefreshCount (w : World) : nat :=
  if tsbSupported w || inProgressCDVR w
  then MAX_PLAYLIST_REFRESH_FOR_DISCONTINUITY_CHECK_EVENT
  else MAX_PLAYLIST_REFRESH_FOR_DISCONTINUITY_CHECK_LIVE.

(** The [while (aamp->DownloadsAreEnabled())] loop on track [t]; [remaining]
    counts down from 5 while [playlistRefreshCount] counts up, and no wait
    is made once the count has reached its maximum (at most 5). *)
Fixpoint HasDiscontinuityAroundPosition_loop (remaining : nat) (t : TrackType)
    (pos : Q) (useStartTime : bool) (playPosition : Q)
    (diff : Q) (w : World) : res (World * bool * Q) :=
  let playlistRefreshCount := (5 - remaining)%nat in
  let low := pos - DISCONTINUITY_DISCARD_TOLERANCE_SECONDS in
  let high := pos + DISCONTINUITY_DISCARD_TOLERANCE_SECONDS in
  if negb (downloadsEnabled w) then Ok (w, false, diff)
  else
    let ts := trackState w t in
    m <- scan_discontinuities (mDiscontinuityIndex ts) (mCulledSeconds ts)
           pos low high useStartTime
           {| lastMatched := mLastMatchedDiscontPosition ts;
              diffBetweenDiscontinuities := diff;
              discontinuityPending := false |} ;;
    let w := on_track t (set_mLastMatchedDiscontPosition (lastMatched m)) w in
    let diff := diffBetweenDiscontinuities m in
    if discontinuityPending m then Ok (w, true, diff)
    else
      match playlistType w with
      | ePLAYLISTTYPE_VOD => Ok (w, false, diff)
      | _ =>
          let liveNoTSB := negb (tsbSupported w || inProgressCDVR w) in
          if (playlistRefreshCount <? maxPlaylistRefreshCount w)%nat
             && (liveNoTSB
                 || Qltb (mDuration ts)
                      (playPosition + DISCONTINUITY_DISCARD_TOLERANCE_SECONDS))
          then
            match remaining with
            | S remaining' =>
                HasDiscontinuityAroundPosition_loop remaining' t pos
                  useStartTime playPosition diff
                  (playlist_indexed playlistRefreshCount w)
            | O => Ok (w, false, diff)
            end
          else Ok (w, false, diff)
      end.

(** [t]'s [HasDiscontinuityAroundPosition(position, useStartTime, diff,
    playPosition)]: the new world, the value returned and [diff]. *)
Definition HasDiscontinuityAroundPosition (t : TrackType) (pos : Q)
    (useStartTime : bool) (playPosition : Q) (w : World)
  : res (World * bool * Q) :=
  HasDiscontinuityAroundPosition_loop 5 t pos useStartTime playPosition
    DBL_MAX w.

End Matcher.

(** ** The normal-play playlist walk (TrackState::GetNextFragmentUriFromPlaylist) *)

Inductive PlaylistTag : Type :=
| Tag_M3U
| Tag_INF
| Tag_BYTERANGE
| Tag_TARGETDURATION
| Tag_MEDIA_SEQUENCE
| Tag_KEY
| Tag_PROGRAM_DATE_TIME
| Tag_ALLOW_CACHE
| Tag_PLAYLIST_TYPE
| Tag_ENDLIST
| Tag_DISCONTINUITY
| Tag_ignored
| Tag_unknown.

(** The [else if (startswith(&ptr, ...))] chain that follows ["#EXT"], in
    the order of the source. *)
Definition tag_chain : list (string * PlaylistTag) :=
  [ ("M3U", Tag_M3U);
    ("INF:", Tag_INF);
    ("-X-BYTERANGE:", Tag_BYTERANGE);
    ("-X-TARGETDURATION:", Tag_TARGETDURATION);
    ("-X-MEDIA-SEQUENCE:", Tag_MEDIA_SEQUENCE);
    ("-X-KEY:", Tag_KEY);
    ("-X-PROGRAM-DATE-TIME:", Tag_PROGRAM_DATE_TIME);
    ("-X-ALLOW-CACHE:", Tag_ALLOW_CACHE);
    ("-X-PLAYLIST-TYPE:", Tag_PLAYLIST_TYPE);
    ("-X-ENDLIST", Tag_ENDLIST);
    ("-X-DISCONTINUITY", Tag_DISCONTINUITY);
    ("-X-I-FRAMES-ONLY", Tag_ignored);
    ("-X-VERSION:", Tag_ignored);
    ("-X-FAXS-CM:", Tag_ignored);
    ("-X-FAXS-PACKAGINGCERT", Tag_ignored);
    ("-X-FAXS-SIGNATURE", Tag_ignored);
    ("-X-CUE", Tag_ignored);
    ("-X-CM-SEQUENCE", Tag_ignored);
    ("-X-MARKER", Tag_ignored);
    ("-X-MAP", Tag_ignored);
    ("-X-MEDIA-TIME", Tag_ignored);
    ("-X-END-TOP-TAGS", Tag_ignored);
    ("-X-CONTENT-IDENTIFIER", Tag_ignored);
    ("-X-TRICKMODE-RESTRICTION", Tag_ignored);
    ("-X-INDEPENDENT-SEGMENTS", Tag_ignored);
    ("-X-BITRATE", Tag_ignored);
    ("-X-FOG", Tag_ignored);
    ("-X-START:", Tag_ignored);
    ("-X-XCAL-CONTENTMETADATA", Tag_ignored);
    ("-NOM-I-FRAME-DISTANCE", Tag_ignored);
    ("-X-ADVERTISING", Tag_ignored) ]%string.

Fixpoint first_tag (chain : list (string * PlaylistTag)) (p : string)
  : PlaylistTag * string :=
  match chain with
  | [] => (Tag_unknown, p)
  | (prefix, tag) :: chain' =>
      match startswith p prefix with
      | Some rest => (tag, rest)
      | None => first_tag chain' p
      end
  end.

(** [strchr(temp, '@')] and the two [atoi] of an EXT-X-BYTERANGE value:
    (length, offset), the offset when there is one. *)
Definition byterange_of {ext : Externals} (p : string) : Z * option Z :=
  let temp := first_chars 1023 p in
  match strchr temp "@" with
  | Some (String _ offsetDelim) =>
      (atoi (AttrList.span temp (String "@" offsetDelim)), Some (atoi offsetDelim))
  | _ => (atoi temp, None)
  end.

Section Walk.
Context {ext : Externals}.
Variable playlist_indexed : nat -> World -> World.

(** The locals of the walk. *)
Record WalkLocals : Type := {
  l_byteRangeLength : Z;
  l_byteRangeOffset : Z;
  l_discontinuity : bool;
  l_programDateTime : option string
}.

Inductive WalkStep : Type :=
| Continue (l : WalkLocals)
| Break.

(** A line that begins with ["#EXT"]; [p] is the text after it and
    [line_end] the offset of the NUL that ends the line. *)
Definition at_tag (t : TrackType) (line_end : nat) (p : string)
    (l : WalkLocals) (w : World) : res (World * WalkLocals) :=
  let ts := trackState w t in
  let '(tag, p) := first_tag tag_chain p in
  match tag with
  | Tag_INF =>
      let ts :=
        if negb (Qeq_bool (-1) (playlistPosition ts))
        then set_playlistPosition (playlistPosition ts + fragmentDurationSeconds ts) ts
        else set_playlistPosition 0 ts in
      Ok (set_trackState t (set_fragmentDurationSeconds (atof p) ts) w, l)
  | Tag_BYTERANGE =>
      let '(length, offset) := byterange_of p in
      Ok (w, {| l_byteRangeLength := length;
                l_byteRangeOffset :=
                  match offset with Some o => o | None => l_byteRangeOffset l end;
                l_discontinuity := l_discontinuity l;
                l_programDateTime := l_programDateTime l |})
  | Tag_TARGETDURATION =>
      Ok (set_trackState t (set_targetDurationSeconds (atof p) ts) w, l)
  | Tag_MEDIA_SEQUENCE =>
      Ok (set_trackState t (set_nextMediaSequenceNumber (atoll p) ts) w, l)
  | Tag_KEY =>
      w <- ParseKeyAttrList t (Some line_end) p w ;; Ok (w, l)
  | Tag_PROGRAM_DATE_TIME =>
      if (mNumberOfTracks w >? 1)%Z then
        let l := {| l_byteRangeLength := l_byteRangeLength l;
                    l_byteRangeOffset := l_byteRangeOffset l;
                    l_discontinuity := l_discontinuity l;
                    l_programDateTime := Some p |} in
        let start := startTimeForPlaylistSync ts in
        if (tv_sec start =? 0)%Z && (tv_usec start =? 0)%Z then
          match ParseTimeFromProgramDateTime p with
          | Some tv => Ok (set_trackState t (set_startTimeForPlaylistSync tv ts) w, l)
          | None => Ok (w, l)
          end
        else Ok (w, l)
      else Ok (w, l)
  | Tag_ALLOW_CACHE =>
      if has_prefix p "YES" then Ok (set_allowsCache true w, l)
      else if has_prefix p "NO" then Ok (set_allowsCache false w, l)
      else Ok (emit (aamp_Error "unknown ALLOW-CACHE setting") w, l)
  | Tag_ENDLIST => Ok (set_hasEndListTag true w, l)
  | Tag_DISCONTINUITY =>
      Ok (w, {| l_byteRangeLength := l_byteRangeLength l;
                l_byteRangeOffset := l_byteRangeOffset l;
                l_discontinuity := true;
                l_programDateTime := l_programDateTime l |})
  | Tag_M3U | Tag_PLAYLIST_TYPE | Tag_ignored | Tag_unknown => Ok (w, l)
  end.

Definition with_discontinuity (d : bool) (pdt : option string) (l : WalkLocals)
  : WalkLocals :=
  {| l_byteRangeLength := l_byteRangeLength l;
     l_byteRangeOffset := l_byteRangeOffset l;
     l_discontinuity := d;
     l_programDateTime := pdt |}.

(** [this->discontinuity = discontinuity || mSyncAfterDiscontinuityInProgress;
    mSyncAfterDiscontinuityInProgress = false; rc = ptr; break;] *)
Definition select_fragment (t : TrackType) (discontinuity_ : bool) (w : World)
  : World :=
  on_track t (fun ts =>
    set_mSyncAfterDiscontinuityInProgress false
      (set_discontinuity (discontinuity_ || mSyncAfterDiscontinuityInProgress ts) ts))
    w.

(** The [if (discontinuity)] block of a URI line that is at or after the
    play target. *)
Definition at_discontinuity (t : TrackType) (ignoreDiscontinuity : bool)
    (l : WalkLocals) (w : World) : res (World * WalkStep) :=
  if negb ignoreDiscontinuity then
    let ts := trackState w t in
    let otherType := other_track t in
    if enabled (trackState w otherType) then
      let playPosition := playTarget ts - mCulledSeconds ts in
      pos <- match l_programDateTime l with
             | None => Ok playPosition
             | Some text =>
                 match ParseTimeFromProgramDateTime text with
                 | Some programDateTimeVal => Ok (seconds_of programDateTimeVal)
                 | None => Undefined
                 end
             end ;;
      r <- HasDiscontinuityAroundPosition playlist_indexed otherType pos
             (match l_programDateTime l with Some _ => true | None => false end)
             playPosition w ;;
      let '(w, found, diff) := r in
      let ts := trackState w t in
      if negb found then
        Ok (select_fragment t false w, Break)
      else
        match l_programDateTime l with
        | Some _ =>
            if Qgtb diff (fragmentDurationSeconds ts / 2) then
              Ok (on_track t (fun ts =>
                    set_playTarget (playlistPosition ts + diff)
                      (set_mSyncAfterDiscontinuityInProgress true ts)) w,
                  Continue (with_discontinuity false None l))
            else Ok (select_fragment t true w, Break)
        | None => Ok (select_fragment t true w, Break)
        end
    else Ok (select_fragment t true w, Break)
  else Ok (select_fragment t false w, Break).

(** A URI line. *)
Definition at_uri (t : TrackType) (ignoreDiscontinuity : bool)
    (l : WalkLocals) (w : World) : res (World * WalkStep) :=
  let w := on_track t (fun ts =>
             set_nextMediaSequenceNumber (nextMediaSequenceNumber ts + 1)%Z ts) w in
  let ts := trackState w t in
  if Qgeb (playlistPosition ts) (playTarget ts)
     || Qltb (playTarget ts - playlistPosition ts)
          PLAYLIST_TIME_DIFF_THRESHOLD_SECONDS
  then
    let w := on_track t (fun ts =>
               set_byteRangeLength (l_byteRangeLength l)
                 (set_byteRangeOffset (l_byteRangeOffset l) ts)) w in
    if l_discontinuity l
    then at_discontinuity t ignoreDiscontinuity l w
    else Ok (select_fragment t false w, Break)
  else Ok (w, Continue (with_discontinuity false None l)).

(** One non-empty line of the playlist, which ends at offset [line_end]. *)
Definition at_line (t : TrackType) (ignoreDiscontinuity : bool)
    (line_end : nat) (line : string) (l : WalkLocals) (w : World)
  : res (World * WalkStep) :=
  match startswith line "#EXT" with
  | Some p =>
      r <- at_tag t line_end p l w ;; let '(w, l) := r in Ok (w, Continue l)
  | None =>
      if Ascii.eqb (deref line) "#" then Ok (w, Continue l)
      else at_uri t ignoreDiscontinuity l w
  end.

(** The [while (ptr)] loop over the lines ahead, each with the offset it
    begins at and the offset of the NUL [mystrpbrk] ends it with: the
    offset returned, if any. *)
Fixpoint walk_lines (t : TrackType) (ignoreDiscontinuity : bool)
    (lines : list (nat * string * option nat)) (l : WalkLocals) (w : World)
  : res (World * option nat) :=
  match lines with
  | [] => Ok (w, None)
  | (start, line, fin) :: lines' =>
      let w := match fin with
               | Some o => cut_playlist t o w
               | None => w
               end in
      match line with
      | EmptyString => walk_lines t ignoreDiscontinuity lines' l w
      | _ =>
          r <- at_line t ignoreDiscontinuity (start + String.length line) line
                 l w ;;
          match r with
          | (w, Break) => Ok (w, Some start)
          | (w, Continue l) => walk_lines t ignoreDiscontinuity lines' l w
          end
      end
  end.

(** The offset in [text] at which line [n] begins. *)
Definition line_start (text : string) (n : nat) : res nat :=
  match nth_error (line_spans text 0) n with
  | Some (start, _, _) => Ok start
  | None => Undefined
  end.

(** The line of [text] that offset [o] lies in. *)
Fixpoint line_of (text : string) (o : nat) : nat :=
  match o, text with
  | S o', String c rest =>
      if Ascii.eqb c CHAR_LF then S (line_of rest o') else line_of rest o'
  | _, _ => O
  end.

(** The pointer the loop starts from, as an offset into the buffer, and the
    C string that stands there: [fragmentURI], moved to after the
    terminator of the C string it points at when [skip]
    ([ptr += strlen(fragmentURI) + 1]); [None] is the null pointer. *)
Definition walk_from (ts : TrackState) (skip : bool)
  : res (option (nat * string)) :=
  match fragmentURI ts with
  | None => if skip then Undefined else Ok None
  | Some (FromIndex _) => Undefined
  | Some (PlaylistLine n) =>
      match ptr (playlist ts), bytes (playlist ts) with
      | Some text, Some buffer =>
          o <- line_start text n ;;
          p <- advance o buffer ;;
          if skip then
            let o := (o + String.length (c_str p) + 1)%nat in
            p <- advance o buffer ;;
            Ok (Some (o, c_str p))
          else Ok (Some (o, c_str p))
      | _, _ => Undefined
      end
  end.

Definition GetNextFragmentUriFromPlaylist (t : TrackType)
    (ignoreDiscontinuity : bool) (w : World) : res (World * option UriPtr) :=
  let w := if Qltb (playTarget (trackState w t)) 0
           then on_track t (set_playTarget 0) w else w in
  let ts := trackState w t in
  if Qeq_bool (playlistPosition ts) (playTarget ts) then Ok (w, fragmentURI ts)
  else
    from <- walk_from ts (negb (Qeq_bool (playlistPosition ts) (-1))) ;;
    match from, ptr (playlist ts) with
    | Some (o, p), Some text =>
        r <- walk_lines t ignoreDiscontinuity (line_spans p o)
               {| l_byteRangeLength := 0%Z; l_byteRangeOffset := 0%Z;
                  l_discontinuity := false; l_programDateTime := None |} w ;;
        let '(w, rc) := r in
        Ok (w, option_map (fun o => PlaylistLine (line_of text o)) rc)
    | _, _ => Ok (w, None)
    end.

End Walk.

(** ** The media playlist index (FlushIndex, IndexPlaylist) *)

Definition AAMP_NORMAL_PLAY_RATE : Q := 1.

(** The text at [p] up to the next LF, which [*delim = 0] cuts off. *)
Fixpoint up_to_LF (p : string) : string :=
  match p with
  | EmptyString => EmptyString
  | String c rest =>
      if Ascii.eqb c CHAR_LF then EmptyString else String c (up_to_LF rest)
  end.

Section Index.
Context {ext : Externals}.

Definition FlushIndex (ts : TrackState) : TrackState :=
  let ts := set_index [] ts in
  let ts := set_indexFirstMediaSequenceNumber 0%Z ts in
  let ts := set_currentIdx (-1)%Z ts in
  let ts := set_mDrmKeyTagCount 0%Z ts in
  let ts := set_mDiscontinuityIndex [] ts in
  let ts :=
    if negb (mDrmMetaDataIndexCount ts =? 0)%Z
    then set_mDrmMetaDataIndexPosition 0%Z (set_mDrmMetaDataIndex [] ts)
    else ts in
  set_mInitFragmentInfo None ts.

(** The [do ... while (ptr)] loop over the EXT-X-FAXS-CM tags. *)
Fixpoint drm_metadata_nodes (fuel : nat) (p : string) : list DrmMetadataNode :=
  match fuel with
  | O => []
  | S fuel' =>
      match strstr p "#EXT-X-FAXS-CM:" with
      | None => []
      | Some q =>
          match startswith q "#EXT-X-FAXS-CM:" with
          | None => []
          | Some drmPtr =>
              let '(payload, next) := mystrpbrk drmPtr in
              drmMetadataNode_of payload ::
                match next with
                | Some p' => drm_metadata_nodes fuel' p'
                | None => []
                end
          end
      end
  end.

(** The playlist type after the EXT-X-PLAYLIST-TYPE and EXT-X-ENDLIST scans
    of [text], and whether the type found was unknown. *)
Definition playlist_type_of (text : string) (current : PlaylistType)
  : PlaylistType * bool :=
  let '(type_, unknown) :=
    match strstr text "#EXT-X-PLAYLIST-TYPE:" with
    | Some p =>
        match startswith p "#EXT-X-PLAYLIST-TYPE:" with
        | Some p =>
            if has_prefix p "VOD" then (ePLAYLISTTYPE_VOD, false)
            else if has_prefix p "EVENT" then (ePLAYLISTTYPE_EVENT, false)
            else (current, true)
        | None => (current, false)
        end
    | None => (current, false)
    end in
  match type_ with
  | ePLAYLISTTYPE_VOD => (type_, unknown)
  | _ =>
      match strstr text "#EXT-X-ENDLIST" with
      | Some _ => (ePLAYLISTTYPE_VOD, unknown)
      | None => (type_, unknown)
      end
  end.

(** What the index loop carries from tag to tag. *)
Record IndexLoop : Type := {
  totalDuration : Q;
  drmMetadataIdx_ : Z;
  programDateTimeIdxOfFragment : option string;
  discontinuity_ : bool;
  deferDrmTagPresent : bool
}.

Definition with_totalDuration (d : Q) (i : IndexLoop) : IndexLoop :=
  {| totalDuration := d; drmMetadataIdx_ := drmMetadataIdx_ i;
     programDateTimeIdxOfFragment := programDateTimeIdxOfFragment i;
     discontinuity_ := discontinuity_ i;
     deferDrmTagPresent := deferDrmTagPresent i |}.

Definition with_drmMetadataIdx (k : Z) (i : IndexLoop) : IndexLoop :=
  {| totalDuration := totalDuration i; drmMetadataIdx_ := k;
     programDateTimeIdxOfFragment := programDateTimeIdxOfFragment i;
     discontinuity_ := discontinuity_ i;
     deferDrmTagPresent := deferDrmTagPresent i |}.

Definition with_programDateTime (p : option string) (i : IndexLoop) : IndexLoop :=
  {| totalDuration := totalDuration i; drmMetadataIdx_ := drmMetadataIdx_ i;
     programDateTimeIdxOfFragment := p;
     discontinuity_ := discontinuity_ i;
     deferDrmTagPresent := deferDrmTagPresent i |}.

Definition with_discontinuity_ (d : bool) (i : IndexLoop) : IndexLoop :=
  {| totalDuration := totalDuration i; drmMetadataIdx_ := drmMetadataIdx_ i;
     programDateTimeIdxOfFragment := programDateTimeIdxOfFragment i;
     discontinuity_ := d;
     deferDrmTagPresent := deferDrmTagPresent i |}.

Definition with_deferDrmTagPresent (d : bool) (i : IndexLoop) : IndexLoop :=
  {| totalDuration := totalDuration i; drmMetadataIdx_ := drmMetadataIdx_ i;
     programDateTimeIdxOfFragment := programDateTimeIdxOfFragment i;
     discontinuity_ := discontinuity_ i;
     deferDrmTagPresent := d |}.

(** The EXT-X-X1-LIN-CK branch once the deferred tag is not yet under
    processing; [p] is the text after the tag. *)
Definition defer_license (t : TrackType) (p : string) (w : World) : World :=
  match strchr p CHAR_LF with
  | Some _ =>
      let time := strtol p in
      if negb (time =? 0)%Z then
        let ts := trackState w t in
        if (mDrmMetaDataIndexCount ts >? 1)%Z then
          let w :=
            if negb (firstIndexDone ts)
            then set_gDeferredDrmLicRequestPending false w
            else
              let deferredIdx := GetNewMetadataIndex (mDrmMetaDataIndex ts) in
              match at_index (mDrmMetaDataIndex ts) deferredIdx with
              | Some node =>
                  set_gDeferredDrmLicRequestPending true
                    (set_gDeferredDrmMetaDataSha1Hash
                       (first_chars DRM_SHA1_HASH_LEN (sha1Hash node)) w)
              | None => w
              end in
          set_gDeferredDrmLicTagUnderProcessing true w
        else w
      else w
  | None => w
  end.

(** One ["#EXT"] found by the index loop; [p] is the text after it.  The
    result carries how far [ptr] is moved before the closing [ptr += 4]. *)
Definition index_tag (t : TrackType) (tag p : string) (i : IndexLoop) (w : World)
  : res (World * IndexLoop * nat) :=
  let ts := trackState w t in
  if has_prefix p "INF:" then
    let ts :=
      if discontinuity_ i then
        set_mDiscontinuityIndex
          (mDiscontinuityIndex ts ++
             [{| fragmentIdx := indexCount ts;
                 position := totalDuration i;
                 programDateTime := programDateTimeIdxOfFragment i |}])%list ts
      else ts in
    let i := with_programDateTime None (with_discontinuity_ false i) in
    let total := totalDuration i + atof (substring 4 (String.length p) p) in
    let node := {| completionTimeSecondsFromStart := total;
                   pFragmentInfo := tag;
                   drmMetadataIdx := drmMetadataIdx_ i |} in
    Ok (set_trackState t (set_index (index ts ++ [node])%list ts) w,
        with_totalDuration total i, 8%nat)
  else if has_prefix p "-X-DISCONTINUITY" then
    Ok (w, (if negb (Qeq_bool 0 (totalDuration i))
            then with_discontinuity_ true i else i), O)
  else if has_prefix p "-X-PROGRAM-DATE-TIME:" then
    Ok (w, with_programDateTime
             (Some (substring 21 (String.length p) p)) i, O)
  else if has_prefix p "-X-KEY:" then
    let attrs := substring 7 (String.length p) p in
    w <- ParseKeyAttrList t None (up_to_LF attrs) w ;;
    let ts := trackState w t in
    let k := if fragmentEncrypted ts then mDrmMetaDataIndexPosition ts else (-1)%Z in
    Ok (set_trackState t (set_mDrmKeyTagCount (mDrmKeyTagCount ts + 1)%Z ts) w,
        with_drmMetadataIdx k i, 11%nat)
  else if isLive w && Qeq_bool AAMP_NORMAL_PLAY_RATE (rate w)
          && match mTuneType w with
             | eTUNETYPE_NEW_NORMAL | eTUNETYPE_SEEKTOLIVE => true
             | _ => false
             end
          && has_prefix p "-X-X1-LIN-CK:" then
    let i := with_deferDrmTagPresent true i in
    if negb (gDeferredDrmLicTagUnderProcessing w)
    then Ok (defer_license t (substring 13 (String.length p) p) w, i, 17%nat)
    else Ok (w, i, O)
  else Ok (w, i, O).

(** The [while (ptr)] loop that builds the index: [skip] characters are
    still to be stepped over before the next [strstr(ptr, "#EXT")]. *)
Fixpoint index_loop (t : TrackType) (p : string) (skip : nat) (i : IndexLoop)
    (w : World) : res (World * IndexLoop) :=
  match skip with
  | S skip' =>
      match p with
      | String _ rest => index_loop t rest skip' i w
      | EmptyString => Undefined
      end
  | O =>
      match p with
      | EmptyString => Ok (w, i)
      | String _ rest =>
          match startswith p "#EXT" with
          | Some after =>
              r <- index_tag t p after i w ;;
              let '(w, i, moved) := r in
              index_loop t rest (moved + 3) i w
          | None => index_loop t rest O i w
          end
      end
  end.

(** [ProcessDrmMetadata(acquireCurrentLicenseOnly)]; the calls of
    [AveDrmManager::SetMetadata] are logged as events. *)
Fixpoint ProcessDrmMetadata_loop (acquireCurrentLicenseOnly : bool)
    (hash : option string) (nodes : list DrmMetadataNode) (i : nat)
    (found : option Z) (w : World) : option Z * World :=
  match nodes with
  | [] => (found, w)
  | node :: nodes' =>
      let node_hash := first_chars DRM_SHA1_HASH_LEN (sha1Hash node) in
      match hash with
      | Some h =>
          match found with
          | None =>
              if String.eqb h node_hash then
                ProcessDrmMetadata_loop acquireCurrentLicenseOnly hash nodes'
                  (S i) (Some (Z.of_nat i)) (emit (SetMetadata i) w)
              else if acquireCurrentLicenseOnly then
                ProcessDrmMetadata_loop acquireCurrentLicenseOnly hash nodes'
                  (S i) found w
              else if gDeferredDrmLicTagUnderProcessing w
                      && gDeferredDrmLicRequestPending w
                      && String.eqb (gDeferredDrmMetaDataSha1Hash w) node_hash then
                ProcessDrmMetadata_loop acquireCurrentLicenseOnly hash nodes'
                  (S i) found w
              else
                ProcessDrmMetadata_loop acquireCurrentLicenseOnly hash nodes'
                  (S i) found (emit (SetMetadata i) w)
          | Some _ =>
              if acquireCurrentLicenseOnly then
                ProcessDrmMetadata_loop acquireCurrentLicenseOnly hash nodes'
                  (S i) found w
              else if gDeferredDrmLicTagUnderProcessing w
                      && gDeferredDrmLicRequestPending w
                      && String.eqb (gDeferredDrmMetaDataSha1Hash w) node_hash then
                ProcessDrmMetadata_loop acquireCurrentLicenseOnly hash nodes'
                  (S i) found w
              else
                ProcessDrmMetadata_loop acquireCurrentLicenseOnly hash nodes'
                  (S i) found (emit (SetMetadata i) w)
          end
      | None =>
          ProcessDrmMetadata_loop acquireCurrentLicenseOnly hash nodes'
            (S i) found (emit (SetMetadata i) w)
      end
  end.

Definition ProcessDrmMetadata (t : TrackType) (acquireCurrentLicenseOnly : bool)
    (w : World) : World :=
  let ts := trackState w t in
  let '(found, w) :=
    ProcessDrmMetadata_loop acquireCurrentLicenseOnly (mCMSha1Hash ts)
      (mDrmMetaDataIndex ts) O None w in
  let w := match found with
           | Some i => on_track t (set_mDrmMetaDataIndexPosition i) w
           | None => w
           end in
  let pending :=
    match mCMSha1Hash ts with
    | Some _ => acquireCurrentLicenseOnly && (mDrmMetaDataIndexCount ts >? 1)%Z
    | None => false
    end in
  let w := on_track t (set_mDrmLicenseRequestPending pending) w in
  match mCMSha1Hash ts, found with
  | Some _, None => emit (SendErrorEvent AAMP_TUNE_INVALID_MANIFEST_FAILURE) w
  | _, _ => w
  end.

(** [IndexPlaylist] on track [t].  It is run on a buffer that has just been
    filled ([RefreshPlaylist], [Init]), which reads as [ptr]; the NULs it
    stores while it reads the EXT-X-FAXS-CM and EXT-X-KEY tags are gone
    when it returns, since it puts the bytes of the buffer back from a
    copy ([memcpy(playlist.ptr, playlistBackup, playlist.len)]) after each
    of the two. *)
Definition IndexPlaylist (t : TrackType) (w : World) : res World :=
  let w := on_track t (fun ts => set_mIndexingInProgress true (FlushIndex ts)) w in
  match ptr (playlist (trackState w t)) with
  | Some text =>
      if negb (String.eqb (first_chars 7 text) "#EXTM3U") then
        let w := emit (SendErrorEvent AAMP_TUNE_INVALID_MANIFEST_FAILURE) w in
        Ok (on_track t (set_mDuration 0) w)
      else
        let w := on_track t (fun ts =>
          let ts :=
            match strstr text "#EXT-X-MEDIA-SEQUENCE:" with
            | Some p =>
                set_indexFirstMediaSequenceNumber
                  (atoll (substring 22 (String.length p) p)) ts
            | None => set_indexFirstMediaSequenceNumber 0%Z ts
            end in
          let ts :=
            match strstr text "#EXT-X-TARGETDURATION:" with
            | Some p =>
                set_targetDurationSeconds
                  (atof (substring 22 (String.length p) p)) ts
            | None => ts
            end in
          let ts :=
            match strstr text "#EXT-X-MAP:" with
            | Some p =>
                set_mInitFragmentInfo
                  (Some (substring 11 (String.length p) p)) ts
            | None => ts
            end in
          set_mDrmMetaDataIndex
            (mDrmMetaDataIndex ts
             ++ drm_metadata_nodes (S (String.length text)) text)%list ts) w in
        let '(type_, unknown) := playlist_type_of text (playlistType w) in
        let w := if unknown then emit (aamp_Error "unknown PLAYLIST-TYPE") w else w in
        let w := set_playlistType type_ w in
        let vod := match type_ with ePLAYLISTTYPE_VOD => true | _ => false end in
        let w := set_mEnableCache vod (set_isLive (negb vod) w) in
        r <- index_loop t text O
               {| totalDuration := 0; drmMetadataIdx_ := (-1)%Z;
                  programDateTimeIdxOfFragment := None;
                  discontinuity_ := false; deferDrmTagPresent := false |} w ;;
        let '(w, i) := r in
        let w := match t with
                 | eTRACK_VIDEO => emit (UpdateDuration (totalDuration i)) w
                 | eTRACK_AUDIO => w
                 end in
        let w := if gDeferredDrmLicTagUnderProcessing w
                    && negb (deferDrmTagPresent i)
                 then set_gDeferredDrmLicTagUnderProcessing false w else w in
        let ts := trackState w t in
        let w :=
          if (firstIndexDone ts
              && match mCMSha1Hash ts with Some _ => true | None => false end)
             || mForceProcessDrmMetadata ts
          then on_track t (set_mForceProcessDrmMetadata false)
                 (ProcessDrmMetadata t false w)
          else w in
        Ok (on_track t (fun ts =>
              set_mDuration (totalDuration i)
                (set_mIndexingInProgress false (set_firstIndexDone true ts))) w)
  | None =>
      let w := match t with
               | eTRACK_VIDEO => emit (UpdateDuration 0) w
               | eTRACK_AUDIO => w
               end in
      let w := if gDeferredDrmLicTagUnderProcessing w
               then set_gDeferredDrmLicTagUnderProcessing false w else w in
      let ts := trackState w t in
      let w :=
        if (firstIndexDone ts
            && match mCMSha1Hash ts with Some _ => true | None => false end)
           || mForceProcessDrmMetadata ts
        then on_track t (set_mForceProcessDrmMetadata false)
               (ProcessDrmMetadata t false w)
        else w in
      Ok (on_track t (fun ts =>
            set_mDuration 0
              (set_mIndexingInProgress false (set_firstIndexDone true ts))) w)
  end.

(** The body of [GetCompletionTimeForFragment] on the fields it reads. *)
Definition completion_time_at (index_ : list IndexNode)
    (indexFirstMediaSequenceNumber_ mediaSequenceNumber : Z) : Q :=
  let rc := 0 in
  let indexCount := Z.of_nat (List.length index_) in
  if (indexCount >? 0)%Z then
    let idx := to_int (mediaSequenceNumber - indexFirstMediaSequenceNumber_) in
    if (idx >=? 0)%Z then
      let idx := if (idx >=? indexCount)%Z then (indexCount - 1)%Z else idx in
      match at_index index_ idx with
      | Some node => completionTimeSecondsFromStart node
      | None => rc
      end
    else rc
  else rc.

(** [GetCompletionTimeForFragment(trackState, mediaSequenceNumber)] *)
Definition GetCompletionTimeForFragment (ts : TrackState)
    (mediaSequenceNumber : Z) : Q :=
  completion_time_at (index ts) (indexFirstMediaSequenceNumber ts)
    mediaSequenceNumber.

End Index.

(** ** Playlist refresh (FindMediaForSequenceNumber, RefreshPlaylist) *)

Definition CURLE_COULDNT_CONNECT : Z := 7.
Definition CURLE_OPERATION_TIMEDOUT : Z := 28.

Section Refresh.
Context {ext : Externals}.

(** The [while (ptr)] loop of [FindMediaForSequenceNumber] from line [n]
    on, each line with the offset it begins at and the offset of the NUL
    [mystrpbrk] ends it with; [key] is the attribute list of the last KEY
    tag seen, with the offset of the NUL that ends its line.  The result is
    the track, and the line returned if there is one. *)
Fixpoint find_media (t : TrackType) (lines : list (nat * string * option nat))
    (n : nat) (mediaSequenceNumber seq : Z) (key : option (string * nat))
    (w : World) : res (World * option UriPtr) :=
  match lines with
  | [] => Ok (w, None)
  | (start, line, fin) :: lines' =>
      let w := match fin with
               | Some o => cut_playlist t o w
               | None => w
               end in
      match line with
      | EmptyString => find_media t lines' (S n) mediaSequenceNumber seq key w
      | _ =>
          match startswith line "#EXTINF:" with
          | Some p =>
              find_media t lines' (S n) mediaSequenceNumber seq key
                (on_track t (set_fragmentDurationSeconds (atof p)) w)
          | None =>
          match startswith line "#EXT-X-MEDIA-SEQUENCE:" with
          | Some p => find_media t lines' (S n) mediaSequenceNumber (atoll p) key w
          | None =>
          match startswith line "#EXT-X-KEY:" with
          | Some p =>
              find_media t lines' (S n) mediaSequenceNumber seq
                (Some (p, (start + String.length line)%nat)) w
          | None =>
              if negb (Ascii.eqb (deref line) "#") then
                if (seq >=? mediaSequenceNumber)%Z then
                  w <- match key with
                       | Some (k, line_end) =>
                           if (mDrmKeyTagCount (trackState w t) >? 1)%Z
                           then ParseKeyAttrList t (Some line_end) k w else Ok w
                       | None => Ok w
                       end ;;
                  let w := if negb (seq =? mediaSequenceNumber)%Z
                           then on_track t (set_nextMediaSequenceNumber (seq + 1)%Z) w
                           else w in
                  Ok (w, Some (PlaylistLine n))
                else find_media t lines' (S n) mediaSequenceNumber (seq + 1)%Z key w
              else find_media t lines' (S n) mediaSequenceNumber seq key w
          end end end
      end
  end.

(** [RefreshPlaylist] calls it on the buffer it has just filled and
    indexed, which reads as [ptr]. *)
Definition FindMediaForSequenceNumber (t : TrackType) (w : World)
  : res (World * option UriPtr) :=
  let ts := trackState w t in
  match ptr (playlist ts) with
  | Some text =>
      find_media t (line_spans text 0) O (nextMediaSequenceNumber ts - 1)%Z 0%Z
        None w
  | None => Ok (w, None)
  end.

(** What [aamp->GetFile] leaves in [playlist] and in [http_error], and the
    clock when the refresh starts. *)
Record Download : Type := {
  downloaded : GrowableBuffer;
  http_error : Z;
  aamp_GetCurrentTimeMS : Z
}.

(** [RefreshPlaylist] from the download to the point where the culled
    seconds are computed; the flag tells an early [return]. *)
Definition refresh_download (t : TrackType) (d : Download) (w : World)
  : res (World * bool) :=
  let tempBuff := match ptr (playlist (trackState w t)) with
                  | Some _ => playlist (trackState w t)
                  | None => no_buffer
                  end in
  let w := on_track t (set_playlist (downloaded d)) w in
  if negb (len (playlist (trackState w t)) =? 0)%Z then
    let w := if mNetworkDownDetected w then set_mNetworkDownDetected false w else w in
    w <- IndexPlaylist t w ;;
    if Qgtb (mDuration (trackState w t)) 0 then
      w <- match playlistType w with
           | ePLAYLISTTYPE_VOD =>
               Ok (on_track t (fun ts =>
                     set_playlistPosition (-1)
                       (set_fragmentURI (Some (PlaylistLine O)) ts)) w)
           | _ =>
               r <- FindMediaForSequenceNumber t w ;;
               let '(w, rc) := r in
               Ok (on_track t (set_fragmentURI rc) w)
           end ;;
      Ok (on_track t (set_manifestDLFailCount 0%Z) w, false)
    else Ok (w, false)
  else
    let w :=
      match ptr tempBuff with
      | Some _ =>
          let w := on_track t (set_playlist tempBuff) w in
          if refreshPlaylist (trackState w t)
          then set_currentProfileIndex (lastSelectedProfileIndex w) w else w
      | None => w
      end in
    if downloadsEnabled w then
      if (CURLE_OPERATION_TIMEDOUT =? http_error d)%Z
         || (CURLE_COULDNT_CONNECT =? http_error d)%Z
      then Ok (set_mNetworkDownDetected true w, true)
      else
        let w := on_track t (fun ts =>
                   set_manifestDLFailCount (manifestDLFailCount ts + 1)%Z ts) w in
        let ts := trackState w t in
        match fragmentURI ts with
        | None =>
            if (manifestDLFailCount ts >? MAX_MANIFEST_DOWNLOAD_RETRY)%Z
            then Ok (emit (SendDownloadErrorEvent AAMP_TUNE_MANIFEST_REQ_FAILED
                             (http_error d)) w, true)
            else Ok (w, false)
        | Some _ => Ok (w, false)
        end
    else Ok (w, false).

Definition RefreshPlaylist (t : TrackType) (d : Download) (w : World) : res World :=
  let commonPlayPosition := (nextMediaSequenceNumber (trackState w t) - 1)%Z in
  let prevSecondsBeforePlayPoint :=
    GetCompletionTimeForFragment (trackState w t) commonPlayPosition in
  let w := on_track t (set_lastPlaylistDownloadTimeMS (aamp_GetCurrentTimeMS d)) w in
  r <- refresh_download t d w ;;
  let '(w, returned) := r in
  if returned then Ok w
  else
    let newSecondsBeforePlayPoint :=
      GetCompletionTimeForFragment (trackState w t) commonPlayPosition in
    let culled := prevSecondsBeforePlayPoint - newSecondsBeforePlayPoint in
    let w := on_track t (fun ts => set_mCulledSeconds (mCulledSeconds ts + culled) ts) w in
    match t with
    | eTRACK_VIDEO => Ok (emit (UpdateCullingState culled) w)
    | eTRACK_AUDIO => Ok w
    end.

End Refresh.

(** ** Fetching a fragment (GetFragmentUriFromIndex, FetchFragmentHelper,
       FetchFragment) *)

Definition INVALID_PROFILE : Z := -1.

Inductive DrmReturn : Type :=
| eDRM_SUCCESS
| eDRM_ERROR
| eDRM_KEY_ACQUSITION_TIMEOUT.

(** What the collaborators answer during one [FetchFragment]: the wait for
    a free slot of the ring, the HTTP transport, the DRM back-end and ABR. *)
Record FetchEnv : Type := {
  WaitForFreeFragmentAvailable : bool;
  GetFile : bool * GrowableBuffer * Z;
  DrmDecrypt : DrmReturn;
  CheckForRampDownProfile : bool
}.

Section Fetch.
Context {ext : Externals}.
Variable playlist_indexed : nat -> World -> World.

(** The part of [Init] that sets one track up on its playlist [text]. *)
Definition tune_track (t : TrackType) (text : string) (w : World) : res World :=
  let w := on_track t (fun ts =>
             set_playTarget (seekPosition w) (set_playlistPosition (-1) ts)) w in
  let w := on_track t (set_playlist (buffer_of text)) w in
  w <- IndexPlaylist t w ;;
  Ok (on_track t (set_fragmentURI (Some (PlaylistLine O))) w).

(** Forward search: [for (idx = currentIdx; idx < indexCount; idx++)] over
    the nodes from [idx] on. *)
Fixpoint search_forward (nodes : list IndexNode) (idx : nat) (playTarget_ : Q)
  : option nat :=
  match nodes with
  | [] => None
  | node :: nodes' =>
      if Qgeb (completionTimeSecondsFromStart node) playTarget_
      then Some idx else search_forward nodes' (S idx) playTarget_
  end.

(** Backward search: [for (idx = currentIdx; idx >= 0; idx--)]; a read at an
    index past the end of the array is undefined. *)
Fixpoint search_backward (nodes : list IndexNode) (idx : nat) (playTarget_ : Q)
  : res (option nat) :=
  match nth_error nodes idx with
  | None => Undefined
  | Some node =>
      if Qleb (completionTimeSecondsFromStart node) playTarget_
      then Ok (Some idx)
      else match idx with
           | O => Ok None
           | S idx' => search_backward nodes idx' playTarget_
           end
  end.

(** [while (p[0] != CHAR_LF) p++; p++]: there is no test for the
    terminator. *)
Fixpoint next_line (p : string) : res string :=
  match p with
  | EmptyString => Undefined
  | String c rest => if Ascii.eqb c CHAR_LF then Ok rest else next_line rest
  end.

Fixpoint line_length (p : string) : res nat :=
  match p with
  | EmptyString => Undefined
  | String c rest =>
      if Ascii.eqb c CHAR_LF then Ok O
      else n <- line_length rest ;; Ok (S n)
  end.

(** The [while (fragmentInfo[0] == '#')] loop over the tag lines of a
    fragment: the byte range seen last (length, offset) and the pointer at
    the URI line.  [strncpy] copies the range up to a NUL. *)
Fixpoint fragment_tags (fuel : nat) (fragmentInfo : string) (range : Z * Z)
  : res (Z * Z * string) :=
  match fuel with
  | O => Undefined
  | S fuel' =>
      if Ascii.eqb (deref fragmentInfo) "#" then
        range <-
          (if has_prefix fragmentInfo "#EXT-X-BYTERANGE:" then
             n <- line_length fragmentInfo ;;
             if (n <? 1024)%nat then
               let temp := first_chars n
                             (c_str (substring 17 (String.length fragmentInfo)
                                       fragmentInfo)) in
               let '(length, offset) := byterange_of temp in
               Ok (length, match offset with Some o => o | None => snd range end)
             else Undefined
           else Ok range) ;;
        p <- next_line fragmentInfo ;;
        fragment_tags fuel' p range
      else Ok (range, fragmentInfo)
  end.

(** The URI line at [fragmentInfo], up to its LF (and CR), if [strchr]
    finds an LF in the C string that stands there. *)
Definition uri_line (fragmentInfo : string) : res (option string) :=
  match strchr (c_str fragmentInfo) CHAR_LF with
  | Some _ =>
      let line := fst (mystrpbrk (c_str fragmentInfo)) in
      if (String.length line <? MAX_URI_LENGTH)%nat then Ok (Some line)
      else Undefined
  | None => Ok None
  end.

(** The bytes that now stand at [node]'s [pFragmentInfo], a pointer into
    the playlist buffer of the track. *)
Definition fragment_info (ts : TrackState) (node : IndexNode) : res string :=
  match ptr (playlist ts), bytes (playlist ts) with
  | Some text, Some buffer =>
      advance (String.length text - String.length (pFragmentInfo node)) buffer
  | _, _ => Undefined
  end.

(** The [if (idxNode)] block for the node found at [idx]. *)
Definition select_index_node (t : TrackType) (idx : nat) (node : IndexNode)
    (w : World) : res (World * option UriPtr) :=
  let ts := trackState w t in
  let duration :=
    match idx with
    | O => completionTimeSecondsFromStart node
    | S prev =>
        match nth_error (index ts) prev with
        | Some before =>
            completionTimeSecondsFromStart node
            - completionTimeSecondsFromStart before
        | None => completionTimeSecondsFromStart node
        end
    end in
  p <- fragment_info ts node ;;
  r <- fragment_tags (S (String.length p)) p (0%Z, 0%Z) ;;
  let '(length, offset, fragmentInfo) := r in
  u <- uri_line fragmentInfo ;;
  let ts := set_currentIdx (Z.of_nat idx) ts in
  let ts := set_byteRangeOffset offset (set_byteRangeLength length ts) in
  let ts := set_fragmentDurationSeconds duration ts in
  let ts :=
    if (drmMetadataIdx node =? -1)%Z then set_fragmentEncrypted false ts
    else set_mDrmMetaDataIndexPosition (drmMetadataIdx node)
           (set_fragmentEncrypted true ts) in
  Ok (set_trackState t ts w,
      match u with Some line => Some (FromIndex line) | None => None end).

Definition GetFragmentUriFromIndex (t : TrackType) (w : World)
  : res (World * option UriPtr) :=
  let ts := trackState w t in
  if Qgtb (rate w) 0 then
    match at_index (index ts) (indexCount ts - 1) with
    | None => Undefined
    | Some lastIndexNode =>
        let seekWindowEnd :=
          completionTimeSecondsFromStart lastIndexNode - mLiveOffset w in
        if isLive w && Qgtb (playTarget ts) seekWindowEnd then Ok (w, None)
        else
          let ts := if (currentIdx ts =? -1)%Z then set_currentIdx 0%Z ts else ts in
          let w := set_trackState t ts w in
          if (currentIdx ts <? 0)%Z then Undefined
          else
            let from := Z.to_nat (currentIdx ts) in
            match search_forward (skipn from (index ts)) from (playTarget ts) with
            | Some idx =>
                match nth_error (index ts) idx with
                | Some node => select_index_node t idx node w
                | None => Undefined
                end
            | None => Ok (w, None)
            end
    end
  else
    let ts := if (currentIdx ts =? -1)%Z
              then set_currentIdx (indexCount ts - 1)%Z ts else ts in
    let w := set_trackState t ts w in
    if (currentIdx ts <? 0)%Z then Ok (w, None)
    else
      r <- search_backward (index ts) (Z.to_nat (currentIdx ts)) (playTarget ts) ;;
      match r with
      | Some idx =>
          match nth_error (index ts) idx with
          | Some node => select_index_node t idx node w
          | None => Undefined
          end
      | None => Ok (w, None)
      end.

(** [context->rate / context->mTrickPlayFPS] *)
Definition trickplay_delta (w : World) : Q := rate w / inject_Z (mTrickPlayFPS w).

(** [FetchFragmentHelper] up to the download: the fragment is chosen and
    the play target moved.  The function starts with [assert (fragmentURI)]. *)
Definition choose_fragment (t : TrackType) (w : World) : res World :=
  if match fragmentURI (trackState w t) with None => true | Some _ => false end
  then Undefined (* assert (fragmentURI) *)
  else
  if trickplayMode w && negb (INVALID_PROFILE =? iframeTrack w)%Z then
    r <- GetFragmentUriFromIndex t w ;;
    let '(w, rc) := r in
    let w := on_track t (set_fragmentURI rc) w in
    let ts := trackState w t in
    let delta := trickplay_delta w in
    if Qltb (rate w) 0 then
      if match rc with None => true | Some _ => false end
         || Qeq_bool (playTarget ts) 0
      then Ok (on_track t (set_eosReached true) w)
      else if Qgtb (playTarget ts) (- delta)
      then Ok (on_track t (set_playTarget (playTarget ts + delta)) w)
      else Ok (on_track t (set_playTarget 0) w)
    else
      let w := match rc with
               | None => on_track t (set_eosReached true) w
               | Some _ => w
               end in
      Ok (on_track t (fun ts => set_playTarget (playTarget ts + delta) ts) w)
  else
    r <- GetNextFragmentUriFromPlaylist playlist_indexed t false w ;;
    let '(w, rc) := r in
    let w := on_track t (set_fragmentURI rc) w in
    let ts := trackState w t in
    match rc with
    | Some _ =>
        let w := on_track t (set_playTarget
                   (playlistPosition ts + fragmentDurationSeconds ts)) w in
        if isLive w then Ok (emit (CheckForPlaybackStall true) w) else Ok w
    | None =>
        if (match playlistType w with ePLAYLISTTYPE_VOD => true | _ => false end
            || hasEndListTag w)
           && negb (Qeq_bool (playlistPosition ts) (-1))
        then Ok (on_track t (set_eosReached true) w)
        else if isLive w && match t with eTRACK_VIDEO => true | _ => false end
        then Ok (emit (CheckForPlaybackStall false) w)
        else Ok w
    end.

(** [FetchFragmentHelper]: the value returned and [decryption_error],
    [http_error]. *)
Definition FetchFragmentHelper (t : TrackType) (env : FetchEnv) (w : World)
  : res (World * bool * Z * bool) :=
  w <- choose_fragment t w ;;
  let ts := trackState w t in
  match fragmentURI ts with
  | Some _ =>
      let '(fetched, buffer, http_error) := GetFile env in
      if negb fetched then
        let w := on_track t (set_segDLFailCount (segDLFailCount ts + 1)%Z) w in
        let w :=
          if (MAX_SEG_DOWNLOAD_FAIL_COUNT <=? segDLFailCount (trackState w t))%Z
             && downloadsEnabled w
          then emit (SendDownloadErrorEvent AAMP_TUNE_FRAGMENT_DOWNLOAD_FAILURE
                       http_error) w
          else w in
        Ok (on_track t (fun ts =>
              set_cachedFragment
                {| fragment := no_buffer;
                   cf_position := cf_position (cachedFragment ts);
                   cf_duration := cf_duration (cachedFragment ts);
                   cf_discontinuity := cf_discontinuity (cachedFragment ts) |} ts) w,
            false, http_error, false)
      else
        let w := on_track t (fun ts =>
              set_segDLFailCount 0%Z
                (set_cachedFragment
                   {| fragment := buffer;
                      cf_position := cf_position (cachedFragment ts);
                      cf_duration := cf_duration (cachedFragment ts);
                      cf_discontinuity := cf_discontinuity (cachedFragment ts) |}
                   ts)) w in
        let ts := trackState w t in
        if negb (len buffer =? 0)%Z && fragmentEncrypted ts then
          match DrmDecrypt env with
          | eDRM_SUCCESS =>
              let w := on_track t (set_segDrmDecryptFailCount 0%Z) w in
              let w := if negb (firstFragmentDecrypted w)
                       then set_firstFragmentDecrypted true
                              (emit NotifyFirstFragmentDecrypted w)
                       else w in
              Ok (w, true, http_error, false)
          | drmReturn =>
              let '(w, decryption_error) :=
                if downloadsEnabled w then
                  match drmReturn with
                  | eDRM_KEY_ACQUSITION_TIMEOUT =>
                      (emit (SendErrorEvent AAMP_TUNE_LICENCE_TIMEOUT) w, true)
                  | _ =>
                      let w := on_track t (fun ts =>
                                 set_segDrmDecryptFailCount
                                   (segDrmDecryptFailCount ts + 1)%Z ts) w in
                      if (MAX_SEG_DRM_DECRYPT_FAIL_COUNT
                          <=? segDrmDecryptFailCount (trackState w t))%Z
                      then (emit (SendErrorEvent AAMP_TUNE_DRM_DECRYPT_FAILED) w,
                            true)
                      else (w, false)
                  end
                else (w, false) in
              Ok (on_track t (fun ts =>
                    set_cachedFragment
                      {| fragment := no_buffer;
                         cf_position := cf_position (cachedFragment ts);
                         cf_duration := cf_duration (cachedFragment ts);
                         cf_discontinuity := cf_discontinuity (cachedFragment ts) |}
                      ts) w,
                  false, http_error, decryption_error)
          end
        else Ok (w, true, http_error, false)
  | None => Ok (w, false, 0%Z, false)
  end.

(** [FetchFragment]: the new world and the cached fragment handed to
    [UpdateTSAfterFetch], if the fetch got that far. *)
Definition FetchFragment (t : TrackType) (env : FetchEnv) (w : World)
  : res (World * option CachedFragment) :=
  if negb (WaitForFreeFragmentAvailable env) then Ok (w, None)
  else
    let w := set_mCheckForRampdown false w in
    r <- FetchFragmentHelper t env w ;;
    let '(w, ok, http_error, decryption_error) := r in
    let ts := trackState w t in
    if negb ok then
      match fragmentURI ts with
      | Some _ =>
          let w := set_lastSelectedProfileIndex (currentProfileIndex w) w in
          if match t with eTRACK_VIDEO => true | _ => false end
             && CheckForRampDownProfile env
          then
            let w :=
              if Qeq_bool (rate w) AAMP_NORMAL_PLAY_RATE
              then on_track t (fun ts =>
                     set_playTarget (playTarget ts - fragmentDurationSeconds ts) ts) w
              else on_track t (fun ts =>
                     set_playTarget (playTarget ts - trickplay_delta w) ts) w in
            Ok (set_mCheckForRampdown true w, None)
          else Ok (w, None)
      | None => Ok (w, None)
      end
    else
      let w :=
        match ptr (fragment (cachedFragment ts)) with
        | Some _ =>
            let duration := fragmentDurationSeconds ts in
            let position := playTarget ts - playTargetOffset ts in
            let '(position, discontinuity_) :=
              if Qeq_bool (rate w) AAMP_NORMAL_PLAY_RATE
              then (position - fragmentDurationSeconds ts, discontinuity ts)
              else (position - trickplay_delta w, true) in
            let duration :=
              if trickplayMode w && negb (Qeq_bool 0 (rate w))
              then inject_Z (Qtrunc (duration * rate w / inject_Z (mTrickPlayFPS w)))
              else duration in
            on_track t (set_cachedFragment
              {| fragment := fragment (cachedFragment ts);
                 cf_position := position;
                 cf_duration := duration;
                 cf_discontinuity := discontinuity_ |}) w
        | None => w
        end in
      Ok (w, Some (cachedFragment (trackState w t))).

End Fetch.
(** ** Periods (GetNextFragmentPeriodInfo, GetPeriodStartPosition,
       GetNumberOfPeriods, SyncTracksForDiscontinuity) *)

Inductive AAMPStatusType : Type :=
| eAAMPSTATUS_OK
| eAAMPSTATUS_GENERIC_ERROR.

(** The first loop of [GetNextFragmentPeriodInfo]: the index [idx] of the
    first node that completes at or after the play target, with the
    completion time of the node before it. *)
Fixpoint next_fragment_node (nodes : list IndexNode) (idx : Z)
    (prevCompletionTimeSecondsFromStart playTarget_ : Q) : option (Z * Q) :=
  match nodes with
  | [] => None
  | node :: nodes' =>
      if Qgeb (completionTimeSecondsFromStart node) playTarget_
      then Some (idx, prevCompletionTimeSecondsFromStart)
      else next_fragment_node nodes' (idx + 1)%Z
             (completionTimeSecondsFromStart node) playTarget_
  end.

(** Its second loop, over the discontinuity index from entry [i] on. *)
Fixpoint period_before (nodes : list DiscontinuityIndexNode) (i idx periodIdx : Z)
    (periodStartPosition : Q) : Z * Q :=
  match nodes with
  | [] => (periodIdx, periodStartPosition)
  | node :: nodes' =>
      if (fragmentIdx node >? idx)%Z then (periodIdx, periodStartPosition)
      else period_before nodes' (i + 1)%Z idx i (position node)
  end.

(** [GetNextFragmentPeriodInfo(periodIdx, offsetFromPeriodStart)]; it
    starts with [assert (context->rate > 0)]. *)
Definition GetNextFragmentPeriodInfo (ts : TrackState) (w : World) : res (Z * Q) :=
  if Qgtb (rate w) 0 then
    match next_fragment_node (index ts) 0%Z 0 (playTarget ts) with
    | Some (idx, prevCompletionTimeSecondsFromStart) =>
        if (idx >? 0)%Z then
          let '(periodIdx, periodStartPosition) :=
            period_before (mDiscontinuityIndex ts) 0%Z idx (-1)%Z 0 in
          Ok (periodIdx, prevCompletionTimeSecondsFromStart - periodStartPosition)
        else Ok ((-1)%Z, 0)
    | None => Ok ((-1)%Z, 0)
    end
  else Undefined.

(** The loop of [GetPeriodStartPosition] from entry [count] on. *)
Fixpoint period_start_loop (nodes : list DiscontinuityIndexNode)
    (count periodIdx : Z) : Q :=
  match nodes with
  | [] => 0
  | node :: nodes' =>
      if (count =? periodIdx)%Z then position node
      else period_start_loop nodes' (count + 1)%Z periodIdx
  end.

Definition GetPeriodStartPosition (ts : TrackState) (periodIdx : Z) : Q :=
  if (periodIdx <? mDiscontinuityIndexCount ts)%Z
  then period_start_loop (mDiscontinuityIndex ts) 0%Z periodIdx
  else 0.

Definition GetNumberOfPeriods (ts : TrackState) : Z := mDiscontinuityIndexCount ts.

Definition SyncTracksForDiscontinuity (w : World) : res (World * AAMPStatusType) :=
  let audio_ := trackState w eTRACK_AUDIO in
  let video_ := trackState w eTRACK_VIDEO in
  if (GetNumberOfPeriods audio_ =? GetNumberOfPeriods video_)%Z then
    r <- GetNextFragmentPeriodInfo video_ w ;;
    let '(periodIdx, offsetFromPeriod) := r in
    if negb (-1 =? periodIdx)%Z then
      let audioPeriodStart := GetPeriodStartPosition audio_ periodIdx in
      if negb (Qeq_bool 0 audioPeriodStart) then
        Ok (on_track eTRACK_AUDIO
              (set_playTarget (audioPeriodStart + offsetFromPeriod)) w,
            eAAMPSTATUS_OK)
      else Ok (w, eAAMPSTATUS_GENERIC_ERROR)
    else Ok (w, eAAMPSTATUS_GENERIC_ERROR)
  else Ok (w, eAAMPSTATUS_GENERIC_ERROR).
(** ** Profiles and media of the main manifest (GetVideoBitrates,
       GetBWIndex, GetPlaylistURI, GetFormatFromFragmentExtension)

    [HlsStreamInfo] and [MediaInfo] with the fields this file reads and
    writes; a [char *] field is [None] while it is NULL (as [memset]
    leaves it).  [streamInfo] holds the [GetProfileCount()] profiles and
    [mediaInfo] the [mediaCount] media of the presentation. *)

Module Manifest.

Inductive StreamOutputFormat : Type :=
| FORMAT_INVALID
| FORMAT_MPEGTS
| FORMAT_ISO_BMFF
| FORMAT_AUDIO_ES_AAC
| FORMAT_AUDIO_ES_AC3
| FORMAT_AUDIO_ES_EC3
| FORMAT_AUDIO_ES_ATMOS
| FORMAT_VIDEO_ES_H264
| FORMAT_VIDEO_ES_HEVC
| FORMAT_VIDEO_ES_MPEG2
| FORMAT_NONE.

Record HlsStreamInfo : Type := {
  uri : option string;
  bandwidthBitsPerSecond : Z;
  audio : option string;
  codecs : option string;
  isIframeTrack : bool
}.

Record MediaInfo : Type := {
  group_id : option string;
  language : option string;
  isDefault : bool;
  media_uri : option string
}.

(** The part of the presentation and of the player that these functions
    read. *)
Record Context : Type := {
  streamInfo : list HlsStreamInfo;
  mediaInfo : list MediaInfo;
  currentProfileIndex : Z;
  trickplayMode : bool;
  (** [aamp->language] *)
  aamp_language : string
}.

Definition audioFormatMap : list (string * StreamOutputFormat) :=
  [("mp4a.40.2", FORMAT_AUDIO_ES_AAC);
   ("mp4a.40.5", FORMAT_AUDIO_ES_AAC);
   ("ac-3", FORMAT_AUDIO_ES_AC3);
   ("mp4a.a5", FORMAT_AUDIO_ES_AC3);
   ("ec-3", FORMAT_AUDIO_ES_EC3);
   ("ec+3", FORMAT_AUDIO_ES_ATMOS);
   ("eac3", FORMAT_AUDIO_ES_EC3)]%string.

(** [GetVideoBitrates]: the bandwidth of every profile that is no I-frame
    track, in the order of the profiles. *)
Fixpoint GetVideoBitrates (profiles : list HlsStreamInfo) : list Z :=
  match profiles with
  | [] => []
  | streamInfo_ :: profiles' =>
      if negb (isIframeTrack streamInfo_)
      then bandwidthBitsPerSecond streamInfo_ :: GetVideoBitrates profiles'
      else GetVideoBitrates profiles'
  end.

(** The loop of [GetBWIndex] over the profiles still to visit. *)
Fixpoint GetBWIndex_loop (profiles : list HlsStreamInfo) (bitrate topBWIndex : Z)
  : Z :=
  match profiles with
  | [] => topBWIndex
  | streamInfo_ :: profiles' =>
      GetBWIndex_loop profiles' bitrate
        (if negb (isIframeTrack streamInfo_)
            && (bandwidthBitsPerSecond streamInfo_ >? bitrate)%Z
         then (topBWIndex - 1)%Z else topBWIndex)
  end.

Definition GetBWIndex (profiles : list HlsStreamInfo) (bitrate : Z) : Z :=
  GetBWIndex_loop profiles bitrate 0%Z.

(** What [GetPlaylistURI] hands back: the URI, the format it stores when
    asked for one, and the language it passes to
    [UpdateAudioLanguageSelection] when it calls it. *)
Record PlaylistChoice : Type := {
  playlistURI : option string;
  format : option StreamOutputFormat;
  language_selected : option string
}.

Section PlaylistURI.
(** [MAX_LANGUAGE_TAG_LENGTH] *)
Variable MAX_LANGUAGE_TAG_LENGTH : nat.

(** [strncmp(a, b, MAX_LANGUAGE_TAG_LENGTH) == 0] *)
Definition same_language (a b : string) : bool :=
  String.eqb (first_chars MAX_LANGUAGE_TAG_LENGTH a)
    (first_chars MAX_LANGUAGE_TAG_LENGTH b).

(** The first entry of the format map whose codec occurs in [codecs_]. *)
Fixpoint audio_format_of (map : list (string * StreamOutputFormat))
    (codecs_ : string) : StreamOutputFormat :=
  match map with
  | [] => FORMAT_NONE
  | (codec, format_) :: map' =>
      match strstr codecs_ codec with
      | Some _ => format_
      | None => audio_format_of map' codecs_
      end
  end.

(** The inner loop over the media from entry [i] on, in the pass
    [langChecks]: the first media of the group that is in the preferred
    language or, in the last pass, is the default.  Comparing with a media
    that has no language reads through a null pointer. *)
Fixpoint find_audio (language_ group : string) (langChecks : Z)
    (medias : list MediaInfo) (i : nat) : res (option (nat * MediaInfo)) :=
  match medias with
  | [] => Ok None
  | media :: medias' =>
      match group_id media with
      | Some g =>
          if String.eqb group g then
            matches <-
              (if negb (Ascii.eqb (deref language_) NUL) then
                 match language media with
                 | Some l => Ok (same_language language_ l)
                 | None => Undefined
                 end
               else Ok false) ;;
            if matches || ((langChecks =? 1)%Z && isDefault media)
            then Ok (Some (i, media))
            else find_audio language_ group langChecks medias' (S i)
          else find_audio language_ group langChecks medias' (S i)
      | None => find_audio language_ group langChecks medias' (S i)
      end
  end.

Definition audio_choice (streamInfo_ : HlsStreamInfo) (langChecks : Z)
    (media : MediaInfo) : PlaylistChoice :=
  {| playlistURI := media_uri media;
     format :=
       Some match media_uri media, codecs streamInfo_ with
            | Some _, Some codecs_ => audio_format_of audioFormatMap codecs_
            | _, _ => FORMAT_NONE
            end;
     language_selected :=
       if (langChecks =? 1)%Z
       then Some match language media with
                 | Some l => l
                 | None => "en"%string
                 end
       else None |}.

Definition GetPlaylistURI (trackType : TrackType) (c : Context)
  : res PlaylistChoice :=
  match at_index (streamInfo c) (currentProfileIndex c) with
  | None => Undefined
  | Some streamInfo_ =>
      match trackType with
      | eTRACK_VIDEO =>
          Ok {| playlistURI := uri streamInfo_;
                format := Some FORMAT_MPEGTS;
                language_selected := None |}
      | eTRACK_AUDIO =>
          match audio streamInfo_ with
          | Some group =>
              let nothing :=
                {| playlistURI := None; format := None;
                   language_selected := None |} in
              let last_pass :=
                found <- find_audio (aamp_language c) group 1 (mediaInfo c) O ;;
                match found with
                | Some (_, media) => Ok (audio_choice streamInfo_ 1 media)
                | None => Ok nothing
                end in
              if negb (Ascii.eqb (deref (aamp_language c)) NUL) then
                found <- find_audio (aamp_language c) group 2 (mediaInfo c) O ;;
                match found with
                | Some (_, media) => Ok (audio_choice streamInfo_ 2 media)
                | None => last_pass
                end
              else last_pass
          | None =>
              Ok {| playlistURI := None; format := None;
                    language_selected :=
                      if negb (trickplayMode c) then Some "en"%string else None |}
          end
      end
  end.

End PlaylistURI.

(** [isspace] in the C locale. *)
Definition isspace (c : ascii) : bool :=
  let n := nat_of_ascii c in
  (n =? 32)%nat || ((9 <=? n) && (n <=? 13))%nat.

(** [std::getline] over the text: the lines between LFs; a last line
    without LF counts when it is not empty. *)
Fixpoint getlines (text : string) (line : string) : list string :=
  match text with
  | EmptyString =>
      match line with
      | EmptyString => []
      | _ => [line]
      end
  | String c rest =>
      if Ascii.eqb c CHAR_LF then line :: getlines rest EmptyString
      else getlines rest (line ++ String c EmptyString)
  end.

(** [while (isspace(line.back())) { line.pop_back(); if (line.empty())
    break; }] on a line that is not empty, as the reversed line. *)
Fixpoint strip_back (reversed : list ascii) : list ascii :=
  match reversed with
  | [] => []
  | c :: rest => if isspace c then strip_back rest else reversed
  end.

(** [line.substr(0, line.find("?"))] *)
Fixpoint before_query (line : list ascii) : list ascii :=
  match line with
  | [] => []
  | c :: rest => if Ascii.eqb c "?" then [] else c :: before_query rest
  end.

(** [line.substr(line.find_last_of('.'))] on the reversed line, if it has a
    dot: the extension, dot included. *)
Fixpoint extension_of (reversed : list ascii) (acc : list ascii)
  : option (list ascii) :=
  match reversed with
  | [] => None
  | c :: rest =>
      if Ascii.eqb c "." then Some (c :: acc) else extension_of rest (c :: acc)
  end.

Definition format_of_extension (extension : string) : StreamOutputFormat :=
  if String.eqb extension ".ts" then FORMAT_MPEGTS
  else if String.eqb extension ".mp4" then FORMAT_ISO_BMFF
  else if String.eqb extension ".aac" then FORMAT_AUDIO_ES_AAC
  else FORMAT_INVALID.

(** The loop over the lines: the first line that is not empty, is no tag
    and is not blank decides. *)
Fixpoint format_of_lines (lines : list string) : StreamOutputFormat :=
  match lines with
  | [] => FORMAT_INVALID
  | line :: lines' =>
      match line with
      | EmptyString => format_of_lines lines'
      | String c _ =>
          if negb (Ascii.eqb c "#") then
            match strip_back (rev (list_ascii_of_string line)) with
            | [] => format_of_lines lines'
            | stripped =>
                match extension_of (rev (before_query (rev stripped))) [] with
                | Some extension =>
                    format_of_extension (string_of_list_ascii extension)
                | None => FORMAT_INVALID
                end
            end
          else format_of_lines lines'
      end
  end.

(** [GetFormatFromFragmentExtension(trackState)]; a track without a
    playlist buffer makes [std::istringstream] read a null pointer.  [Init]
    calls it right after the playlist has been indexed, when the buffer
    reads as [ptr]. *)
Definition GetFormatFromFragmentExtension (ts : TrackState)
  : res StreamOutputFormat :=
  match ptr (playlist ts) with
  | Some text => Ok (format_of_lines (getlines text EmptyString))
  | None => Undefined
  end.

End Manifest.

(** * Properties *)

(** ** The state *)

Lemma trackState_on_track (t : TrackType) (f : TrackState -> TrackState)
    (w : World) :
  trackState (on_track t f w) t = f (trackState w t).
Proof. destruct t; reflexivity. Qed.

Lemma trackState_on_other_track (t : TrackType)
    (f : TrackState -> TrackState) (w : World) :
  trackState (on_track t f w) (other_track t) = trackState w (other_track t).
Proof. destruct t; reflexivity. Qed.

Lemma trackState_set_trackState (t : TrackType) (ts : TrackState) (w : World) :
  trackState (set_trackState t ts w) t = ts.
Proof. destruct t; reflexivity. Qed.

Lemma trackState_emit (e : Event) (w : World) (t : TrackType) :
  trackState (emit e w) t = trackState w t.
Proof. destruct t; reflexivity. Qed.

Lemma trackState_set_mNetworkDownDetected (b : bool) (w : World) (t : TrackType) :
  trackState (set_mNetworkDownDetected b w) t = trackState w t.
Proof. destruct t; reflexivity. Qed.

Lemma trackState_set_currentProfileIndex (i : Z) (w : World) (t : TrackType) :
  trackState (set_currentProfileIndex i w) t = trackState w t.
Proof. destruct t; reflexivity. Qed.

Lemma bind_Ok {A B : Type} (r : res A) (k : A -> res B) (b : B) :
  bind r k = Ok b -> exists a, r = Ok a /\ k a = Ok b.
Proof.
  destruct r as [a|]; simpl; [eauto | discriminate].
Qed.

(** Names the intermediate result of a [bind] that is known to succeed. *)
Ltac bind_inv H :=
  let a := fresh "a" in
  let Ha := fresh "Ha" in
  apply bind_Ok in H; destruct H as (a & Ha & H).

(** ** What the KEY tag can change

    The attribute callback writes the DRM fields of its track and the log,
    nothing else: two worlds that differ there only have the same frame. *)

Definition drm_frame (ts : TrackState) : TrackState :=
  set_fragmentEncrypted false
    (set_mCMSha1Hash None
       (set_mDrmInfo {| method := eMETHOD_NONE; uri := None; iv := None |}
          (set_mDrmMetaDataIndexPosition 0%Z ts))).

Definition key_frame (t : TrackType) (w : World) : World :=
  set_events [] (on_track t drm_frame w).

(** The stores now in the playlist buffer of [t]. *)
Definition stores (t : TrackType) (w : World) : list nat :=
  nuls (playlist (trackState w t)).

Definition no_nuls (b : GrowableBuffer) : GrowableBuffer :=
  {| ptr := ptr b; len := len b; avail := avail b; nuls := [] |}.

(** The world with the stores in [t]'s playlist buffer left out. *)
Definition uncut (t : TrackType) (w : World) : World :=
  on_track t (fun ts => set_playlist (no_nuls (playlist ts)) ts) w.

Definition cut_frame (t : TrackType) (w : World) : World :=
  key_frame t (uncut t w).

Section KeyFrame.
Context {ext : Externals}.

Lemma UpdateDrmCMSha1Hash_frame (p : option string) (ts ts' : TrackState) :
  UpdateDrmCMSha1Hash p ts = Ok ts' -> drm_frame ts' = drm_frame ts.
Proof.
  unfold UpdateDrmCMSha1Hash. destruct p as [p|].
  - intro H. bind_inv H.
    destruct (match mCMSha1Hash ts with
              | Some old => negb (String.eqb a old) | None => true end).
    + destruct (find_hash _ _ _); [|discriminate].
      injection H as <-. reflexivity.
    + injection H as <-. reflexivity.
  - intros [= <-]. reflexivity.
Qed.

Lemma UpdateDrmIV_frame (p : string) (ts ts' : TrackState) :
  UpdateDrmIV p ts = Ok ts' -> drm_frame ts' = drm_frame ts.
Proof.
  unfold UpdateDrmIV. destruct (base16_Decode p) as [bytes n].
  destruct (n =? 16)%Z; [|discriminate]. intros [= <-]. reflexivity.
Qed.

Lemma key_frame_set_trackState (t : TrackType) (ts : TrackState) (w : World) :
  drm_frame ts = drm_frame (trackState w t) ->
  key_frame t (set_trackState t ts w) = key_frame t w.
Proof.
  intro H. unfold key_frame, on_track.
  rewrite trackState_set_trackState, H. destruct t; reflexivity.
Qed.

Lemma key_frame_emit (t : TrackType) (e : Event) (w : World) :
  key_frame t (emit e w) = key_frame t w.
Proof. destruct t; reflexivity. Qed.

Lemma ParseKeyAttributeCallback_frame (t : TrackType)
    (attrName delimEqual fin : string) (w w' : World) :
  ParseKeyAttributeCallback t None attrName delimEqual fin (Ok w) = Ok w' ->
  key_frame t w' = key_frame t w.
Proof.
  unfold ParseKeyAttributeCallback. cbv beta delta [bind] iota.
  repeat match goal with
         | |- context [if ?b then _ else _] => destruct b
         end;
    intro H;
    repeat match goal with
           | H : match ?r with Ok _ => _ | Undefined => _ end = Ok _ |- _ =>
               let E := fresh "E" in
               destruct r eqn:E; [|discriminate H]
           end;
    try (injection H as <-);
    try apply key_frame_emit;
    try reflexivity;
    try (apply key_frame_set_trackState;
         first [ reflexivity
               | erewrite UpdateDrmCMSha1Hash_frame by eassumption; reflexivity
               | erewrite UpdateDrmIV_frame by eassumption; reflexivity ]).
Qed.

Lemma ParseKeyAttributeCallback_Undefined (t : TrackType)
    (line_end : option nat) (attrName delimEqual fin : string) :
  ParseKeyAttributeCallback t line_end attrName delimEqual fin Undefined
  = Undefined.
Proof. reflexivity. Qed.

Lemma ParseAttrList_loop_key_frame (t : TrackType) (fuel : nat) :
  forall (p : string) (r : res World) (w' : World),
    AttrList.ParseAttrList_loop (ParseKeyAttributeCallback t None) fuel p r
      = AttrList.Returned (Ok w') ->
    exists w, r = Ok w /\ key_frame t w' = key_frame t w.
Proof.
  induction fuel as [|fuel IH]; intros p r w' H; simpl in H; [discriminate|].
  destruct p as [|c p].
  - injection H as ->. eauto.
  - destruct (AttrList.scan_to_equal _) as [d|]; [|discriminate].
    apply IH in H. destruct H as (w1 & H1 & F1).
    destruct r as [w|]; [|discriminate].
    exists w. split; [reflexivity|].
    rewrite F1. eapply ParseKeyAttributeCallback_frame; eassumption.
Qed.

Lemma ParseKeyAttrList_frame (t : TrackType) (p : string) (w w' : World) :
  ParseKeyAttrList t None p w = Ok w' -> key_frame t w' = key_frame t w.
Proof.
  unfold ParseKeyAttrList, AttrList.ParseAttrList.
  destruct (AttrList.ParseAttrList_loop _ _ _ _) as [r| |] eqn:E;
    try discriminate.
  intros ->. apply ParseAttrList_loop_key_frame in E.
  destruct E as (w1 & [= <-] & F). exact F.
Qed.

(** When the parse is made in place, the closing quote of a quoted URI is
    overwritten as well: stores are added to the buffer of the track, and
    the world is otherwise changed as above. *)

Lemma key_frame_uncut (t : TrackType) (w : World) :
  key_frame t (uncut t w) = uncut t (key_frame t w).
Proof. destruct t; reflexivity. Qed.

Lemma cut_frame_cut_playlist (t : TrackType) (o : nat) (w : World) :
  cut_frame t (cut_playlist t o w) = cut_frame t w.
Proof. destruct t; reflexivity. Qed.

Lemma stores_cut_playlist (t : TrackType) (o : nat) (w : World) :
  stores t (cut_playlist t o w) = o :: stores t w.
Proof. destruct t; reflexivity. Qed.

Lemma key_frame_cut_frame (t : TrackType) (w w' : World) :
  key_frame t w' = key_frame t w -> cut_frame t w' = cut_frame t w.
Proof.
  intro H. unfold cut_frame. rewrite !key_frame_uncut, H. reflexivity.
Qed.

Lemma key_frame_stores (t : TrackType) (w w' : World) :
  key_frame t w' = key_frame t w -> stores t w' = stores t w.
Proof.
  intro H. apply (f_equal (stores t)) in H.
  destruct t; exact H.
Qed.

Lemma ParseKeyAttributeCallback_in_place (t : TrackType) (line_end : option nat)
    (attrName delimEqual fin : string) (w w' : World) :
  ParseKeyAttributeCallback t line_end attrName delimEqual fin (Ok w) = Ok w' ->
  exists w0,
    ParseKeyAttributeCallback t None attrName delimEqual fin (Ok w) = Ok w0
    /\ (w' = w0
        \/ exists (fin_end : nat) (x : ascii) (v u : string),
             line_end = Some fin_end
             /\ delimEqual = String x (String CHAR_QUOTE v)
             /\ GetAttributeValueString (String CHAR_QUOTE v) fin = Ok u
             /\ w' = cut_playlist t (fin_end - String.length fin - 1) w0).
Proof.
  destruct line_end as [fin_end|]; [|intro H; exists w'; auto].
  unfold ParseKeyAttributeCallback. cbv beta delta [bind] iota.
  destruct (AttributeNameMatch attrName "METHOD").
  { intro H. exists w'. auto. }
  destruct (AttributeNameMatch attrName "URI").
  { destruct (GetAttributeValueString _ fin) as [u|] eqn:Eu; [|discriminate].
    intros [= <-]. eexists. split; [reflexivity|].
    unfold quote_store.
    destruct delimEqual as [|x [|q v]]; try (left; reflexivity).
    cbn [deref] in *.
    destruct (Ascii.eqb_spec q CHAR_QUOTE) as [->|]; [|left; reflexivity].
    right. exists fin_end, x, v, u. repeat split. exact Eu. }
  intro H. exists w'. auto.
Qed.

Lemma ParseKeyAttributeCallback_cut_frame (t : TrackType)
    (line_end : option nat) (attrName delimEqual fin : string) (w w' : World) :
  ParseKeyAttributeCallback t line_end attrName delimEqual fin (Ok w) = Ok w' ->
  cut_frame t w' = cut_frame t w
  /\ exists added, stores t w' = (added ++ stores t w)%list.
Proof.
  intro H. apply ParseKeyAttributeCallback_in_place in H.
  destruct H as (w0 & H0 & H). apply ParseKeyAttributeCallback_frame in H0.
  destruct H as [-> | (fin_end & x & v & u & _ & _ & _ & ->)].
  - split; [apply key_frame_cut_frame; exact H0|].
    exists []. apply key_frame_stores. exact H0.
  - rewrite cut_frame_cut_playlist, stores_cut_playlist.
    split; [apply key_frame_cut_frame; exact H0|].
    eexists [_]. rewrite (key_frame_stores _ _ _ H0). reflexivity.
Qed.

Lemma ParseAttrList_loop_cut_frame (t : TrackType) (line_end : option nat)
    (fuel : nat) :
  forall (p : string) (r : res World) (w' : World),
    AttrList.ParseAttrList_loop (ParseKeyAttributeCallback t line_end) fuel p r
      = AttrList.Returned (Ok w') ->
    exists w, r = Ok w /\ cut_frame t w' = cut_frame t w
              /\ exists added, stores t w' = (added ++ stores t w)%list.
Proof.
  induction fuel as [|fuel IH]; intros p r w' H; simpl in H; [discriminate|].
  destruct p as [|c p].
  - injection H as ->. exists w'. repeat split. exists []. reflexivity.
  - destruct (AttrList.scan_to_equal _) as [d|]; [|discriminate].
    apply IH in H. destruct H as (w1 & H1 & F1 & (a1 & S1)).
    destruct r as [w|]; [|discriminate].
    exists w. split; [reflexivity|].
    apply ParseKeyAttributeCallback_cut_frame in H1.
    destruct H1 as (F0 & (a0 & S0)).
    split; [congruence|].
    exists (a1 ++ a0)%list. rewrite S1, S0. apply app_assoc.
Qed.

Lemma ParseKeyAttrList_cut_frame (t : TrackType) (line_end : option nat)
    (p : string) (w w' : World) :
  ParseKeyAttrList t line_end p w = Ok w' ->
  cut_frame t w' = cut_frame t w
  /\ exists added, stores t w' = (added ++ stores t w)%list.
Proof.
  unfold ParseKeyAttrList, AttrList.ParseAttrList.
  destruct (AttrList.ParseAttrList_loop _ _ _ _) as [r| |] eqn:E;
    try discriminate.
  intros ->. apply ParseAttrList_loop_cut_frame in E.
  destruct E as (w1 & [= <-] & F). exact F.
Qed.

End KeyFrame.

(** ** What indexing leaves alone

    Building the index of track [t], and finding the line of a sequence
    number in its playlist, do not touch the playlist buffer, the culled
    seconds or the cursor of [t], the other track, or the playlist type. *)

Definition track_frame (ts : TrackState) :=
  (playlist ts, mCulledSeconds ts, playTarget ts, playTargetOffset ts,
   playlistPosition ts, fragmentURI ts).

Definition index_frame (t : TrackType) (w : World) :=
  (playlistType w, track_frame (trackState w t), trackState w (other_track t)).

(** Reading lines out of the buffer ([GetNextFragmentUriFromPlaylist],
    [FindMediaForSequenceNumber]) stores NULs in it: the same frame with
    the stores left out. *)
Definition text_frame (ts : TrackState) :=
  (no_nuls (playlist ts), mCulledSeconds ts, playTarget ts, playTargetOffset ts,
   playlistPosition ts, fragmentURI ts).

Definition cut_index_frame (t : TrackType) (w : World) :=
  (playlistType w, text_frame (trackState w t), trackState w (other_track t)).

Lemma cut_index_frame_on_track (t : TrackType) (f : TrackState -> TrackState)
    (w : World) :
  text_frame (f (trackState w t)) = text_frame (trackState w t) ->
  cut_index_frame t (on_track t f w) = cut_index_frame t w.
Proof.
  intro H. unfold cut_index_frame.
  rewrite trackState_on_track, trackState_on_other_track, H.
  destruct t; reflexivity.
Qed.

Lemma cut_index_frame_cut_playlist (t : TrackType) (o : nat) (w : World) :
  cut_index_frame t (cut_playlist t o w) = cut_index_frame t w.
Proof. apply cut_index_frame_on_track. reflexivity. Qed.

Lemma cut_index_frame_cut_frame (t : TrackType) (w : World) :
  cut_index_frame t (cut_frame t w) = cut_index_frame t w.
Proof. destruct t; reflexivity. Qed.

Section IndexFrame.
Context {ext : Externals}.

Lemma ParseKeyAttrList_cut_index_frame (t : TrackType) (line_end : option nat)
    (p : string) (w w' : World) :
  ParseKeyAttrList t line_end p w = Ok w' ->
  cut_index_frame t w' = cut_index_frame t w.
Proof.
  intro H. apply ParseKeyAttrList_cut_frame in H. destruct H as [H _].
  rewrite <- (cut_index_frame_cut_frame t w'), H.
  apply cut_index_frame_cut_frame.
Qed.

Lemma index_frame_key_frame (t : TrackType) (w : World) :
  index_frame t (key_frame t w) = index_frame t w.
Proof. destruct t; reflexivity. Qed.

Lemma ParseKeyAttrList_index_frame (t : TrackType) (p : string) (w w' : World) :
  ParseKeyAttrList t None p w = Ok w' -> index_frame t w' = index_frame t w.
Proof.
  intro H. apply ParseKeyAttrList_frame in H.
  rewrite <- (index_frame_key_frame t w'), H. apply index_frame_key_frame.
Qed.

Lemma defer_license_index_frame (t : TrackType) (p : string) (w : World) :
  index_frame t (defer_license t p w) = index_frame t w.
Proof.
  unfold defer_license.
  repeat match goal with
         | |- context [match ?b with _ => _ end] => destruct b
         end; destruct t; reflexivity.
Qed.

Lemma index_tag_index_frame (t : TrackType) (tag p : string) (i i' : IndexLoop)
    (w w' : World) (moved : nat) :
  index_tag t tag p i w = Ok (w', i', moved) ->
  index_frame t w' = index_frame t w.
Proof.
  unfold index_tag.
  destruct (has_prefix p "INF:").
  { intros [= <- _ _]. destruct (discontinuity_ i); destruct t; reflexivity. }
  destruct (has_prefix p "-X-DISCONTINUITY").
  { intros [= <- _ _]. reflexivity. }
  destruct (has_prefix p "-X-PROGRAM-DATE-TIME:").
  { intros [= <- _ _]. reflexivity. }
  destruct (has_prefix p "-X-KEY:").
  { intro H. bind_inv H. injection H as <- _ _.
    apply ParseKeyAttrList_index_frame in Ha. rewrite <- Ha.
    destruct t; reflexivity. }
  destruct (_ && _ && _ && has_prefix p "-X-X1-LIN-CK:").
  { destruct (negb _); intros [= <- _ _];
      [apply defer_license_index_frame | reflexivity]. }
  intros [= <- _ _]. reflexivity.
Qed.

Lemma index_loop_index_frame (t : TrackType) (p : string) :
  forall (skip : nat) (i i' : IndexLoop) (w w' : World),
    index_loop t p skip i w = Ok (w', i') ->
    index_frame t w' = index_frame t w.
Proof.
  induction p as [|c p IH]; intros skip i i' w w' H.
  - destruct skip; simpl in H; [|discriminate]. injection H as <- _. reflexivity.
  - destruct skip as [|skip].
    + cbn [index_loop] in H.
      destruct (startswith (String c p) "#EXT") as [after|].
      * bind_inv H. destruct a as [[w1 i1] moved].
        apply IH in H. rewrite H.
        eapply index_tag_index_frame; eassumption.
      * eapply IH; eassumption.
    + cbn [index_loop] in H. eapply IH; eassumption.
Qed.

Lemma ProcessDrmMetadata_loop_index_frame (t : TrackType) (only : bool)
    (hash : option string) (nodes : list DrmMetadataNode) :
  forall (i : nat) (found : option Z) (w : World),
    index_frame t (snd (ProcessDrmMetadata_loop only hash nodes i found w))
    = index_frame t w.
Proof.
  induction nodes as [|node nodes IH]; intros i found w; [reflexivity|].
  cbn [ProcessDrmMetadata_loop].
  repeat match goal with
         | |- context [match ?b with _ => _ end] =>
             lazymatch b with
             | ProcessDrmMetadata_loop _ _ _ _ _ _ => fail
             | _ => destruct b
             end
         end; rewrite IH; try reflexivity; destruct t; reflexivity.
Qed.

Lemma ProcessDrmMetadata_index_frame (t : TrackType) (only : bool) (w : World) :
  index_frame t (ProcessDrmMetadata t only w) = index_frame t w.
Proof.
  unfold ProcessDrmMetadata.
  pose proof (ProcessDrmMetadata_loop_index_frame t only
                (mCMSha1Hash (trackState w t))
                (mDrmMetaDataIndex (trackState w t)) O None w) as H.
  destruct (ProcessDrmMetadata_loop _ _ _ _ _ _) as [found w1].
  simpl in H. rewrite <- H.
  destruct (mCMSha1Hash (trackState w t)); destruct found;
    destruct t; reflexivity.
Qed.

End IndexFrame.

(** ** Indexing a playlist *)

Section IndexFacts.
Context {ext : Externals}.

Lemma FlushIndex_track_frame (ts : TrackState) :
  track_frame (FlushIndex ts) = track_frame ts.
Proof. unfold FlushIndex. destruct (negb _); reflexivity. Qed.

Lemma FlushIndex_empty (ts : TrackState) :
  index (FlushIndex ts) = []
  /\ mDiscontinuityIndex (FlushIndex ts) = []
  /\ mDrmMetaDataIndex (FlushIndex ts) = []
  /\ currentIdx (FlushIndex ts) = (-1)%Z.
Proof.
  unfold FlushIndex.
  destruct (negb _) eqn:E; repeat split; try reflexivity.
  cbn. apply negb_false_iff, Z.eqb_eq in E.
  unfold mDrmMetaDataIndexCount in E. cbn in E.
  change 0%Z with (Z.of_nat 0) in E. apply Nat2Z.inj in E.
  apply length_zero_iff_nil in E. exact E.
Qed.

Lemma index_frame_on_track (t : TrackType) (f : TrackState -> TrackState)
    (w : World) :
  (forall ts, track_frame (f ts) = track_frame ts) ->
  index_frame t (on_track t f w) = index_frame t w.
Proof.
  intro H. unfold index_frame.
  rewrite trackState_on_track, trackState_on_other_track, H.
  destruct t; reflexivity.
Qed.

Lemma index_frame_emit (t : TrackType) (e : Event) (w : World) :
  index_frame t (emit e w) = index_frame t w.
Proof. destruct t; reflexivity. Qed.

(** The steps of [IndexPlaylist] after the index loop. *)
Lemma index_frame_after_loop (t : TrackType) (w : World) (total : Q)
    (present : bool) :
  let w1 := match t with
            | eTRACK_VIDEO => emit (UpdateDuration total) w
            | eTRACK_AUDIO => w
            end in
  let w2 := if gDeferredDrmLicTagUnderProcessing w1 && negb present
            then set_gDeferredDrmLicTagUnderProcessing false w1 else w1 in
  let ts := trackState w2 t in
  let w3 :=
    if (firstIndexDone ts
        && match mCMSha1Hash ts with Some _ => true | None => false end)
       || mForceProcessDrmMetadata ts
    then on_track t (set_mForceProcessDrmMetadata false)
           (ProcessDrmMetadata t false w2)
    else w2 in
  index_frame t
    (on_track t (fun ts =>
       set_mDuration total
         (set_mIndexingInProgress false (set_firstIndexDone true ts))) w3)
  = index_frame t w.
Proof.
  intros w1 w2 ts w3.
  rewrite index_frame_on_track by reflexivity.
  assert (E1 : index_frame t w1 = index_frame t w)
    by (subst w1; destruct t; reflexivity).
  assert (E2 : index_frame t w2 = index_frame t w1)
    by (subst w2; destruct (_ && _); destruct t; reflexivity).
  rewrite <- E1, <- E2. subst w3.
  destruct (_ || _); [|reflexivity].
  rewrite index_frame_on_track by reflexivity.
  apply ProcessDrmMetadata_index_frame.
Qed.

(** The world in which the index loop of [IndexPlaylist] starts, for a
    playlist [text] that begins with [#EXTM3U]. *)
Definition before_index_loop (t : TrackType) (text : string) (w : World) : World :=
  let w := on_track t (fun ts => set_mIndexingInProgress true (FlushIndex ts)) w in
  let w := on_track t (fun ts =>
    let ts :=
      match strstr text "#EXT-X-MEDIA-SEQUENCE:" with
      | Some p =>
          set_indexFirstMediaSequenceNumber
            (atoll (substring 22 (String.length p) p)) ts
      | None => set_indexFirstMediaSequenceNumber 0%Z ts
      end in
    let ts :=
      match strstr text "#EXT-X-TARGETDURATION:" with
      | Some p =>
          set_targetDurationSeconds
            (atof (substring 22 (String.length p) p)) ts
      | None => ts
      end in
    let ts :=
      match strstr text "#EXT-X-MAP:" with
      | Some p =>
          set_mInitFragmentInfo
            (Some (substring 11 (String.length p) p)) ts
      | None => ts
      end in
    set_mDrmMetaDataIndex
      (mDrmMetaDataIndex ts
       ++ drm_metadata_nodes (S (String.length text)) text)%list ts) w in
  let '(type_, unknown) := playlist_type_of text (playlistType w) in
  let w := if unknown then emit (aamp_Error "unknown PLAYLIST-TYPE") w else w in
  let w := set_playlistType type_ w in
  let vod := match type_ with ePLAYLISTTYPE_VOD => true | _ => false end in
  set_mEnableCache vod (set_isLive (negb vod) w).

Lemma index_frame_set_type (t : TrackType) (type_ : PlaylistType)
    (cache live : bool) (w : World) :
  index_frame t (set_mEnableCache cache (set_isLive live (set_playlistType type_ w)))
  = (type_, track_frame (trackState w t), trackState w (other_track t)).
Proof. destruct t; reflexivity. Qed.

Lemma before_index_loop_frame (t : TrackType) (text : string) (w : World) :
  index_frame t (before_index_loop t text w)
  = (fst (playlist_type_of text (playlistType w)),
     track_frame (trackState w t), trackState w (other_track t)).
Proof.
  unfold before_index_loop.
  set (w1 := on_track t _ (on_track t _ w)).
  assert (E : index_frame t w1 = index_frame t w).
  { subst w1. rewrite !index_frame_on_track; [reflexivity| |].
    - intro ts. cbn. apply FlushIndex_track_frame.
    - intro ts. destruct (strstr text "#EXT-X-MEDIA-SEQUENCE:");
        destruct (strstr text "#EXT-X-TARGETDURATION:");
        destruct (strstr text "#EXT-X-MAP:"); reflexivity. }
  assert (Ty : playlistType w1 = playlistType w)
    by exact (f_equal (fun x => fst (fst x)) E).
  rewrite Ty. clearbody w1.
  destruct (playlist_type_of text (playlistType w)) as [type_ unknown].
  rewrite index_frame_set_type. cbn [fst].
  assert (E' : index_frame t (if unknown
                              then emit (aamp_Error "unknown PLAYLIST-TYPE") w1
                              else w1) = index_frame t w)
    by (destruct unknown; [rewrite index_frame_emit|]; exact E).
  pose proof (f_equal (fun x => snd (fst x)) E') as E1.
  pose proof (f_equal snd E') as E2.
  cbn [index_frame fst snd] in E1, E2. rewrite E1, E2. reflexivity.
Qed.

(** [IndexPlaylist] by cases on the buffer. *)
Lemma IndexPlaylist_cases (t : TrackType) (w : World) :
  IndexPlaylist t w =
  match ptr (playlist (trackState w t)) with
  | Some text =>
      if negb (String.eqb (first_chars 7 text) "#EXTM3U") then
        Ok (on_track t (set_mDuration 0)
              (emit (SendErrorEvent AAMP_TUNE_INVALID_MANIFEST_FAILURE)
                 (on_track t (fun ts => set_mIndexingInProgress true (FlushIndex ts)) w)))
      else
        r <- index_loop t text O
               {| totalDuration := 0; drmMetadataIdx_ := (-1)%Z;
                  programDateTimeIdxOfFragment := None;
                  discontinuity_ := false; deferDrmTagPresent := false |}
               (before_index_loop t text w) ;;
        let '(w, i) := r in
        let w := match t with
                 | eTRACK_VIDEO => emit (UpdateDuration (totalDuration i)) w
                 | eTRACK_AUDIO => w
                 end in
        let w := if gDeferredDrmLicTagUnderProcessing w
                    && negb (deferDrmTagPresent i)
                 then set_gDeferredDrmLicTagUnderProcessing false w else w in
        let ts := trackState w t in
        let w :=
          if (firstIndexDone ts
              && match mCMSha1Hash ts with Some _ => true | None => false end)
             || mForceProcessDrmMetadata ts
          then on_track t (set_mForceProcessDrmMetadata false)
                 (ProcessDrmMetadata t false w)
          else w in
        Ok (on_track t (fun ts =>
              set_mDuration (totalDuration i)
                (set_mIndexingInProgress false (set_firstIndexDone true ts))) w)
  | None => IndexPlaylist t w
  end.
Proof.
  destruct (ptr (playlist (trackState w t))) as [text|] eqn:E; [|reflexivity].
  unfold IndexPlaylist.
  assert (E' : ptr (playlist (trackState
                 (on_track t (fun ts => set_mIndexingInProgress true (FlushIndex ts)) w) t))
               = Some text).
  { rewrite trackState_on_track.
    change (ptr (fst (fst (fst (fst (fst
              (track_frame (FlushIndex (trackState w t)))))))) = Some text).
    rewrite FlushIndex_track_frame. exact E. }
  rewrite E'.
  destruct (negb _); [reflexivity|].
  unfold before_index_loop.
  destruct (playlist_type_of text _) as [type_ unknown]. reflexivity.
Qed.

(** The playlist type [IndexPlaylist] leaves, from the buffer it is given. *)
Definition indexed_playlist_type (buffer : GrowableBuffer) (current : PlaylistType)
  : PlaylistType :=
  match ptr buffer with
  | Some text =>
      if String.eqb (first_chars 7 text) "#EXTM3U"
      then fst (playlist_type_of text current) else current
  | None => current
  end.

(** [IndexPlaylist] on track [t] writes the playlist type, and leaves the
    playlist buffer, the culled seconds and the cursor of [t] and the whole
    other track as they were. *)
Lemma IndexPlaylist_index_frame (t : TrackType) (w w' : World) :
  IndexPlaylist t w = Ok w' ->
  index_frame t w'
  = (indexed_playlist_type (playlist (trackState w t)) (playlistType w),
     track_frame (trackState w t), trackState w (other_track t)).
Proof.
  unfold indexed_playlist_type.
  rewrite IndexPlaylist_cases.
  destruct (ptr (playlist (trackState w t))) as [text|] eqn:E.
  - destruct (String.eqb (first_chars 7 text) "#EXTM3U"); cbn [negb].
    + intro H. bind_inv H. destruct a as [w1 i].
      injection H as <-.
      rewrite index_frame_after_loop.
      apply index_loop_index_frame in Ha. rewrite Ha.
      apply before_index_loop_frame.
    + intros [= <-].
      rewrite index_frame_on_track by reflexivity.
      rewrite index_frame_emit.
      rewrite index_frame_on_track; [reflexivity|].
      intro ts. cbn. apply FlushIndex_track_frame.
  - unfold IndexPlaylist.
    assert (E' : ptr (playlist (trackState
                   (on_track t (fun ts => set_mIndexingInProgress true (FlushIndex ts)) w) t))
                 = None).
    { rewrite trackState_on_track.
      change (ptr (fst (fst (fst (fst (fst
                (track_frame (FlushIndex (trackState w t)))))))) = None).
      rewrite FlushIndex_track_frame. exact E. }
    rewrite E'. intros [= <-].
    set (w0 := on_track t _ w).
    assert (E0 : index_frame t w0 = index_frame t w).
    { subst w0. apply index_frame_on_track.
      intro ts. cbn. apply FlushIndex_track_frame. }
    pose proof (index_frame_after_loop t w0 0 false) as L.
    cbv zeta in L. rewrite andb_true_r in L.
    etransitivity; [exact L | exact E0].
Qed.

Lemma IndexPlaylist_playlistType (t : TrackType) (w w' : World) :
  IndexPlaylist t w = Ok w' ->
  playlistType w'
  = indexed_playlist_type (playlist (trackState w t)) (playlistType w).
Proof.
  intro H. apply IndexPlaylist_index_frame in H.
  exact (f_equal (fun x => fst (fst x)) H).
Qed.

(** A playlist that declares itself an EVENT and has no ENDLIST. *)
Definition declares_event (text : string) : bool :=
  match strstr text "#EXT-X-PLAYLIST-TYPE:" with
  | Some p =>
      match startswith p "#EXT-X-PLAYLIST-TYPE:" with
      | Some value => negb (has_prefix value "VOD") && has_prefix value "EVENT"
      | None => false
      end
  | None => false
  end.

Definition has_endlist (text : string) : bool :=
  match strstr text "#EXT-X-ENDLIST" with Some _ => true | None => false end.

Definition event_without_endlist (buffer : GrowableBuffer) : bool :=
  match ptr buffer with
  | Some text =>
      String.eqb (first_chars 7 text) "#EXTM3U"
      && declares_event text && negb (has_endlist text)
  | None => false
  end.

Lemma playlist_type_of_endlist (text : string) (current : PlaylistType) :
  has_endlist text = true ->
  fst (playlist_type_of text current) = ePLAYLISTTYPE_VOD.
Proof.
  unfold has_endlist, playlist_type_of. intro H.
  destruct (strstr text "#EXT-X-ENDLIST"); [|discriminate].
  destruct (strstr text "#EXT-X-PLAYLIST-TYPE:") as [p|].
  - destruct (startswith p "#EXT-X-PLAYLIST-TYPE:") as [v|].
    + destruct (has_prefix v "VOD"); [reflexivity|].
      destruct (has_prefix v "EVENT"); [reflexivity|].
      destruct current; reflexivity.
    + destruct current; reflexivity.
  - destruct current; reflexivity.
Qed.

Lemma playlist_type_of_vod (text : string) :
  fst (playlist_type_of text ePLAYLISTTYPE_VOD)
  = if declares_event text && negb (has_endlist text)
    then ePLAYLISTTYPE_EVENT else ePLAYLISTTYPE_VOD.
Proof.
  unfold has_endlist, declares_event, playlist_type_of.
  destruct (strstr text "#EXT-X-PLAYLIST-TYPE:") as [p|]; [|reflexivity].
  destruct (startswith p "#EXT-X-PLAYLIST-TYPE:") as [v|]; [|reflexivity].
  destruct (has_prefix v "VOD"); [reflexivity|].
  destruct (has_prefix v "EVENT"); [|reflexivity].
  destruct (strstr text "#EXT-X-ENDLIST"); reflexivity.
Qed.

(** C7, as the code has it. An index of a playlist of a presentation whose
    type is VOD leaves the type VOD, unless the playlist begins with
    [#EXTM3U], carries an EXT-X-PLAYLIST-TYPE tag whose value begins with
    EVENT and carries no EXT-X-ENDLIST: then the type becomes EVENT.  A
    playlist that begins with [#EXTM3U] and carries EXT-X-ENDLIST always
    leaves the type VOD, whatever it was (so undefined becomes VOD when
    ENDLIST appears). *)
Theorem IndexPlaylist_vod_unless_event (t : TrackType) (w w' : World)
    (H : IndexPlaylist t w = Ok w') :
  (playlistType w = ePLAYLISTTYPE_VOD ->
   playlistType w'
   = if event_without_endlist (playlist (trackState w t))
     then ePLAYLISTTYPE_EVENT else ePLAYLISTTYPE_VOD)
  /\ (forall text,
        ptr (playlist (trackState w t)) = Some text ->
        first_chars 7 text = "#EXTM3U"%string ->
        has_endlist text = true ->
        playlistType w' = ePLAYLISTTYPE_VOD).
Proof.
  apply IndexPlaylist_playlistType in H. rewrite H.
  unfold indexed_playlist_type, event_without_endlist. split.
  - intros ->.
    destruct (ptr (playlist (trackState w t))) as [text|]; [|reflexivity].
    destruct (String.eqb (first_chars 7 text) "#EXTM3U"); [|reflexivity].
    rewrite playlist_type_of_vod, andb_true_l. reflexivity.
  - intros text -> Hm He. rewrite Hm. rewrite String.eqb_refl.
    apply playlist_type_of_endlist. exact He.
Qed.

(** C8. A playlist buffer that does not begin with [#EXTM3U] is not
    indexed: the invalid-manifest failure is sent, the duration of the
    track is 0 and its fragment, discontinuity and DRM-metadata indexes are
    empty. *)
Theorem IndexPlaylist_invalid_manifest (t : TrackType) (w : World)
    (text : string)
    (Hbuf : ptr (playlist (trackState w t)) = Some text)
    (Hbad : first_chars 7 text <> "#EXTM3U"%string) :
  exists w',
    IndexPlaylist t w = Ok w'
    /\ events w' = (events w ++ [SendErrorEvent AAMP_TUNE_INVALID_MANIFEST_FAILURE])%list
    /\ mDuration (trackState w' t) = 0
    /\ index (trackState w' t) = []
    /\ mDiscontinuityIndex (trackState w' t) = []
    /\ mDrmMetaDataIndex (trackState w' t) = []
    /\ playlistType w' = playlistType w.
Proof.
  rewrite IndexPlaylist_cases, Hbuf.
  apply String.eqb_neq in Hbad. rewrite Hbad. cbn [negb].
  eexists. split; [reflexivity|].
  destruct (FlushIndex_empty (trackState w t)) as (E1 & E2 & E3 & _).
  rewrite trackState_on_track.
  repeat split; try (destruct t; reflexivity).
  - destruct t; cbn; exact E1.
  - destruct t; cbn; exact E2.
  - destruct t; cbn; exact E3.
Qed.

End IndexFacts.

(** ** Refreshing a playlist *)

Section RefreshFacts.
Context {ext : Externals}.

Lemma index_frame_cut_index_frame (t : TrackType) (w w' : World) :
  index_frame t w' = index_frame t w ->
  cut_index_frame t w' = cut_index_frame t w.
Proof.
  intro H. unfold cut_index_frame, text_frame.
  pose proof (f_equal (fun x => fst (fst x)) H) as E1.
  pose proof (f_equal (fun x => snd (fst x)) H) as E2.
  pose proof (f_equal snd H) as E3.
  cbn [fst snd index_frame] in E1, E2, E3. unfold track_frame in E2.
  injection E2 as -> -> -> -> -> ->. rewrite E1, E3. reflexivity.
Qed.

Lemma find_media_cut_index_frame (t : TrackType)
    (lines : list (nat * string * option nat)) :
  forall (n : nat) (msn seq : Z) (key : option (string * nat)) (w w' : World)
         (rc : option UriPtr),
    find_media t lines n msn seq key w = Ok (w', rc) ->
    cut_index_frame t w' = cut_index_frame t w.
Proof.
  induction lines as [|[[start line] fin] lines IH];
    intros n msn seq key w w' rc H.
  - injection H as <- _. reflexivity.
  - cbn [find_media] in H.
    set (w0 := match fin with Some o => cut_playlist t o w | None => w end) in H.
    assert (E0 : cut_index_frame t w0 = cut_index_frame t w)
      by (subst w0; destruct fin; [apply cut_index_frame_cut_playlist|reflexivity]).
    rewrite <- E0. clearbody w0.
    destruct line as [|c line]; [eauto|].
    destruct (startswith (String c line) "#EXTINF:").
    { apply IH in H. rewrite H. apply cut_index_frame_on_track. reflexivity. }
    destruct (startswith (String c line) "#EXT-X-MEDIA-SEQUENCE:"); [eauto|].
    destruct (startswith (String c line) "#EXT-X-KEY:"); [eauto|].
    destruct (negb _); [|eauto].
    destruct (seq >=? msn)%Z; [|eauto].
    bind_inv H. injection H as <- _.
    assert (E : cut_index_frame t a = cut_index_frame t w0).
    { destruct key as [[k line_end]|]; [|injection Ha as <-; reflexivity].
      destruct (_ >? 1)%Z; [|injection Ha as <-; reflexivity].
      eapply ParseKeyAttrList_cut_index_frame; eassumption. }
    rewrite <- E. destruct (negb _); [|reflexivity].
    apply cut_index_frame_on_track. reflexivity.
Qed.

Lemma FindMediaForSequenceNumber_cut_index_frame (t : TrackType) (w w' : World)
    (rc : option UriPtr) :
  FindMediaForSequenceNumber t w = Ok (w', rc) ->
  cut_index_frame t w' = cut_index_frame t w.
Proof.
  unfold FindMediaForSequenceNumber.
  destruct (ptr (playlist (trackState w t))).
  - apply find_media_cut_index_frame.
  - intros [= <- _]. reflexivity.
Qed.

Lemma cut_index_frame_fields (t : TrackType) (w' : World) (type_ : PlaylistType)
    (ts other : TrackState) :
  cut_index_frame t w' = (type_, text_frame ts, other) ->
  mCulledSeconds (trackState w' t) = mCulledSeconds ts
  /\ no_nuls (playlist (trackState w' t)) = no_nuls (playlist ts).
Proof.
  intro H.
  pose proof (f_equal (fun x => snd (fst x)) H) as E. cbn [fst snd] in E.
  split.
  - exact (f_equal (fun x => snd (fst (fst (fst (fst x))))) E).
  - exact (f_equal (fun x => fst (fst (fst (fst (fst x))))) E).
Qed.

Lemma index_frame_fields (t : TrackType) (w' : World) (type_ : PlaylistType)
    (ts other : TrackState) :
  index_frame t w' = (type_, track_frame ts, other) ->
  mCulledSeconds (trackState w' t) = mCulledSeconds ts
  /\ playlist (trackState w' t) = playlist ts.
Proof.
  intro H.
  pose proof (f_equal (fun x => snd (fst x)) H) as E. cbn [fst snd] in E.
  split.
  - exact (f_equal (fun x => snd (fst (fst (fst (fst x))))) E).
  - exact (f_equal (fun x => fst (fst (fst (fst (fst x))))) E).
Qed.

Lemma cut_index_frame_culled (t : TrackType) (w w' : World) :
  cut_index_frame t w' = cut_index_frame t w ->
  mCulledSeconds (trackState w' t) = mCulledSeconds (trackState w t)
  /\ no_nuls (playlist (trackState w' t)) = no_nuls (playlist (trackState w t)).
Proof. apply cut_index_frame_fields. Qed.

(** The download step keeps the culled seconds; the playlist buffer is the
    downloaded one if it holds data, else the one held before (if any),
    with the stores that finding the cursor has made in it. *)
Lemma refresh_download_frame (t : TrackType) (d : Download) (w w1 : World)
    (returned : bool) :
  refresh_download t d w = Ok (w1, returned) ->
  mCulledSeconds (trackState w1 t) = mCulledSeconds (trackState w t)
  /\ no_nuls (playlist (trackState w1 t))
     = no_nuls (if negb (len (downloaded d) =? 0)%Z then downloaded d
                else match ptr (playlist (trackState w t)) with
                     | Some _ => playlist (trackState w t)
                     | None => downloaded d
                     end).
Proof.
  unfold refresh_download.
  set (w0 := on_track t (set_playlist (downloaded d)) w).
  assert (L : len (playlist (trackState w0 t)) = len (downloaded d))
    by (subst w0; rewrite trackState_on_track; reflexivity).
  rewrite L.
  assert (C0 : mCulledSeconds (trackState w0 t) = mCulledSeconds (trackState w t))
    by (subst w0; rewrite trackState_on_track; reflexivity).
  assert (P0 : playlist (trackState w0 t) = downloaded d)
    by (subst w0; rewrite trackState_on_track; reflexivity).
  destruct (negb (len (downloaded d) =? 0)%Z).
  - intro H. bind_inv H.
    apply IndexPlaylist_index_frame in Ha.
    assert (Ea : mCulledSeconds (trackState a t) = mCulledSeconds (trackState w t)
                 /\ playlist (trackState a t) = downloaded d).
    { apply index_frame_fields in Ha.
      assert (E : trackState (if mNetworkDownDetected w0
                              then set_mNetworkDownDetected false w0 else w0) t
                  = trackState w0 t)
        by (destruct (mNetworkDownDetected w0); destruct t; reflexivity).
      rewrite E in Ha. rewrite <- C0, <- P0. exact Ha. }
    destruct Ea as [Ca Pa].
    destruct (Qgtb _ 0);
      [|injection H as <- _; split; [assumption | rewrite Pa; reflexivity]].
    bind_inv H. injection H as <- _.
    rewrite trackState_on_track.
    change (mCulledSeconds (trackState a0 t) = mCulledSeconds (trackState w t)
            /\ no_nuls (playlist (trackState a0 t)) = no_nuls (downloaded d)).
    rewrite <- Ca, <- Pa.
    assert (Hfind : forall r : res (World * option UriPtr),
              bind r (fun r => let '(w, rc) := r in
                               Ok (on_track t (set_fragmentURI rc) w)) = Ok a0 ->
              r = FindMediaForSequenceNumber t a ->
              mCulledSeconds (trackState a0 t) = mCulledSeconds (trackState a t)
              /\ no_nuls (playlist (trackState a0 t))
                 = no_nuls (playlist (trackState a t))).
    { intros r Hr ->. bind_inv Hr. destruct a1 as [w2 rc]. injection Hr as <-.
      apply FindMediaForSequenceNumber_cut_index_frame,
        cut_index_frame_culled in Ha1.
      rewrite trackState_on_track. exact Ha1. }
    destruct (playlistType a).
    + eapply Hfind; [exact Ha0 | reflexivity].
    + eapply Hfind; [exact Ha0 | reflexivity].
    + injection Ha0 as <-. rewrite trackState_on_track. split; reflexivity.
  - destruct (ptr (playlist (trackState w t))) eqn:Ep; rewrite ?Ep.
    + set (w2 := if refreshPlaylist _ then _ else _).
      assert (E2 : trackState w2 t = set_playlist (playlist (trackState w t))
                                       (trackState w0 t)).
      { subst w2. destruct (refreshPlaylist _);
          rewrite ?trackState_set_currentProfileIndex, ?trackState_on_track;
          reflexivity. }
      clearbody w2.
      destruct (downloadsEnabled w2).
      * destruct (_ || _).
        { intros [= <- _]. rewrite trackState_set_mNetworkDownDetected, E2.
          split; [exact C0 | reflexivity]. }
        set (w3 := on_track t _ w2).
        assert (E3 : trackState w3 t
                     = set_manifestDLFailCount
                         (manifestDLFailCount (trackState w2 t) + 1)%Z
                         (trackState w2 t))
          by (subst w3; rewrite trackState_on_track; reflexivity).
        clearbody w3.
        destruct (fragmentURI (trackState w3 t));
          [|destruct (_ >? _)%Z]; intros [= <- _];
          rewrite ?trackState_emit, E3, E2; (split; [exact C0 | reflexivity]).
      * intros [= <- _]. rewrite E2. split; [exact C0 | reflexivity].
    + cbn [ptr no_buffer].
      destruct (downloadsEnabled w0).
      * destruct (_ || _).
        { intros [= <- _]. rewrite trackState_set_mNetworkDownDetected.
          split; [exact C0 | exact (f_equal no_nuls P0)]. }
        set (w3 := on_track t _ w0).
        assert (E3 : trackState w3 t
                     = set_manifestDLFailCount
                         (manifestDLFailCount (trackState w0 t) + 1)%Z
                         (trackState w0 t))
          by (subst w3; rewrite trackState_on_track; reflexivity).
        clearbody w3.
        destruct (fragmentURI (trackState w3 t));
          [|destruct (_ >? _)%Z]; intros [= <- _];
          rewrite ?trackState_emit, E3; (split; [exact C0 | exact (f_equal no_nuls P0)]).
      * intros [= <- _]. split; [exact C0 | exact (f_equal no_nuls P0)].
Qed.

Lemma GetCompletionTimeForFragment_ext (ts1 ts2 : TrackState) (n : Z) :
  index ts1 = index ts2 ->
  indexFirstMediaSequenceNumber ts1 = indexFirstMediaSequenceNumber ts2 ->
  GetCompletionTimeForFragment ts1 n = GetCompletionTimeForFragment ts2 n.
Proof.
  intros E1 E2. unfold GetCompletionTimeForFragment.
  f_equal; assumption.
Qed.

(** The download step when the download brings no data: only the failure
    count of the track (and the restored buffer) are written. *)
Lemma refresh_download_failed (t : TrackType) (d : Download) (w : World) :
  len (downloaded d) = 0%Z ->
  exists w1 returned count,
    refresh_download t d w = Ok (w1, returned)
    /\ trackState w1 t
       = set_manifestDLFailCount count
           (set_playlist
              (match ptr (playlist (trackState w t)) with
               | Some _ => playlist (trackState w t)
               | None => downloaded d
               end) (trackState w t))
    /\ playlistType w1 = playlistType w
    /\ trackState w1 (other_track t) = trackState w (other_track t).
Proof.
  intro L0. unfold refresh_download.
  set (w0 := on_track t (set_playlist (downloaded d)) w).
  assert (L : len (playlist (trackState w0 t)) = 0%Z)
    by (subst w0; rewrite trackState_on_track; exact L0).
  rewrite L. cbn [Z.eqb negb].
  assert (T0 : trackState w0 t = set_playlist (downloaded d) (trackState w t))
    by (subst w0; apply trackState_on_track).
  assert (O0 : trackState w0 (other_track t) = trackState w (other_track t))
    by (subst w0; apply trackState_on_other_track).
  assert (Y0 : playlistType w0 = playlistType w)
    by (subst w0; destruct t; reflexivity).
  clearbody w0.
  set (w2 := match ptr _ with Some _ => _ | None => w0 end).
  assert (T2 : trackState w2 t
               = set_playlist
                   (match ptr (playlist (trackState w t)) with
                    | Some _ => playlist (trackState w t)
                    | None => downloaded d
                    end) (trackState w t)
               /\ playlistType w2 = playlistType w
               /\ trackState w2 (other_track t) = trackState w (other_track t)).
  { subst w2. destruct (ptr (playlist (trackState w t))) eqn:Ep; rewrite ?Ep.
    - destruct (refreshPlaylist _);
        rewrite ?trackState_set_currentProfileIndex, ?trackState_on_track,
          ?trackState_on_other_track, T0;
        (split; [reflexivity | split; [destruct t; exact Y0 | exact O0]]).
    - cbn [ptr no_buffer]. rewrite T0.
      split; [reflexivity | split; assumption]. }
  clearbody w2. destruct T2 as (T2 & Y2 & O2).
  destruct (downloadsEnabled w2).
  - destruct (_ || _).
    + exists (set_mNetworkDownDetected true w2), true,
        (manifestDLFailCount (trackState w t)).
      split; [reflexivity|].
      rewrite !trackState_set_mNetworkDownDetected, T2.
      split; [reflexivity | split; [exact Y2 | exact O2]].
    + set (w3 := on_track t _ w2).
      assert (T3 : trackState w3 t
                   = set_manifestDLFailCount
                       (manifestDLFailCount (trackState w2 t) + 1)%Z
                       (trackState w2 t))
        by (subst w3; rewrite trackState_on_track; reflexivity).
      assert (O3 : trackState w3 (other_track t) = trackState w (other_track t))
        by (subst w3; rewrite trackState_on_other_track; exact O2).
      assert (Y3 : playlistType w3 = playlistType w)
        by (subst w3; destruct t; exact Y2).
      clearbody w3.
      destruct (fragmentURI (trackState w3 t)); [|destruct (_ >? _)%Z];
        eexists _, _, (manifestDLFailCount (trackState w2 t) + 1)%Z;
        (split; [reflexivity|]);
        rewrite ?trackState_emit, T3, T2;
        (split; [reflexivity | split; [exact Y3 | exact O3]]).
  - exists w2, false, (manifestDLFailCount (trackState w t)).
    split; [reflexivity|]. rewrite T2.
    split; [reflexivity | split; [exact Y2 | exact O2]].
Qed.

Lemma refresh_download_returned (t : TrackType) (d : Download) (w w1 : World) :
  refresh_download t d w = Ok (w1, true) -> len (downloaded d) = 0%Z.
Proof.
  unfold refresh_download.
  set (w0 := on_track t (set_playlist (downloaded d)) w).
  assert (L : len (playlist (trackState w0 t)) = len (downloaded d))
    by (subst w0; rewrite trackState_on_track; reflexivity).
  rewrite L. destruct (Z.eqb_spec (len (downloaded d)) 0); [tauto|].
  cbn [negb]. intro H. bind_inv H.
  destruct (Qgtb _ 0); [|discriminate].
  bind_inv H. discriminate.
Qed.

(** C3, as the code has it. A refresh adds to the culled seconds of the
    track the completion time at the common sequence number in the index
    held before, minus the one in the index held after; the culled seconds
    do not decrease whenever the completion time after is no larger than
    the one before. *)
Theorem RefreshPlaylist_culled_seconds (t : TrackType) (d : Download)
    (w w' : World) (H : RefreshPlaylist t d w = Ok w') :
  let common := (nextMediaSequenceNumber (trackState w t) - 1)%Z in
  let prev := GetCompletionTimeForFragment (trackState w t) common in
  let new := GetCompletionTimeForFragment (trackState w' t) common in
  mCulledSeconds (trackState w' t)
    == mCulledSeconds (trackState w t) + (prev - new)
  /\ (new <= prev ->
      mCulledSeconds (trackState w t) <= mCulledSeconds (trackState w' t)).
Proof.
  intros common prev new.
  assert (Main : mCulledSeconds (trackState w' t)
                 == mCulledSeconds (trackState w t) + (prev - new)).
  { unfold RefreshPlaylist in H. bind_inv H. destruct a as [w1 returned].
    fold common in H. fold prev in H.
    set (w0 := on_track t _ w) in Ha.
    assert (T0 : trackState w0 t
                 = set_lastPlaylistDownloadTimeMS (aamp_GetCurrentTimeMS d)
                     (trackState w t))
      by (subst w0; apply trackState_on_track).
    destruct returned.
    - injection H as <-.
      pose proof (refresh_download_returned _ _ _ _ Ha) as L0.
      destruct (refresh_download_failed t d w0 L0)
        as (w1' & r' & count & E & T1 & _).
      rewrite Ha in E. injection E as <- _.
      assert (N : new = prev).
      { subst new prev. apply GetCompletionTimeForFragment_ext;
          rewrite T1, T0; reflexivity. }
      rewrite N, T1, T0. cbn. ring.
    - apply refresh_download_frame in Ha. destruct Ha as [C1 _].
      rewrite T0 in C1. cbn in C1.
      assert (T' : trackState w' t
                   = set_mCulledSeconds
                       (mCulledSeconds (trackState w1 t)
                        + (prev - GetCompletionTimeForFragment
                                    (trackState w1 t) common))
                       (trackState w1 t)).
      { destruct t; injection H as <-; reflexivity. }
      assert (N : new = GetCompletionTimeForFragment (trackState w1 t) common).
      { subst new. apply GetCompletionTimeForFragment_ext;
          rewrite T'; reflexivity. }
      rewrite N, T'. cbn. rewrite C1. reflexivity. }
  split; [exact Main|].
  intro Hle. rewrite Main. lra.
Qed.

(** A refresh whose download brings data replaces the playlist buffer of the
    track by the downloaded one, in which finding the cursor may have made
    stores. *)
Lemma RefreshPlaylist_replaces_buffer (t : TrackType) (d : Download)
    (w w' : World) :
  len (downloaded d) <> 0%Z ->
  RefreshPlaylist t d w = Ok w' ->
  no_nuls (playlist (trackState w' t)) = no_nuls (downloaded d).
Proof.
  intros L H. unfold RefreshPlaylist in H. bind_inv H.
  destruct a as [w1 returned].
  destruct returned.
  - apply refresh_download_returned in Ha. contradiction.
  - apply refresh_download_frame in Ha. destruct Ha as [_ P].
    apply Z.eqb_neq in L. rewrite L in P. cbn [negb] in P.
    destruct t; injection H as <-; exact P.
Qed.

(** C10. A refresh whose download brings no data leaves the track with the
    playlist buffer it held, the same index (fragments, discontinuities,
    DRM metadata, first sequence number, duration) and the same cursor
    (fragment URI, playlist position, play target, next sequence number,
    index cursor); its culled seconds keep their value, and the playlist
    type and the other track are untouched. *)
Theorem RefreshPlaylist_failed_download (t : TrackType) (d : Download)
    (w : World) (text : string)
    (Hlen : len (downloaded d) = 0%Z)
    (Hheld : ptr (playlist (trackState w t)) = Some text) :
  exists w',
    RefreshPlaylist t d w = Ok w'
    /\ playlist (trackState w' t) = playlist (trackState w t)
    /\ index (trackState w' t) = index (trackState w t)
    /\ indexFirstMediaSequenceNumber (trackState w' t)
       = indexFirstMediaSequenceNumber (trackState w t)
    /\ mDiscontinuityIndex (trackState w' t) = mDiscontinuityIndex (trackState w t)
    /\ mDrmMetaDataIndex (trackState w' t) = mDrmMetaDataIndex (trackState w t)
    /\ mDuration (trackState w' t) = mDuration (trackState w t)
    /\ currentIdx (trackState w' t) = currentIdx (trackState w t)
    /\ fragmentURI (trackState w' t) = fragmentURI (trackState w t)
    /\ playlistPosition (trackState w' t) = playlistPosition (trackState w t)
    /\ playTarget (trackState w' t) = playTarget (trackState w t)
    /\ nextMediaSequenceNumber (trackState w' t)
       = nextMediaSequenceNumber (trackState w t)
    /\ mCulledSeconds (trackState w' t) == mCulledSeconds (trackState w t)
    /\ playlistType w' = playlistType w
    /\ trackState w' (other_track t) = trackState w (other_track t).
Proof.
  unfold RefreshPlaylist.
  set (w0 := on_track t _ w).
  assert (T0 : trackState w0 t
               = set_lastPlaylistDownloadTimeMS (aamp_GetCurrentTimeMS d)
                   (trackState w t))
    by (subst w0; apply trackState_on_track).
  assert (O0 : trackState w0 (other_track t) = trackState w (other_track t))
    by (subst w0; apply trackState_on_other_track).
  assert (Y0 : playlistType w0 = playlistType w)
    by (subst w0; destruct t; reflexivity).
  clearbody w0.
  destruct (refresh_download_failed t d w0 Hlen)
    as (w1 & returned & count & E & T1 & Y1 & O1).
  rewrite E. cbn [bind].
  assert (Hheld0 : ptr (playlist (trackState w0 t)) = Some text)
    by (rewrite T0; exact Hheld).
  rewrite Hheld0 in T1. rewrite T0 in T1.
  destruct returned.
  - exists w1. split; [reflexivity|]. rewrite T1, Y1, O1, Y0, O0.
    repeat split; reflexivity.
  - set (culled := (_ - _)%Q).
    assert (Z0 : culled == 0).
    { subst culled.
      rewrite (GetCompletionTimeForFragment_ext (trackState w1 t) (trackState w t))
        by (rewrite T1; reflexivity).
      ring. }
    clearbody culled.
    set (bump := fun ts => set_mCulledSeconds (mCulledSeconds ts + culled) ts).
    set (w2 := match t with
               | eTRACK_VIDEO =>
                   emit (UpdateCullingState culled) (on_track t bump w1)
               | eTRACK_AUDIO => on_track t bump w1
               end).
    assert (T2 : trackState w2 t = bump (trackState w1 t))
      by (subst w2; destruct t; reflexivity).
    assert (O2 : trackState w2 (other_track t) = trackState w1 (other_track t))
      by (subst w2; destruct t; reflexivity).
    assert (Y2 : playlistType w2 = playlistType w1)
      by (subst w2; destruct t; reflexivity).
    exists w2. split; [subst w2 bump; destruct t; reflexivity|].
    clearbody w2. rewrite T2, O2, Y2, T1, O1, Y1, O0, Y0. subst bump.
    do 11 (split; [reflexivity|]).
    split; [cbn; rewrite Z0; ring|].
    split; reflexivity.
Qed.

End RefreshFacts.

(** ** Trick play *)

(** [idx] is the first node at or after [from] whose completion time is at
    least [target]. *)
Definition selected_forward (nodes : list IndexNode) (from idx : nat) (target : Q)
  : Prop :=
  (from <= idx)%nat
  /\ (exists node, nth_error nodes idx = Some node
                   /\ target <= completionTimeSecondsFromStart node)
  /\ (forall j node, (from <= j < idx)%nat -> nth_error nodes j = Some node ->
                     completionTimeSecondsFromStart node < target).

(** [idx] is the first node at or before [from], going down, whose
    completion time is at most [target]. *)
Definition selected_backward (nodes : list IndexNode) (from idx : nat) (target : Q)
  : Prop :=
  (idx <= from)%nat
  /\ (exists node, nth_error nodes idx = Some node
                   /\ completionTimeSecondsFromStart node <= target)
  /\ (forall j node, (idx < j <= from)%nat -> nth_error nodes j = Some node ->
                     target < completionTimeSecondsFromStart node).

(** What a trick-play fetch reads and does not write, but for the play
    target that [choose_fragment] steps. *)
Definition trick_frame (t : TrackType) (w : World) :=
  (rate w, trickplayMode w, mTrickPlayFPS w, iframeTrack w,
   index (trackState w t), playTarget (trackState w t),
   playTargetOffset (trackState w t)).

Section FetchFacts.
Context {ext : Externals}.
Variable playlist_indexed : nat -> World -> World.

Lemma search_forward_spec (nodes : list IndexNode) (target : Q) :
  forall (i idx : nat),
    search_forward nodes i target = Some idx ->
    (i <= idx)%nat
    /\ (exists node, nth_error nodes (idx - i) = Some node
                     /\ target <= completionTimeSecondsFromStart node)
    /\ (forall j node, (j < idx - i)%nat -> nth_error nodes j = Some node ->
                       completionTimeSecondsFromStart node < target).
Proof.
  induction nodes as [|n nodes IH]; intros i idx H; simpl in H; [discriminate|].
  unfold Qgeb in H.
  destruct (Qle_bool target (completionTimeSecondsFromStart n)) eqn:E.
  - injection H as <-. rewrite Nat.sub_diag.
    split; [lia|]. split.
    + exists n. split; [reflexivity | apply Qle_bool_iff; exact E].
    + intros j node Hj. lia.
  - apply IH in H. destruct H as (L & (node & Hn & Hc) & Hbefore).
    split; [lia|]. split.
    + exists node. split; [|exact Hc].
      replace (idx - i)%nat with (S (idx - S i)) by lia. exact Hn.
    + intros j node' Hj Hnth. destruct j as [|j].
      * injection Hnth as <-. apply Qnot_le_lt. intro Hle.
        apply Qle_bool_iff in Hle. congruence.
      * apply (Hbefore j); [lia | exact Hnth].
Qed.

Lemma search_forward_selected (nodes : list IndexNode) (from idx : nat)
    (target : Q) :
  search_forward (skipn from nodes) from target = Some idx ->
  selected_forward nodes from idx target.
Proof.
  intro H. apply search_forward_spec in H.
  destruct H as (L & (node & Hn & Hc) & Hbefore).
  split; [exact L|]. split.
  - exists node. split; [|exact Hc].
    rewrite nth_error_skipn in Hn.
    replace (from + (idx - from))%nat with idx in Hn by lia. exact Hn.
  - intros j node' Hj Hnth. apply (Hbefore (j - from)%nat); [lia|].
    rewrite nth_error_skipn.
    replace (from + (j - from))%nat with j by lia. exact Hnth.
Qed.

Lemma search_backward_selected (nodes : list IndexNode) (target : Q) :
  forall (from idx : nat),
    search_backward nodes from target = Ok (Some idx) ->
    selected_backward nodes from idx target.
Proof.
  induction from as [|from IH]; intros idx H; cbn [search_backward] in H.
  - destruct (nth_error nodes 0) as [n|] eqn:En; [|discriminate].
    unfold Qleb in H.
    destruct (Qle_bool (completionTimeSecondsFromStart n) target) eqn:E;
      [|discriminate].
    injection H as <-. split; [lia|]. split.
    + exists n. split; [exact En | apply Qle_bool_iff; exact E].
    + intros j node Hj. lia.
  - destruct (nth_error nodes (S from)) as [n|] eqn:En; [|discriminate].
    unfold Qleb in H.
    destruct (Qle_bool (completionTimeSecondsFromStart n) target) eqn:E.
    + injection H as <-. split; [lia|]. split.
      * exists n. split; [exact En | apply Qle_bool_iff; exact E].
      * intros j node Hj. lia.
    + apply IH in H. destruct H as (L & Hfound & Hafter).
      split; [lia|]. split; [exact Hfound|].
      intros j node Hj Hnth.
      destruct (Nat.eq_dec j (S from)) as [->|Hne].
      * rewrite En in Hnth. injection Hnth as <-.
        apply Qnot_le_lt. intro Hle. apply Qle_bool_iff in Hle. congruence.
      * apply (Hafter j); [lia | exact Hnth].
Qed.

Lemma trick_frame_set_trackState (t : TrackType) (ts : TrackState) (w : World) :
  index ts = index (trackState w t) ->
  playTarget ts = playTarget (trackState w t) ->
  playTargetOffset ts = playTargetOffset (trackState w t) ->
  trick_frame t (set_trackState t ts w) = trick_frame t w.
Proof.
  intros E1 E2 E3. unfold trick_frame.
  rewrite trackState_set_trackState, E1, E2, E3. destruct t; reflexivity.
Qed.

Lemma select_index_node_frame (t : TrackType) (idx : nat) (node : IndexNode)
    (w w' : World) (rc : option UriPtr) :
  select_index_node t idx node w = Ok (w', rc) ->
  trick_frame t w' = trick_frame t w
  /\ currentIdx (trackState w' t) = Z.of_nat idx.
Proof.
  unfold select_index_node. intro H.
  bind_inv H. rename a into p.
  bind_inv H. destruct a as [[length offset] fragmentInfo].
  bind_inv H. injection H as <- _.
  rewrite trackState_set_trackState.
  destruct (drmMetadataIdx node =? -1)%Z.
  - split; [apply trick_frame_set_trackState|]; reflexivity.
  - split; [apply trick_frame_set_trackState|]; reflexivity.
Qed.

(** What the block reads: the bytes at the node's pointer, the tag lines
    there and the line after them; the playlist buffer is not written. *)
Lemma select_index_node_reads (t : TrackType) (idx : nat) (node : IndexNode)
    (w w' : World) (rc : option UriPtr) :
  select_index_node t idx node w = Ok (w', rc) ->
  playlist (trackState w' t) = playlist (trackState w t)
  /\ exists (p fragmentInfo : string) (range : Z * Z) (u : option string),
       fragment_info (trackState w t) node = Ok p
       /\ fragment_tags (S (String.length p)) p (0%Z, 0%Z)
          = Ok (range, fragmentInfo)
       /\ uri_line fragmentInfo = Ok u
       /\ rc = option_map FromIndex u.
Proof.
  unfold select_index_node. intro H.
  bind_inv H. rename a into p. rename Ha into Hp.
  bind_inv H. destruct a as [[length offset] fragmentInfo].
  bind_inv H. injection H as <- <-.
  rewrite trackState_set_trackState. split.
  - destruct (drmMetadataIdx node =? -1)%Z; reflexivity.
  - exists p, fragmentInfo, (length, offset), a.
    repeat split; assumption.
Qed.

(** The index node a trick-play fetch starts its search from. *)
Definition search_start (w : World) (ts : TrackState) : Z :=
  if (currentIdx ts =? -1)%Z
  then (if Qgtb (rate w) 0 then 0 else indexCount ts - 1)%Z
  else currentIdx ts.

Lemma GetFragmentUriFromIndex_frame (t : TrackType) (w w' : World)
    (rc : option UriPtr) :
  GetFragmentUriFromIndex t w = Ok (w', rc) ->
  trick_frame t w' = trick_frame t w.
Proof.
  unfold GetFragmentUriFromIndex. set (ts := trackState w t).
  destruct (Qgtb (rate w) 0).
  - destruct (at_index _ _) as [lastNode|]; [|discriminate].
    destruct (_ && _); [intros [= <- _]; reflexivity|].
    set (ts1 := if (currentIdx ts =? -1)%Z then _ else ts).
    assert (F1 : trick_frame t (set_trackState t ts1 w) = trick_frame t w)
      by (apply trick_frame_set_trackState; subst ts1;
          destruct (currentIdx ts =? -1)%Z; reflexivity).
    destruct (currentIdx ts1 <? 0)%Z; [discriminate|].
    destruct (search_forward _ _ _) as [idx|]; [|intros [= <- _]; exact F1].
    destruct (nth_error _ idx) as [node|]; [|discriminate].
    intro H. apply select_index_node_frame in H. destruct H as [H _].
    rewrite H. exact F1.
  - set (ts1 := if (currentIdx ts =? -1)%Z then _ else ts).
    assert (F1 : trick_frame t (set_trackState t ts1 w) = trick_frame t w)
      by (apply trick_frame_set_trackState; subst ts1;
          destruct (currentIdx ts =? -1)%Z; reflexivity).
    destruct (currentIdx ts1 <? 0)%Z; [intros [= <- _]; exact F1|].
    intro H. bind_inv H.
    destruct a as [idx|]; [|injection H as <- _; exact F1].
    destruct (nth_error _ idx) as [node|]; [|discriminate].
    apply select_index_node_frame in H. destruct H as [H _].
    rewrite H. exact F1.
Qed.

(** The node a trick-play fetch selects, and the block that reads it. *)
Lemma GetFragmentUriFromIndex_selects (t : TrackType) (w w' : World)
    (u : UriPtr) :
  GetFragmentUriFromIndex t w = Ok (w', Some u) ->
  let ts := trackState w t in
  exists (from idx : nat) (node : IndexNode) (w1 : World),
    search_start w ts = Z.of_nat from
    /\ currentIdx (trackState w' t) = Z.of_nat idx
    /\ (if Qgtb (rate w) 0
        then selected_forward (index ts) from idx (playTarget ts)
        else selected_backward (index ts) from idx (playTarget ts))
    /\ nth_error (index ts) idx = Some node
    /\ playlist (trackState w1 t) = playlist ts
    /\ select_index_node t idx node w1 = Ok (w', Some u).
Proof.
  unfold GetFragmentUriFromIndex, search_start. cbv zeta.
  set (ts := trackState w t).
  destruct (Qgtb (rate w) 0).
  - destruct (at_index _ _) as [lastNode|]; [|discriminate].
    destruct (_ && _); [discriminate|].
    set (ts1 := if (currentIdx ts =? -1)%Z then _ else ts).
    assert (E1 : index ts1 = index ts /\ playTarget ts1 = playTarget ts
                 /\ playlist ts1 = playlist ts
                 /\ currentIdx ts1
                    = if (currentIdx ts =? -1)%Z then 0%Z else currentIdx ts)
      by (subst ts1; destruct (currentIdx ts =? -1)%Z; repeat split; reflexivity).
    destruct E1 as (Ei & Ep & Eb & Ec). rewrite Ei, Ep.
    destruct (Z.ltb_spec (currentIdx ts1) 0) as [Hneg|Hpos]; [discriminate|].
    destruct (search_forward _ _ _) as [idx|] eqn:Es; [|discriminate].
    destruct (nth_error _ idx) as [node|] eqn:En; [|discriminate].
    intro H. pose proof H as H'.
    apply select_index_node_frame in H. destruct H as [_ H].
    exists (Z.to_nat (currentIdx ts1)), idx, node, (set_trackState t ts1 w).
    rewrite <- Ec. split; [lia|]. split; [exact H|].
    split; [apply search_forward_selected; exact Es|].
    split; [exact En|]. split; [|exact H'].
    rewrite trackState_set_trackState. exact Eb.
  - set (ts1 := if (currentIdx ts =? -1)%Z then _ else ts).
    assert (E1 : index ts1 = index ts /\ playTarget ts1 = playTarget ts
                 /\ playlist ts1 = playlist ts
                 /\ currentIdx ts1
                    = if (currentIdx ts =? -1)%Z
                      then (indexCount ts - 1)%Z else currentIdx ts)
      by (subst ts1; destruct (currentIdx ts =? -1)%Z; repeat split; reflexivity).
    destruct E1 as (Ei & Ep & Eb & Ec). rewrite Ei, Ep.
    destruct (Z.ltb_spec (currentIdx ts1) 0) as [Hneg|Hpos]; [discriminate|].
    intro H. bind_inv H.
    destruct a as [idx|]; [|discriminate].
    destruct (nth_error _ idx) as [node|] eqn:En; [|discriminate].
    pose proof H as H'.
    apply select_index_node_frame in H. destruct H as [_ H].
    exists (Z.to_nat (currentIdx ts1)), idx, node, (set_trackState t ts1 w).
    rewrite <- Ec. split; [lia|]. split; [exact H|].
    split; [apply search_backward_selected; exact Ha|].
    split; [exact En|]. split; [|exact H'].
    rewrite trackState_set_trackState. exact Eb.
Qed.

Lemma trick_frame_on_track (t : TrackType) (f : TrackState -> TrackState)
    (w : World) :
  (forall ts, index (f ts) = index ts) ->
  (forall ts, playTarget (f ts) = playTarget ts) ->
  (forall ts, playTargetOffset (f ts) = playTargetOffset ts) ->
  trick_frame t (on_track t f w) = trick_frame t w.
Proof.
  intros E1 E2 E3. unfold on_track.
  apply trick_frame_set_trackState; auto.
Qed.

Definition play_rate (w : World) := (rate w, trickplayMode w, mTrickPlayFPS w).

Lemma play_rate_trick_frame (t : TrackType) (w w' : World) :
  trick_frame t w' = trick_frame t w -> play_rate w' = play_rate w.
Proof.
  intro H. exact (f_equal (fun x => fst (fst (fst (fst x)))) H).
Qed.

Lemma play_rate_on_track (t : TrackType) (f : TrackState -> TrackState)
    (w : World) :
  play_rate (on_track t f w) = play_rate w.
Proof. destruct t; reflexivity. Qed.

Lemma play_rate_emit (e : Event) (w : World) : play_rate (emit e w) = play_rate w.
Proof. reflexivity. Qed.

(** How a trick-play fetch moves the play target. *)
Lemma choose_fragment_trickplay (t : TrackType) (w w' : World) :
  trickplayMode w = true ->
  iframeTrack w <> INVALID_PROFILE ->
  choose_fragment playlist_indexed t w = Ok w' ->
  let ts := trackState w t in
  let ts' := trackState w' t in
  let delta := trickplay_delta w in
  play_rate w' = play_rate w
  /\ (0 <= rate w -> playTarget ts' = playTarget ts + delta)
  /\ (rate w < 0 ->
      (fragmentURI ts' = None \/ playTarget ts == 0 ->
       playTarget ts' = playTarget ts /\ eosReached ts' = true)
      /\ (fragmentURI ts' <> None -> ~ playTarget ts == 0 ->
          - delta < playTarget ts -> playTarget ts' = playTarget ts + delta)
      /\ (fragmentURI ts' <> None -> ~ playTarget ts == 0 ->
          playTarget ts <= - delta -> playTarget ts' = 0)).
Proof.
  intros Htm Hif. unfold choose_fragment.
  destruct (fragmentURI (trackState w t)) as [held|]; [|discriminate].
  rewrite Htm.
  assert (Ei : (INVALID_PROFILE =? iframeTrack w)%Z = false)
    by (apply Z.eqb_neq; congruence).
  rewrite Ei. cbn [negb andb].
  intro H. bind_inv H. destruct a as [w1 rc].
  apply GetFragmentUriFromIndex_frame in Ha.
  set (w2 := on_track t (set_fragmentURI rc) w1) in H.
  assert (F2 : trick_frame t w2 = trick_frame t w).
  { subst w2. rewrite trick_frame_on_track by reflexivity. exact Ha. }
  assert (U2 : fragmentURI (trackState w2 t) = rc)
    by (subst w2; rewrite trackState_on_track; reflexivity).
  clearbody w2. clear Ha.
  assert (P2 : playTarget (trackState w2 t) = playTarget (trackState w t))
    by exact (f_equal (fun x => snd (fst x)) F2).
  assert (R2 : play_rate w2 = play_rate w)
    by (apply (play_rate_trick_frame t); exact F2).
  assert (D2 : trickplay_delta w2 = trickplay_delta w).
  { unfold trickplay_delta.
    rewrite (f_equal (fun x => fst (fst x)) R2 : rate w2 = rate w).
    rewrite (f_equal snd R2 : mTrickPlayFPS w2 = mTrickPlayFPS w). reflexivity. }
  assert (Rate2 : rate w2 = rate w) by exact (f_equal (fun x => fst (fst x)) R2).
  rewrite Rate2, D2, P2 in H.
  cbv zeta.
  destruct (Qltb (rate w) 0) eqn:Er.
  - apply Qltb_true in Er.
    destruct (match rc with None => true | Some _ => false end
              || Qeq_bool (playTarget (trackState w t)) 0) eqn:Ec.
    + injection H as <-. rewrite play_rate_on_track, trackState_on_track.
      split; [exact R2|]. split; [intro; exfalso; lra|]. intros _.
      split; [|split].
      * intros _. split; [exact P2 | reflexivity].
      * intros Hu Hz. exfalso. apply orb_true_iff in Ec. destruct Ec as [Ec|Ec].
        -- apply Hu. change (fragmentURI (trackState w2 t) = None).
           rewrite U2. destruct rc; [discriminate | reflexivity].
        -- apply Hz. apply Qeq_bool_iff. exact Ec.
      * intros Hu Hz. exfalso. apply orb_true_iff in Ec. destruct Ec as [Ec|Ec].
        -- apply Hu. change (fragmentURI (trackState w2 t) = None).
           rewrite U2. destruct rc; [discriminate | reflexivity].
        -- apply Hz. apply Qeq_bool_iff. exact Ec.
    + apply orb_false_iff in Ec. destruct Ec as [Ec1 Ec2].
      assert (Hsome : rc <> None) by (destruct rc; [discriminate | discriminate]).
      destruct (Qgtb (playTarget (trackState w t)) (- trickplay_delta w)) eqn:Eg;
        injection H as <-; rewrite play_rate_on_track, trackState_on_track;
        (split; [exact R2|]); (split; [intro; exfalso; lra|]); intros _;
        (split; [|split]).
      * intros [Hu|Hz]; exfalso.
        -- apply Hsome. rewrite <- U2. exact Hu.
        -- apply Qeq_bool_iff in Hz. congruence.
      * intros; reflexivity.
      * intros _ _ Hle. apply Qgtb_true in Eg. exfalso. lra.
      * intros [Hu|Hz]; exfalso.
        -- apply Hsome. rewrite <- U2. exact Hu.
        -- apply Qeq_bool_iff in Hz. congruence.
      * intros _ _ Hlt. apply Qgtb_false in Eg. exfalso. lra.
      * intros; reflexivity.
  - apply Qltb_false in Er.
    injection H as <-. rewrite play_rate_on_track, trackState_on_track.
    split; [destruct rc; rewrite ?play_rate_on_track; exact R2|].
    split; [|intro; exfalso; lra].
    intros _. cbn.
    destruct rc; [rewrite P2; reflexivity|].
    rewrite trackState_on_track.
    change (playTarget (trackState w2 t) + trickplay_delta w
            = playTarget (trackState w t) + trickplay_delta w).
    rewrite P2. reflexivity.
Qed.

End FetchFacts.
(** ** Lines and attribute lists: what the text helpers compute *)

Section TextFacts.
Local Open Scope nat_scope.
Local Open Scope string_scope.

Lemma length_append (a b : string) :
  String.length (a ++ b) = String.length a + String.length b.
Proof. induction a as [|c a IH]; simpl; [reflexivity | rewrite IH; reflexivity]. Qed.

Lemma append_assoc (a b c : string) : (a ++ b) ++ c = a ++ (b ++ c).
Proof. induction a as [|x a IH]; simpl; [reflexivity | rewrite IH; reflexivity]. Qed.

Lemma substring_prefix (a b : string) :
  substring 0 (String.length a) (a ++ b) = a.
Proof.
  induction a as [|c a IH]; simpl.
  - destruct b; reflexivity.
  - rewrite IH. reflexivity.
Qed.

Lemma span_append (a b : string) : AttrList.span (a ++ b) b = a.
Proof.
  unfold AttrList.span. rewrite length_append.
  replace (String.length a + String.length b - String.length b)
    with (String.length a) by lia.
  apply substring_prefix.
Qed.

Lemma startswith_spec (prefix : string) :
  forall p rest : string,
    startswith p prefix = Some rest <-> p = prefix ++ rest.
Proof.
  induction prefix as [|c prefix IH]; intros p rest.
  - destruct p; simpl; (split; [intros [= ->]; reflexivity | intros ->; reflexivity]).
  - destruct p as [|d p]; simpl.
    + split; [discriminate | discriminate].
    + destruct (Ascii.eqb_spec d c) as [->|Hdc].
      * split.
        -- intro H. apply IH in H. subst p. reflexivity.
        -- intros [= ->]. apply IH. reflexivity.
      * split; [discriminate | intros [= E _]; contradiction].
Qed.

Lemma strchr_append_none (a b : string) (c : ascii) :
  strchr a c = None -> strchr (a ++ b) c = strchr b c.
Proof.
  induction a as [|d a IH]; simpl; [reflexivity|].
  destruct (Ascii.eqb d c); [discriminate | exact IH].
Qed.

Lemma mystrpbrk_spec (p : string) :
  match mystrpbrk p with
  | (line, Some next) =>
      ((p = line ++ String CHAR_LF next
        /\ forall head, line <> head ++ String CHAR_CR EmptyString)
       \/ p = line ++ String CHAR_CR (String CHAR_LF next))
      /\ strchr line CHAR_LF = None
      /\ mystrpbrk_fin p = Some (String.length line)
  | (line, None) =>
      line = p /\ strchr p CHAR_LF = None /\ mystrpbrk_fin p = None
  end.
Proof.
  induction p as [|c p IH]; [repeat split; reflexivity|].
  cbn [mystrpbrk mystrpbrk_fin].
  destruct (Ascii.eqb_spec c CHAR_LF) as [->|Hc].
  - split; [left; split; [reflexivity|] | split; reflexivity].
    intros [|x head]; discriminate.
  - assert (Hs : forall q, strchr (String c q) CHAR_LF = strchr q CHAR_LF).
    { intro q. simpl. destruct (Ascii.eqb_spec c CHAR_LF); [contradiction|].
      reflexivity. }
    destruct p as [|d p].
    + repeat split. rewrite Hs. reflexivity.
    + destruct (Ascii.eqb c CHAR_CR && Ascii.eqb d CHAR_LF)%bool eqn:E.
      * apply andb_true_iff in E. destruct E as [E1 E2].
        apply Ascii.eqb_eq in E1, E2. subst c d.
        split; [right; reflexivity | split; reflexivity].
      * destruct (mystrpbrk (String d p)) as [line [next|]].
        -- destruct IH as (Hp & Hl & Hf). split; [|split].
           ++ destruct Hp as [[Hp Hcr] | Hp]; [left | right].
              ** split; [rewrite Hp; reflexivity|].
                 intros [|x head] Hh.
                 --- injection Hh as -> ->. cbn [append] in Hp.
                     injection Hp as -> _.
                     rewrite !Ascii.eqb_refl in E. discriminate.
                 --- injection Hh as _ Hh. exact (Hcr head Hh).
              ** rewrite Hp. reflexivity.
           ++ rewrite Hs. exact Hl.
           ++ rewrite Hf. reflexivity.
        -- destruct IH as (-> & Hl & Hf). split; [reflexivity|]. split.
           ++ rewrite Hs. exact Hl.
           ++ rewrite Hf. reflexivity.
Qed.

(** X1. [mystrpbrk] cuts the text at its first LF.  The line is the text
    before the LF, less one CR when a CR comes right before the LF: either
    the text is the line, the LF and the rest, and the line does not end
    with a CR, or it is the line, a CR, the LF and the rest.  The line holds
    no LF, the pointer returned is the text after the LF, and the NUL is
    stored right after the line, over the CR if there is one and else over
    the LF.  Without an LF the whole text is the line, no pointer is
    returned and nothing is stored. *)
Theorem mystrpbrk_splits_at_first_LF (p : string) :
  match mystrpbrk p with
  | (line, Some next) =>
      ((p = line ++ String CHAR_LF next
        /\ forall head, line <> head ++ String CHAR_CR EmptyString)
       \/ p = line ++ String CHAR_CR (String CHAR_LF next))
      /\ strchr line CHAR_LF = None
      /\ mystrpbrk_fin p = Some (String.length line)
  | (line, None) =>
      line = p /\ strchr p CHAR_LF = None /\ mystrpbrk_fin p = None
  end.
Proof. exact (mystrpbrk_spec p). Qed.


(** X3. A quoted attribute value comes back without its quotes, whatever
    the text between them; when the character before [fin] is not a quote
    the [assert] fails; a value that does not open with a quote is returned
    as the pointer it came as, up to the end of the attribute list. *)
Theorem GetAttributeValueString_unquotes (s rest : string) :
  GetAttributeValueString (quoted s ++ rest) rest = Ok s
  /\ (forall c : ascii,
        Ascii.eqb c CHAR_QUOTE = false ->
        GetAttributeValueString
          (String CHAR_QUOTE (s ++ String c rest)) rest = Undefined)
  /\ (forall (c : ascii) (v : string),
        Ascii.eqb c CHAR_QUOTE = false ->
        GetAttributeValueString (String c v) rest = Ok (String c v)).
Proof.
  assert (G : forall c, String.get (String.length s) (s ++ String c rest) = Some c).
  { intro c. pose proof (append_correct2 s (String c rest) 0) as H.
    simpl in H. symmetry. exact H. }
  assert (N : forall c,
             String.length (s ++ String c rest) - String.length rest
             = S (String.length s)).
  { intro c. rewrite length_append. simpl. lia. }
  split; [|split].
  - replace (quoted s ++ rest) with (String CHAR_QUOTE (s ++ String CHAR_QUOTE rest))
      by (unfold quoted; simpl; rewrite append_assoc; reflexivity).
    unfold GetAttributeValueString.
    rewrite Ascii.eqb_refl, N, G, Ascii.eqb_refl, substring_prefix. reflexivity.
  - intros c Hc. unfold GetAttributeValueString.
    rewrite Ascii.eqb_refl, N, G, Hc. reflexivity.
  - intros c v Hc. unfold GetAttributeValueString. rewrite Hc. reflexivity.
Qed.

(** X4. [AttributeNameMatch] holds exactly for the text that begins with
    the name and has ['='] right after it: a longer name that merely starts
    with the target does not match. *)
Theorem AttributeNameMatch_iff (attrNamePtr target : string) :
  AttributeNameMatch attrNamePtr target = true
  <-> exists value : string, attrNamePtr = target ++ String "=" value.
Proof.
  unfold AttributeNameMatch. split.
  - destruct (startswith attrNamePtr target) as [rest|] eqn:E; [|discriminate].
    apply startswith_spec in E. subst attrNamePtr.
    destruct rest as [|c rest]; simpl; [discriminate|].
    intro H. apply Ascii.eqb_eq in H. subst c. eauto.
  - intros [value ->].
    assert (E : startswith (target ++ String "=" value) target
                = Some (String "=" value)) by (apply startswith_spec; reflexivity).
    rewrite E. reflexivity.
Qed.

(** The lines a [while (ptr) { next = mystrpbrk(ptr); ...; ptr = next; }]
    loop visits: the line [mystrpbrk] cuts at [p], then the lines from the
    pointer it returns, and none after it returns NULL. *)
Lemma split_lines_follows_mystrpbrk (p : string) :
  split_lines p
  = fst (mystrpbrk p)
    :: match snd (mystrpbrk p) with
       | Some next => split_lines next
       | None => []
       end.
Proof.
  induction p as [|c p IH]; [reflexivity|].
  cbn [split_lines mystrpbrk].
  destruct (Ascii.eqb c CHAR_LF); [reflexivity|].
  destruct p as [|d p]; [reflexivity|].
  destruct (Ascii.eqb c CHAR_CR && Ascii.eqb d CHAR_LF)%bool; [reflexivity|].
  rewrite IH. destruct (mystrpbrk (String d p)) as [line next]. reflexivity.
Qed.


Lemma line_spans_lines (p : string) :
  forall o : nat,
    map (fun s => snd (fst s)) (line_spans p o) = split_lines p.
Proof.
  induction p as [|c p IH]; intro o; [reflexivity|].
  cbn [line_spans split_lines].
  destruct (Ascii.eqb c CHAR_LF); [cbn [map fst snd]; rewrite IH; reflexivity|].
  destruct p as [|d p]; [reflexivity|].
  destruct (Ascii.eqb c CHAR_CR && Ascii.eqb d CHAR_LF)%bool eqn:E.
  - cbn [map fst snd]. f_equal.
    apply andb_true_iff in E. destruct E as [_ Ed].
    specialize (IH (S o)). cbn [line_spans split_lines] in IH.
    rewrite Ed in IH. cbn [map fst snd] in IH. injection IH as IH. exact IH.
  - specialize (IH (S o)).
    destruct (line_spans (String d p) (S o)) as [|[[s l] f] spans];
      destruct (split_lines (String d p)) as [|l' lines']; try discriminate.
    + reflexivity.
    + cbn [map fst snd] in *. injection IH as -> ->. reflexivity.
Qed.

(** *** Pointers into a buffer that holds stores *)












End TextFacts.
(** ** Attribute lists: what a well-formed list parses to *)

(** A name the parser takes as it stands: no ['='] in it, and no blank in
    front (the parser strips those). *)
Definition plain_name (n : string) : bool :=
  negb (has_char "=" n) && negb (Ascii.eqb (deref n) " ").

(** A value outside quotes: no comma and no quote in it. *)
Definition plain_value (v : string) : bool :=
  negb (has_char "," v) && negb (has_char CHAR_QUOTE v).

(** A value the parser takes whole: plain, or any quote-free text between
    two quotes. *)
Definition well_formed_value (v : string) : Prop :=
  plain_value v = true
  \/ exists s, v = quoted s /\ has_char CHAR_QUOTE s = false.

Definition well_formed_field (f : string * string) : Prop :=
  plain_name (fst f) = true /\ well_formed_value (snd f).

(** The attribute list that spells the fields out: [name=value], joined by
    commas. *)
Fixpoint render (kvs : list (string * string)) : string :=
  match kvs with
  | [] => EmptyString
  | (n, v) :: rest =>
      (n ++ String "=" (v ++ match rest with
                             | [] => EmptyString
                             | _ :: _ => String "," (render rest)
                             end))%string
  end.

Section AttrListRoundTrip.
Import AttrList.
Local Open Scope nat_scope.
Local Open Scope string_scope.

Lemma skip_spaces_eqn (c : ascii) (r : string) :
  skip_spaces (String c r)
  = if Ascii.eqb c " " then skip_spaces r else String c r.
Proof. destruct c as [[] [] [] [] [] [] [] []]; reflexivity. Qed.

Lemma scan_to_equal_eqn (c : ascii) (r : string) :
  scan_to_equal (String c r)
  = if Ascii.eqb c "=" then Some (String c r) else scan_to_equal r.
Proof. destruct c as [[] [] [] [] [] [] [] []]; reflexivity. Qed.

(** The step over the comma that ends a field, if one does. *)
Definition step_past_comma (fin : string) : string :=
  match fin with
  | String "," rest => rest
  | _ => fin
  end.

Lemma ParseAttrList_loop_step {C : Type}
    (cb : string -> string -> string -> C -> C) (fuel : nat) (c : ascii)
    (p : string) (ctx : C) :
  ParseAttrList_loop cb (S fuel) (String c p) ctx
  = match scan_to_equal (skip_spaces (String c p)) with
    | None => ReadPastTerminator ctx
    | Some d =>
        ParseAttrList_loop cb fuel (step_past_comma (scan_to_fin d false))
          (cb (skip_spaces (String c p)) d (scan_to_fin d false) ctx)
    end.
Proof. reflexivity. Qed.

Lemma skip_spaces_plain_name (n rest : string) :
  Ascii.eqb (deref n) " " = false ->
  skip_spaces (n ++ String "=" rest) = n ++ String "=" rest.
Proof.
  destruct n as [|c n]; simpl append; intro H.
  - rewrite skip_spaces_eqn. reflexivity.
  - rewrite skip_spaces_eqn. simpl in H. rewrite H. reflexivity.
Qed.

Lemma scan_to_equal_plain_name (n rest : string) :
  has_char "=" n = false ->
  scan_to_equal (n ++ String "=" rest) = Some (String "=" rest).
Proof.
  induction n as [|c n IH]; simpl append; intro H.
  - rewrite scan_to_equal_eqn. reflexivity.
  - simpl in H. apply orb_false_iff in H. destruct H as [Hc Hn].
    rewrite scan_to_equal_eqn, Hc. exact (IH Hn).
Qed.

Lemma scan_to_fin_plain_value (v tail : string) :
  plain_value v = true ->
  scan_to_fin (v ++ tail) false = scan_to_fin tail false.
Proof.
  unfold plain_value. intro H. apply andb_true_iff in H. destruct H as [Hc Hq].
  apply negb_true_iff in Hc, Hq.
  induction v as [|c v IH]; [reflexivity|].
  simpl in Hc, Hq. apply orb_false_iff in Hc, Hq.
  destruct Hc as [Hc1 Hc2]. destruct Hq as [Hq1 Hq2].
  simpl. rewrite Hq1, Hc1. simpl. exact (IH Hc2 Hq2).
Qed.

Lemma scan_to_fin_in_quote (s tail : string) :
  has_char CHAR_QUOTE s = false ->
  scan_to_fin (s ++ String CHAR_QUOTE tail) true = tail.
Proof.
  induction s as [|c s IH]; intro H.
  - reflexivity.
  - simpl in H. apply orb_false_iff in H. destruct H as [H1 H2].
    simpl. rewrite H1, andb_false_r. exact (IH H2).
Qed.

Lemma scan_to_fin_value (v tail : string) :
  well_formed_value v ->
  tail = EmptyString \/ (exists r, tail = String "," r) ->
  scan_to_fin (String "=" (v ++ tail)) false = tail.
Proof.
  intros Hv Ht.
  change (scan_to_fin (String "=" (v ++ tail)) false)
    with (scan_to_fin (v ++ tail) false).
  destruct Hv as [Hv | [s [-> Hs]]].
  - rewrite (scan_to_fin_plain_value v tail Hv).
    destruct Ht as [-> | [r ->]]; reflexivity.
  - unfold quoted. simpl append. rewrite append_assoc. simpl append.
    change (scan_to_fin (String CHAR_QUOTE (s ++ String CHAR_QUOTE tail)) false)
      with (scan_to_fin (s ++ String CHAR_QUOTE tail) true).
    apply scan_to_fin_in_quote. exact Hs.
Qed.

Lemma render_length (f : string * string) (rest : list (string * string)) :
  String.length (render rest) < String.length (render (f :: rest)).
Proof.
  destruct f as [n v]. destruct rest as [|g rest].
  - cbn [render]. rewrite length_append. cbn [String.length]. lia.
  - change (render ((n, v) :: g :: rest))
      with (n ++ String "=" (v ++ String "," (render (g :: rest)))).
    generalize (render (g :: rest)). intro r.
    rewrite length_append. cbn [String.length].
    rewrite length_append. cbn [String.length]. lia.
Qed.

Lemma ParseAttrList_loop_render (kvs : list (string * string)) :
  forall (fuel : nat) (acc : list (string * string)),
    Forall well_formed_field kvs ->
    String.length (render kvs) < fuel ->
    ParseAttrList_loop record_field fuel (render kvs) acc
    = Returned (acc ++ kvs)%list.
Proof.
  induction kvs as [|[n v] rest IH]; intros fuel acc Hwf Hfuel.
  - destruct fuel as [|fuel]; [simpl in Hfuel; lia|].
    simpl. rewrite app_nil_r. reflexivity.
  - destruct fuel as [|fuel]; [lia|].
    pose proof (render_length (n, v) rest) as Hlen.
    inversion Hwf as [|f fs [Hn Hv] Hrest]; subst.
    cbn [fst snd] in Hn, Hv.
    apply andb_true_iff in Hn. destruct Hn as [Hn1 Hn2].
    apply negb_true_iff in Hn1, Hn2.
    cbn [render].
    set (tail := match rest with
                 | [] => EmptyString
                 | _ :: _ => String "," (render rest)
                 end).
    assert (Htail : tail = EmptyString \/ exists r, tail = String "," r)
      by (subst tail; destruct rest; [left; reflexivity | right; eauto]).
    assert (Hnext : step_past_comma tail = render rest)
      by (subst tail; destruct rest; reflexivity).
    assert (Hne : exists c p, n ++ String "=" (v ++ tail) = String c p)
      by (destruct n; simpl; eauto).
    destruct Hne as (c & p & Hne).
    rewrite Hne, ParseAttrList_loop_step, <- Hne.
    rewrite (skip_spaces_plain_name n (v ++ tail) Hn2).
    rewrite (scan_to_equal_plain_name n (v ++ tail) Hn1).
    rewrite (scan_to_fin_value v tail Hv Htail), Hnext.
    rewrite IH by (assumption || lia).
    unfold record_field. rewrite span_append, span_append, <- app_assoc.
    reflexivity.
Qed.

(** X2. An attribute list whose fields are well formed -- names without
    ['='] or a leading blank, values either free of commas and quotes or a
    quote-free text between two quotes -- is parsed into exactly those
    fields, in order: the callback sees each name up to its ['='] and each
    value up to the comma that ends it, commas inside quotes included. *)
Theorem ParseAttrList_parses_rendered_fields (kvs : list (string * string)) :
  Forall well_formed_field kvs ->
  fields (render kvs) = Returned kvs.
Proof.
  intro Hwf. unfold fields, ParseAttrList.
  apply (ParseAttrList_loop_render kvs _ []%list Hwf). lia.
Qed.

End AttrListRoundTrip.
(** ** Periods *)

Section PeriodFacts.

Lemma next_fragment_node_spec (target : Q) (nodes : list IndexNode) :
  forall (i idx : Z) (prev p : Q),
    next_fragment_node nodes i prev target = Some (idx, p) ->
    (i <= idx)%Z
    /\ (exists node, nth_error nodes (Z.to_nat (idx - i)) = Some node
                     /\ target <= completionTimeSecondsFromStart node)
    /\ (forall j node, (j < Z.to_nat (idx - i))%nat ->
                       nth_error nodes j = Some node ->
                       completionTimeSecondsFromStart node < target)
    /\ (idx = i -> p = prev)
    /\ ((i < idx)%Z ->
        exists before,
          nth_error nodes (Z.to_nat (idx - i - 1)) = Some before
          /\ p = completionTimeSecondsFromStart before).
Proof.
  induction nodes as [|n nodes IH]; intros i idx prev p H; simpl in H;
    [discriminate|].
  unfold Qgeb in H.
  destruct (Qle_bool target (completionTimeSecondsFromStart n)) eqn:E.
  - injection H as <- <-. rewrite Z.sub_diag.
    split; [lia|]. split.
    { exists n. split; [reflexivity | apply Qle_bool_iff; exact E]. }
    split; [intros j node Hj; simpl in Hj; lia|].
    split; [reflexivity | lia].
  - apply IH in H.
    destruct H as (L & (node & Hn & Hc) & Hbefore & Hsame & Hprev).
    assert (Hlt : completionTimeSecondsFromStart n < target).
    { apply Qnot_le_lt. intro Hle. apply Qle_bool_iff in Hle. congruence. }
    split; [lia|]. split.
    { exists node. split; [|exact Hc].
      replace (Z.to_nat (idx - i)) with (S (Z.to_nat (idx - (i + 1)))) by lia.
      exact Hn. }
    split.
    { intros j node' Hj Hnth. destruct j as [|j].
      - injection Hnth as <-. exact Hlt.
      - apply (Hbefore j); [lia | exact Hnth]. }
    split; [lia|]. intros _.
    destruct (Z.eq_dec idx (i + 1)) as [Heq|Hne].
    + exists n. split.
      * replace (Z.to_nat (idx - i - 1)) with O by lia. reflexivity.
      * exact (Hsame Heq).
    + destruct (Hprev ltac:(lia)) as (before & Hb & Hp).
      exists before. split; [|exact Hp].
      replace (Z.to_nat (idx - i - 1)) with (S (Z.to_nat (idx - (i + 1) - 1)))
        by lia.
      exact Hb.
Qed.

(** The period loop stops before the first entry that starts after
    fragment [idx]: it returns either what it was given, or the last entry
    it went over. *)
Lemma period_before_spec (idx : Z) (nodes : list DiscontinuityIndexNode) :
  forall (i k0 k : Z) (s0 s : Q),
    period_before nodes i idx k0 s0 = (k, s) ->
    (k = k0 /\ s = s0
     /\ forall d, nth_error nodes 0 = Some d -> (idx < fragmentIdx d)%Z)
    \/ ((i <= k < i + Z.of_nat (List.length nodes))%Z
        /\ exists d,
             nth_error nodes (Z.to_nat (k - i)) = Some d
             /\ s = position d
             /\ (fragmentIdx d <= idx)%Z
             /\ forall d', nth_error nodes (S (Z.to_nat (k - i))) = Some d' ->
                           (idx < fragmentIdx d')%Z).
Proof.
  induction nodes as [|n nodes IH]; intros i k0 k s0 s H; simpl in H.
  - injection H as <- <-. left. split; [reflexivity|]. split; [reflexivity|].
    intros d Hd. discriminate.
  - destruct (Z.gtb_spec (fragmentIdx n) idx) as [Hgt|Hle].
    + injection H as <- <-. left. split; [reflexivity|]. split; [reflexivity|].
      intros d [= <-]. lia.
    + right. apply IH in H.
      destruct H as [(-> & -> & Hhead) | (Hk & d & Hd & Hs & Hf & Hnext)].
      * split; [cbn [List.length]; lia|].
        exists n. rewrite Z.sub_diag.
        split; [reflexivity|]. split; [reflexivity|]. split; [exact Hle|].
        exact Hhead.
      * split; [cbn [List.length]; lia|].
        exists d.
        replace (Z.to_nat (k - i)) with (S (Z.to_nat (k - (i + 1)))) by lia.
        split; [exact Hd|]. split; [exact Hs|]. split; [exact Hf|].
        exact Hnext.
Qed.

Lemma period_start_loop_spec (periodIdx : Z)
    (nodes : list DiscontinuityIndexNode) :
  forall count : Z,
    (count <= periodIdx)%Z ->
    period_start_loop nodes count periodIdx
    = match nth_error nodes (Z.to_nat (periodIdx - count)) with
      | Some node => position node
      | None => 0
      end.
Proof.
  induction nodes as [|n nodes IH]; intros count Hc; simpl.
  - destruct (Z.to_nat (periodIdx - count)); reflexivity.
  - destruct (Z.eqb_spec count periodIdx) as [->|Hne].
    + rewrite Z.sub_diag. reflexivity.
    + rewrite IH by lia.
      replace (Z.to_nat (periodIdx - count))
        with (S (Z.to_nat (periodIdx - (count + 1)))) by lia.
      reflexivity.
Qed.

Lemma period_start_loop_negative (periodIdx : Z)
    (nodes : list DiscontinuityIndexNode) :
  forall count : Z,
    (periodIdx < count)%Z -> period_start_loop nodes count periodIdx = 0.
Proof.
  induction nodes as [|n nodes IH]; intros count Hc; simpl; [reflexivity|].
  destruct (Z.eqb_spec count periodIdx) as [->|Hne]; [lia|].
  apply IH. lia.
Qed.

Lemma GetPeriodStartPosition_at_index (ts : TrackState) (periodIdx : Z) :
  GetPeriodStartPosition ts periodIdx
  = match at_index (mDiscontinuityIndex ts) periodIdx with
    | Some node => position node
    | None => 0
    end.
Proof.
  unfold GetPeriodStartPosition, at_index, mDiscontinuityIndexCount.
  destruct (Z.ltb_spec periodIdx 0) as [Hneg|Hpos].
  - destruct (periodIdx <? _)%Z; [|reflexivity].
    apply period_start_loop_negative. exact Hneg.
  - destruct (Z.ltb_spec periodIdx
                (Z.of_nat (List.length (mDiscontinuityIndex ts)))) as [Hin|Hout].
    + rewrite period_start_loop_spec by exact Hpos.
      rewrite Z.sub_0_r. reflexivity.
    + assert (E : nth_error (mDiscontinuityIndex ts) (Z.to_nat periodIdx) = None)
        by (apply nth_error_None; lia).
      rewrite E. reflexivity.
Qed.

(** X5. [GetPeriodStartPosition] is the position of entry [periodIdx] of
    the discontinuity index when there is such an entry; for an index that
    is negative, or at or past the number of periods, it is 0. *)
Theorem GetPeriodStartPosition_is_entry (ts : TrackState) (periodIdx : Z) :
  (forall node,
     (0 <= periodIdx)%Z ->
     nth_error (mDiscontinuityIndex ts) (Z.to_nat periodIdx) = Some node ->
     GetPeriodStartPosition ts periodIdx = position node)
  /\ ((periodIdx < 0)%Z \/ (GetNumberOfPeriods ts <= periodIdx)%Z ->
      GetPeriodStartPosition ts periodIdx = 0).
Proof.
  rewrite GetPeriodStartPosition_at_index. unfold at_index, GetNumberOfPeriods.
  split.
  - intros node Hpos Hnode.
    destruct (Z.ltb_spec periodIdx 0); [lia|]. rewrite Hnode. reflexivity.
  - intros [Hneg|Hpast].
    + destruct (Z.ltb_spec periodIdx 0); [reflexivity | lia].
    + destruct (Z.ltb_spec periodIdx 0); [reflexivity|].
      unfold mDiscontinuityIndexCount in Hpast.
      assert (E : nth_error (mDiscontinuityIndex ts) (Z.to_nat periodIdx) = None)
        by (apply nth_error_None; lia).
      rewrite E. reflexivity.
Qed.

(** X6. When [GetNextFragmentPeriodInfo] names a period, the fragment it
    went by is the first one that completes at or after the play target,
    and it is not the first of the index; the period is the last entry of
    the discontinuity index, among those the loop went over, that starts
    at or before that fragment -- the entry after it starts later; and the
    offset is counted from that period: the period's start position plus
    the offset is the completion time of the fragment before. *)
Theorem GetNextFragmentPeriodInfo_names_period (ts : TrackState) (w : World)
    (periodIdx : Z) (offsetFromPeriodStart : Q) :
  GetNextFragmentPeriodInfo ts w = Ok (periodIdx, offsetFromPeriodStart) ->
  periodIdx <> (-1)%Z ->
  exists (idx : nat) (before : IndexNode) (period : DiscontinuityIndexNode),
    selected_forward (index ts) 0 (S idx) (playTarget ts)
    /\ nth_error (index ts) idx = Some before
    /\ at_index (mDiscontinuityIndex ts) periodIdx = Some period
    /\ (fragmentIdx period <= Z.of_nat (S idx))%Z
    /\ (forall next, at_index (mDiscontinuityIndex ts) (periodIdx + 1) = Some next ->
                     (Z.of_nat (S idx) < fragmentIdx next)%Z)
    /\ GetPeriodStartPosition ts periodIdx + offsetFromPeriodStart
       == completionTimeSecondsFromStart before.
Proof.
  unfold GetNextFragmentPeriodInfo. intros H Hk.
  destruct (Qgtb (rate w) 0); [|discriminate].
  destruct (next_fragment_node _ _ _ _) as [[idx prev]|] eqn:En;
    [|injection H as <- _; contradiction].
  destruct (Z.gtb_spec idx 0) as [Hidx|Hidx];
    [|injection H as <- _; contradiction].
  destruct (period_before _ _ _ _ _) as [k s] eqn:Ep.
  injection H as -> <-.
  apply next_fragment_node_spec in En.
  destruct En as (_ & (node & Hn & Hc) & Hbefore & _ & Hprev).
  destruct (Hprev Hidx) as (before & Hb & ->).
  apply period_before_spec in Ep.
  destruct Ep as [(-> & _) | (Hrange & d & Hd & -> & Hf & Hnext)];
    [contradiction|].
  rewrite Z.sub_0_r in *.
  exists (Z.to_nat (idx - 1)), before, d.
  replace (S (Z.to_nat (idx - 1))) with (Z.to_nat idx) by lia.
  split.
  { split; [lia|]. split.
    - exists node. split; [exact Hn | exact Hc].
    - intros j node' Hj. apply Hbefore. lia. }
  split; [exact Hb|].
  assert (Ek : at_index (mDiscontinuityIndex ts) periodIdx = Some d).
  { unfold at_index. destruct (Z.ltb_spec periodIdx 0); [lia | exact Hd]. }
  split; [exact Ek|].
  split; [lia|].
  split.
  { intros next Hnx. unfold at_index in Hnx.
    destruct (Z.ltb_spec (periodIdx + 1) 0); [discriminate|].
    replace (Z.to_nat (periodIdx + 1)) with (S (Z.to_nat periodIdx)) in Hnx by lia.
    specialize (Hnext next Hnx). lia. }
  rewrite GetPeriodStartPosition_at_index, Ek. ring.
Qed.

(** X7. [SyncTracksForDiscontinuity] never touches the video track.  When
    it fails it changes nothing at all.  When it succeeds both tracks have
    the same number of periods, the audio track has the period the video's
    next fragment lies in, with a start position other than 0, and the audio
    play target is that start position plus the video's offset into its
    period; nothing else of the audio track changes. *)
Theorem SyncTracksForDiscontinuity_outcome (w w' : World)
    (status : AAMPStatusType) :
  SyncTracksForDiscontinuity w = Ok (w', status) ->
  trackState w' eTRACK_VIDEO = trackState w eTRACK_VIDEO
  /\ match status with
     | eAAMPSTATUS_GENERIC_ERROR => w' = w
     | eAAMPSTATUS_OK =>
         GetNumberOfPeriods (trackState w eTRACK_AUDIO)
         = GetNumberOfPeriods (trackState w eTRACK_VIDEO)
         /\ exists (periodIdx : Z) (offsetFromPeriod : Q)
                   (period : DiscontinuityIndexNode),
              GetNextFragmentPeriodInfo (trackState w eTRACK_VIDEO) w
              = Ok (periodIdx, offsetFromPeriod)
              /\ at_index (mDiscontinuityIndex (trackState w eTRACK_AUDIO))
                   periodIdx = Some period
              /\ ~ position period == 0
              /\ trackState w' eTRACK_AUDIO
                 = set_playTarget (position period + offsetFromPeriod)
                     (trackState w eTRACK_AUDIO)
     end.
Proof.
  unfold SyncTracksForDiscontinuity. intro H.
  destruct (Z.eqb_spec (GetNumberOfPeriods (trackState w eTRACK_AUDIO))
              (GetNumberOfPeriods (trackState w eTRACK_VIDEO))) as [Hn|Hn];
    [|injection H as <- <-; split; reflexivity].
  bind_inv H. destruct a as [periodIdx offsetFromPeriod].
  destruct (Z.eqb_spec (-1) periodIdx) as [Hk|Hk]; cbn [negb] in H;
    [injection H as <- <-; split; reflexivity|].
  rewrite GetPeriodStartPosition_at_index in H.
  destruct (at_index (mDiscontinuityIndex (trackState w eTRACK_AUDIO)) periodIdx)
    as [period|] eqn:Ea.
  - destruct (Qeq_bool 0 (position period)) eqn:Ez; cbn [negb] in H;
      injection H as <- <-; (split; [reflexivity|]); [reflexivity|].
    split; [exact Hn|].
    exists periodIdx, offsetFromPeriod, period.
    split; [exact Ha|]. split; [exact Ea|]. split; [|reflexivity].
    intro Hz. apply Qeq_bool_neq in Ez. apply Ez. symmetry. exact Hz.
  - change (Qeq_bool 0 0) with true in H. cbn [negb] in H.
    injection H as <- <-. split; reflexivity.
Qed.

End PeriodFacts.
(** ** What the index holds once a playlist is indexed *)

(** The two arrays [IndexPlaylist] builds for track [t]. *)
Definition lists_of (t : TrackType) (w : World) :=
  (index (trackState w t), mDiscontinuityIndex (trackState w t)).

(** Every entry of the discontinuity index points at a fragment of the
    index that has a fragment before it, its position is the completion
    time of that fragment before, and the entries point at later and later
    fragments. *)
Definition discontinuities_in_index (nodes : list IndexNode)
    (disc : list DiscontinuityIndexNode) : Prop :=
  forall (k : nat) (d : DiscontinuityIndexNode),
    nth_error disc k = Some d ->
    (1 <= fragmentIdx d < Z.of_nat (List.length nodes))%Z
    /\ (exists before,
          nth_error nodes (Z.to_nat (fragmentIdx d - 1)) = Some before
          /\ position d = completionTimeSecondsFromStart before)
    /\ (forall d', nth_error disc (S k) = Some d' ->
                   (fragmentIdx d < fragmentIdx d')%Z).

(** The completion time of the last fragment, 0 for an empty index. *)
Definition last_completion (nodes : list IndexNode) : Q :=
  List.last (List.map completionTimeSecondsFromStart nodes) 0.

(** What the index loop keeps true from tag to tag. *)
Definition index_inv (t : TrackType) (w : World) (i : IndexLoop) : Prop :=
  totalDuration i = last_completion (index (trackState w t))
  /\ (discontinuity_ i = true -> index (trackState w t) <> [])
  /\ discontinuities_in_index (index (trackState w t))
       (mDiscontinuityIndex (trackState w t)).

Section IndexInvariants.
Context {ext : Externals}.

Lemma lists_of_key_frame (t : TrackType) (w : World) :
  lists_of t (key_frame t w) = lists_of t w.
Proof. destruct t; reflexivity. Qed.

Lemma ParseKeyAttrList_lists (t : TrackType) (p : string) (w w' : World) :
  ParseKeyAttrList t None p w = Ok w' -> lists_of t w' = lists_of t w.
Proof.
  intro H. apply ParseKeyAttrList_frame in H.
  rewrite <- (lists_of_key_frame t w'), H. apply lists_of_key_frame.
Qed.

Lemma lists_of_on_track (t : TrackType) (f : TrackState -> TrackState)
    (w : World) :
  (forall ts, index (f ts) = index ts) ->
  (forall ts, mDiscontinuityIndex (f ts) = mDiscontinuityIndex ts) ->
  lists_of t (on_track t f w) = lists_of t w.
Proof.
  intros H1 H2. unfold lists_of. rewrite trackState_on_track, H1, H2. reflexivity.
Qed.

Lemma lists_of_emit (t : TrackType) (e : Event) (w : World) :
  lists_of t (emit e w) = lists_of t w.
Proof. destruct t; reflexivity. Qed.

Lemma defer_license_lists (t : TrackType) (p : string) (w : World) :
  lists_of t (defer_license t p w) = lists_of t w.
Proof.
  unfold defer_license.
  repeat match goal with
         | |- context [match ?b with _ => _ end] => destruct b
         end; destruct t; reflexivity.
Qed.

Lemma ProcessDrmMetadata_loop_lists (t : TrackType) (only : bool)
    (hash : option string) (nodes : list DrmMetadataNode) :
  forall (i : nat) (found : option Z) (w : World),
    lists_of t (snd (ProcessDrmMetadata_loop only hash nodes i found w))
    = lists_of t w.
Proof.
  induction nodes as [|node nodes IH]; intros i found w; [reflexivity|].
  cbn [ProcessDrmMetadata_loop].
  repeat match goal with
         | |- context [match ?b with _ => _ end] =>
             lazymatch b with
             | ProcessDrmMetadata_loop _ _ _ _ _ _ => fail
             | _ => destruct b
             end
         end; rewrite IH; try reflexivity; destruct t; reflexivity.
Qed.

Lemma ProcessDrmMetadata_lists (t : TrackType) (only : bool) (w : World) :
  lists_of t (ProcessDrmMetadata t only w) = lists_of t w.
Proof.
  unfold ProcessDrmMetadata.
  pose proof (ProcessDrmMetadata_loop_lists t only
                (mCMSha1Hash (trackState w t))
                (mDrmMetaDataIndex (trackState w t)) O None w) as H.
  destruct (ProcessDrmMetadata_loop _ _ _ _ _ _) as [found w1].
  simpl in H. rewrite <- H.
  destruct (mCMSha1Hash (trackState w t)); destruct found;
    destruct t; reflexivity.
Qed.

Lemma index_inv_lists (t : TrackType) (w w' : World) (i : IndexLoop) :
  lists_of t w' = lists_of t w -> index_inv t w i -> index_inv t w' i.
Proof.
  intros E H. unfold index_inv.
  pose proof (f_equal fst E) as E1. pose proof (f_equal snd E) as E2.
  cbn [lists_of fst snd] in E1, E2. rewrite E1, E2. exact H.
Qed.

Lemma last_completion_app (nodes : list IndexNode) (node : IndexNode) :
  last_completion (nodes ++ [node]) = completionTimeSecondsFromStart node.
Proof.
  unfold last_completion. rewrite map_app. apply last_last.
Qed.

Lemma last_completion_nth (nodes : list IndexNode) :
  nodes <> [] ->
  exists before,
    nth_error nodes (List.length nodes - 1) = Some before
    /\ last_completion nodes = completionTimeSecondsFromStart before.
Proof.
  intro Hne. destruct (exists_last Hne) as (front & x & ->).
  exists x. rewrite last_completion_app. split; [|reflexivity].
  rewrite length_app. cbn [List.length].
  replace (List.length front + 1 - 1)%nat with (List.length front) by lia.
  rewrite nth_error_app2 by lia. rewrite Nat.sub_diag. reflexivity.
Qed.

Lemma discontinuities_in_index_grow (nodes : list IndexNode)
    (disc : list DiscontinuityIndexNode) (node : IndexNode) :
  discontinuities_in_index nodes disc ->
  discontinuities_in_index (nodes ++ [node]) disc.
Proof.
  intros H k d Hd. destruct (H k d Hd) as (Hb & (before & Hn & Hp) & Hnext).
  rewrite length_app. cbn [List.length].
  split; [lia|]. split; [|exact Hnext].
  exists before. split; [|exact Hp].
  rewrite nth_error_app1 by lia. exact Hn.
Qed.

Lemma discontinuities_in_index_add (nodes : list IndexNode)
    (disc : list DiscontinuityIndexNode) (node : IndexNode)
    (date : option string) :
  nodes <> [] ->
  discontinuities_in_index nodes disc ->
  discontinuities_in_index (nodes ++ [node])
    (disc ++ [{| fragmentIdx := Z.of_nat (List.length nodes);
                 position := last_completion nodes;
                 programDateTime := date |}]).
Proof.
  intros Hne H k d Hd.
  assert (Hlen : (0 < List.length nodes)%nat)
    by (destruct nodes; [contradiction | cbn; lia]).
  destruct (Nat.lt_ge_cases k (List.length disc)) as [Hk|Hk].
  - rewrite nth_error_app1 in Hd by exact Hk.
    destruct (H k d Hd) as (Hb & (before & Hn & Hp) & Hnext).
    rewrite length_app. cbn [List.length].
    split; [lia|]. split.
    + exists before. split; [|exact Hp].
      rewrite nth_error_app1 by lia. exact Hn.
    + intros d' Hd'.
      destruct (Nat.lt_ge_cases (S k) (List.length disc)) as [Hk'|Hk'].
      * rewrite nth_error_app1 in Hd' by exact Hk'. exact (Hnext d' Hd').
      * rewrite nth_error_app2 in Hd' by exact Hk'.
        replace (S k - List.length disc)%nat with O in Hd' by lia.
        injection Hd' as <-. cbn [fragmentIdx]. lia.
  - rewrite nth_error_app2 in Hd by exact Hk.
    destruct (k - List.length disc)%nat as [|m] eqn:Em;
      [|destruct m; discriminate].
    injection Hd as <-. cbn [fragmentIdx position].
    rewrite length_app. cbn [List.length].
    split; [lia|]. split.
    + destruct (last_completion_nth nodes Hne) as (before & Hn & Hp).
      exists before. split; [|exact Hp].
      rewrite nth_error_app1 by lia.
      replace (Z.to_nat (Z.of_nat (List.length nodes) - 1))
        with (List.length nodes - 1)%nat by lia.
      exact Hn.
    + intros d' Hd'. rewrite nth_error_app2 in Hd' by lia.
      replace (S k - List.length disc)%nat with 1%nat in Hd' by lia.
      discriminate.
Qed.

Lemma index_tag_inv (t : TrackType) (tag p : string) (i i' : IndexLoop)
    (w w' : World) (moved : nat) :
  index_tag t tag p i w = Ok (w', i', moved) ->
  index_inv t w i -> index_inv t w' i'.
Proof.
  unfold index_tag. intros H (Ht & Hf & Hd).
  destruct (has_prefix p "INF:").
  { injection H as <- <- _. unfold index_inv.
    rewrite trackState_set_trackState.
    set (ts := trackState w t) in *.
    set (total := totalDuration i + atof (substring 4 (String.length p) p)).
    set (node := {| completionTimeSecondsFromStart := total;
                    pFragmentInfo := tag;
                    drmMetadataIdx := drmMetadataIdx_ i |}).
    destruct (discontinuity_ i) eqn:Ef; (split; [|split]).
    - change (total = last_completion (index ts ++ [node])).
      rewrite last_completion_app. reflexivity.
    - intro Hflag. cbn in Hflag. discriminate Hflag.
    - change (discontinuities_in_index (index ts ++ [node])
                (mDiscontinuityIndex ts
                 ++ [{| fragmentIdx := indexCount ts;
                        position := totalDuration i;
                        programDateTime := programDateTimeIdxOfFragment i |}])).
      unfold indexCount. rewrite Ht.
      apply discontinuities_in_index_add; [exact (Hf eq_refl) | exact Hd].
    - change (total = last_completion (index ts ++ [node])).
      rewrite last_completion_app. reflexivity.
    - intro Hflag. cbn in Hflag. discriminate Hflag.
    - change (discontinuities_in_index (index ts ++ [node])
                (mDiscontinuityIndex ts)).
      apply discontinuities_in_index_grow. exact Hd. }
  destruct (has_prefix p "-X-DISCONTINUITY").
  { injection H as <- <- _. unfold index_inv.
    destruct (Qeq_bool 0 (totalDuration i)) eqn:Ez; cbn [negb].
    - split; [exact Ht|]. split; [exact Hf | exact Hd].
    - split; [exact Ht|]. split; [|exact Hd].
      intros _ Hnil. rewrite Ht, Hnil in Ez. discriminate. }
  destruct (has_prefix p "-X-PROGRAM-DATE-TIME:").
  { injection H as <- <- _. split; [exact Ht|]. split; [exact Hf | exact Hd]. }
  destruct (has_prefix p "-X-KEY:").
  { bind_inv H. injection H as <- <- _.
    apply ParseKeyAttrList_lists in Ha.
    assert (E : lists_of t (set_trackState t
                  (set_mDrmKeyTagCount (mDrmKeyTagCount (trackState a t) + 1)%Z
                     (trackState a t)) a) = lists_of t w).
    { rewrite <- Ha. unfold lists_of. rewrite trackState_set_trackState.
      reflexivity. }
    apply (index_inv_lists t w _ _ E).
    split; [exact Ht|]. split; [exact Hf | exact Hd]. }
  destruct (_ && _ && _ && has_prefix p "-X-X1-LIN-CK:").
  { destruct (negb _); injection H as <- <- _.
    - apply (index_inv_lists t w _ _ (defer_license_lists t _ w)).
      split; [exact Ht|]. split; [exact Hf | exact Hd].
    - split; [exact Ht|]. split; [exact Hf | exact Hd]. }
  injection H as <- <- _. split; [exact Ht|]. split; [exact Hf | exact Hd].
Qed.

Lemma index_loop_inv (t : TrackType) (p : string) :
  forall (skip : nat) (i i' : IndexLoop) (w w' : World),
    index_loop t p skip i w = Ok (w', i') ->
    index_inv t w i -> index_inv t w' i'.
Proof.
  induction p as [|c p IH]; intros skip i i' w w' H Hinv.
  - destruct skip; simpl in H; [|discriminate]. injection H as <- <-. exact Hinv.
  - destruct skip as [|skip].
    + cbn [index_loop] in H.
      destruct (startswith (String c p) "#EXT") as [after|].
      * bind_inv H. destruct a as [[w1 i1] moved].
        apply (IH _ _ _ _ _ H).
        eapply index_tag_inv; eassumption.
      * eapply IH; eassumption.
    + cbn [index_loop] in H. eapply IH; eassumption.
Qed.

Lemma FlushIndex_lists (t : TrackType) (w : World) :
  lists_of t (on_track t (fun ts => set_mIndexingInProgress true (FlushIndex ts)) w)
  = ([], []).
Proof.
  unfold lists_of. rewrite trackState_on_track.
  destruct (FlushIndex_empty (trackState w t)) as (E1 & E2 & _).
  change (index (set_mIndexingInProgress true (FlushIndex (trackState w t))))
    with (index (FlushIndex (trackState w t))).
  change (mDiscontinuityIndex
            (set_mIndexingInProgress true (FlushIndex (trackState w t))))
    with (mDiscontinuityIndex (FlushIndex (trackState w t))).
  rewrite E1, E2. reflexivity.
Qed.

Lemma before_index_loop_lists (t : TrackType) (text : string) (w : World) :
  lists_of t (before_index_loop t text w) = ([], []).
Proof.
  unfold before_index_loop.
  set (w1 := on_track t _ (on_track t _ w)).
  assert (E : lists_of t w1 = ([], [])).
  { subst w1. rewrite lists_of_on_track.
    - apply FlushIndex_lists.
    - intro ts. destruct (strstr text "#EXT-X-MEDIA-SEQUENCE:");
        destruct (strstr text "#EXT-X-TARGETDURATION:");
        destruct (strstr text "#EXT-X-MAP:"); reflexivity.
    - intro ts. destruct (strstr text "#EXT-X-MEDIA-SEQUENCE:");
        destruct (strstr text "#EXT-X-TARGETDURATION:");
        destruct (strstr text "#EXT-X-MAP:"); reflexivity. }
  clearbody w1.
  destruct (playlist_type_of text (playlistType w1)) as [type_ unknown].
  rewrite <- E. destruct unknown; destruct t; reflexivity.
Qed.

(** The steps of [IndexPlaylist] after the index loop leave the two arrays
    alone and store the total duration. *)
Lemma lists_after_loop (t : TrackType) (w : World) (total : Q)
    (present : bool) :
  let w1 := match t with
            | eTRACK_VIDEO => emit (UpdateDuration total) w
            | eTRACK_AUDIO => w
            end in
  let w2 := if gDeferredDrmLicTagUnderProcessing w1 && negb present
            then set_gDeferredDrmLicTagUnderProcessing false w1 else w1 in
  let ts := trackState w2 t in
  let w3 :=
    if (firstIndexDone ts
        && match mCMSha1Hash ts with Some _ => true | None => false end)
       || mForceProcessDrmMetadata ts
    then on_track t (set_mForceProcessDrmMetadata false)
           (ProcessDrmMetadata t false w2)
    else w2 in
  let w4 := on_track t (fun ts =>
              set_mDuration total
                (set_mIndexingInProgress false (set_firstIndexDone true ts))) w3 in
  lists_of t w4 = lists_of t w /\ mDuration (trackState w4 t) = total.
Proof.
  intros w1 w2 ts w3 w4. split.
  - subst w4. rewrite lists_of_on_track by reflexivity.
    assert (E1 : lists_of t w1 = lists_of t w)
      by (subst w1; destruct t; reflexivity).
    assert (E2 : lists_of t w2 = lists_of t w1)
      by (subst w2; destruct (_ && _); destruct t; reflexivity).
    rewrite <- E1, <- E2. subst w3.
    destruct (_ || _); [|reflexivity].
    rewrite lists_of_on_track by reflexivity.
    apply ProcessDrmMetadata_lists.
  - subst w4. rewrite trackState_on_track. reflexivity.
Qed.

(** Once [IndexPlaylist] has returned, the duration it stored is the
    completion time of the last fragment of the index, and the
    discontinuity index lies inside the index. *)
Lemma IndexPlaylist_inv (t : TrackType) (w w' : World) :
  IndexPlaylist t w = Ok w' ->
  mDuration (trackState w' t) = last_completion (index (trackState w' t))
  /\ discontinuities_in_index (index (trackState w' t))
       (mDiscontinuityIndex (trackState w' t)).
Proof.
  assert (Empty : forall w0 : World,
            lists_of t w0 = ([], []) ->
            index_inv t w0
              {| totalDuration := 0; drmMetadataIdx_ := (-1)%Z;
                 programDateTimeIdxOfFragment := None;
                 discontinuity_ := false; deferDrmTagPresent := false |}).
  { intros w0 E.
    pose proof (f_equal fst E) as E1. pose proof (f_equal snd E) as E2.
    cbn [lists_of fst snd] in E1, E2. unfold index_inv. rewrite E1, E2.
    split; [reflexivity|]. split; [discriminate|].
    intros k d Hd. destruct k; discriminate. }
  assert (Fin : forall (w1 w4 : World) (i : IndexLoop),
            index_inv t w1 i ->
            lists_of t w4 = lists_of t w1 ->
            mDuration (trackState w4 t) = totalDuration i ->
            mDuration (trackState w4 t) = last_completion (index (trackState w4 t))
            /\ discontinuities_in_index (index (trackState w4 t))
                 (mDiscontinuityIndex (trackState w4 t))).
  { intros w1 w4 i (Ht & _ & Hd) E Hm.
    pose proof (f_equal fst E) as E1. pose proof (f_equal snd E) as E2.
    cbn [lists_of fst snd] in E1, E2. rewrite E1, E2, Hm.
    split; [exact Ht | exact Hd]. }
  rewrite IndexPlaylist_cases.
  destruct (ptr (playlist (trackState w t))) as [text|] eqn:E.
  - destruct (String.eqb (first_chars 7 text) "#EXTM3U"); cbn [negb].
    + intro H. bind_inv H. destruct a as [w1 i]. injection H as <-.
      pose proof (Empty _ (before_index_loop_lists t text w)) as Hinit.
      pose proof (index_loop_inv t text _ _ _ _ _ Ha Hinit) as Hinv.
      destruct (lists_after_loop t w1 (totalDuration i) (deferDrmTagPresent i))
        as [El Em].
      exact (Fin w1 _ i Hinv El Em).
    + intros [= <-].
      set (w0 := on_track t (fun ts => set_mIndexingInProgress true (FlushIndex ts)) w).
      pose proof (Empty w0 (FlushIndex_lists t w)) as Hinit.
      apply (Fin w0 _ _ Hinit).
      * rewrite lists_of_on_track by reflexivity. apply lists_of_emit.
      * rewrite trackState_on_track. reflexivity.
  - unfold IndexPlaylist.
    set (w0 := on_track t (fun ts => set_mIndexingInProgress true (FlushIndex ts)) w).
    assert (E' : ptr (playlist (trackState w0 t)) = None).
    { subst w0. rewrite trackState_on_track.
      change (ptr (fst (fst (fst (fst (fst
                (track_frame (FlushIndex (trackState w t)))))))) = None).
      rewrite FlushIndex_track_frame. exact E. }
    rewrite E'. intros [= <-].
    pose proof (Empty w0 (FlushIndex_lists t w)) as Hinit.
    destruct (lists_after_loop t w0 0 false) as [El Em].
    cbv zeta in El, Em. rewrite andb_true_r in El, Em.
    exact (Fin w0 _ _ Hinit El Em).
Qed.

(** X8. After [IndexPlaylist] the duration of the track is the completion
    time of the last fragment of its index, and 0 when the index is empty
    (no buffer, a buffer that is no playlist, or a playlist without
    fragments). *)
Theorem IndexPlaylist_duration_is_last_completion (t : TrackType)
    (w w' : World) :
  IndexPlaylist t w = Ok w' ->
  mDuration (trackState w' t)
  = List.last (List.map completionTimeSecondsFromStart (index (trackState w' t))) 0
  /\ (index (trackState w' t) = [] -> mDuration (trackState w' t) = 0).
Proof.
  intro H. apply IndexPlaylist_inv in H. destruct H as [Hm _].
  split; [exact Hm|].
  intro Hnil. rewrite Hm, Hnil. reflexivity.
Qed.

(** X9. After [IndexPlaylist] every entry of the discontinuity index names
    a fragment of the index other than the first, its position is the
    completion time of the fragment just before that one, and the entries
    name later and later fragments. *)
Theorem IndexPlaylist_discontinuities_in_index (t : TrackType) (w w' : World)
    (k : nat) (d : DiscontinuityIndexNode) :
  IndexPlaylist t w = Ok w' ->
  nth_error (mDiscontinuityIndex (trackState w' t)) k = Some d ->
  (1 <= fragmentIdx d < indexCount (trackState w' t))%Z
  /\ (exists before,
        at_index (index (trackState w' t)) (fragmentIdx d - 1) = Some before
        /\ position d = completionTimeSecondsFromStart before)
  /\ (forall d', nth_error (mDiscontinuityIndex (trackState w' t)) (S k) = Some d' ->
                 (fragmentIdx d < fragmentIdx d')%Z).
Proof.
  intros H Hd. apply IndexPlaylist_inv in H. destruct H as [_ Hdisc].
  destruct (Hdisc k d Hd) as (Hb & (before & Hn & Hp) & Hnext).
  split; [exact Hb|]. split; [|exact Hnext].
  exists before. split; [|exact Hp].
  unfold at_index. destruct (Z.ltb_spec (fragmentIdx d - 1) 0); [lia | exact Hn].
Qed.

End IndexInvariants.
(** ** Completion times grow along the index *)

(** Every [#EXTINF:] of the text is followed by a duration that [atof]
    reads as non-negative. *)
Fixpoint extinf_durations_nonnegative {ext : Externals} (text : string) : bool :=
  match text with
  | EmptyString => true
  | String _ rest =>
      match startswith text "#EXTINF:" with
      | Some duration => Qleb 0 (atof duration)
      | None => true
      end && extinf_durations_nonnegative rest
  end.

(** Completion times are non-negative and never go down along the index. *)
Definition nondecreasing (nodes : list IndexNode) : Prop :=
  forall (j k : nat) (a b : IndexNode),
    (j <= k)%nat ->
    nth_error nodes j = Some a -> nth_error nodes k = Some b ->
    0 <= completionTimeSecondsFromStart a
    /\ completionTimeSecondsFromStart a <= completionTimeSecondsFromStart b.

Section IndexSorted.
Context {ext : Externals}.

Definition sorted_inv (t : TrackType) (w : World) (i : IndexLoop) : Prop :=
  0 <= totalDuration i
  /\ (forall j a, nth_error (index (trackState w t)) j = Some a ->
                  completionTimeSecondsFromStart a <= totalDuration i)
  /\ nondecreasing (index (trackState w t)).

Lemma sorted_inv_index (t : TrackType) (w w' : World) (i : IndexLoop) :
  index (trackState w' t) = index (trackState w t) ->
  sorted_inv t w i -> sorted_inv t w' i.
Proof. intros E H. unfold sorted_inv. rewrite E. exact H. Qed.

Lemma substring_whole (s : string) :
  forall m : nat, (String.length s <= m)%nat -> substring 0 m s = s.
Proof.
  induction s as [|c s IH]; intros m Hm.
  - destruct m; reflexivity.
  - destruct m as [|m]; simpl in Hm; [lia|].
    simpl. rewrite IH by lia. reflexivity.
Qed.

Lemma substring_skip (a b : string) (m : nat) :
  substring (String.length a) m (a ++ b) = substring 0 m b.
Proof.
  induction a as [|c a IH]; [reflexivity|]. simpl. exact IH.
Qed.

Lemma substring_suffix (a b : string) :
  substring (String.length a) (String.length (a ++ b)) (a ++ b) = b.
Proof.
  rewrite substring_skip. apply substring_whole.
  rewrite length_append. lia.
Qed.

Lemma extinf_duration_at (p after : string) :
  extinf_durations_nonnegative p = true ->
  startswith p "#EXT" = Some after ->
  has_prefix after "INF:" = true ->
  0 <= atof (substring 4 (String.length after) after).
Proof.
  intros Hok Hs Hp.
  unfold has_prefix in Hp.
  destruct (startswith after "INF:") as [d|] eqn:Ed; [|discriminate].
  apply startswith_spec in Hs, Ed.
  assert (E4 : substring 4 (String.length after) after = d)
    by (rewrite Ed; exact (substring_suffix "INF:" d)).
  rewrite E4. subst after p.
  cbn [append extinf_durations_nonnegative] in Hok.
  apply andb_true_iff in Hok. destruct Hok as [Hd _].
  assert (E : startswith (String "#" (String "E" (String "X" (String "T"
                 (String "I" (String "N" (String "F" (String ":" d))))))))
                "#EXTINF:" = Some d) by (apply startswith_spec; reflexivity).
  rewrite E in Hd. unfold Qleb in Hd. apply Qle_bool_iff. exact Hd.
Qed.

Lemma extinf_durations_tail (c : ascii) (p : string) :
  extinf_durations_nonnegative (String c p) = true ->
  extinf_durations_nonnegative p = true.
Proof.
  cbn [extinf_durations_nonnegative]. intro H.
  apply andb_true_iff in H. exact (proj2 H).
Qed.

Lemma nondecreasing_app (nodes : list IndexNode) (node : IndexNode) (total : Q) :
  0 <= total ->
  (forall j a, nth_error nodes j = Some a ->
               completionTimeSecondsFromStart a <= total) ->
  nondecreasing nodes ->
  total <= completionTimeSecondsFromStart node ->
  (forall j a, nth_error (nodes ++ [node]) j = Some a ->
               completionTimeSecondsFromStart a
               <= completionTimeSecondsFromStart node)
  /\ nondecreasing (nodes ++ [node]).
Proof.
  intros H0 Hle Hnd Hnode.
  assert (Hall : forall j a, nth_error (nodes ++ [node]) j = Some a ->
                   (nth_error nodes j = Some a /\ (j < List.length nodes)%nat)
                   \/ (a = node /\ j = List.length nodes)).
  { intros j a Ha.
    destruct (Nat.lt_ge_cases j (List.length nodes)) as [Hj|Hj].
    - rewrite nth_error_app1 in Ha by exact Hj. left. split; assumption.
    - rewrite nth_error_app2 in Ha by exact Hj.
      destruct (j - List.length nodes)%nat as [|m] eqn:Em;
        [|destruct m; discriminate].
      injection Ha as <-. right. split; [reflexivity | lia]. }
  split.
  - intros j a Ha. destruct (Hall j a Ha) as [[Ha' _] | [-> _]].
    + apply Qle_trans with total; [exact (Hle j a Ha') | exact Hnode].
    + apply Qle_refl.
  - intros j k a b Hjk Ha Hb.
    destruct (Hall j a Ha) as [[Ha' Hj] | [-> Hj]];
      destruct (Hall k b Hb) as [[Hb' Hk] | [-> Hk]].
    + exact (Hnd j k a b Hjk Ha' Hb').
    + split; [exact (proj1 (Hnd j j a a (Nat.le_refl j) Ha' Ha'))|].
      apply Qle_trans with total; [exact (Hle j a Ha') | exact Hnode].
    + lia.
    + split; [apply Qle_trans with total; assumption | apply Qle_refl].
Qed.

Lemma index_tag_sorted (t : TrackType) (tag p : string) (i i' : IndexLoop)
    (w w' : World) (moved : nat) :
  index_tag t tag p i w = Ok (w', i', moved) ->
  (has_prefix p "INF:" = true ->
   0 <= atof (substring 4 (String.length p) p)) ->
  sorted_inv t w i -> sorted_inv t w' i'.
Proof.
  unfold index_tag. intros H Hdur (H0 & Hle & Hnd).
  destruct (has_prefix p "INF:").
  { injection H as <- <- _. unfold sorted_inv.
    rewrite trackState_set_trackState.
    set (ts := trackState w t) in *.
    set (total := totalDuration i + atof (substring 4 (String.length p) p)).
    set (node := {| completionTimeSecondsFromStart := total;
                    pFragmentInfo := tag;
                    drmMetadataIdx := drmMetadataIdx_ i |}).
    specialize (Hdur eq_refl).
    assert (Ht : totalDuration i <= total) by (subst total; lra).
    destruct (nondecreasing_app (index ts) node (totalDuration i) H0 Hle Hnd Ht)
      as [Hle' Hnd'].
    destruct (discontinuity_ i);
      (split; [change (0 <= total); lra|]);
      (split; [exact Hle' | exact Hnd']). }
  assert (Same : forall w1 i1,
            index (trackState w1 t) = index (trackState w t) ->
            totalDuration i1 = totalDuration i -> sorted_inv t w1 i1).
  { intros w1 i1 E1 E2. unfold sorted_inv. rewrite E1, E2.
    split; [exact H0|]. split; [exact Hle | exact Hnd]. }
  destruct (has_prefix p "-X-DISCONTINUITY").
  { injection H as <- <- _. apply Same; [reflexivity|].
    destruct (negb _); reflexivity. }
  destruct (has_prefix p "-X-PROGRAM-DATE-TIME:").
  { injection H as <- <- _. apply Same; reflexivity. }
  destruct (has_prefix p "-X-KEY:").
  { bind_inv H. injection H as <- <- _.
    apply ParseKeyAttrList_lists in Ha.
    apply Same; [|reflexivity].
    rewrite trackState_set_trackState.
    apply (f_equal fst) in Ha. cbn [lists_of fst] in Ha. exact Ha. }
  destruct (_ && _ && _ && has_prefix p "-X-X1-LIN-CK:").
  { destruct (negb _); injection H as <- <- _; apply Same; try reflexivity.
    pose proof (f_equal fst (defer_license_lists t
                  (substring 13 (String.length p) p) w)) as Ed.
    cbn [lists_of fst] in Ed. exact Ed. }
  injection H as <- <- _. apply Same; reflexivity.
Qed.

Lemma index_loop_sorted (t : TrackType) (p : string) :
  forall (skip : nat) (i i' : IndexLoop) (w w' : World),
    index_loop t p skip i w = Ok (w', i') ->
    extinf_durations_nonnegative p = true ->
    sorted_inv t w i -> sorted_inv t w' i'.
Proof.
  induction p as [|c p IH]; intros skip i i' w w' H Hok Hinv.
  - destruct skip; simpl in H; [|discriminate]. injection H as <- <-. exact Hinv.
  - pose proof (extinf_durations_tail c p Hok) as Hok'.
    destruct skip as [|skip].
    + cbn [index_loop] in H.
      destruct (startswith (String c p) "#EXT") as [after|] eqn:Es.
      * bind_inv H. destruct a as [[w1 i1] moved].
        apply (IH _ _ _ _ _ H Hok').
        eapply index_tag_sorted; [eassumption| |exact Hinv].
        intro Hp. exact (extinf_duration_at _ _ Hok Es Hp).
      * eapply IH; eassumption.
    + cbn [index_loop] in H. eapply IH; eassumption.
Qed.

Lemma IndexPlaylist_nondecreasing (t : TrackType) (w w' : World)
    (text : string) :
  ptr (playlist (trackState w t)) = Some text ->
  extinf_durations_nonnegative text = true ->
  IndexPlaylist t w = Ok w' ->
  nondecreasing (index (trackState w' t)).
Proof.
  intros Hbuf Hok H.
  rewrite IndexPlaylist_cases, Hbuf in H.
  destruct (String.eqb (first_chars 7 text) "#EXTM3U"); cbn [negb] in H.
  - bind_inv H. destruct a as [w1 i]. injection H as <-.
    assert (Hinit : sorted_inv t (before_index_loop t text w)
              {| totalDuration := 0; drmMetadataIdx_ := (-1)%Z;
                 programDateTimeIdxOfFragment := None;
                 discontinuity_ := false; deferDrmTagPresent := false |}).
    { unfold sorted_inv.
      pose proof (f_equal fst (before_index_loop_lists t text w)) as Ei.
      cbn [lists_of fst] in Ei. rewrite Ei.
      split; [cbn; lra|].
      split; [intros n x Hx; destruct n; discriminate|].
      intros n m x y _ Hx. destruct n; discriminate. }
    pose proof (index_loop_sorted t text _ _ _ _ _ Ha Hok Hinit)
      as (_ & _ & Hnd).
    destruct (lists_after_loop t w1 (totalDuration i) (deferDrmTagPresent i))
      as [El _].
    cbv zeta in El. apply (f_equal fst) in El. cbn [lists_of fst] in El.
    rewrite El. exact Hnd.
  - injection H as <-.
    assert (E : index (trackState
                 (on_track t (set_mDuration 0)
                    (emit (SendErrorEvent AAMP_TUNE_INVALID_MANIFEST_FAILURE)
                       (on_track t (fun ts => set_mIndexingInProgress true
                                                (FlushIndex ts)) w))) t) = []).
    { rewrite trackState_on_track, trackState_emit.
      pose proof (f_equal fst (FlushIndex_lists t w)) as Ef.
      cbn [lists_of fst] in Ef. exact Ef. }
    rewrite E. intros n m x y _ Hx. destruct n; discriminate.
Qed.

(** X10. When every [#EXTINF:] duration of the playlist reads as a
    non-negative number, the index [IndexPlaylist] builds has completion
    times that are non-negative and never decrease from one fragment to the
    next. *)
Theorem IndexPlaylist_completion_times_nondecreasing (t : TrackType)
    (w w' : World) (text : string) (j k : nat) (a b : IndexNode) :
  ptr (playlist (trackState w t)) = Some text ->
  extinf_durations_nonnegative text = true ->
  IndexPlaylist t w = Ok w' ->
  (j <= k)%nat ->
  nth_error (index (trackState w' t)) j = Some a ->
  nth_error (index (trackState w' t)) k = Some b ->
  0 <= completionTimeSecondsFromStart a
  /\ completionTimeSecondsFromStart a <= completionTimeSecondsFromStart b.
Proof.
  intros Hbuf Hok H Hjk Ha Hb.
  pose proof (IndexPlaylist_nondecreasing t w w' text Hbuf Hok H) as Hnd.
  exact (Hnd j k a b Hjk Ha Hb).
Qed.

End IndexSorted.
(** ** What a KEY tag and an indexing pass leave alone *)

Section CursorFacts.
Context {ext : Externals}.


Lemma cut_frame_reads (A : Type) (f : World -> A) (t : TrackType) (w w' : World) :
  (forall x, f (cut_frame t x) = f x) ->
  cut_frame t w' = cut_frame t w -> f w' = f w.
Proof.
  intros Hf E. rewrite <- (Hf w'), <- (Hf w), E. reflexivity.
Qed.

(** *** Where an in-place parse stores its NULs *)










Lemma index_frame_reads (t : TrackType) (w w' : World) (type_ : PlaylistType) :
  index_frame t w'
  = (type_, track_frame (trackState w t), trackState w (other_track t)) ->
  track_frame (trackState w' t) = track_frame (trackState w t)
  /\ trackState w' (other_track t) = trackState w (other_track t).
Proof.
  intro H. split.
  - exact (f_equal (fun x => snd (fst x)) H).
  - exact (f_equal snd H).
Qed.

(** X12. [IndexPlaylist] on a track rebuilds its index and leaves where the
    track is: the playlist buffer, the fragment pointer, the play target and
    its offset, the playlist position and the culled seconds of the track
    are as before, and so is the whole other track. *)
Theorem IndexPlaylist_keeps_cursor (t : TrackType) (w w' : World) :
  IndexPlaylist t w = Ok w' ->
  playlist (trackState w' t) = playlist (trackState w t)
  /\ fragmentURI (trackState w' t) = fragmentURI (trackState w t)
  /\ playTarget (trackState w' t) = playTarget (trackState w t)
  /\ playTargetOffset (trackState w' t) = playTargetOffset (trackState w t)
  /\ playlistPosition (trackState w' t) = playlistPosition (trackState w t)
  /\ mCulledSeconds (trackState w' t) = mCulledSeconds (trackState w t)
  /\ trackState w' (other_track t) = trackState w (other_track t).
Proof.
  intro H. apply IndexPlaylist_index_frame, index_frame_reads in H.
  destruct H as [Ht Ho]. unfold track_frame in Ht.
  injection Ht as E1 E2 E3 E4 E5 E6.
  repeat split; assumption.
Qed.

End CursorFacts.
(** ** The completion time of a sequence number *)

Section CompletionFacts.
Context {ext : Externals}.

Lemma completion_time_at_empty (first n : Z) : completion_time_at [] first n = 0.
Proof. reflexivity. Qed.

Lemma completion_time_at_before (nodes : list IndexNode) (first n : Z) :
  (- 2 ^ 31 <= n - first < 0)%Z -> completion_time_at nodes first n = 0.
Proof.
  intro H. unfold completion_time_at.
  destruct (_ >? 0)%Z; [|reflexivity].
  rewrite to_int_small by lia.
  destruct (Z.geb_spec (n - first) 0); [lia | reflexivity].
Qed.

Lemma completion_time_at_nth (nodes : list IndexNode) (first n : Z) :
  (0 <= n - first < 2 ^ 31)%Z ->
  nodes <> [] ->
  exists node,
    nth_error nodes
      (Z.to_nat (Z.min (n - first) (Z.of_nat (List.length nodes) - 1)))
    = Some node
    /\ completion_time_at nodes first n = completionTimeSecondsFromStart node.
Proof.
  intros H Hne. unfold completion_time_at.
  assert (Hlen : (0 < Z.of_nat (List.length nodes))%Z)
    by (destruct nodes; [contradiction | cbn [List.length]; lia]).
  destruct (Z.gtb_spec (Z.of_nat (List.length nodes)) 0); [|lia].
  rewrite to_int_small by lia.
  destruct (Z.geb_spec (n - first) 0); [|lia].
  set (count := Z.of_nat (List.length nodes)) in *.
  assert (Ei : (if (n - first >=? count)%Z then (count - 1)%Z else (n - first)%Z)
               = Z.min (n - first) (count - 1))
    by (destruct (Z.geb_spec (n - first) count); lia).
  rewrite Ei. unfold at_index.
  destruct (Z.ltb_spec (Z.min (n - first) (count - 1)) 0); [lia|].
  destruct (nth_error nodes (Z.to_nat (Z.min (n - first) (count - 1))))
    as [node|] eqn:En.
  - exists node. split; reflexivity.
  - apply nth_error_None in En. subst count. lia.
Qed.

(** X13. [GetCompletionTimeForFragment] by cases on the sequence number,
    for a difference to the first sequence number that fits an [int]: 0 for
    an empty index and for a number before the first one; the completion
    time of the fragment with that number when the index has it; the
    completion time of the last fragment for any later number.  The
    difference is narrowed to an [int], so numbers 2^32 apart give the same
    answer. *)
Theorem GetCompletionTimeForFragment_cases (ts : TrackState) (n : Z) :
  (index ts = [] -> GetCompletionTimeForFragment ts n = 0)
  /\ ((- 2 ^ 31 <= n - indexFirstMediaSequenceNumber ts < 0)%Z ->
      GetCompletionTimeForFragment ts n = 0)
  /\ (forall node,
        (0 <= n - indexFirstMediaSequenceNumber ts < 2 ^ 31)%Z ->
        nth_error (index ts) (Z.to_nat (n - indexFirstMediaSequenceNumber ts))
        = Some node ->
        GetCompletionTimeForFragment ts n = completionTimeSecondsFromStart node)
  /\ ((indexCount ts <= n - indexFirstMediaSequenceNumber ts < 2 ^ 31)%Z ->
      GetCompletionTimeForFragment ts n = last_completion (index ts))
  /\ GetCompletionTimeForFragment ts (n + 2 ^ 32) = GetCompletionTimeForFragment ts n.
Proof.
  unfold GetCompletionTimeForFragment.
  split; [intros ->; reflexivity|].
  split; [apply completion_time_at_before|].
  split.
  { intros node H Hn.
    assert (Hne : index ts <> []) by (intros E; rewrite E in Hn;
      destruct (Z.to_nat _); discriminate).
    destruct (completion_time_at_nth (index ts)
                (indexFirstMediaSequenceNumber ts) n H Hne) as (node' & Hn' & ->).
    assert (Hlt : (Z.to_nat (n - indexFirstMediaSequenceNumber ts)
                   < List.length (index ts))%nat)
      by (apply nth_error_Some; rewrite Hn; discriminate).
    rewrite Z.min_l in Hn' by lia. congruence. }
  split.
  { intros H. unfold indexCount in H.
    destruct (index ts) as [|x nodes] eqn:Ei; [reflexivity|].
    assert (Hne : x :: nodes <> []) by discriminate.
    destruct (completion_time_at_nth (x :: nodes)
                (indexFirstMediaSequenceNumber ts) n ltac:(lia) Hne)
      as (node' & Hn' & ->).
    rewrite Z.min_r in Hn' by lia.
    destruct (last_completion_nth (x :: nodes) Hne) as (lastNode & Hl & ->).
    replace (Z.to_nat (Z.of_nat (List.length (x :: nodes)) - 1))
      with (List.length (x :: nodes) - 1)%nat in Hn' by lia.
    congruence. }
  unfold completion_time_at.
  replace (to_int (n + 2 ^ 32 - indexFirstMediaSequenceNumber ts))
    with (to_int (n - indexFirstMediaSequenceNumber ts)); [reflexivity|].
  unfold to_int.
  replace (n + 2 ^ 32 - indexFirstMediaSequenceNumber ts + 2 ^ 31)%Z
    with (n - indexFirstMediaSequenceNumber ts + 2 ^ 31 + 1 * 2 ^ 32)%Z by lia.
  rewrite Z.mod_add by lia. reflexivity.
Qed.

(** X14. Over an index whose completion times are non-negative and never
    decrease, [GetCompletionTimeForFragment] never decreases with the
    sequence number (for differences to the first sequence number that fit
    an [int]). *)
Theorem GetCompletionTimeForFragment_monotone (ts : TrackState) (n m : Z) :
  nondecreasing (index ts) ->
  (- 2 ^ 31 <= n - indexFirstMediaSequenceNumber ts)%Z ->
  (n <= m)%Z ->
  (m - indexFirstMediaSequenceNumber ts < 2 ^ 31)%Z ->
  0 <= GetCompletionTimeForFragment ts n
  /\ GetCompletionTimeForFragment ts n <= GetCompletionTimeForFragment ts m.
Proof.
  intros Hnd Hn Hnm Hm. unfold GetCompletionTimeForFragment.
  set (first := indexFirstMediaSequenceNumber ts) in *.
  destruct (index ts) as [|x nodes] eqn:Ei.
  { rewrite !completion_time_at_empty. split; apply Qle_refl. }
  assert (Hne : x :: nodes <> []) by discriminate.
  assert (Hpos : forall k, (0 <= k - first < 2 ^ 31)%Z ->
            exists j node,
              nth_error (x :: nodes) j = Some node
              /\ completion_time_at (x :: nodes) first k
                 = completionTimeSecondsFromStart node
              /\ j = Z.to_nat (Z.min (k - first)
                                 (Z.of_nat (List.length (x :: nodes)) - 1))).
  { intros k Hk.
    destruct (completion_time_at_nth (x :: nodes) first k Hk Hne)
      as (node & Hnode & E).
    eexists _, node. split; [exact Hnode|]. split; [exact E | reflexivity]. }
  destruct (Z.lt_ge_cases (m - first) 0) as [Hm0|Hm0].
  { rewrite !completion_time_at_before by lia. split; apply Qle_refl. }
  destruct (Hpos m ltac:(lia)) as (jm & b & Hb & -> & Ejm).
  destruct (Z.lt_ge_cases (n - first) 0) as [Hn0|Hn0].
  { rewrite completion_time_at_before by lia. split; [apply Qle_refl|].
    exact (proj1 (Hnd jm jm b b (Nat.le_refl jm) Hb Hb)). }
  destruct (Hpos n ltac:(lia)) as (jn & a & Ha & -> & Ejn).
  apply (Hnd jn jm a b); [lia | exact Ha | exact Hb].
Qed.

End CompletionFacts.
(** ** A refresh that fails, and one that succeeds *)

(** The world once [RefreshPlaylist] has put back the buffer it saved (the
    [else] branch of its [if (playlist.len)]). *)
Definition restored (t : TrackType) (d : Download) (w : World) : World :=
  let tempBuff := match ptr (playlist (trackState w t)) with
                  | Some _ => playlist (trackState w t)
                  | None => no_buffer
                  end in
  let w0 := on_track t (set_playlist (downloaded d)) w in
  match ptr tempBuff with
  | Some _ =>
      let w1 := on_track t (set_playlist tempBuff) w0 in
      if refreshPlaylist (trackState w1 t)
      then set_currentProfileIndex (lastSelectedProfileIndex w1) w1 else w1
  | None => w0
  end.

Section RefreshExtras.
Context {ext : Externals}.

Lemma refresh_download_no_data (t : TrackType) (d : Download) (w : World) :
  len (downloaded d) = 0%Z ->
  refresh_download t d w
  = let w := restored t d w in
    if downloadsEnabled w then
      if (CURLE_OPERATION_TIMEDOUT =? http_error d)%Z
         || (CURLE_COULDNT_CONNECT =? http_error d)%Z
      then Ok (set_mNetworkDownDetected true w, true)
      else
        let w := on_track t (fun ts =>
                   set_manifestDLFailCount (manifestDLFailCount ts + 1)%Z ts) w in
        let ts := trackState w t in
        match fragmentURI ts with
        | None =>
            if (manifestDLFailCount ts >? MAX_MANIFEST_DOWNLOAD_RETRY)%Z
            then Ok (emit (SendDownloadErrorEvent AAMP_TUNE_MANIFEST_REQ_FAILED
                             (http_error d)) w, true)
            else Ok (w, false)
        | Some _ => Ok (w, false)
        end
    else Ok (w, false).
Proof.
  intro L0. unfold refresh_download.
  assert (L : len (playlist (trackState
                (on_track t (set_playlist (downloaded d)) w) t)) = 0%Z)
    by (rewrite trackState_on_track; exact L0).
  rewrite L. reflexivity.
Qed.

(** What putting the buffer back leaves alone. *)
Lemma restored_frame (t : TrackType) (d : Download) (w : World) :
  trackState (restored t d w) t
  = set_playlist
      (match ptr (playlist (trackState w t)) with
       | Some _ => playlist (trackState w t)
       | None => downloaded d
       end) (trackState w t)
  /\ trackState (restored t d w) (other_track t) = trackState w (other_track t)
  /\ events (restored t d w) = events w
  /\ downloadsEnabled (restored t d w) = downloadsEnabled w
  /\ mNetworkDownDetected (restored t d w) = mNetworkDownDetected w
  /\ playlistType (restored t d w) = playlistType w.
Proof.
  unfold restored.
  destruct (ptr (playlist (trackState w t))) as [text|] eqn:Ep; rewrite ?Ep.
  - destruct (refreshPlaylist _); destruct t; repeat split; reflexivity.
  - cbn [ptr no_buffer]. destruct t; repeat split; reflexivity.
Qed.

(** X15. A refresh whose download brings no data because the transfer timed
    out or could not connect, with downloads enabled, marks the network as
    down and returns at once: the failure count of the track, its culled
    seconds, its index and the events sent are as before; only the time of
    the last download attempt is new (and the buffer held before is put
    back). *)
Theorem RefreshPlaylist_network_down (t : TrackType) (d : Download) (w : World) :
  len (downloaded d) = 0%Z ->
  downloadsEnabled w = true ->
  http_error d = CURLE_OPERATION_TIMEDOUT \/ http_error d = CURLE_COULDNT_CONNECT ->
  exists w',
    RefreshPlaylist t d w = Ok w'
    /\ mNetworkDownDetected w' = true
    /\ manifestDLFailCount (trackState w' t) = manifestDLFailCount (trackState w t)
    /\ mCulledSeconds (trackState w' t) = mCulledSeconds (trackState w t)
    /\ index (trackState w' t) = index (trackState w t)
    /\ lastPlaylistDownloadTimeMS (trackState w' t) = aamp_GetCurrentTimeMS d
    /\ events w' = events w
    /\ trackState w' (other_track t) = trackState w (other_track t).
Proof.
  intros L0 Hen Herr. unfold RefreshPlaylist.
  set (w0 := on_track t (set_lastPlaylistDownloadTimeMS (aamp_GetCurrentTimeMS d)) w).
  rewrite (refresh_download_no_data t d w0 L0). cbv zeta.
  destruct (restored_frame t d w0) as (T & O & E & D & _ & _).
  assert (D0 : downloadsEnabled w0 = true) by (subst w0; destruct t; exact Hen).
  rewrite D, D0.
  assert (Ht : ((CURLE_OPERATION_TIMEDOUT =? http_error d)%Z
                || (CURLE_COULDNT_CONNECT =? http_error d)%Z) = true)
    by (destruct Herr as [-> | ->]; reflexivity).
  rewrite Ht. cbn [bind].
  exists (set_mNetworkDownDetected true (restored t d w0)).
  split; [reflexivity|]. split; [reflexivity|].
  assert (T0 : trackState w0 t
               = set_lastPlaylistDownloadTimeMS (aamp_GetCurrentTimeMS d)
                   (trackState w t))
    by (subst w0; apply trackState_on_track).
  assert (O0 : trackState w0 (other_track t) = trackState w (other_track t))
    by (subst w0; apply trackState_on_other_track).
  assert (E0 : events w0 = events w) by (subst w0; destruct t; reflexivity).
  rewrite !trackState_set_mNetworkDownDetected, T, O, T0, O0.
  split; [reflexivity|]. split; [reflexivity|]. split; [reflexivity|].
  split; [reflexivity|]. split; [|reflexivity].
  change (events (set_mNetworkDownDetected true (restored t d w0)))
    with (events (restored t d w0)).
  rewrite E. exact E0.
Qed.

(** X16. A refresh whose download brings no data for another reason, with
    downloads enabled, counts one more failure for the track, and tells the
    player that the manifest request failed only once the track has no
    fragment left to fetch and more than [MAX_MANIFEST_DOWNLOAD_RETRY]
    failures are counted. *)
Theorem RefreshPlaylist_counts_failure (t : TrackType) (d : Download) (w : World) :
  len (downloaded d) = 0%Z ->
  downloadsEnabled w = true ->
  http_error d <> CURLE_OPERATION_TIMEDOUT ->
  http_error d <> CURLE_COULDNT_CONNECT ->
  exists w',
    RefreshPlaylist t d w = Ok w'
    /\ manifestDLFailCount (trackState w' t)
       = (manifestDLFailCount (trackState w t) + 1)%Z
    /\ mNetworkDownDetected w' = mNetworkDownDetected w
    /\ (In (SendDownloadErrorEvent AAMP_TUNE_MANIFEST_REQ_FAILED (http_error d))
          (skipn (List.length (events w)) (events w'))
        <-> fragmentURI (trackState w t) = None
            /\ (MAX_MANIFEST_DOWNLOAD_RETRY
                < manifestDLFailCount (trackState w t) + 1)%Z).
Proof.
  intros L0 Hen Hto Hcc. unfold RefreshPlaylist.
  set (common := (nextMediaSequenceNumber (trackState w t) - 1)%Z).
  set (prev := GetCompletionTimeForFragment (trackState w t) common).
  set (w0 := on_track t (set_lastPlaylistDownloadTimeMS (aamp_GetCurrentTimeMS d)) w).
  rewrite (refresh_download_no_data t d w0 L0). cbv zeta.
  destruct (restored_frame t d w0) as (T & O & E & D & N & _).
  assert (D0 : downloadsEnabled w0 = true) by (subst w0; destruct t; exact Hen).
  assert (E0 : events w0 = events w) by (subst w0; destruct t; reflexivity).
  assert (N0 : mNetworkDownDetected w0 = mNetworkDownDetected w)
    by (subst w0; destruct t; reflexivity).
  assert (T0 : trackState w0 t
               = set_lastPlaylistDownloadTimeMS (aamp_GetCurrentTimeMS d)
                   (trackState w t))
    by (subst w0; apply trackState_on_track).
  rewrite D, D0.
  assert (Ht : ((CURLE_OPERATION_TIMEDOUT =? http_error d)%Z
                || (CURLE_COULDNT_CONNECT =? http_error d)%Z) = false).
  { apply orb_false_iff. split; apply Z.eqb_neq; congruence. }
  rewrite Ht.
  set (w1 := restored t d w0) in *.
  set (w2 := on_track t (fun ts =>
               set_manifestDLFailCount (manifestDLFailCount ts + 1)%Z ts) w1).
  assert (T2 : trackState w2 t
               = set_manifestDLFailCount
                   (manifestDLFailCount (trackState w t) + 1)%Z (trackState w1 t))
    by (subst w2; rewrite trackState_on_track, T, T0; reflexivity).
  assert (E2 : events w2 = events w)
    by (subst w2; rewrite <- E0, <- E; destruct t; reflexivity).
  assert (N2 : mNetworkDownDetected w2 = mNetworkDownDetected w)
    by (subst w2; rewrite <- N0, <- N; destruct t; reflexivity).
  assert (U2 : fragmentURI (trackState w2 t) = fragmentURI (trackState w t))
    by (rewrite T2, T, T0; reflexivity).
  assert (C2 : manifestDLFailCount (trackState w2 t)
               = (manifestDLFailCount (trackState w t) + 1)%Z)
    by (rewrite T2; reflexivity).
  clearbody w2 w1 w0.
  set (bump := fun culled ts => set_mCulledSeconds (mCulledSeconds ts + culled) ts).
  assert (Tail : forall culled,
            let w3 := on_track t (bump culled) w2 in
            exists w',
              match t with
              | eTRACK_VIDEO => Ok (emit (UpdateCullingState culled) w3)
              | eTRACK_AUDIO => Ok w3
              end = Ok w'
              /\ manifestDLFailCount (trackState w' t)
                 = (manifestDLFailCount (trackState w t) + 1)%Z
              /\ mNetworkDownDetected w' = mNetworkDownDetected w
              /\ ~ In (SendDownloadErrorEvent AAMP_TUNE_MANIFEST_REQ_FAILED
                         (http_error d))
                     (skipn (List.length (events w)) (events w'))).
  { intros culled w3.
    assert (T3 : manifestDLFailCount (trackState w3 t)
                 = (manifestDLFailCount (trackState w t) + 1)%Z)
      by (subst w3; rewrite trackState_on_track; exact C2).
    assert (E3 : events w3 = events w) by (subst w3; destruct t; exact E2).
    assert (N3 : mNetworkDownDetected w3 = mNetworkDownDetected w)
      by (subst w3; destruct t; exact N2).
    clearbody w3.
    destruct t; eexists; (split; [reflexivity|]);
      rewrite ?trackState_emit; (split; [exact T3|]); (split; [exact N3|]).
    - unfold emit. cbn [events set_events]. rewrite E3.
      rewrite skipn_app, skipn_all, Nat.sub_diag. cbn.
      intros [Hin|[]]. discriminate Hin.
    - rewrite E3, skipn_all. intros []. }
  destruct (fragmentURI (trackState w2 t)) as [u|] eqn:Eu.
  - cbn [bind]. destruct (Tail (prev - GetCompletionTimeForFragment (trackState w2 t) common))
      as (w' & Hw & Hc & Hn & Hev).
    exists w'. split; [exact Hw|]. split; [exact Hc|]. split; [exact Hn|].
    split; [intro Hin; contradiction|].
    intros [Hnone _]. rewrite <- U2 in Hnone. discriminate.
  - rewrite C2.
    destruct (Z.gtb_spec (manifestDLFailCount (trackState w t) + 1)
                MAX_MANIFEST_DOWNLOAD_RETRY) as [Hgt|Hle]; cbn [bind].
    + eexists. split; [reflexivity|].
      rewrite trackState_emit. split; [exact C2|].
      split; [exact N2|].
      split; [intros _; split; [rewrite <- U2; reflexivity | lia]|].
      intros _. unfold emit. cbn [events set_events]. rewrite E2.
      rewrite skipn_app, skipn_all, Nat.sub_diag. cbn. left. reflexivity.
    + destruct (Tail (prev - GetCompletionTimeForFragment (trackState w2 t) common))
        as (w' & Hw & Hc & Hn & Hev).
      exists w'. split; [exact Hw|]. split; [exact Hc|]. split; [exact Hn|].
      split; [intro Hin; contradiction|].
      intros [_ Hlt]. lia.
Qed.

End RefreshExtras.
(** ** Trick play: the fragment chosen and the step of the play target *)

(** [p] split at each LF. *)
Fixpoint lf_lines (p : string) : list string :=
  match p with
  | EmptyString => [EmptyString]
  | String c rest =>
      if Ascii.eqb c CHAR_LF then EmptyString :: lf_lines rest
      else match lf_lines rest with
           | line :: lines => String c line :: lines
           | [] => [String c EmptyString]
           end
  end.

(** [line] less a CR at its end. *)
Fixpoint less_CR (line : string) : string :=
  match line with
  | EmptyString => EmptyString
  | String c rest =>
      match rest with
      | EmptyString => if Ascii.eqb c CHAR_CR then EmptyString else line
      | _ => String c (less_CR rest)
      end
  end.

(** The fragment URI that stands in [lines], the bytes from a pointer on
    split at each LF: the first line that does not begin with ['#'], less a
    CR at its end; there is none when that line is the last one (it has no
    LF) or holds a NUL. *)
Fixpoint first_uri (lines : list string) : option string :=
  match lines with
  | line :: ((_ :: _) as rest) =>
      if Ascii.eqb (deref line) "#" then first_uri rest
      else if has_char NUL line then None else Some (less_CR line)
  | _ => None
  end.

Section TrickPlayExtras.
Context {ext : Externals}.
Variable playlist_indexed : nat -> World -> World.

Lemma lf_lines_cons (p : string) : exists line rest, lf_lines p = line :: rest.
Proof.
  destruct p as [|c p]; [eexists _, _; reflexivity|]. cbn [lf_lines].
  destruct (Ascii.eqb c CHAR_LF); [eexists _, _; reflexivity|].
  destruct (lf_lines p); eexists _, _; reflexivity.
Qed.

Lemma lf_lines_empty_line (p : string) (y : string) (rest : list string) :
  lf_lines p = EmptyString :: y :: rest -> exists r, p = String CHAR_LF r.
Proof.
  destruct p as [|c p]; [discriminate|]. cbn [lf_lines].
  destruct (Ascii.eqb_spec c CHAR_LF) as [->|Hc]; [eexists; reflexivity|].
  destruct (lf_lines p); discriminate.
Qed.

Lemma next_line_lf_lines (p : string) :
  forall rest : string,
    next_line p = Ok rest ->
    exists line, lf_lines p = line :: lf_lines rest
                 /\ (Ascii.eqb (deref p) "#" = true -> deref line = "#"%char).
Proof.
  induction p as [|c p IH]; intros rest H; [discriminate|].
  cbn [next_line lf_lines] in *.
  destruct (Ascii.eqb_spec c CHAR_LF) as [->|Hc].
  - injection H as <-. exists EmptyString. split; [reflexivity|].
    cbn. discriminate.
  - destruct (IH rest H) as (line & E & _). rewrite E.
    exists (String c line). split; [reflexivity|].
    cbn [deref]. intro Hh. apply Ascii.eqb_eq in Hh. exact Hh.
Qed.

Lemma fragment_tags_first_uri (fuel : nat) :
  forall (p : string) (range r : Z * Z) (fragmentInfo : string),
    fragment_tags fuel p range = Ok (r, fragmentInfo) ->
    first_uri (lf_lines p) = first_uri (lf_lines fragmentInfo)
    /\ Ascii.eqb (deref fragmentInfo) "#" = false.
Proof.
  induction fuel as [|fuel IH]; intros p range r fragmentInfo H;
    [discriminate|].
  cbn [fragment_tags] in H.
  destruct (Ascii.eqb (deref p) "#") eqn:Eh.
  - bind_inv H. bind_inv H. rename a0 into next.
    destruct (next_line_lf_lines _ _ Ha0) as (line & E & Hl).
    apply IH in H. destruct H as [H Hd]. split; [|exact Hd].
    rewrite E, <- H.
    destruct (lf_lines_cons next) as (x & xs & Ex). rewrite Ex.
    cbn [first_uri]. rewrite (Hl Eh). reflexivity.
  - injection H as _ <-. split; [reflexivity | exact Eh].
Qed.

(** What [strchr] and the copy of the URI see of the line at [q]. *)
Lemma uri_line_lf_lines (q : string) :
  match lf_lines q with
  | line :: rest =>
      if negb (has_char NUL line)
         && match rest with [] => false | _ => true end
      then strchr (c_str q) CHAR_LF <> None
           /\ fst (mystrpbrk (c_str q)) = less_CR line
      else strchr (c_str q) CHAR_LF = None
  | [] => False
  end.
Proof.
  induction q as [|c q IH]; [reflexivity|].
  cbn [lf_lines c_str].
  destruct (Ascii.eqb_spec c CHAR_LF) as [->|Hc].
  - destruct (lf_lines_cons q) as (x & xs & Ex). rewrite Ex.
    change (Ascii.eqb CHAR_LF NUL) with false. cbn.
    split; [discriminate | reflexivity].
  - destruct (lf_lines q) as [|line rest] eqn:El; [contradiction|].
    cbn [has_char].
    destruct (Ascii.eqb_spec c NUL) as [->|Hn]; [reflexivity|].
    cbn [orb].
    assert (Hs : strchr (String c (c_str q)) CHAR_LF = strchr (c_str q) CHAR_LF).
    { cbn [strchr]. destruct (Ascii.eqb_spec c CHAR_LF); [contradiction|].
      reflexivity. }
    rewrite Hs.
    destruct (negb (has_char NUL line)
              && match rest with [] => false | _ => true end); [|exact IH].
    destruct IH as [IH1 IH2]. split; [exact IH1|].
    cbn [mystrpbrk].
    destruct (Ascii.eqb_spec c CHAR_LF); [contradiction|].
    destruct (c_str q) as [|d r] eqn:Ec; [contradiction IH1; reflexivity|].
    destruct (Ascii.eqb c CHAR_CR && Ascii.eqb d CHAR_LF) eqn:E.
    + apply andb_true_iff in E. destruct E as [E1 E2].
      apply Ascii.eqb_eq in E1, E2. subst c d.
      destruct q as [|d q]; [discriminate|]. cbn [c_str] in Ec.
      destruct (Ascii.eqb d NUL); [discriminate|]. injection Ec as -> _.
      cbn [lf_lines] in El. rewrite Ascii.eqb_refl in El.
      injection El as <- _. reflexivity.
    + destruct (mystrpbrk (String d r)) as [l next] eqn:Em.
      cbn [fst] in *. rewrite IH2.
      destruct line as [|y line]; [|reflexivity].
      cbn [less_CR].
      destruct rest as [|z rest].
      * (* the line has an LF: there is a line after it *)
        exfalso. clear - IH1 El Ec.
        assert (G : forall s, lf_lines s = [EmptyString] ->
                              strchr (c_str s) CHAR_LF = None).
        { intros [|a s]; [reflexivity|]. cbn [lf_lines].
          destruct (Ascii.eqb a CHAR_LF);
            [destruct (lf_lines_cons s) as (x & xs & ->); discriminate|].
          destruct (lf_lines s); discriminate. }
        apply IH1. rewrite <- Ec. apply G. exact El.
      * destruct (lf_lines_empty_line _ _ _ El) as [r0 ->].
        cbn [c_str] in Ec. change (Ascii.eqb CHAR_LF NUL) with false in Ec.
        injection Ec as <- _.
        rewrite Ascii.eqb_refl, andb_true_r in E. rewrite E. reflexivity.
Qed.

Lemma uri_line_first_uri (fragmentInfo : string) (u : option string) :
  Ascii.eqb (deref fragmentInfo) "#" = false ->
  uri_line fragmentInfo = Ok u ->
  u = first_uri (lf_lines fragmentInfo).
Proof.
  intros Hd. unfold uri_line.
  pose proof (uri_line_lf_lines fragmentInfo) as L.
  destruct (lf_lines fragmentInfo) as [|line rest] eqn:El; [contradiction|].
  assert (Hl : Ascii.eqb (deref line) "#" = false).
  { destruct fragmentInfo as [|c q]; [injection El as <- _; reflexivity|].
    cbn [lf_lines] in El.
    destruct (Ascii.eqb c CHAR_LF); [injection El as <- _; reflexivity|].
    destruct (lf_lines q); injection El as <- _; exact Hd. }
  destruct rest as [|y rest].
  - rewrite andb_false_r in L. rewrite L. intros [= <-]. reflexivity.
  - rewrite andb_true_r in L. cbn [first_uri]. rewrite Hl.
    destruct (has_char NUL line); cbn [negb] in L.
    + rewrite L. intros [= <-]. reflexivity.
    + destruct L as [L1 L2].
      destruct (strchr (c_str fragmentInfo) CHAR_LF); [|contradiction].
      rewrite L2. destruct (_ <? _)%nat; [|discriminate].
      intros [= <-]. reflexivity.
Qed.

Lemma with_nuls_nil (p : string) : forall o, with_nuls [] o p = p.
Proof.
  induction p as [|c p IH]; intro o; [reflexivity|].
  cbn [with_nuls existsb]. rewrite IH. reflexivity.
Qed.

Lemma advance_append (pre p : string) :
  advance (String.length pre) (pre ++ p) = Ok p.
Proof. induction pre as [|c pre IH]; [reflexivity | exact IH]. Qed.

(** In a buffer in which nothing has been stored, the bytes at a pointer
    are the text that stood there when the pointer was taken. *)
Lemma fragment_info_uncut (ts : TrackState) (node : IndexNode) (pre : string) :
  ptr (playlist ts) = Some (pre ++ pFragmentInfo node)%string ->
  nuls (playlist ts) = [] ->
  fragment_info ts node = Ok (pFragmentInfo node).
Proof.
  intros Hp Hn. unfold fragment_info, bytes. rewrite Hp, Hn.
  cbn [option_map]. rewrite with_nuls_nil, length_append.
  replace (String.length pre + String.length (pFragmentInfo node)
           - String.length (pFragmentInfo node))%nat
    with (String.length pre) by lia.
  apply advance_append.
Qed.

(** X17. When [GetFragmentUriFromIndex] returns a fragment, the index node
    it has selected is the first one, going from the current node
    ([currentIdx], or the first node forward and the last node backward
    when it is -1), whose completion time is at least the play target when
    the rate is positive, and at most the play target otherwise;
    [currentIdx] becomes that node.  The URI returned is a copy of what
    stands in the playlist buffer at the pointer of that node now: going
    from LF to LF, the first line that does not begin with ['#'], less a
    CR at its end.  In a buffer where nothing has been stored since the
    index was built, that is the line after the tags of the node; once
    lines of the buffer have been cut, it is the line after the next LF
    left in the buffer.  The index, the play target, its offset and the
    playlist buffer are not changed. *)
Theorem GetFragmentUriFromIndex_selects_first (t : TrackType) (w w' : World)
    (u : UriPtr) :
  GetFragmentUriFromIndex t w = Ok (w', Some u) ->
  (exists (from idx : nat) (node : IndexNode) (p uri : string),
     search_start w (trackState w t) = Z.of_nat from
     /\ currentIdx (trackState w' t) = Z.of_nat idx
     /\ (if Qgtb (rate w) 0
         then selected_forward (index (trackState w t)) from idx
                (playTarget (trackState w t))
         else selected_backward (index (trackState w t)) from idx
                (playTarget (trackState w t)))
     /\ nth_error (index (trackState w t)) idx = Some node
     /\ fragment_info (trackState w t) node = Ok p
     /\ (forall pre,
           ptr (playlist (trackState w t)) = Some (pre ++ pFragmentInfo node)%string ->
           nuls (playlist (trackState w t)) = [] ->
           p = pFragmentInfo node)
     /\ u = FromIndex uri
     /\ first_uri (lf_lines p) = Some uri)
  /\ index (trackState w' t) = index (trackState w t)
  /\ playTarget (trackState w' t) = playTarget (trackState w t)
  /\ playTargetOffset (trackState w' t) = playTargetOffset (trackState w t)
  /\ playlist (trackState w' t) = playlist (trackState w t).
Proof.
  intro H.
  destruct (GetFragmentUriFromIndex_selects t w w' u H)
    as (from & idx & node & w1 & Hfrom & Hidx & Hsel & Hnode & Hbuf & Hblock).
  cbv zeta in *.
  destruct (select_index_node_reads _ _ _ _ _ _ Hblock)
    as (Hkept & p & fragmentInfo & range & line & Hp & Htags & Huri & Hrc).
  assert (Hp' : fragment_info (trackState w t) node = Ok p).
  { unfold fragment_info in *. rewrite Hbuf in Hp. exact Hp. }
  apply fragment_tags_first_uri in Htags. destruct Htags as [Htags Hd].
  apply (uri_line_first_uri _ _ Hd) in Huri.
  destruct line as [uri|]; [|discriminate]. injection Hrc as ->.
  split.
  - exists from, idx, node, p, uri.
    repeat (split; [assumption|]).
    split; [|split; [reflexivity | rewrite Htags; symmetry; exact Huri]].
    intros pre Hpre Hn.
    rewrite (fragment_info_uncut _ _ _ Hpre Hn) in Hp'.
    injection Hp' as <-. reflexivity.
  - apply GetFragmentUriFromIndex_frame in H. unfold trick_frame in H.
    injection H as _ _ _ _ E1 E2 E3.
    repeat (split; [assumption|]).
    rewrite Hkept. exact Hbuf.
Qed.

(** A forward trick-play fetch that finds no fragment flags the end of the
    stream. *)
Lemma choose_fragment_forward_eos (t : TrackType) (w w' : World) :
  trickplayMode w = true ->
  iframeTrack w <> INVALID_PROFILE ->
  choose_fragment playlist_indexed t w = Ok w' ->
  0 <= rate w ->
  fragmentURI (trackState w' t) = None ->
  eosReached (trackState w' t) = true.
Proof.
  intros Htm Hif. unfold choose_fragment.
  destruct (fragmentURI (trackState w t)) as [held|]; [|discriminate].
  rewrite Htm.
  assert (Ei : (INVALID_PROFILE =? iframeTrack w)%Z = false)
    by (apply Z.eqb_neq; congruence).
  rewrite Ei. cbn [negb andb].
  intro H. bind_inv H. destruct a as [w1 rc].
  pose proof (play_rate_trick_frame _ _ _
                (GetFragmentUriFromIndex_frame _ _ _ _ Ha)) as R.
  assert (Rate : rate (on_track t (set_fragmentURI rc) w1) = rate w).
  { pose proof (f_equal (fun x => fst (fst x)) R : rate w1 = rate w) as E.
    destruct t; exact E. }
  rewrite Rate in H. intros Hr.
  assert (Er : Qltb (rate w) 0 = false).
  { destruct (Qltb (rate w) 0) eqn:E; [|reflexivity].
    apply Qltb_true in E. exfalso. lra. }
  rewrite Er in H. injection H as <-.
  rewrite trackState_on_track. destruct rc as [x|].
  - rewrite trackState_on_track. discriminate.
  - intros _. rewrite !trackState_on_track. reflexivity.
Qed.

(** X18. A trick-play fetch with a valid I-frame track steps the play
    target by [delta = rate / mTrickPlayFPS].  Forward (rate not below 0)
    the step is added whether or not a fragment was found, and the end of
    the stream is flagged when none was.  In rewind ([delta] is negative):
    when no fragment was found or the play target is 0, the play target
    stays where it is and the end of the stream is flagged; otherwise the
    play target becomes [playTarget + delta] when it is above [- delta],
    and 0 when it is not.  So a play target that was not negative is not
    negative afterwards. *)
Theorem trick_play_steps_play_target (t : TrackType) (w w' : World) :
  trickplayMode w = true ->
  iframeTrack w <> INVALID_PROFILE ->
  choose_fragment playlist_indexed t w = Ok w' ->
  let delta := rate w / inject_Z (mTrickPlayFPS w) in
  (0 <= rate w ->
   playTarget (trackState w' t) = playTarget (trackState w t) + delta
   /\ (fragmentURI (trackState w' t) = None ->
       eosReached (trackState w' t) = true))
  /\ (rate w < 0 ->
      0 <= playTarget (trackState w t) ->
      0 <= playTarget (trackState w' t))
  /\ (rate w < 0 ->
      fragmentURI (trackState w' t) = None \/ playTarget (trackState w t) == 0 ->
      playTarget (trackState w' t) = playTarget (trackState w t)
      /\ eosReached (trackState w' t) = true)
  /\ (rate w < 0 ->
      fragmentURI (trackState w' t) <> None ->
      ~ playTarget (trackState w t) == 0 ->
      (- delta < playTarget (trackState w t) ->
       playTarget (trackState w' t) = playTarget (trackState w t) + delta)
      /\ (playTarget (trackState w t) <= - delta ->
          playTarget (trackState w' t) = 0)).
Proof.
  intros Htm Hif H delta.
  destruct (choose_fragment_trickplay playlist_indexed t w w' Htm Hif H)
    as (_ & Hfwd & Hrew).
  cbv zeta in Hfwd, Hrew. unfold trickplay_delta in Hfwd, Hrew.
  fold delta in Hfwd, Hrew.
  split; [|split; [|split]].
  - intro Hr. split; [exact (Hfwd Hr)|].
    exact (choose_fragment_forward_eos t w w' Htm Hif H Hr).
  - intros Hr Hpos. destruct (Hrew Hr) as (Heos & Hstep & Hclamp).
    destruct (fragmentURI (trackState w' t)) as [u|] eqn:Eu.
    + destruct (Qeq_dec (playTarget (trackState w t)) 0) as [Hz|Hnz].
      * destruct (Heos (or_intror Hz)) as [-> _]. exact Hpos.
      * destruct (Qlt_le_dec (- delta) (playTarget (trackState w t)))
          as [Hgt|Hle].
        -- rewrite (Hstep ltac:(discriminate) Hnz Hgt). lra.
        -- rewrite (Hclamp ltac:(discriminate) Hnz Hle). lra.
    + destruct (Heos (or_introl eq_refl)) as [-> _]. exact Hpos.
  - intros Hr Hc. exact (proj1 (Hrew Hr) Hc).
  - intros Hr Hu Hnz. destruct (Hrew Hr) as (_ & Hstep & Hclamp).
    split; [exact (Hstep Hu Hnz) | exact (Hclamp Hu Hnz)].
Qed.

End TrickPlayExtras.
(** ** The line of a sequence number (FindMediaForSequenceNumber) *)

(** A line that names a fragment: not empty and not a tag or comment. *)
Definition is_uri_line (line : string) : bool :=
  match line with
  | EmptyString => false
  | String c _ => negb (Ascii.eqb c "#")
  end.

(** The media sequence number of each line that names a fragment ([None]
    for the other lines), counting from [seq]: an EXT-X-MEDIA-SEQUENCE tag
    sets the count, a fragment line uses it and moves it on by one. *)
Fixpoint sequence_numbers {ext : Externals} (lines : list string) (seq : Z)
  : list (option Z) :=
  match lines with
  | [] => []
  | line :: lines' =>
      if is_uri_line line then Some seq :: sequence_numbers lines' (seq + 1)%Z
      else
        match startswith line "#EXT-X-MEDIA-SEQUENCE:" with
        | Some p => None :: sequence_numbers lines' (atoll p)
        | None => None :: sequence_numbers lines' seq
        end
  end.

Section FindMediaFacts.
Context {ext : Externals}.

Lemma nextMediaSequenceNumber_key_frame (t : TrackType) (w : World) :
  nextMediaSequenceNumber (trackState (key_frame t w) t)
  = nextMediaSequenceNumber (trackState w t).
Proof. destruct t; reflexivity. Qed.

Lemma ParseKeyAttrList_nextMediaSequenceNumber (t : TrackType)
    (line_end : option nat) (p : string) (w w' : World) :
  ParseKeyAttrList t line_end p w = Ok w' ->
  nextMediaSequenceNumber (trackState w' t)
  = nextMediaSequenceNumber (trackState w t).
Proof.
  intro H. apply ParseKeyAttrList_cut_frame in H. destruct H as [H _].
  apply (cut_frame_reads _ (fun x => nextMediaSequenceNumber (trackState x t))
           t w w'); [|exact H].
  intro x. destruct t; reflexivity.
Qed.

(** The line of a span. *)
Definition span_line (s : nat * string * option nat) : string := snd (fst s).

Lemma tag_line_not_uri (line prefix rest : string) :
  startswith line (String "#" prefix) = Some rest -> is_uri_line line = false.
Proof.
  destruct line as [|d line]; [discriminate|]. cbn [is_uri_line startswith].
  destruct (Ascii.eqb d "#"); [reflexivity | discriminate].
Qed.

Lemma find_media_spec (t : TrackType) (msn : Z)
    (spans : list (nat * string * option nat)) :
  forall (n : nat) (seq : Z) (key : option (string * nat)) (w w' : World)
         (rc : option UriPtr),
    find_media t spans n msn seq key w = Ok (w', rc) ->
    let lines := map span_line spans in
    match rc with
    | Some (PlaylistLine k) =>
        exists s,
          (n <= k)%nat
          /\ nth_error (sequence_numbers lines seq) (k - n) = Some (Some s)
          /\ (msn <= s)%Z
          /\ (forall j s', (j < k - n)%nat ->
                nth_error (sequence_numbers lines seq) j = Some (Some s') ->
                (s' < msn)%Z)
          /\ nextMediaSequenceNumber (trackState w' t)
             = (if (s =? msn)%Z
                then nextMediaSequenceNumber (trackState w t)
                else s + 1)%Z
    | Some (FromIndex _) => False
    | None =>
        forall j s', nth_error (sequence_numbers lines seq) j = Some (Some s') ->
                     (s' < msn)%Z
    end.
Proof.
  induction spans as [|[[start line] fin] spans IH];
    intros n seq key w w' rc H; cbv zeta in *.
  - injection H as <- <-. intros j s' Hj. destruct j; discriminate.
  - cbn [find_media] in H. cbn [map span_line fst snd sequence_numbers].
    set (lines := map span_line spans) in *.
    set (w0 := match fin with Some o => cut_playlist t o w | None => w end) in H.
    assert (E0 : nextMediaSequenceNumber (trackState w0 t)
                 = nextMediaSequenceNumber (trackState w t)).
    { subst w0. destruct fin; [|reflexivity]. unfold cut_playlist.
      rewrite trackState_on_track. reflexivity. }
    clearbody w0.
    assert (Skip : forall seq' key' w1,
              find_media t spans (S n) msn seq' key' w1 = Ok (w', rc) ->
              nextMediaSequenceNumber (trackState w1 t)
              = nextMediaSequenceNumber (trackState w t) ->
              match rc with
              | Some (PlaylistLine k) =>
                  exists s,
                    (n <= k)%nat
                    /\ nth_error (None :: sequence_numbers lines seq') (k - n)
                       = Some (Some s)
                    /\ (msn <= s)%Z
                    /\ (forall j s', (j < k - n)%nat ->
                          nth_error (None :: sequence_numbers lines seq') j
                          = Some (Some s') -> (s' < msn)%Z)
                    /\ nextMediaSequenceNumber (trackState w' t)
                       = (if (s =? msn)%Z
                          then nextMediaSequenceNumber (trackState w t)
                          else s + 1)%Z
              | Some (FromIndex _) => False
              | None =>
                  forall j s',
                    nth_error (None :: sequence_numbers lines seq') j
                    = Some (Some s') -> (s' < msn)%Z
              end).
    { intros seq' key' w1 H1 Hw1. apply IH in H1. cbv zeta in H1.
      fold lines in H1.
      destruct rc as [[k|u]|]; [|exact H1|].
      - destruct H1 as (s & Hk & Hs & Hm & Hb & Hn).
        exists s. split; [lia|].
        replace (k - n)%nat with (S (k - S n)) by lia.
        split; [exact Hs|]. split; [exact Hm|]. split.
        + intros j s' Hj Hnth. destruct j as [|j]; [discriminate|].
          apply (Hb j s'); [lia | exact Hnth].
        + rewrite Hn, Hw1. reflexivity.
      - intros j s' Hnth. destruct j as [|j]; [discriminate|].
        exact (H1 j s' Hnth). }
    destruct line as [|c line].
    { cbn [is_uri_line]. cbn [startswith].
      apply (Skip seq key w0 H E0). }
    destruct (startswith (String c line) "#EXTINF:") as [p|] eqn:E1.
    { rewrite (tag_line_not_uri _ _ _ E1).
      assert (E2 : startswith (String c line) "#EXT-X-MEDIA-SEQUENCE:" = None).
      { apply startswith_spec in E1. injection E1 as -> ->. reflexivity. }
      rewrite E2. apply (Skip seq key _ H).
      rewrite trackState_on_track. exact E0. }
    destruct (startswith (String c line) "#EXT-X-MEDIA-SEQUENCE:") as [p|] eqn:E2.
    { rewrite (tag_line_not_uri _ _ _ E2). apply (Skip _ key w0 H E0). }
    destruct (startswith (String c line) "#EXT-X-KEY:") as [p|] eqn:E3.
    { rewrite (tag_line_not_uri _ _ _ E3). apply (Skip seq _ w0 H E0). }
    cbn [deref] in H. cbn [is_uri_line].
    destruct (negb (Ascii.eqb c "#")) eqn:Eu;
      [|apply (Skip seq key w0 H E0)].
    destruct (Z.geb_spec seq msn) as [Hge|Hlt].
    + bind_inv H. injection H as <- <-.
      assert (Ea : nextMediaSequenceNumber (trackState a t)
                   = nextMediaSequenceNumber (trackState w t)).
      { rewrite <- E0.
        destruct key as [[k line_end]|]; [|injection Ha as <-; reflexivity].
        destruct (_ >? 1)%Z; [|injection Ha as <-; reflexivity].
        eapply ParseKeyAttrList_nextMediaSequenceNumber; eassumption. }
      exists seq. rewrite Nat.sub_diag.
      split; [lia|]. split; [reflexivity|]. split; [lia|].
      split; [intros j s' Hj; lia|].
      destruct (Z.eqb_spec seq msn) as [Heq|Hne]; cbn [negb].
      * exact Ea.
      * rewrite trackState_on_track. reflexivity.
    + apply IH in H. cbv zeta in H. fold lines in H.
      destruct rc as [[k|u]|]; [|exact H|].
      * destruct H as (s & Hk & Hs & Hm & Hb & Hn).
        exists s. split; [lia|].
        replace (k - n)%nat with (S (k - S n)) by lia.
        split; [exact Hs|]. split; [exact Hm|]. split; [|rewrite Hn, E0; reflexivity].
        intros j s' Hj Hnth. destruct j as [|j].
        -- injection Hnth as <-. exact Hlt.
        -- apply (Hb j s'); [lia | exact Hnth].
      * intros j s' Hnth. destruct j as [|j].
        -- injection Hnth as <-. exact Hlt.
        -- exact (H j s' Hnth).
Qed.

(** X19. [FindMediaForSequenceNumber] looks for the fragment whose media
    sequence number is [nextMediaSequenceNumber - 1].  The line it returns
    is the first fragment line of the playlist whose sequence number is at
    least that; when the number is larger (a gap), [nextMediaSequenceNumber]
    is moved to one past it, so that afterwards [nextMediaSequenceNumber - 1]
    is the sequence number of the line returned.  When it returns no line,
    every fragment of the playlist has a smaller sequence number. *)
Theorem FindMediaForSequenceNumber_finds_sequence_number (t : TrackType)
    (w w' : World) (rc : option UriPtr) (text : string) :
  ptr (playlist (trackState w t)) = Some text ->
  FindMediaForSequenceNumber t w = Ok (w', rc) ->
  let wanted := (nextMediaSequenceNumber (trackState w t) - 1)%Z in
  let numbers := sequence_numbers (split_lines text) 0%Z in
  match rc with
  | Some (PlaylistLine k) =>
      exists s,
        nth_error numbers k = Some (Some s)
        /\ (wanted <= s)%Z
        /\ (forall j s', (j < k)%nat -> nth_error numbers j = Some (Some s') ->
                         (s' < wanted)%Z)
        /\ (nextMediaSequenceNumber (trackState w' t) - 1)%Z = s
  | Some (FromIndex _) => False
  | None =>
      forall j s', nth_error numbers j = Some (Some s') -> (s' < wanted)%Z
  end.
Proof.
  intros Hbuf H. unfold FindMediaForSequenceNumber in H. rewrite Hbuf in H.
  apply find_media_spec in H. cbv zeta in *.
  change (map span_line (line_spans text 0))
    with (map (fun s => snd (fst s)) (line_spans text 0)) in H.
  rewrite line_spans_lines in H.
  destruct rc as [[k|u]|]; [|exact H|exact H].
  destruct H as (s & _ & Hs & Hm & Hb & Hn).
  rewrite Nat.sub_0_r in Hs, Hb.
  exists s. split; [exact Hs|]. split; [exact Hm|]. split; [exact Hb|].
  rewrite Hn. destruct (Z.eqb_spec s (nextMediaSequenceNumber (trackState w t) - 1));
    lia.
Qed.

End FindMediaFacts.
(** ** Profiles and media *)

Module ManifestFacts.
Import Manifest.

Lemma GetBWIndex_loop_count (bitrate : Z) (profiles : list HlsStreamInfo) :
  forall topBWIndex : Z,
    GetBWIndex_loop profiles bitrate topBWIndex
    = (topBWIndex
       - Z.of_nat (List.length
                     (filter (fun b => (b >? bitrate)%Z)
                        (GetVideoBitrates profiles))))%Z.
Proof.
  induction profiles as [|p profiles IH]; intro top; cbn [GetBWIndex_loop].
  - cbn. lia.
  - rewrite IH. cbn [GetVideoBitrates].
    destruct (isIframeTrack p); cbn [negb andb]; [reflexivity|].
    cbn [filter]. destruct (bandwidthBitsPerSecond p >? bitrate)%Z;
      cbn [List.length]; lia.
Qed.

Lemma filter_length_le {A : Type} (f : A -> bool) (l : list A) :
  (List.length (filter f l) <= List.length l)%nat.
Proof.
  induction l as [|x l IH]; cbn; [lia|]. destruct (f x); cbn; lia.
Qed.

Lemma filter_length_mono {A : Type} (f g : A -> bool) (l : list A) :
  (forall x, g x = true -> f x = true) ->
  (List.length (filter g l) <= List.length (filter f l))%nat.
Proof.
  intro H. induction l as [|x l IH]; cbn; [lia|].
  destruct (g x) eqn:Eg.
  - rewrite (H x Eg). cbn. lia.
  - destruct (f x); cbn; lia.
Qed.

(** X20. [GetBWIndex] is minus the number of video bitrates (those
    [GetVideoBitrates] lists, I-frame tracks left out) that are above the
    given bitrate: it is 0 for a bitrate no profile exceeds, never below
    minus the number of video profiles, and it does not decrease when the
    bitrate grows. *)
Theorem GetBWIndex_counts_higher_bitrates (profiles : list HlsStreamInfo)
    (bitrate : Z) :
  GetBWIndex profiles bitrate
  = (- Z.of_nat (List.length (filter (fun b => (b >? bitrate)%Z)
                                (GetVideoBitrates profiles))))%Z
  /\ (- Z.of_nat (List.length (GetVideoBitrates profiles))
      <= GetBWIndex profiles bitrate <= 0)%Z
  /\ (forall bitrate' : Z,
        (bitrate <= bitrate')%Z ->
        (GetBWIndex profiles bitrate <= GetBWIndex profiles bitrate')%Z).
Proof.
  unfold GetBWIndex. rewrite GetBWIndex_loop_count.
  split; [lia|]. split.
  - pose proof (filter_length_le (fun b => (b >? bitrate)%Z)
                  (GetVideoBitrates profiles)). lia.
  - intros bitrate' Hle. rewrite GetBWIndex_loop_count.
    pose proof (filter_length_mono (fun b => (b >? bitrate)%Z)
                  (fun b => (b >? bitrate')%Z) (GetVideoBitrates profiles)) as H.
    assert (Hm : (List.length (filter (fun b => (b >? bitrate')%Z)
                                 (GetVideoBitrates profiles))
                  <= List.length (filter (fun b => (b >? bitrate)%Z)
                                    (GetVideoBitrates profiles)))%nat).
    { apply H. intros x Hx. apply Z.gtb_lt in Hx. apply Z.gtb_lt. lia. }
    lia.
Qed.

Section PlaylistURIFacts.
Variable MAX_LANGUAGE_TAG_LENGTH : nat.

(** A media of the group that is in the language. *)
Definition speaks (language_ : string) (media : MediaInfo) : Prop :=
  exists l, language media = Some l
            /\ same_language MAX_LANGUAGE_TAG_LENGTH language_ l = true.

Definition in_group (group : string) (media : MediaInfo) : Prop :=
  group_id media = Some group.

(** What one pass over the media finds. *)
Lemma find_audio_spec (language_ group : string) (langChecks : Z)
    (medias : list MediaInfo) :
  forall (i : nat) (found : option (nat * MediaInfo)),
    find_audio MAX_LANGUAGE_TAG_LENGTH language_ group langChecks medias i
    = Ok found ->
    let preferred media :=
      deref language_ <> NUL /\ speaks language_ media in
    let chosen media :=
      preferred media \/ (langChecks = 1%Z /\ isDefault media = true) in
    match found with
    | Some (k, media) =>
        (i <= k)%nat
        /\ nth_error medias (k - i) = Some media
        /\ in_group group media
        /\ chosen media
        /\ (forall j m, (j < k - i)%nat -> nth_error medias j = Some m ->
                        in_group group m -> ~ chosen m)
    | None =>
        forall j m, nth_error medias j = Some m -> in_group group m ->
                    ~ chosen m
    end.
Proof.
  induction medias as [|media medias IH]; intros i found H; cbn [find_audio] in H.
  - injection H as <-. cbv zeta. intros j m Hj. destruct j; discriminate.
  - assert (Skip : ~ in_group group media \/
                   (in_group group media /\
                    ~ ((deref language_ <> NUL /\ speaks language_ media)
                       \/ (langChecks = 1%Z /\ isDefault media = true))) ->
              find_audio MAX_LANGUAGE_TAG_LENGTH language_ group langChecks
                medias (S i) = Ok found ->
              match found with
              | Some (k, media0) =>
                  (i <= k)%nat
                  /\ nth_error (media :: medias) (k - i) = Some media0
                  /\ in_group group media0
                  /\ ((deref language_ <> NUL /\ speaks language_ media0)
                      \/ (langChecks = 1%Z /\ isDefault media0 = true))
                  /\ (forall j m, (j < k - i)%nat ->
                        nth_error (media :: medias) j = Some m ->
                        in_group group m ->
                        ~ ((deref language_ <> NUL /\ speaks language_ m)
                           \/ (langChecks = 1%Z /\ isDefault m = true)))
              | None =>
                  forall j m, nth_error (media :: medias) j = Some m ->
                    in_group group m ->
                    ~ ((deref language_ <> NUL /\ speaks language_ m)
                       \/ (langChecks = 1%Z /\ isDefault m = true))
              end).
    { intros Hskip H1. apply IH in H1. cbv zeta in H1.
      assert (Hhead : in_group group media ->
                ~ ((deref language_ <> NUL /\ speaks language_ media)
                   \/ (langChecks = 1%Z /\ isDefault media = true)))
        by (destruct Hskip as [Hn | [_ Hn]]; [intro; contradiction | intro; exact Hn]).
      destruct found as [[k m0]|].
      - destruct H1 as (Hk & Hn & Hg & Hc & Hb).
        split; [lia|].
        replace (k - i)%nat with (S (k - S i)) by lia.
        split; [exact Hn|]. split; [exact Hg|]. split; [exact Hc|].
        intros j m Hj Hnth. destruct j as [|j].
        + injection Hnth as <-. exact Hhead.
        + apply (Hb j m); [lia | exact Hnth].
      - intros j m Hnth. destruct j as [|j].
        + injection Hnth as <-. exact Hhead.
        + exact (H1 j m Hnth). }
    cbv zeta.
    destruct (group_id media) as [g|] eqn:Eg;
      [|apply Skip; [left; unfold in_group; rewrite Eg; discriminate | exact H]].
    destruct (String.eqb_spec group g) as [<-|Hne];
      [|apply Skip; [left; unfold in_group; rewrite Eg; congruence | exact H]].
    bind_inv H.
    assert (Hmatch : a = true <-> (deref language_ <> NUL /\ speaks language_ media)).
    { destruct (Ascii.eqb_spec (deref language_) NUL) as [Hz|Hnz]; cbn [negb] in Ha.
      - injection Ha as <-. split; [discriminate | intros [Hc _]; contradiction].
      - destruct (language media) as [l|] eqn:El; [|discriminate].
        injection Ha as <-. split.
        + intro Hs. split; [exact Hnz|]. exists l. split; [exact El | exact Hs].
        + intros [_ (l' & Hl & Hs)]. rewrite El in Hl.
          injection Hl as ->. exact Hs. }
    destruct (a || ((langChecks =? 1)%Z && isDefault media)) eqn:Ec.
    + injection H as <-. rewrite Nat.sub_diag.
      split; [lia|]. split; [reflexivity|]. split; [exact Eg|]. split.
      * apply orb_true_iff in Ec. destruct Ec as [Ec|Ec].
        -- left. apply Hmatch. exact Ec.
        -- right. apply andb_true_iff in Ec. destruct Ec as [E1 E2].
           apply Z.eqb_eq in E1. split; assumption.
      * intros j m Hj. lia.
    + apply Skip; [|exact H]. right. split; [exact Eg|].
      apply orb_false_iff in Ec. destruct Ec as [E1 E2].
      intros [Hp | [Hl Hd]].
      * apply Hmatch in Hp. congruence.
      * apply Z.eqb_eq in Hl. rewrite Hl, Hd in E2. discriminate.
Qed.

(** X21. [GetPlaylistURI] for the audio track.  With an audio group on the
    current profile, the playlist is that of the first media of that group
    in the preferred language, if the player has one and some media of the
    group is in it; otherwise that of the first media of the group flagged
    DEFAULT, and then the player's language is updated to that media's
    language ("en" if it has none); otherwise there is no playlist and no
    update.  Without an audio group there is no playlist and the language
    becomes "en", except in trick play. *)
Theorem GetPlaylistURI_audio_choice (c : Context) (choice : PlaylistChoice)
    (streamInfo_ : HlsStreamInfo) :
  GetPlaylistURI MAX_LANGUAGE_TAG_LENGTH eTRACK_AUDIO c = Ok choice ->
  at_index (streamInfo c) (currentProfileIndex c) = Some streamInfo_ ->
  match audio streamInfo_ with
  | None =>
      playlistURI choice = None
      /\ language_selected choice
         = if trickplayMode c then None else Some "en"%string
  | Some group =>
      let preferred m := deref (aamp_language c) <> NUL
                         /\ speaks (aamp_language c) m in
      (exists k media,
         nth_error (mediaInfo c) k = Some media
         /\ in_group group media /\ preferred media
         /\ (forall j m, (j < k)%nat -> nth_error (mediaInfo c) j = Some m ->
                         in_group group m -> ~ preferred m)
         /\ playlistURI choice = media_uri media
         /\ language_selected choice = None)
      \/ ((forall j m, nth_error (mediaInfo c) j = Some m ->
                       in_group group m -> ~ preferred m)
          /\ exists k media,
               nth_error (mediaInfo c) k = Some media
               /\ in_group group media /\ isDefault media = true
               /\ (forall j m, (j < k)%nat -> nth_error (mediaInfo c) j = Some m ->
                               in_group group m -> isDefault m = false)
               /\ playlistURI choice = media_uri media
               /\ language_selected choice
                  = Some match language media with
                         | Some l => l
                         | None => "en"%string
                         end)
      \/ ((forall j m, nth_error (mediaInfo c) j = Some m ->
                       in_group group m ->
                       ~ preferred m /\ isDefault m = false)
          /\ playlistURI choice = None
          /\ language_selected choice = None)
  end.
Proof.
  unfold GetPlaylistURI. intros H Hs. rewrite Hs in H.
  destruct (audio streamInfo_) as [group|].
  2:{ injection H as <-. cbn. split; [reflexivity|].
      destruct (trickplayMode c); reflexivity. }
  cbv zeta.
  assert (Last : forall (none_preferred :
              forall j m, nth_error (mediaInfo c) j = Some m ->
                in_group group m ->
                ~ (deref (aamp_language c) <> NUL /\ speaks (aamp_language c) m)),
            (found <- find_audio MAX_LANGUAGE_TAG_LENGTH (aamp_language c) group 1
                        (mediaInfo c) O ;;
             match found with
             | Some (_, media) => Ok (audio_choice streamInfo_ 1 media)
             | None => Ok {| playlistURI := None; format := None;
                             language_selected := None |}
             end) = Ok choice ->
            ((forall j m, nth_error (mediaInfo c) j = Some m ->
                in_group group m ->
                ~ (deref (aamp_language c) <> NUL /\ speaks (aamp_language c) m))
             /\ exists k media,
                  nth_error (mediaInfo c) k = Some media
                  /\ in_group group media /\ isDefault media = true
                  /\ (forall j m, (j < k)%nat ->
                        nth_error (mediaInfo c) j = Some m ->
                        in_group group m -> isDefault m = false)
                  /\ playlistURI choice = media_uri media
                  /\ language_selected choice
                     = Some match language media with
                            | Some l => l
                            | None => "en"%string
                            end)
            \/ ((forall j m, nth_error (mediaInfo c) j = Some m ->
                   in_group group m ->
                   ~ (deref (aamp_language c) <> NUL
                      /\ speaks (aamp_language c) m)
                   /\ isDefault m = false)
                /\ playlistURI choice = None
                /\ language_selected choice = None)).
  { intros Hnone H1. bind_inv H1. apply find_audio_spec in Ha. cbv zeta in Ha.
    destruct a as [[k media]|].
    - injection H1 as <-. left. split; [exact Hnone|].
      destruct Ha as (_ & Hn & Hg & Hc & Hb). rewrite Nat.sub_0_r in Hn, Hb.
      exists k, media. split; [exact Hn|]. split; [exact Hg|].
      assert (Hd : isDefault media = true).
      { destruct Hc as [Hp | [_ Hd]]; [|exact Hd].
        exfalso. exact (Hnone k media Hn Hg Hp). }
      split; [exact Hd|]. split; [|split; reflexivity].
      intros j m Hj Hnth Hgm.
      destruct (isDefault m) eqn:Em; [|reflexivity].
      exfalso. apply (Hb j m Hj Hnth Hgm). right. split; [reflexivity | exact Em].
    - injection H1 as <-. right. split; [|split; reflexivity].
      intros j m Hnth Hgm. split.
      + intro Hp. apply (Ha j m Hnth Hgm). left. exact Hp.
      + destruct (isDefault m) eqn:Em; [|reflexivity].
        exfalso. apply (Ha j m Hnth Hgm). right. split; [reflexivity | exact Em]. }
  destruct (Ascii.eqb_spec (deref (aamp_language c)) NUL) as [Hz|Hnz];
    cbn [negb] in H.
  - right. apply Last; [|exact H]. intros j m _ _ [Hc _]. contradiction.
  - bind_inv H. apply find_audio_spec in Ha. cbv zeta in Ha.
    destruct a as [[k media]|].
    + injection H as <-. left.
      destruct Ha as (_ & Hn & Hg & Hc & Hb). rewrite Nat.sub_0_r in Hn, Hb.
      exists k, media. split; [exact Hn|]. split; [exact Hg|].
      assert (Hp : deref (aamp_language c) <> NUL /\ speaks (aamp_language c) media)
        by (destruct Hc as [Hp | [Hl _]]; [exact Hp | discriminate Hl]).
      split; [exact Hp|]. split; [|split; reflexivity].
      intros j m Hj Hnth Hgm Hpm. apply (Hb j m Hj Hnth Hgm). left. exact Hpm.
    + right. apply Last; [|exact H].
      intros j m Hnth Hgm Hp. apply (Ha j m Hnth Hgm). left. exact Hp.
Qed.

End PlaylistURIFacts.

Section FormatFacts.
Local Open Scope string_scope.

(** A line the format loop passes over: empty, a tag or comment, or made
    of white space only. *)
Definition passed_over (line : string) : Prop :=
  line = EmptyString
  \/ (exists r, line = String "#" r)
  \/ forallb isspace (list_ascii_of_string line) = true.

Lemma list_ascii_of_append (a b : string) :
  list_ascii_of_string (a ++ b)
  = (list_ascii_of_string a ++ list_ascii_of_string b)%list.
Proof.
  induction a as [|c a IH]; [reflexivity|]. cbn. rewrite IH. reflexivity.
Qed.

Lemma forallb_rev {A : Type} (f : A -> bool) (l : list A) :
  forallb f (rev l) = forallb f l.
Proof.
  induction l as [|x l IH]; [reflexivity|].
  cbn [rev forallb]. rewrite forallb_app, IH. cbn. rewrite andb_true_r.
  apply andb_comm.
Qed.

Lemma strip_back_blank (l : list ascii) :
  forallb isspace l = true -> strip_back l = [].
Proof.
  induction l as [|c l IH]; [reflexivity|]. cbn. intro H.
  apply andb_true_iff in H. destruct H as [Hc Hl]. rewrite Hc. exact (IH Hl).
Qed.

Lemma strip_back_app (ws l : list ascii) :
  forallb isspace ws = true -> strip_back (ws ++ l) = strip_back l.
Proof.
  induction ws as [|c ws IH]; [reflexivity|]. cbn. intro H.
  apply andb_true_iff in H. destruct H as [Hc Hl]. rewrite Hc. exact (IH Hl).
Qed.

Lemma format_of_lines_passes_over (skipped rest : list string) :
  Forall passed_over skipped ->
  format_of_lines (skipped ++ rest) = format_of_lines rest.
Proof.
  induction 1 as [|line skipped Hline _ IH]; [reflexivity|].
  cbn [app format_of_lines].
  destruct line as [|c line]; [exact IH|].
  destruct Hline as [Hnil | [[r Hr] | Hblank]]; [discriminate | |].
  - injection Hr as -> _. cbn. exact IH.
  - destruct (negb (Ascii.eqb c "#")); [|exact IH].
    rewrite strip_back_blank; [exact IH|].
    rewrite forallb_rev. exact Hblank.
Qed.

Lemma getlines_line (line : string) :
  forall (rest acc : string),
    has_char CHAR_LF line = false ->
    getlines (line ++ String CHAR_LF rest) acc
    = (acc ++ line) :: getlines rest EmptyString.
Proof.
  induction line as [|c line IH]; intros rest acc H.
  - cbn [append getlines]. rewrite Ascii.eqb_refl. f_equal.
    induction acc as [|x acc IHa]; [reflexivity|]. cbn. rewrite <- IHa. reflexivity.
  - cbn in H. apply orb_false_iff in H. destruct H as [Hc Hl].
    cbn [append getlines]. rewrite Hc, IH by exact Hl.
    rewrite append_assoc. reflexivity.
Qed.

Lemma getlines_unlines (lines : list string) (rest : string) :
  Forall (fun line => has_char CHAR_LF line = false) lines ->
  getlines (unlines lines ++ rest) EmptyString
  = (lines ++ getlines rest EmptyString)%list.
Proof.
  induction 1 as [|line lines Hline _ IH]; [reflexivity|].
  cbn [unlines app]. rewrite append_assoc. cbn [append].
  rewrite getlines_line by exact Hline. cbn [append]. rewrite IH. reflexivity.
Qed.

Lemma before_query_app (a b : list ascii) :
  forallb (fun c => negb (Ascii.eqb c "?")) a = true ->
  before_query (a ++ "?"%char :: b) = a.
Proof.
  induction a as [|c a IH]; cbn; [reflexivity|]. intro H.
  apply andb_true_iff in H. destruct H as [Hc Ha].
  apply negb_true_iff in Hc. rewrite Hc, IH by exact Ha. reflexivity.
Qed.

Lemma before_query_none (a : list ascii) :
  forallb (fun c => negb (Ascii.eqb c "?")) a = true -> before_query a = a.
Proof.
  induction a as [|c a IH]; cbn; [reflexivity|]. intro H.
  apply andb_true_iff in H. destruct H as [Hc Ha].
  apply negb_true_iff in Hc. rewrite Hc, IH by exact Ha. reflexivity.
Qed.

Lemma extension_of_app (ext_ : list ascii) :
  forall (front acc : list ascii),
    forallb (fun c => negb (Ascii.eqb c ".")) ext_ = true ->
    extension_of (rev ext_ ++ "."%char :: front) acc
    = Some ("."%char :: ext_ ++ acc)%list.
Proof.
  induction ext_ as [|c e IH] using rev_ind; intros front acc H.
  - reflexivity.
  - rewrite forallb_app in H. apply andb_true_iff in H. destruct H as [He Hc].
    cbn in Hc. rewrite andb_true_r in Hc. apply negb_true_iff in Hc.
    rewrite rev_app_distr. cbn [rev app extension_of]. rewrite Hc.
    rewrite IH by exact He. rewrite <- app_assoc. reflexivity.
Qed.

Lemma string_of_list_ascii_app (a b : string) :
  string_of_list_ascii (list_ascii_of_string a ++ list_ascii_of_string b)
  = a ++ b.
Proof.
  rewrite <- list_ascii_of_append. apply string_of_list_ascii_of_string.
Qed.

(** The free characters of a name: every one passes [ok]. *)
Definition all_chars (ok : ascii -> bool) (s : string) : bool :=
  forallb ok (list_ascii_of_string s).

(** What the format loop makes of a fragment line [stem.ext], possibly
    followed by a query and by white space. *)
Lemma format_of_fragment_line (stem ext_ query ws : string)
    (rest : list string) :
  Ascii.eqb (deref (stem ++ ".")) "#" = false ->
  all_chars (fun c => negb (Ascii.eqb c "?")) (stem ++ "." ++ ext_) = true ->
  all_chars (fun c => negb (Ascii.eqb c ".")) ext_ = true ->
  query = EmptyString \/ (exists q, query = String "?" q) ->
  isspace (last (list_ascii_of_string (stem ++ "." ++ ext_ ++ query)) "."%char)
  = false ->
  all_chars isspace ws = true ->
  format_of_lines ((stem ++ "." ++ ext_ ++ query ++ ws) :: rest)
  = format_of_extension ("." ++ ext_).
Proof.
  intros Hfirst Hq Hdot Hquery Hlast Hws. unfold all_chars in *.
  cbn [format_of_lines].
  set (body := stem ++ "." ++ ext_ ++ query) in *.
  assert (Eline : stem ++ "." ++ ext_ ++ query ++ ws = body ++ ws).
  { subst body. rewrite ?append_assoc. cbn [append].
    rewrite ?append_assoc. reflexivity. }
  rewrite Eline.
  assert (Hbody : exists c r, body = String c r /\ Ascii.eqb c "#" = false).
  { subst body. destruct stem as [|c stem]; cbn in *; eauto. }
  destruct Hbody as (c & r & Eb & Hc).
  assert (Efirst : body ++ ws = String c (r ++ ws)) by (rewrite Eb; reflexivity).
  rewrite Efirst, Hc. cbn [negb]. rewrite <- Efirst.
  rewrite list_ascii_of_append, rev_app_distr.
  rewrite strip_back_app by (rewrite forallb_rev; exact Hws).
  assert (Hne : list_ascii_of_string body <> [])
    by (rewrite Eb; discriminate).
  destruct (exists_last Hne) as (front & x & Ex).
  rewrite Ex in Hlast. rewrite last_last in Hlast.
  rewrite Ex, rev_app_distr. cbn [rev app strip_back]. rewrite Hlast.
  rewrite rev_involutive, <- Ex.
  assert (Ecut : before_query (list_ascii_of_string body)
                 = list_ascii_of_string (stem ++ "." ++ ext_)).
  { subst body.
    replace (stem ++ "." ++ ext_ ++ query) with ((stem ++ "." ++ ext_) ++ query)
      by (rewrite ?append_assoc; cbn [append]; rewrite ?append_assoc; reflexivity).
    rewrite list_ascii_of_append.
    destruct Hquery as [-> | [q ->]].
    - cbn [list_ascii_of_string]. rewrite app_nil_r.
      apply before_query_none. exact Hq.
    - cbn [list_ascii_of_string]. apply before_query_app. exact Hq. }
  assert (Estem : list_ascii_of_string (stem ++ "." ++ ext_)
                  = (list_ascii_of_string stem
                     ++ "."%char :: list_ascii_of_string ext_)%list)
    by (rewrite list_ascii_of_append; reflexivity).
  rewrite Ecut, Estem, rev_app_distr.
  cbn [rev]. rewrite <- app_assoc. cbn [app].
  rewrite extension_of_app by exact Hdot.
  rewrite app_nil_r.
  change ("."%char :: list_ascii_of_string ext_)
    with (list_ascii_of_string ("." ++ ext_)).
  rewrite string_of_list_ascii_of_string. reflexivity.
Qed.

(** X22. [GetFormatFromFragmentExtension] decides on the first line of the
    playlist that is neither empty, nor a tag, nor blank.  For such a line
    [stem.ext], with an optional [?query] and trailing white space (a CR
    for instance), the format is that of [.ext] alone -- MPEG-TS for [.ts],
    ISO BMFF for [.mp4], AAC for [.aac], invalid for anything else --
    whatever lines come before and after. *)
Theorem GetFormatFromFragmentExtension_first_fragment_line (ts : TrackState)
    (skipped : list string) (stem ext_ query ws rest : string) :
  ptr (playlist ts)
  = Some (unlines skipped
          ++ (stem ++ "." ++ ext_ ++ query ++ ws) ++ String CHAR_LF rest) ->
  Forall (fun line => has_char CHAR_LF line = false /\ passed_over line) skipped ->
  has_char CHAR_LF (stem ++ "." ++ ext_ ++ query ++ ws) = false ->
  Ascii.eqb (deref (stem ++ ".")) "#" = false ->
  all_chars (fun c => negb (Ascii.eqb c "?")) (stem ++ "." ++ ext_) = true ->
  all_chars (fun c => negb (Ascii.eqb c ".")) ext_ = true ->
  query = EmptyString \/ (exists q, query = String "?" q) ->
  isspace (last (list_ascii_of_string (stem ++ "." ++ ext_ ++ query)) "."%char)
  = false ->
  all_chars isspace ws = true ->
  GetFormatFromFragmentExtension ts = Ok (format_of_extension ("." ++ ext_)).
Proof.
  intros Hbuf Hskipped Hline Hfirst Hq Hdot Hquery Hlast Hws.
  unfold GetFormatFromFragmentExtension. rewrite Hbuf. f_equal.
  assert (H1 : Forall (fun line => has_char CHAR_LF line = false) skipped)
    by (eapply Forall_impl; [|exact Hskipped]; intros l [Hl _]; exact Hl).
  assert (H2 : Forall passed_over skipped)
    by (eapply Forall_impl; [|exact Hskipped]; intros l [_ Hl]; exact Hl).
  rewrite getlines_unlines by exact H1.
  rewrite getlines_line by exact Hline. cbn [append].
  rewrite format_of_lines_passes_over by exact H2.
  apply format_of_fragment_line; assumption.
Qed.

End FormatFacts.

End ManifestFacts.
(** ** The playlist walk: the fragment it stops at
       (TrackState::GetNextFragmentUriFromPlaylist) *)






Section WalkFacts.
Context {ext : Externals}.
Variable playlist_indexed : nat -> World -> World.

Local Open Scope Q_scope.


























End WalkFacts.
(** ** Pairing a discontinuity with the other track
       (TrackState::HasDiscontinuityAroundPosition) *)

Local Open Scope Q_scope.


Section MatcherFacts.
Context {ext : Externals}.
Variable playlist_indexed : nat -> World -> World.



End MatcherFacts.
(** ** Which licenses are asked for (TrackState::ProcessDrmMetadata) *)

Section DrmFacts.
Context {ext : Externals}.

Lemma events_emit (e : Event) (w : World) : events (emit e w) = (events w ++ [e])%list.
Proof. reflexivity. Qed.

(** Without a current hash every node is set, in order. *)
Lemma ProcessDrmMetadata_loop_no_hash (only : bool)
    (nodes : list DrmMetadataNode) :
  forall (i : nat) (found : option Z) (w : World),
    let r := ProcessDrmMetadata_loop only None nodes i found w in
    fst r = found
    /\ events (snd r)
       = (events w ++ map SetMetadata (seq i (List.length nodes)))%list
    /\ forall t, trackState (snd r) t = trackState w t.
Proof.
  induction nodes as [|node nodes IH]; intros i found w; cbv zeta.
  - cbn. rewrite app_nil_r. repeat split; reflexivity.
  - cbn [ProcessDrmMetadata_loop].
    destruct (IH (S i) found (emit (SetMetadata i) w)) as (Hf & He & Ht).
    split; [exact Hf|]. split.
    + rewrite He, events_emit, <- app_assoc. reflexivity.
    + intro t. rewrite Ht. apply trackState_emit.
Qed.

(** Once the current node is found, no other node is set when only the
    current license is wanted. *)
Lemma ProcessDrmMetadata_loop_found (h : string) (nodes : list DrmMetadataNode) :
  forall (i : nat) (j : Z) (w : World),
    ProcessDrmMetadata_loop true (Some h) nodes i (Some j) w = (Some j, w).
Proof.
  induction nodes as [|node nodes IH]; intros i j w; [reflexivity|].
  cbn [ProcessDrmMetadata_loop]. apply IH.
Qed.

Lemma ProcessDrmMetadata_loop_current (h : string)
    (nodes : list DrmMetadataNode) :
  forall (i : nat) (w : World),
    (exists k node,
        nth_error nodes k = Some node
        /\ h = first_chars DRM_SHA1_HASH_LEN (sha1Hash node)
        /\ (forall j node', (j < k)%nat -> nth_error nodes j = Some node' ->
                            h <> first_chars DRM_SHA1_HASH_LEN (sha1Hash node'))
        /\ ProcessDrmMetadata_loop true (Some h) nodes i None w
           = (Some (Z.of_nat (i + k)), emit (SetMetadata (i + k)) w))
    \/ ((forall node, In node nodes ->
                      h <> first_chars DRM_SHA1_HASH_LEN (sha1Hash node))
        /\ ProcessDrmMetadata_loop true (Some h) nodes i None w = (None, w)).
Proof.
  induction nodes as [|node nodes IH]; intros i w.
  - right. split; [intros node [] | reflexivity].
  - cbn [ProcessDrmMetadata_loop].
    destruct (String.eqb_spec h (first_chars DRM_SHA1_HASH_LEN (sha1Hash node)))
      as [E|E].
    + left. exists 0%nat, node. split; [reflexivity|]. split; [exact E|].
      split; [intros j node' Hj; lia|].
      rewrite ProcessDrmMetadata_loop_found, Nat.add_0_r. reflexivity.
    + destruct (IH (S i) w) as [(k & node' & Hk & Hh & Hb & Hr) | [Hall Hr]].
      * left. exists (S k), node'. split; [exact Hk|]. split; [exact Hh|].
        split.
        -- intros [|j] node'' Hj Hnth.
           ++ injection Hnth as <-. exact E.
           ++ apply (Hb j node''); [lia | exact Hnth].
        -- rewrite Hr. replace (i + S k)%nat with (S i + k)%nat by lia.
           reflexivity.
      * right. split; [|exact Hr].
        intros node' [<-|Hin]; [exact E | exact (Hall node' Hin)].
Qed.

(** X25. [ProcessDrmMetadata].  Without license rotation ([mCMSha1Hash]
    NULL) the metadata of every node is set, in index order, and nothing of
    the track changes but [mDrmLicenseRequestPending], which is cleared.
    With a current hash and [acquireCurrentLicenseOnly], the metadata of the
    first node with that hash is set and of no other node, and
    [mDrmMetaDataIndexPosition] becomes that node; when no node has the
    hash, no metadata is set, the position stays and
    AAMP_TUNE_INVALID_MANIFEST_FAILURE is sent.  A license request is left
    pending exactly when there is more than one node. *)
Theorem ProcessDrmMetadata_sets_current_license (t : TrackType) (w : World) :
  let ts := trackState w t in
  let nodes := mDrmMetaDataIndex ts in
  match mCMSha1Hash ts with
  | None =>
      forall acquireCurrentLicenseOnly : bool,
        let w' := ProcessDrmMetadata t acquireCurrentLicenseOnly w in
        events w'
        = (events w ++ map SetMetadata (seq 0 (List.length nodes)))%list
        /\ trackState w' t = set_mDrmLicenseRequestPending false ts
  | Some h =>
      let w' := ProcessDrmMetadata t true w in
      let ts' := trackState w' t in
      mDrmLicenseRequestPending ts' = (mDrmMetaDataIndexCount ts >? 1)%Z
      /\ ((exists k node,
              nth_error nodes k = Some node
              /\ h = first_chars DRM_SHA1_HASH_LEN (sha1Hash node)
              /\ (forall j node', (j < k)%nat ->
                    nth_error nodes j = Some node' ->
                    h <> first_chars DRM_SHA1_HASH_LEN (sha1Hash node'))
              /\ events w' = (events w ++ [SetMetadata k])%list
              /\ mDrmMetaDataIndexPosition ts' = Z.of_nat k)
          \/ ((forall node, In node nodes ->
                 h <> first_chars DRM_SHA1_HASH_LEN (sha1Hash node))
              /\ events w'
                 = (events w
                    ++ [SendErrorEvent AAMP_TUNE_INVALID_MANIFEST_FAILURE])%list
              /\ mDrmMetaDataIndexPosition ts'
                 = mDrmMetaDataIndexPosition ts))
  end.
Proof.
  cbv zeta. unfold ProcessDrmMetadata.
  destruct (mCMSha1Hash (trackState w t)) as [h|] eqn:Eh.
  - destruct (ProcessDrmMetadata_loop_current h
                (mDrmMetaDataIndex (trackState w t)) 0 w)
      as [(k & node & Hk & Hh & Hb & Hr) | [Hall Hr]]; rewrite Hr.
    + split; [destruct t; reflexivity|]. left.
      exists k, node. split; [exact Hk|]. split; [exact Hh|].
      split; [exact Hb|]. split; destruct t; reflexivity.
    + split; [destruct t; reflexivity|]. right.
      split; [exact Hall|]. split; destruct t; reflexivity.
  - intro only.
    destruct (ProcessDrmMetadata_loop_no_hash only
                (mDrmMetaDataIndex (trackState w t)) 0 None w)
      as (Hf & He & Ht).
    destruct (ProcessDrmMetadata_loop only None _ 0 None w) as [found w1].
    cbn [fst snd] in Hf, He, Ht. subst found.
    split.
    + rewrite <- He. destruct t; reflexivity.
    + rewrite trackState_on_track, Ht. reflexivity.
Qed.

End DrmFacts.
(** ** Where a refresh that brings data leaves the cursor
       (TrackState::RefreshPlaylist) *)



Section RefreshCursor.
Context {ext : Externals}.




















End RefreshCursor.
(** * Worked examples

    The statements above at concrete playlists, run with the sample
    externals. *)

Module Examples.

#[local] Existing Instance Sample.externals.

(** A live media playlist: four fragments from sequence number 10 on, a
    discontinuity before the third. *)
Definition media_playlist : string :=
  unlines ["#EXTM3U"; "#EXT-X-TARGETDURATION:6"; "#EXT-X-MEDIA-SEQUENCE:10";
           "#EXTINF:6,"; "a.ts"; "#EXTINF:6,"; "b.ts";
           "#EXT-X-DISCONTINUITY";
           "#EXTINF:4.5,"; "c.ts"; "#EXTINF:6,"; "d.ts"]%string.

(** An audio playlist with shorter fragments and its discontinuity before
    the fourth. *)
Definition audio_playlist : string :=
  unlines ["#EXTM3U"; "#EXT-X-TARGETDURATION:4"; "#EXT-X-MEDIA-SEQUENCE:10";
           "#EXTINF:4,"; "a.aac"; "#EXTINF:4,"; "b.aac"; "#EXTINF:4,"; "c.aac";
           "#EXT-X-DISCONTINUITY";
           "#EXTINF:4,"; "d.aac"; "#EXTINF:4,"; "e.aac"]%string.

Definition tuned : World :=
  on_track eTRACK_AUDIO (set_playlist (buffer_of audio_playlist))
    (on_track eTRACK_VIDEO (set_playlist (buffer_of media_playlist))
       (new_World 1)).

Definition or_else {A : Type} (r : res A) (default : A) : A :=
  match r with
  | Ok a => a
  | Undefined => default
  end.

(** Both playlists indexed, audio first as [Init] does. *)
Definition indexed_audio : World := or_else (IndexPlaylist eTRACK_AUDIO tuned) tuned.
Definition indexed : World :=
  or_else (IndexPlaylist eTRACK_VIDEO indexed_audio) indexed_audio.

(** The video play target moved into the second period. *)
Definition in_second_period : World :=
  on_track eTRACK_VIDEO (set_playTarget 20) indexed.

Definition failed_download : Download :=
  {| downloaded := no_buffer; http_error := 404; aamp_GetCurrentTimeMS := 1000 |}.

Lemma RefreshPlaylist_failed_download_witness :
  exists w',
    RefreshPlaylist eTRACK_VIDEO failed_download indexed = Ok w'
    /\ playlist (trackState w' eTRACK_VIDEO)
       = playlist (trackState indexed eTRACK_VIDEO)
    /\ index (trackState w' eTRACK_VIDEO) = index (trackState indexed eTRACK_VIDEO)
    /\ playTarget (trackState w' eTRACK_VIDEO)
       = playTarget (trackState indexed eTRACK_VIDEO)
    /\ mCulledSeconds (trackState w' eTRACK_VIDEO)
       == mCulledSeconds (trackState indexed eTRACK_VIDEO).
Proof.
  destruct (RefreshPlaylist_failed_download eTRACK_VIDEO failed_download indexed
              media_playlist eq_refl eq_refl)
    as (w' & H & Hp & Hi & _ & _ & _ & _ & _ & _ & _ & Ht & _ & Hc & _).
  exists w'. repeat split; assumption.
Defined.

Definition sample_fields : list (string * string) :=
  [("METHOD", "AES-128"); ("URI", quoted "a,b"); ("IV", "0x12")]%string.

Lemma ParseAttrList_parses_rendered_fields_witness :
  Forall well_formed_field sample_fields
  /\ AttrList.fields (render sample_fields) = AttrList.Returned sample_fields.
Proof.
  assert (H : Forall well_formed_field sample_fields).
  { constructor; [split; [reflexivity | left; reflexivity]|].
    constructor;
      [split; [reflexivity | right; exists "a,b"%string; split; reflexivity]|].
    constructor; [split; [reflexivity | left; reflexivity]|].
    constructor. }
  split; [exact H | exact (ParseAttrList_parses_rendered_fields sample_fields H)].
Defined.

Lemma IndexPlaylist_duration_is_last_completion_witness :
  IndexPlaylist eTRACK_VIDEO indexed_audio = Ok indexed
  /\ mDuration (trackState indexed eTRACK_VIDEO) = 45 # 2.
Proof.
  assert (H : IndexPlaylist eTRACK_VIDEO indexed_audio = Ok indexed)
    by (vm_compute; reflexivity).
  split; [exact H|].
  rewrite (proj1 (IndexPlaylist_duration_is_last_completion
                    eTRACK_VIDEO indexed_audio indexed H)).
  vm_compute. reflexivity.
Defined.

Lemma IndexPlaylist_discontinuities_in_index_witness :
  IndexPlaylist eTRACK_VIDEO indexed_audio = Ok indexed
  /\ exists d,
       nth_error (mDiscontinuityIndex (trackState indexed eTRACK_VIDEO)) 0 = Some d
       /\ (1 <= fragmentIdx d < indexCount (trackState indexed eTRACK_VIDEO))%Z
       /\ exists before,
            at_index (index (trackState indexed eTRACK_VIDEO)) (fragmentIdx d - 1)
            = Some before
            /\ position d = completionTimeSecondsFromStart before.
Proof.
  assert (H : IndexPlaylist eTRACK_VIDEO indexed_audio = Ok indexed)
    by (vm_compute; reflexivity).
  split; [exact H|].
  exists {| fragmentIdx := 2; position := 12; programDateTime := None |}.
  assert (Hd : nth_error (mDiscontinuityIndex (trackState indexed eTRACK_VIDEO)) 0
               = Some {| fragmentIdx := 2; position := 12;
                         programDateTime := None |})
    by (vm_compute; reflexivity).
  split; [exact Hd|].
  destruct (IndexPlaylist_discontinuities_in_index eTRACK_VIDEO indexed_audio
              indexed 0 _ H Hd) as (Hb & Hbefore & _).
  split; [exact Hb | exact Hbefore].
Defined.

Lemma IndexPlaylist_completion_times_nondecreasing_witness :
  exists a b,
    nth_error (index (trackState indexed eTRACK_VIDEO)) 1 = Some a
    /\ nth_error (index (trackState indexed eTRACK_VIDEO)) 2 = Some b
    /\ 0 <= completionTimeSecondsFromStart a
    /\ completionTimeSecondsFromStart a <= completionTimeSecondsFromStart b.
Proof.
  destruct (nth_error (index (trackState indexed eTRACK_VIDEO)) 1) as [a|] eqn:Ea;
    [|vm_compute in Ea; discriminate Ea].
  destruct (nth_error (index (trackState indexed eTRACK_VIDEO)) 2) as [b|] eqn:Eb;
    [|vm_compute in Eb; discriminate Eb].
  exists a, b. split; [reflexivity|]. split; [reflexivity|].
  apply (IndexPlaylist_completion_times_nondecreasing eTRACK_VIDEO indexed_audio
           indexed media_playlist 1 2 a b).
  - vm_compute. reflexivity.
  - vm_compute. reflexivity.
  - vm_compute. reflexivity.
  - lia.
  - exact Ea.
  - exact Eb.
Defined.

Lemma GetNextFragmentPeriodInfo_names_period_witness :
  GetNextFragmentPeriodInfo (trackState in_second_period eTRACK_VIDEO)
    in_second_period = Ok (0%Z, (33 # 2) - 12)
  /\ exists (idx : nat) (before : IndexNode),
       nth_error (index (trackState in_second_period eTRACK_VIDEO)) idx = Some before
       /\ GetPeriodStartPosition (trackState in_second_period eTRACK_VIDEO) 0
          + ((33 # 2) - 12)
          == completionTimeSecondsFromStart before.
Proof.
  assert (H : GetNextFragmentPeriodInfo
                (trackState in_second_period eTRACK_VIDEO) in_second_period
              = Ok (0%Z, (33 # 2) - 12)) by (vm_compute; reflexivity).
  split; [exact H|].
  destruct (GetNextFragmentPeriodInfo_names_period _ _ _ _ H)
    as (idx & before & period & _ & Hb & _ & _ & _ & Ho); [lia|].
  exists idx, before. split; [exact Hb | exact Ho].
Defined.

Lemma SyncTracksForDiscontinuity_outcome_witness :
  exists w',
    SyncTracksForDiscontinuity in_second_period = Ok (w', eAAMPSTATUS_OK)
    /\ trackState w' eTRACK_VIDEO = trackState in_second_period eTRACK_VIDEO
    /\ playTarget (trackState w' eTRACK_AUDIO) == 33 # 2.
Proof.
  destruct (SyncTracksForDiscontinuity in_second_period) as [[w' status]|] eqn:E;
    [|vm_compute in E; discriminate E].
  assert (Es : status = eAAMPSTATUS_OK).
  { apply (f_equal (fun r => match r with Ok (_, s) => s | Undefined => status end))
      in E.
    vm_compute in E. symmetry. exact E. }
  subst status. exists w'. split; [reflexivity|].
  destruct (SyncTracksForDiscontinuity_outcome _ _ _ E) as [Hv _].
  split; [exact Hv|].
  apply (f_equal (fun r => match r with
                           | Ok (w, _) => playTarget (trackState w eTRACK_AUDIO)
                           | Undefined => 0
                           end)) in E.
  cbn beta iota in E. rewrite <- E. vm_compute. reflexivity.
Defined.

Lemma GetCompletionTimeForFragment_monotone_witness :
  0 <= GetCompletionTimeForFragment (trackState indexed eTRACK_VIDEO) 9
  /\ GetCompletionTimeForFragment (trackState indexed eTRACK_VIDEO) 9
     <= GetCompletionTimeForFragment (trackState indexed eTRACK_VIDEO) 12.
Proof.
  apply GetCompletionTimeForFragment_monotone.
  - apply (IndexPlaylist_nondecreasing eTRACK_VIDEO indexed_audio indexed
             media_playlist); vm_compute; reflexivity.
  - vm_compute. discriminate.
  - lia.
  - vm_compute. reflexivity.
Defined.

Definition timed_out : Download :=
  {| downloaded := no_buffer; http_error := CURLE_OPERATION_TIMEDOUT;
     aamp_GetCurrentTimeMS := 1000 |}.

Lemma RefreshPlaylist_network_down_witness :
  exists w',
    RefreshPlaylist eTRACK_VIDEO timed_out indexed = Ok w'
    /\ mNetworkDownDetected w' = true
    /\ manifestDLFailCount (trackState w' eTRACK_VIDEO)
       = manifestDLFailCount (trackState indexed eTRACK_VIDEO)
    /\ events w' = events indexed.
Proof.
  destruct (RefreshPlaylist_network_down eTRACK_VIDEO timed_out indexed
              eq_refl eq_refl (or_introl eq_refl))
    as (w' & H & Hn & Hc & _ & _ & _ & He & _).
  exists w'. repeat split; assumption.
Defined.

Lemma RefreshPlaylist_counts_failure_witness :
  exists w',
    RefreshPlaylist eTRACK_VIDEO failed_download indexed = Ok w'
    /\ manifestDLFailCount (trackState w' eTRACK_VIDEO) = 1%Z
    /\ mNetworkDownDetected w' = false.
Proof.
  destruct (RefreshPlaylist_counts_failure eTRACK_VIDEO failed_download indexed
              eq_refl eq_refl)
    as (w' & H & Hc & Hn & _); [discriminate | discriminate |].
  exists w'. split; [exact H|]. split; [exact Hc | exact Hn].
Defined.

(** [w] in trick play at [rate_], with I-frame track 1. *)
Definition in_trick_play (rate_ : Q) (w : World) : World :=
  {| video := video w; audio := audio w; playlistType := playlistType w;
     hasEndListTag := hasEndListTag w;
     rate := rate_; trickplayMode := true;
     mTrickPlayFPS := 4; iframeTrack := 1;
     allowsCache := allowsCache w; mNumberOfTracks := mNumberOfTracks w;
     mNetworkDownDetected := mNetworkDownDetected w;
     currentProfileIndex := currentProfileIndex w;
     lastSelectedProfileIndex := lastSelectedProfileIndex w;
     mCheckForRampdown := mCheckForRampdown w;
     firstFragmentDecrypted := firstFragmentDecrypted w;
     mIsAtLivePoint := mIsAtLivePoint w; mTuneType := mTuneType w;
     seekPosition := seekPosition w;
     isLive := false; mLiveOffset := mLiveOffset w;
     mEnableCache := mEnableCache w;
     downloadsEnabled := downloadsEnabled w; tsbSupported := tsbSupported w;
     inProgressCDVR := inProgressCDVR w;
     durationSeconds := durationSeconds w; culledSeconds := culledSeconds w;
     events := events w;
     gDeferredDrmMetaDataSha1Hash := gDeferredDrmMetaDataSha1Hash w;
     gDeferredDrmLicRequestPending := gDeferredDrmLicRequestPending w;
     gDeferredDrmLicTagUnderProcessing := gDeferredDrmLicTagUnderProcessing w |}.

(** Fast forward at 4x from 7 s. *)
Definition fast_forward : World :=
  in_trick_play 4
    (on_track eTRACK_VIDEO
       (fun ts => set_fragmentURI (Some (PlaylistLine 0)) (set_playTarget 7 ts))
       indexed).

(** No playlist is refreshed behind the walk's back. *)
Definition no_refresh : nat -> World -> World := fun _ w => w.

(** The video track after the fragments numbered 10 and 11. *)
Definition playing : World :=
  on_track eTRACK_VIDEO (set_nextMediaSequenceNumber 12%Z) indexed.

(** The same fast forward once [FindMediaForSequenceNumber] has gone
    through the buffer up to the line of [b.ts], cutting the lines on its
    way. *)
Definition fast_forward_in_cut_buffer : World :=
  match FindMediaForSequenceNumber eTRACK_VIDEO playing with
  | Ok (w, rc) =>
      in_trick_play 4
        (on_track eTRACK_VIDEO
           (fun ts => set_fragmentURI rc (set_playTarget 7 ts)) w)
  | Undefined => playing
  end.

(** In the buffer as it was indexed the node of [b.ts] gives [b.ts]; in
    the cut buffer the same node gives [c.ts], the line after the first LF
    left after the tag of the node. *)
Lemma GetFragmentUriFromIndex_selects_first_witness :
  (exists w',
     GetFragmentUriFromIndex eTRACK_VIDEO fast_forward
     = Ok (w', Some (FromIndex "b.ts"))
     /\ currentIdx (trackState w' eTRACK_VIDEO) = 1%Z
     /\ playlist (trackState w' eTRACK_VIDEO)
        = playlist (trackState fast_forward eTRACK_VIDEO))
  /\ (exists w',
        GetFragmentUriFromIndex eTRACK_VIDEO fast_forward_in_cut_buffer
        = Ok (w', Some (FromIndex "c.ts"))
        /\ currentIdx (trackState w' eTRACK_VIDEO) = 1%Z
        /\ playlist (trackState w' eTRACK_VIDEO)
           = playlist (trackState fast_forward_in_cut_buffer eTRACK_VIDEO)).
Proof.
  assert (Run : forall (w : World) (name : string),
            (match GetFragmentUriFromIndex eTRACK_VIDEO w with
             | Ok (x, rc) => (rc, currentIdx (trackState x eTRACK_VIDEO))
             | Undefined => (None, 0%Z)
             end) = (Some (FromIndex name), 1%Z) ->
            exists w',
              GetFragmentUriFromIndex eTRACK_VIDEO w
              = Ok (w', Some (FromIndex name))
              /\ currentIdx (trackState w' eTRACK_VIDEO) = 1%Z
              /\ playlist (trackState w' eTRACK_VIDEO)
                 = playlist (trackState w eTRACK_VIDEO)).
  { intros w name R.
    destruct (GetFragmentUriFromIndex eTRACK_VIDEO w) as [[w' rc]|] eqn:E;
      [|discriminate R].
    injection R as -> Hc. exists w'. split; [reflexivity|].
    split; [exact Hc|].
    destruct (GetFragmentUriFromIndex_selects_first _ _ _ _ E)
      as (_ & _ & _ & _ & Hb).
    exact Hb. }
  split; apply Run; vm_compute; reflexivity.
Defined.

(** Rewind at 4x from 7 s: the fragment that ends at 6 s is found and the
    play target is stepped by one second. *)
Definition rewinding_from_7 : World :=
  in_trick_play (-4)
    (on_track eTRACK_VIDEO
       (fun ts => set_fragmentURI (Some (PlaylistLine 0)) (set_playTarget 7 ts))
       indexed).

Lemma trick_play_steps_play_target_witness :
  exists w',
    choose_fragment no_refresh eTRACK_VIDEO rewinding_from_7 = Ok w'
    /\ fragmentURI (trackState w' eTRACK_VIDEO) = Some (FromIndex "a.ts")
    /\ playTarget (trackState w' eTRACK_VIDEO) == 6.
Proof.
  destruct (choose_fragment no_refresh eTRACK_VIDEO rewinding_from_7)
    as [w'|] eqn:E; [|vm_compute in E; discriminate E].
  assert (Hu : fragmentURI (trackState w' eTRACK_VIDEO)
               = Some (FromIndex "a.ts")).
  { apply (f_equal (fun r => match r with
                             | Ok x => fragmentURI (trackState x eTRACK_VIDEO)
                             | Undefined => None
                             end)) in E.
    cbn beta iota in E. rewrite <- E. vm_compute. reflexivity. }
  exists w'. split; [reflexivity|]. split; [exact Hu|].
  destruct (trick_play_steps_play_target no_refresh eTRACK_VIDEO
              rewinding_from_7 w')
    as (_ & _ & _ & Hstep); [reflexivity | discriminate | exact E |].
  cbv zeta in Hstep.
  destruct Hstep as [Hstep _].
  - vm_compute. reflexivity.
  - rewrite Hu. discriminate.
  - vm_compute. discriminate.
  - rewrite Hstep; [vm_compute; reflexivity|].
    vm_compute. reflexivity.
Defined.

Lemma IndexPlaylist_keeps_cursor_witness :
  IndexPlaylist eTRACK_VIDEO indexed_audio = Ok indexed
  /\ playTarget (trackState indexed eTRACK_VIDEO)
     = playTarget (trackState indexed_audio eTRACK_VIDEO)
  /\ trackState indexed eTRACK_AUDIO = trackState indexed_audio eTRACK_AUDIO.
Proof.
  assert (H : IndexPlaylist eTRACK_VIDEO indexed_audio = Ok indexed)
    by (vm_compute; reflexivity).
  split; [exact H|].
  destruct (IndexPlaylist_keeps_cursor eTRACK_VIDEO indexed_audio indexed H)
    as (_ & _ & Hp & _ & _ & _ & Ho).
  split; [exact Hp | exact Ho].
Defined.



(** The refreshed playlist no longer has the fragment the track was at:
    the track wants sequence number 5, the playlist starts at 10. *)
Definition behind_window : World :=
  on_track eTRACK_VIDEO (set_nextMediaSequenceNumber 6%Z) indexed.

Lemma FindMediaForSequenceNumber_finds_sequence_number_witness :
  exists w',
    FindMediaForSequenceNumber eTRACK_VIDEO behind_window
    = Ok (w', Some (PlaylistLine 4))
    /\ nextMediaSequenceNumber (trackState w' eTRACK_VIDEO) = 11%Z.
Proof.
  destruct (FindMediaForSequenceNumber eTRACK_VIDEO behind_window)
    as [[w' rc]|] eqn:E; [|vm_compute in E; discriminate E].
  assert (Erc : rc = Some (PlaylistLine 4)).
  { apply (f_equal (fun r => match r with Ok (_, x) => x | Undefined => rc end))
      in E.
    vm_compute in E. symmetry. exact E. }
  subst rc. exists w'. split; [reflexivity|].
  pose proof (FindMediaForSequenceNumber_finds_sequence_number eTRACK_VIDEO
                behind_window w' _ media_playlist eq_refl E) as H.
  cbv zeta in H. destruct H as (s & Hs & _ & _ & Hn).
  vm_compute in Hs. injection Hs as <-. lia.
Defined.

(** A master playlist with one profile and two renditions of its audio
    group; the player prefers Spanish. *)
Definition spanish_viewer : Manifest.Context :=
  {| Manifest.streamInfo :=
       [{| Manifest.uri := Some "video.m3u8"%string;
           Manifest.bandwidthBitsPerSecond := 2000000;
           Manifest.audio := Some "aud"%string;
           Manifest.codecs := Some "avc1.4d401f,mp4a.40.2"%string;
           Manifest.isIframeTrack := false |}];
     Manifest.mediaInfo :=
       [{| Manifest.group_id := Some "aud"%string;
           Manifest.language := Some "en"%string;
           Manifest.isDefault := true;
           Manifest.media_uri := Some "audio_en.m3u8"%string |};
        {| Manifest.group_id := Some "aud"%string;
           Manifest.language := Some "es"%string;
           Manifest.isDefault := false;
           Manifest.media_uri := Some "audio_es.m3u8"%string |}];
     Manifest.currentProfileIndex := 0;
     Manifest.trickplayMode := false;
     Manifest.aamp_language := "es" |}.

Lemma GetPlaylistURI_audio_choice_witness :
  exists choice,
    Manifest.GetPlaylistURI 42 eTRACK_AUDIO spanish_viewer = Ok choice
    /\ Manifest.playlistURI choice = Some "audio_es.m3u8"%string
    /\ Manifest.language_selected choice = None.
Proof.
  destruct (Manifest.GetPlaylistURI 42 eTRACK_AUDIO spanish_viewer)
    as [choice|] eqn:E; [|vm_compute in E; discriminate E].
  exists choice. split; [reflexivity|].
  pose proof (ManifestFacts.GetPlaylistURI_audio_choice 42 spanish_viewer choice
                _ E eq_refl) as H.
  cbn [Manifest.audio] in H. cbv zeta in H.
  assert (Hes : forall m,
            nth_error (Manifest.mediaInfo spanish_viewer) 1 = Some m ->
            deref (Manifest.aamp_language spanish_viewer) <> NUL
            /\ ManifestFacts.speaks 42 (Manifest.aamp_language spanish_viewer) m).
  { intros m [= <-]. split; [discriminate|].
    exists "es"%string. split; reflexivity. }
  destruct H as [(k & media & Hn & _ & Hp & _ & Hu & Hl)
                | [(Hnone & _) | (Hnone & _)]].
  - split; [|exact Hl]. rewrite Hu.
    destruct k as [|[|k]].
    + injection Hn as <-. destruct Hp as [_ (l & [= <-] & Hs)]. discriminate Hs.
    + injection Hn as <-. reflexivity.
    + destruct k; discriminate Hn.
  - exfalso. exact (Hnone 1%nat _ eq_refl eq_refl (Hes _ eq_refl)).
  - exfalso. exact (proj1 (Hnone 1%nat _ eq_refl eq_refl) (Hes _ eq_refl)).
Defined.

(** A playlist with CR LF line ends and a query on its fragment names. *)
Definition cr_lf_playlist : string :=
  unlines [String "#" ("EXTM3U" ++ String CHAR_CR EmptyString);
           String "#" ("EXTINF:6," ++ String CHAR_CR EmptyString)]%string
  ++ ("seg1" ++ "." ++ "ts" ++ "?token=a.b" ++ String CHAR_CR EmptyString)
  ++ String CHAR_LF (unlines ["#EXTINF:6,"; "seg2.ts"])%string.

Lemma GetFormatFromFragmentExtension_first_fragment_line_witness :
  Manifest.GetFormatFromFragmentExtension
    (set_playlist (buffer_of cr_lf_playlist) (new_TrackState eTRACK_VIDEO true))
  = Ok Manifest.FORMAT_MPEGTS.
Proof.
  apply (ManifestFacts.GetFormatFromFragmentExtension_first_fragment_line
           (set_playlist (buffer_of cr_lf_playlist)
              (new_TrackState eTRACK_VIDEO true))
           [String "#" ("EXTM3U" ++ String CHAR_CR EmptyString);
            String "#" ("EXTINF:6," ++ String CHAR_CR EmptyString)]%string
           "seg1" "ts" "?token=a.b" (String CHAR_CR EmptyString)
           (unlines ["#EXTINF:6,"; "seg2.ts"])%string).
  - reflexivity.
  - constructor; [split; [reflexivity | right; left; eexists; reflexivity]|].
    constructor; [split; [reflexivity | right; left; eexists; reflexivity]|].
    constructor.
  - reflexivity.
  - reflexivity.
  - reflexivity.
  - reflexivity.
  - right. eexists. reflexivity.
  - reflexivity.
  - reflexivity.
Defined.









(** The second tier, less the time elapsed. *)
Lemma refresh_delay_by_buffer_witness :
  Cadence.minDelayBetweenPlaylistUpdates Cadence.two_seconds_later
  = Ok (Some 1000%Z).
Proof.
  destruct (refresh_delay_by_buffer Cadence.two_seconds_later 108000)
    as (_ & H2 & _);
    [discriminate | reflexivity | reflexivity | reflexivity | reflexivity |].
  exact (H2 3000%Z eq_refl eq_refl eq_refl eq_refl eq_refl).
Defined.

End Examples.
